(* ===== verification/_CoqProject ===== *)
-Q . S2P
Prelude.v
Error.v
Bpf.v
Vm.v
Optimizer.v
OptimizerCorrect.v
DedupCorrect.v
Text.v
Net.v
Ast.v
Lexer.v
LexerSound.v
LexerRoundtrip.v
Parser.v
ParserSound.v
ParserRuns.v
ParserRoundtrip.v
Facts.v
Bytes.v
Tap.v
Display.v
Ring.v
RingSound.v
RingFifo.v
RingLayout.v
Sys.v
Codegen.v
Compile.v
Ebpf.v
EbpfVm.v
EbpfCodegen.v
Sem.v
Needs.v
Fields.v
EbpfSem.v
EbpfLogic.v
EbpfEmit.v
EbpfRules.v
EbpfPrims.v
EbpfPorts.v
EbpfBytes.v
EbpfCorrect.v
Segment.v
Line.v
Emit.v
EmitChecks.v
EmitPrims.v
EmitPorts.v
EmitAddrs.v
EmitAll.v
EmitBytes.v
CompileCorrect.v
CompileSound.v
Targets.v
Lib.v
Files.v
FilesSound.v
FilesRoundtrip.v
PcapMini.v
LinuxLive.v
LinuxSound.v
Capture.v
CaptureSound.v
MacLive.v
MacSound.v
WindowsLive.v
Defects.v
EbpfDefects.v
