(* ===== verification/Prelude.v ===== *)
(** * A verified model of pktbaffle and pkttap

    pktbaffle compiles libpcap-style filter expressions ([tcp port 80 and not
    host 10.0.0.1]) to classic BPF, run by the kernel or by its own interpreter,
    and to extended BPF for XDP. pkttap captures packets with such filters, from
    interfaces and from capture files, and writes such files. The library models
    both crates (src/pktbaffle, src/pkttap) and proves what they promise.

    ** pktbaffle: the pipeline and the files that model it

    - text to tokens, lexer.rs: [Text] and [Net] hold what the code uses of the
      Rust standard library (byte classes, number parsing, IP addresses);
      [Lexer] has one definition per function of lexer.rs, the position being
      the offset together with the rest of the source. [LexerSound] shows that
      it returns on every string and what its tokens satisfy, [LexerRoundtrip]
      that printed tokens are read back.
    - tokens to a tree, parser.rs and ast.rs: [Ast] (the data, and the Clone,
      PartialEq, Drop and Debug implementations with their explicit stacks),
      [Parser] (a state monad over the token cursor; the stack of suspended
      levels of parse_expr; recursive descent below). [ParserSound] shows that it
      returns and gives well-formed trees; [ParserRuns] and [ParserRoundtrip]
      that every canonical tree is read back from its text.
    - a tree to classic BPF, codegen.rs: [Facts] (path facts, protocol sets and
      the memoised analysis of required guards), [Codegen] (compiler state, jump
      patching, one definition per primitive), [Compile] (the work-stack walk,
      OR hoisting, compile). The instructions are those of [Bpf] (bpf.rs).
    - classic BPF to shorter classic BPF, optimizer.rs: [Optimizer];
      [OptimizerCorrect] and [DedupCorrect] show that the passes preserve the
      outcome of the interpreter.
    - running classic BPF, vm.rs: [Vm], with its termination and the invariant
      of its registers.
    - a tree to extended BPF, ebpf_codegen.rs: [EbpfCodegen] over the
      instructions of [Ebpf] (ebpf.rs), run by [EbpfVm], the interpreter of the
      repository's tests (tests/common/ebpf_interp.rs).
    - lib.rs: [Lib] composes all of it as the crate's parse and compile do.
    - the Display implementations of instructions, programs and errors of both
      crates: [Display].

    Fallible code returns an [outcome] ([Error]): a value, an error of error.rs,
    a panic, or the exhaustion of the model's fuel; the compilers and the parser
    thread their state through the monad [M] of the same file. Machine integers
    are [Z] with their wrap-around written out; [usize] has 64 bits.

    ** Correctness of the classic compiler

    [Sem] says which packets an expression denotes, on the bytes of the packet
    and independently of any code; [Needs] how many bytes deciding it takes on a
    packet, evaluated from left to right as [Sem] is; [Fields] holds the
    arithmetic of packet fields. [Segment]
    is a program logic for emitted code: a segment is a list of instructions with
    open jump slots, and its triple says what it decides wherever it is placed.
    [Line], [Emit] and the [Emit*] files derive a triple for every primitive from
    the facts known at its start; [CompileCorrect] does so for expressions, with
    the hoisted guards, and [CompileSound] closes the slots, runs the optimizer's
    theorem and states the result for compile: the program of a supported
    expression decides it on every packet that has the bytes [needs] asks for,
    and on a shorter one it decides it or faults. [Lib] states it from the filter
    string on. [supported] admits the expressions of one layer, the chains behind
    one VLAN check, and negations of these, without labelled MPLS checks; on the
    others code and meaning differ, and [Defects] shows each difference on a
    packet.

    ** Correctness of the extended compiler

    [EbpfSem] says what an extended program decides, exactly, so with the
    deviations of the code, on every packet below 2^27 bytes: [esem]. [EbpfLogic]
    is a program logic over the final program, in which a segment ends at one of
    several instructions; [EbpfEmit] and [EbpfRules] are its rules for the
    compiler's functions, [EbpfPrims], [EbpfPorts] and [EbpfBytes] its triples for
    the primitives, and [EbpfCorrect] states the result for the program compile
    returns, of expressions whose offsets and shifts fit the instructions.
    [Targets] says where the exact semantics is the reference semantics
    ([esem_agree]), states the correctness of the extended compiler against both,
    and that the two targets then give the same verdict; [EbpfDefects] shows where
    they do not.

    ** pkttap: files and live capture

    - error.rs, stats.rs, timestamp.rs and packet.rs: [Tap].
    - ring.rs and live/linux_ring.rs, the memory-mapped ring shared with the
      kernel: [Ring] over the byte regions of [Bytes]. [RingSound]: every access
      stays inside the mapping whatever the kernel writes, and the bytes of a
      packet stay while it is borrowed. [RingFifo]: under every interleaving of
      the kernel's hand-overs with the reader, the ring is a queue. [RingLayout]:
      blocks as the kernel lays them out.
    - codec.rs, dump.rs, file.rs: [Files]. The crate pcap-file is a class of
      operations, and its promises a class of laws ([FilesRoundtrip], the second
      fulfilled by the small crate of [PcapMini]). [FilesSound]: a capture file is
      the stream of the packets its filter accepts; [FilesRoundtrip]: what dump
      wrote is read back, filtered by the meaning of the filter string. A pcapng
    file is supposed to have one section: [pcapng_section_restart], in
    [PcapMini], shows what goes wrong in a second one.
    - [Sys]: system calls. A kernel is any function from the calls made so far to
      an answer; code runs in a monad that records the calls, and an owned
      descriptor is closed when its owner is dropped. The reads of a file are one
      call, made when it is opened.
    - live/linux.rs: [LinuxLive]; [LinuxSound] shows the order of the calls that
      set a socket up, their undoing on an error, what a receive delivers of a
      message that fits its buffer, with the time its control messages carry, and
      that the totals of the statistics only grow.
    - capture.rs, live/mod.rs, fanout.rs, inject.rs: [Capture], as compiled for
      Linux; [CaptureSound] tracks the descriptors that are open by their numbers,
      and shows that a capture owns the one it has opened, and that no other is
      left open or closed.
    - live/macos.rs: [MacLive]; [MacSound] shows that a batch of frames, with
      headers of any length, is delivered frame by frame. live/windows.rs:
      [WindowsLive].

    ** Fuel and bounds

    Loops of the code carry fuel chosen by the function that starts them, and a
    theorem shows it enough: the tokenizer one turn a byte; the parser's loop the
    number of tokens; the walk three turns a node of the tree; the guard
    analysis likewise; the classic interpreter one turn an instruction (its jumps
    are forward); the optimizer one round an instruction, as each round removes
    one. The reference interpreter of extended programs stops after STEP_LIMIT =
    65536 steps, as the code's does; jumps are forward, so a program of at most
    that many instructions, which its theorem supposes, does not meet the limit. A
    loop that repeats an interrupted system call takes its number of turns as an argument: how often
    the kernel interrupts is not bounded, and the theorems about it say how many
    turns are enough for the answers at hand.

    ** Not modelled

    The internals of the crate pcap-file and of the operating systems, which are
    arguments; the loading of the Windows packet library and the search for its
    symbols; the indented form of Debug; the Unicode tables behind to_lowercase and
    the escapes of characters in error texts, which are arguments; unsafe pointer casts, beyond the bounds
    and the alignment of what is read; benchmarks, examples and fuzz targets. *)

From stdpp Require Export base tactics option list numbers strings sets.
From Stdlib Require Export ZArith Lia.
Global Open Scope Z_scope.

(** * Machine integers

    Rust integers are modelled by [Z] together with the range of their type.
    [usize] is 64 bits wide. *)

Definition u8_max : Z := 2 ^ 8 - 1.
Definition u16_max : Z := 2 ^ 16 - 1.
Definition u32_max : Z := 2 ^ 32 - 1.

Definition is_u8 (x : Z) : Prop := 0 ≤ x < 2 ^ 8.
Definition is_u16 (x : Z) : Prop := 0 ≤ x < 2 ^ 16.
Definition is_u32 (x : Z) : Prop := 0 ≤ x < 2 ^ 32.

(** Truncating casts, [x as uN]. *)
Definition as_u8 (x : Z) : Z := x mod 2 ^ 8.
Definition as_u16 (x : Z) : Z := x mod 2 ^ 16.
Definition as_u32 (x : Z) : Z := x mod 2 ^ 32.
Definition as_usize (x : Z) : Z := x mod 2 ^ 64.

#[export] Instance is_u8_dec x : Decision (is_u8 x).
Proof. unfold is_u8. apply _. Defined.
#[export] Instance is_u16_dec x : Decision (is_u16 x).
Proof. unfold is_u16. apply _. Defined.
#[export] Instance is_u32_dec x : Decision (is_u32 x).
Proof. unfold is_u32. apply _. Defined.

(** Number of elements of a vector or slice, and indexing by a [usize]. *)
Definition zlen {A} (l : list A) : Z := Z.of_nat (length l).

Definition zget {A} (l : list A) (i : Z) : option A :=
  if (0 <=? i) && (i <? zlen l) then l !! Z.to_nat i else None.

Definition zset {A} (i : Z) (x : A) (l : list A) : list A :=
  if (0 <=? i) && (i <? zlen l) then <[Z.to_nat i := x]> l else l.

Declare Scope pkt_scope.
Delimit Scope pkt_scope with pkt.
Notation "l !!! i" := (zget l i) (at level 20, only parsing) : pkt_scope.

(** * Automation *)

(** Unfold the integer ranges and casts, then decide. *)
Ltac ulia :=
  unfold is_u8, is_u16, is_u32, as_u8, as_u16, as_u32, as_usize,
    u8_max, u16_max, u32_max in *; Z.div_mod_to_equations; lia.

(** Turn the boolean tests of the code into the propositions they decide. *)
Ltac zbool :=
  repeat match goal with
  | H : (_ && _) = true |- _ => apply andb_true_iff in H; destruct H
  | H : (_ || _) = false |- _ => apply orb_false_iff in H; destruct H
  | H : negb _ = true |- _ => apply negb_true_iff in H
  | H : negb _ = false |- _ => apply negb_false_iff in H
  | H : (_ =? _) = true |- _ => apply Z.eqb_eq in H
  | H : (_ =? _) = false |- _ => apply Z.eqb_neq in H
  | H : (_ <=? _) = true |- _ => apply Z.leb_le in H
  | H : (_ <=? _) = false |- _ => apply Z.leb_gt in H
  | H : (_ <? _) = true |- _ => apply Z.ltb_lt in H
  | H : (_ <? _) = false |- _ => apply Z.ltb_ge in H
  end.

Create HintDb pkt discriminated.

(** Bitwise operators, as the code writes them. *)
Infix ".|" := Z.lor (at level 50, left associativity) : pkt_scope.
Infix ".&" := Z.land (at level 40, left associativity) : pkt_scope.
Global Open Scope pkt_scope.

(** * Vectors indexed by [Z] *)

Section zlist.
Context {A : Type}.
Implicit Types (l k : list A) (i j : Z) (x y : A).

Lemma zlen_nonneg l : 0 ≤ zlen l.
Proof. unfold zlen; lia. Qed.

Lemma zlen_nil : zlen (@nil A) = 0.
Proof. done. Qed.

Lemma zlen_cons x l : zlen (x :: l) = 1 + zlen l.
Proof. unfold zlen; simpl; lia. Qed.

Lemma zlen_app l k : zlen (l ++ k) = zlen l + zlen k.
Proof. unfold zlen; rewrite length_app; lia. Qed.

Lemma zlen_zset i x l : zlen (zset i x l) = zlen l.
Proof. unfold zset, zlen. case_match; [by rewrite length_insert|done]. Qed.

Lemma zget_spec l i :
  zget l i = if decide (0 ≤ i) then l !! Z.to_nat i else None.
Proof.
  unfold zget, zlen. case_decide.
  - rewrite (proj2 (Z.leb_le 0 i)) by done. simpl.
    destruct (Z.ltb_spec i (Z.of_nat (length l))); [done|].
    symmetry. apply lookup_ge_None. lia.
  - by rewrite (proj2 (Z.leb_gt 0 i)) by lia.
Qed.

Lemma zget_Some_lt l i x : zget l i = Some x → 0 ≤ i < zlen l.
Proof. unfold zget. case_match; [|done]. zbool. lia. Qed.

Lemma zget_lt_Some l i : 0 ≤ i < zlen l → ∃ x, zget l i = Some x.
Proof.
  intros. rewrite zget_spec, decide_True by lia.
  apply lookup_lt_is_Some_2. unfold zlen in *. lia.
Qed.

Lemma zget_None l i : zget l i = None ↔ ¬ (0 ≤ i < zlen l).
Proof.
  split.
  - intros Hn Hr. destruct (zget_lt_Some l i Hr). congruence.
  - intros Hr. destruct (zget l i) eqn:E; [|done].
    apply zget_Some_lt in E. lia.
Qed.

Lemma zget_oob l i : ¬ (0 ≤ i < zlen l) → zget l i = None.
Proof. apply zget_None. Qed.

Lemma zget_app_l l k i : i < zlen l → zget (l ++ k) i = zget l i.
Proof.
  intros. rewrite !zget_spec. case_decide; [|done].
  apply lookup_app_l. unfold zlen in *. lia.
Qed.

Lemma zget_app_r l k i : zlen l ≤ i → zget (l ++ k) i = zget k (i - zlen l).
Proof.
  intros Hi. rewrite !zget_spec. pose proof (zlen_nonneg l).
  rewrite !decide_True by lia. unfold zlen in *.
  rewrite lookup_app_r by lia. f_equal. lia.
Qed.

Lemma zget_cons_0 x l : zget (x :: l) 0 = Some x.
Proof. rewrite zget_spec. done. Qed.

Lemma zget_cons_S x l i : 0 < i → zget (x :: l) i = zget l (i - 1).
Proof.
  intros. change (x :: l) with ([x] ++ l).
  rewrite zget_app_r by (change (zlen [x]) with 1; lia). done.
Qed.

Lemma zget_zset_eq l i x : 0 ≤ i < zlen l → zget (zset i x l) i = Some x.
Proof.
  intros. rewrite zget_spec, decide_True by lia. unfold zset.
  rewrite (proj2 (Z.leb_le _ _)), (proj2 (Z.ltb_lt _ _)) by lia. simpl.
  apply list_lookup_insert_eq. unfold zlen in *. lia.
Qed.

Lemma zget_zset_ne l i j x : i ≠ j → zget (zset i x l) j = zget l j.
Proof.
  intros. rewrite !zget_spec. case_decide; [|done]. unfold zset.
  case_match eqn:E; [|done]. zbool.
  apply list_lookup_insert_ne. lia.
Qed.

Lemma zset_app_r l k i x :
  zlen l ≤ i → zset i x (l ++ k) = l ++ zset (i - zlen l) x k.
Proof.
  intros Hi. unfold zset. pose proof (zlen_nonneg l). rewrite zlen_app.
  replace (0 <=? i) with true by (symmetry; apply Z.leb_le; lia).
  replace (0 <=? i - zlen l) with true by (symmetry; apply Z.leb_le; lia).
  simpl. destruct (Z.ltb_spec i (zlen l + zlen k)) as [?|?].
  - replace (i - zlen l <? zlen k) with true by (symmetry; apply Z.ltb_lt; lia).
    rewrite insert_app_r_alt by (unfold zlen in *; lia).
    do 2 f_equal. unfold zlen in *. lia.
  - replace (i - zlen l <? zlen k) with false by (symmetry; apply Z.ltb_ge; lia).
    done.
Qed.

Lemma zget_ext l k :
  zlen l = zlen k → (∀ i, 0 ≤ i < zlen l → zget l i = zget k i) → l = k.
Proof.
  intros Hlen Hext. apply list_eq_same_length with (length l); [|done|].
  { unfold zlen in *. lia. }
  intros i x y Hi Hx Hy.
  specialize (Hext (Z.of_nat i)). rewrite !zget_spec in Hext.
  rewrite !decide_True, !Nat2Z.id in Hext by lia.
  unfold zlen in Hext. rewrite Hx, Hy in Hext.
  assert (Some x = Some y) by (apply Hext; lia). congruence.
Qed.
End zlist.

Lemma Forall_zget {A} (P : A → Prop) l i x : Forall P l → zget l i = Some x → P x.
Proof.
  intros Hall Hg. pose proof (zget_Some_lt _ _ _ Hg).
  rewrite zget_spec, decide_True in Hg by lia.
  rewrite Forall_lookup in Hall. eauto.
Qed.

Lemma Forall_zset {A} (P : A → Prop) l i x : Forall P l → P x → Forall P (zset i x l).
Proof. intros. unfold zset. case_match; [by apply Forall_insert|done]. Qed.

Create Rewrite HintDb zlen.
#[export] Hint Rewrite @zlen_app @zlen_cons @zlen_zset : zlen.

(** The empty vector has length 0. *)
Ltac znil :=
  repeat match goal with
  | H : context [@zlen ?A []] |- _ => change (@zlen A []) with 0 in H
  | |- context [@zlen ?A []] => change (@zlen A []) with 0
  end.

(** Normalise vector lengths and decide. *)
Ltac zlen_lia :=
  znil; autorewrite with zlen in *;
  repeat match goal with
  | l : list _ |- _ =>
      lazymatch goal with
      | H : 0 ≤ zlen l |- _ => fail
      | _ => pose proof (zlen_nonneg l)
      end
  end; lia.

(** * Little-endian byte strings *)

(** [uN::to_le_bytes] (or [iN]) for an integer of [n] bytes. *)
Fixpoint le_bytes (n : nat) (x : Z) : list Z :=
  match n with
  | O => []
  | S n' => x mod 256 :: le_bytes n' (x / 256)
  end.

(** The unsigned integer a little-endian byte string denotes. *)
Fixpoint of_le_bytes (bs : list Z) : Z :=
  match bs with
  | [] => 0
  | b :: bs' => b + 256 * of_le_bytes bs'
  end.

Lemma length_le_bytes n x : length (le_bytes n x) = n.
Proof. revert x. induction n; intros; simpl; [done|]. by rewrite IHn. Qed.

Lemma le_bytes_range n x : Forall is_u8 (le_bytes n x).
Proof.
  revert x. induction n; intros; simpl; constructor; [|done].
  unfold is_u8. apply Z.mod_pos_bound. lia.
Qed.

Lemma of_le_bytes_le_bytes n x : of_le_bytes (le_bytes n x) = x mod 256 ^ Z.of_nat n.
Proof.
  revert x. induction n as [|n IH]; intros x; cbn [of_le_bytes le_bytes].
  - change (256 ^ Z.of_nat 0) with 1. by rewrite Z.mod_1_r.
  - rewrite IH, Nat2Z.inj_succ, Z.pow_succ_r by lia.
    rewrite Z.rem_mul_r by (try apply Z.pow_nonzero; lia). done.
Qed.

(** * Bitwise operations stay within their width *)

Lemma log2_lt n x : 0 ≤ x → 0 < n → (x < 2 ^ n ↔ Z.log2 x < n).
Proof.
  intros Hx Hn. destruct (Z.eq_dec x 0) as [->|].
  - change (Z.log2 0) with 0. split; [done|]. intros _. lia.
  - apply Z.log2_lt_pow2. lia.
Qed.

Lemma land_range n x y : 0 < n → 0 ≤ x < 2 ^ n → 0 ≤ y → 0 ≤ x .& y < 2 ^ n.
Proof.
  intros Hn [Hx Hx'] Hy. apply (log2_lt n) in Hx'; [|done..].
  split; [apply Z.land_nonneg; lia|].
  apply log2_lt; [apply Z.land_nonneg; lia|done|].
  pose proof (Z.log2_land x y Hx Hy). lia.
Qed.

Lemma lor_range n x y : 0 < n → 0 ≤ x < 2 ^ n → 0 ≤ y < 2 ^ n → 0 ≤ x .| y < 2 ^ n.
Proof.
  intros Hn [Hx Hx'] [Hy Hy']. apply (log2_lt n) in Hx', Hy'; [|done..].
  split; [apply Z.lor_nonneg; lia|].
  apply log2_lt; [apply Z.lor_nonneg; lia|done|].
  rewrite (Z.log2_lor x y Hx Hy). lia.
Qed.

Lemma lxor_range n x y : 0 < n → 0 ≤ x < 2 ^ n → 0 ≤ y < 2 ^ n → 0 ≤ Z.lxor x y < 2 ^ n.
Proof.
  intros Hn [Hx Hx'] [Hy Hy']. apply (log2_lt n) in Hx', Hy'; [|done..].
  assert (0 ≤ Z.lxor x y) by (apply Z.lxor_nonneg; lia).
  split; [done|]. apply log2_lt; [done..|].
  pose proof (Z.log2_lxor x y Hx Hy). lia.
Qed.
