(* ===== verification/Error.v ===== *)
(** The error type of the crate (error.rs), the outcomes of a fallible
    computation and the state monad the compiler passes are written in. *)

From S2P Require Export Prelude.

(** [pktbaffle::Error]. A [char] is its code point. *)
Inductive Error :=
  | LexError (offset : Z) (ch : Z)
  | ParseError (message : string)
  | CodegenError (message : string).

#[export] Instance Error_eq_dec : EqDecision Error.
Proof. solve_decision. Defined.

(** What a Rust function returning [Result<A>] can do: return [Ok] or [Err],
    panic (a failed [expect], an index out of range, a failed
    [debug_assert!]), or, for a bounded model of a loop, run out of fuel. *)
Inductive outcome (A : Type) :=
  | Ok (a : A)
  | Err (e : Error)
  | Panic
  | OutOfFuel.
Arguments Ok {A} a.
Arguments Err {A} e.
Arguments Panic {A}.
Arguments OutOfFuel {A}.

#[export] Instance outcome_ret : MRet outcome := λ A a, Ok a.
#[export] Instance outcome_bind : MBind outcome := λ A B f o,
  match o with
  | Ok a => f a
  | Err e => Err e
  | Panic => Panic
  | OutOfFuel => OutOfFuel
  end.
#[export] Instance outcome_fmap : FMap outcome := λ A B f o,
  match o with
  | Ok a => Ok (f a)
  | Err e => Err e
  | Panic => Panic
  | OutOfFuel => OutOfFuel
  end.

(** A computation returns normally or with an error value. *)
Definition returns {A} (o : outcome A) : Prop :=
  match o with Ok _ | Err _ => True | _ => False end.

Definition unwrap_or {A} (d : A) (o : option A) : A :=
  match o with Some a => a | None => d end.

(** * State with failure: [&mut self] methods returning [Result] *)

Definition M (S A : Type) : Type := S → outcome (A * S).

#[export] Instance M_ret {S} : MRet (M S) := λ A a s, Ok (a, s).
#[export] Instance M_bind {S} : MBind (M S) := λ A B f m s,
  match m s with
  | Ok (a, s') => f a s'
  | Err e => Err e
  | Panic => Panic
  | OutOfFuel => OutOfFuel
  end.

Definition get {S} : M S S := λ s, Ok (s, s).
Definition gets {S A} (f : S → A) : M S A := λ s, Ok (f s, s).
Definition modify {S} (f : S → S) : M S unit := λ s, Ok (tt, f s).
Definition fail {S A} (e : Error) : M S A := λ _, Err e.
Definition panic {S A} : M S A := λ _, Panic.

(** [for x in l { body }] and [opt.expect(..)]. *)
Fixpoint forM {S A} (l : list A) (body : A → M S unit) : M S unit :=
  match l with
  | [] => mret tt
  | x :: l' => body x;; forM l' body
  end.

Definition expect {S A} (o : option A) : M S A :=
  match o with Some a => mret a | None => panic end.

(** * Weakest preconditions

    [wp m s Q]: run from [s], [m] does not panic and does not run out of
    fuel, and if it returns [Ok (a, s')] then [Q a s']. *)
Definition wp {S A} (m : M S A) (s : S) (Q : A → S → Prop) : Prop :=
  match m s with
  | Ok (a, s') => Q a s'
  | Err _ => True
  | Panic | OutOfFuel => False
  end.

Section wp.
Context {S A B : Type}.
Implicit Types (s : S).

Lemma wp_ret (a : A) s Q : Q a s → wp (mret a) s Q.
Proof. done. Qed.

Lemma wp_bind (m : M S A) (k : A → M S B) s Q :
  wp m s (λ a s', wp (k a) s' Q) → wp (m ≫= k) s Q.
Proof.
  unfold wp, mbind, M_bind. destruct (m s) as [[a s']| | |]; done.
Qed.

Lemma wp_mono (m : M S A) s (Q R : A → S → Prop) :
  wp m s Q → (∀ a s', Q a s' → R a s') → wp m s R.
Proof. unfold wp. destruct (m s) as [[a s']| | |]; eauto. Qed.

Lemma wp_gets (f : S → A) s Q : Q (f s) s → wp (gets f) s Q.
Proof. done. Qed.

Lemma wp_get s (Q : S → S → Prop) : Q s s → wp get s Q.
Proof. done. Qed.

Lemma wp_modify (f : S → S) s Q : Q tt (f s) → wp (modify f) s Q.
Proof. done. Qed.

Lemma wp_fail e s (Q : A → S → Prop) : wp (fail e) s Q.
Proof. done. Qed.

Lemma wp_Ok (m : M S A) s Q a s' : wp m s Q → m s = Ok (a, s') → Q a s'.
Proof. unfold wp. intros H E. by rewrite E in H. Qed.

Lemma wp_returns (m : M S A) s Q : wp m s Q → returns (m s).
Proof. unfold wp. destruct (m s) as [[a s']| | |]; done. Qed.

Lemma wp_conj (m : M S A) s (Q R : A → S → Prop) :
  wp m s Q → wp m s R → wp m s (λ a s', Q a s' ∧ R a s').
Proof. unfold wp. destruct (m s) as [[a s']| | |]; done. Qed.
End wp.

Lemma bind_Ok {S A B} (m : M S A) (k : A → M S B) s r :
  (m ≫= k) s = Ok r → ∃ a s', m s = Ok (a, s') ∧ k a s' = Ok r.
Proof.
  unfold mbind, M_bind. destruct (m s) as [[a s']| | |]; naive_solver.
Qed.

Lemma outcome_bind_Ok {A B} (o : outcome A) (k : A → outcome B) r :
  (o ≫= k) = Ok r → ∃ a, o = Ok a ∧ k a = Ok r.
Proof. unfold mbind, outcome_bind. destruct o; naive_solver. Qed.

#[export] Hint Resolve wp_ret wp_fail : pkt.
