(* ===== verification/Bpf.v ===== *)
(** Classic BPF instructions and programs (bpf.rs): the opcode constants, the
    instruction constructors and the little-endian encoding. *)

From S2P Require Export Prelude.

(** * Opcode constants *)

Definition BPF_LD : Z := 0x00.
Definition BPF_LDX : Z := 0x01.
Definition BPF_ST : Z := 0x02.
Definition BPF_STX : Z := 0x03.
Definition BPF_ALU : Z := 0x04.
Definition BPF_JMP : Z := 0x05.
Definition BPF_RET : Z := 0x06.
Definition BPF_MISC : Z := 0x07.

Definition BPF_W : Z := 0x00.
Definition BPF_H : Z := 0x08.
Definition BPF_B : Z := 0x10.

Definition BPF_IMM : Z := 0x00.
Definition BPF_ABS : Z := 0x20.
Definition BPF_IND : Z := 0x40.
Definition BPF_MEM : Z := 0x60.
Definition BPF_LEN : Z := 0x80.
Definition BPF_MSH : Z := 0xa0.

Definition BPF_ADD : Z := 0x00.
Definition BPF_SUB : Z := 0x10.
Definition BPF_MUL : Z := 0x20.
Definition BPF_DIV : Z := 0x30.
Definition BPF_OR : Z := 0x40.
Definition BPF_AND : Z := 0x50.
Definition BPF_LSH : Z := 0x60.
Definition BPF_RSH : Z := 0x70.
Definition BPF_NEG : Z := 0x80.
Definition BPF_XOR : Z := 0xa0.

Definition BPF_JA : Z := 0x00.
Definition BPF_JEQ : Z := 0x10.
Definition BPF_JGT : Z := 0x20.
Definition BPF_JGE : Z := 0x30.
Definition BPF_JSET : Z := 0x40.

Definition BPF_K : Z := 0x00.
Definition BPF_X : Z := 0x08.

Definition BPF_A : Z := 0x10.

Definition BPF_TAX : Z := 0x00.
Definition BPF_TXA : Z := 0x80.

Definition BPF_ACCEPT : Z := 0xffffffff.
Definition BPF_DROP : Z := 0.

(** * Instructions *)

(** [struct Insn]: [u16], [u8], [u8], [u32]. *)
Record Insn := mk_insn {
  i_code : Z;
  i_jt : Z;
  i_jf : Z;
  i_k : Z;
}.

#[export] Instance Insn_eq_dec : EqDecision Insn.
Proof. solve_decision. Defined.

Definition wf_insn (i : Insn) : Prop :=
  is_u16 (i_code i) ∧ is_u8 (i_jt i) ∧ is_u8 (i_jf i) ∧ is_u32 (i_k i).

#[export] Instance wf_insn_dec i : Decision (wf_insn i).
Proof. unfold wf_insn. apply _. Defined.

(** Assignments to one field of an instruction. *)
Definition set_jt (v : Z) (i : Insn) : Insn := mk_insn (i_code i) v (i_jf i) (i_k i).
Definition set_jf (v : Z) (i : Insn) : Insn := mk_insn (i_code i) (i_jt i) v (i_k i).
Definition set_k (v : Z) (i : Insn) : Insn := mk_insn (i_code i) (i_jt i) (i_jf i) v.

Definition ldw_abs (k : Z) : Insn := mk_insn (BPF_LD .| BPF_W .| BPF_ABS) 0 0 k.
Definition ldh_abs (k : Z) : Insn := mk_insn (BPF_LD .| BPF_H .| BPF_ABS) 0 0 k.
Definition ldb_abs (k : Z) : Insn := mk_insn (BPF_LD .| BPF_B .| BPF_ABS) 0 0 k.
Definition ldw_ind (k : Z) : Insn := mk_insn (BPF_LD .| BPF_W .| BPF_IND) 0 0 k.
Definition ldb_ind (k : Z) : Insn := mk_insn (BPF_LD .| BPF_B .| BPF_IND) 0 0 k.
Definition ldh_ind (k : Z) : Insn := mk_insn (BPF_LD .| BPF_H .| BPF_IND) 0 0 k.
Definition ldx_msh (k : Z) : Insn := mk_insn (BPF_LDX .| BPF_B .| BPF_MSH) 0 0 k.
Definition ldx_imm (k : Z) : Insn := mk_insn (BPF_LDX .| BPF_W .| BPF_IMM) 0 0 k.
Definition ld_imm (k : Z) : Insn := mk_insn (BPF_LD .| BPF_IMM) 0 0 k.

Definition and_k (k : Z) : Insn := mk_insn (BPF_ALU .| BPF_AND .| BPF_K) 0 0 k.
Definition or_k (k : Z) : Insn := mk_insn (BPF_ALU .| BPF_OR .| BPF_K) 0 0 k.
Definition rsh_k (k : Z) : Insn := mk_insn (BPF_ALU .| BPF_RSH .| BPF_K) 0 0 k.
Definition add_k (k : Z) : Insn := mk_insn (BPF_ALU .| BPF_ADD .| BPF_K) 0 0 k.
Definition sub_k (k : Z) : Insn := mk_insn (BPF_ALU .| BPF_SUB .| BPF_K) 0 0 k.
Definition mul_k (k : Z) : Insn := mk_insn (BPF_ALU .| BPF_MUL .| BPF_K) 0 0 k.
Definition div_k (k : Z) : Insn := mk_insn (BPF_ALU .| BPF_DIV .| BPF_K) 0 0 k.
Definition lsh_k (k : Z) : Insn := mk_insn (BPF_ALU .| BPF_LSH .| BPF_K) 0 0 k.
Definition xor_k (k : Z) : Insn := mk_insn (BPF_ALU .| BPF_XOR .| BPF_K) 0 0 k.

Definition jeq_k (k jt jf : Z) : Insn := mk_insn (BPF_JMP .| BPF_JEQ .| BPF_K) jt jf k.
Definition jgt_k (k jt jf : Z) : Insn := mk_insn (BPF_JMP .| BPF_JGT .| BPF_K) jt jf k.
Definition jge_k (k jt jf : Z) : Insn := mk_insn (BPF_JMP .| BPF_JGE .| BPF_K) jt jf k.
Definition jset_k (k jt jf : Z) : Insn := mk_insn (BPF_JMP .| BPF_JSET .| BPF_K) jt jf k.
Definition jeq_x (jt jf : Z) : Insn := mk_insn (BPF_JMP .| BPF_JEQ .| BPF_X) jt jf 0.
Definition jgt_x (jt jf : Z) : Insn := mk_insn (BPF_JMP .| BPF_JGT .| BPF_X) jt jf 0.
Definition jge_x (jt jf : Z) : Insn := mk_insn (BPF_JMP .| BPF_JGE .| BPF_X) jt jf 0.
Definition jset_x (jt jf : Z) : Insn := mk_insn (BPF_JMP .| BPF_JSET .| BPF_X) jt jf 0.

Definition tax : Insn := mk_insn (BPF_MISC .| BPF_TAX) 0 0 0.
Definition st (k : Z) : Insn := mk_insn BPF_ST 0 0 k.
Definition ldx_mem (k : Z) : Insn := mk_insn (BPF_LDX .| BPF_W .| BPF_MEM) 0 0 k.
Definition ja (offset : Z) : Insn := mk_insn (BPF_JMP .| BPF_JA) 0 0 offset.
Definition ret_k (k : Z) : Insn := mk_insn (BPF_RET .| BPF_K) 0 0 k.

(** * Encoding *)

(** [Insn::to_le_bytes] *)
Definition insn_to_le_bytes (i : Insn) : list Z :=
  le_bytes 2 (i_code i) ++ [i_jt i; i_jf i] ++ le_bytes 4 (i_k i).

(** [struct Program] and its methods. *)
Record Program := mk_program { insns : list Insn }.

Definition instructions (p : Program) : list Insn := insns p.
Definition to_le_bytes (p : Program) : list Z := insns p ≫= insn_to_le_bytes.
Definition len (p : Program) : Z := zlen (insns p).
Definition is_empty (p : Program) : bool :=
  match insns p with [] => true | _ => false end.

(** * Reading the encoding back *)

(** The kernel's reading of an array of [struct sock_filter]. *)
Fixpoint decode (n : nat) (bs : list Z) : option (list Insn) :=
  match n, bs with
  | O, [] => Some []
  | S n', c0 :: c1 :: t :: f :: k0 :: k1 :: k2 :: k3 :: bs' =>
      rest ← decode n' bs';
      Some (mk_insn (of_le_bytes [c0; c1]) t f (of_le_bytes [k0; k1; k2; k3]) :: rest)
  | _, _ => None
  end.

Lemma insn_to_le_bytes_range i :
  wf_insn i → length (insn_to_le_bytes i) = 8%nat ∧ Forall is_u8 (insn_to_le_bytes i).
Proof.
  intros (? & ? & ? & ?). unfold insn_to_le_bytes. split.
  - by rewrite !length_app, !length_le_bytes.
  - rewrite !Forall_app, !Forall_cons. eauto using le_bytes_range, Forall_nil_2.
Qed.

Lemma decode_insn_app i rest n :
  wf_insn i →
  decode (S n) (insn_to_le_bytes i ++ rest) = (r ← decode n rest; Some (i :: r)).
Proof.
  intros (Hc & ? & ? & Hk).
  assert (Ec : of_le_bytes (le_bytes 2 (i_code i)) = i_code i)
    by (rewrite of_le_bytes_le_bytes; apply Z.mod_small; exact Hc).
  assert (Ek : of_le_bytes (le_bytes 4 (i_k i)) = i_k i)
    by (rewrite of_le_bytes_le_bytes; apply Z.mod_small; exact Hk).
  transitivity (r ← decode n rest;
    Some (mk_insn (of_le_bytes (le_bytes 2 (i_code i))) (i_jt i) (i_jf i)
            (of_le_bytes (le_bytes 4 (i_k i))) :: r)); [done|].
  rewrite Ec, Ek. by destruct i.
Qed.

(** C34: encoding a program and reading it back as the kernel does gives the
    program; the encoding has eight bytes per instruction. *)
Theorem decode_to_le_bytes (p : Program) :
  Forall wf_insn (insns p) →
  decode (length (insns p)) (to_le_bytes p) = Some (insns p) ∧
  zlen (to_le_bytes p) = 8 * len p ∧ Forall is_u8 (to_le_bytes p).
Proof.
  destruct p as [l]. unfold to_le_bytes, len. simpl. intros Hwf.
  induction Hwf as [|i l Hi Hl (IH1 & IH2 & IH3)]; [done|].
  rewrite bind_cons.
  destruct (insn_to_le_bytes_range i Hi) as [Hlen Hr].
  split_and!.
  - simpl length. rewrite decode_insn_app, IH1 by done. done.
  - rewrite zlen_app, zlen_cons, IH2. unfold zlen at 1. rewrite Hlen. lia.
  - by apply Forall_app.
Qed.

Lemma decode_to_le_bytes_witness :
  decode 2 (to_le_bytes (mk_program [ldh_abs 12; ret_k BPF_ACCEPT])) =
    Some [ldh_abs 12; ret_k BPF_ACCEPT].
Proof.
  apply (decode_to_le_bytes (mk_program [ldh_abs 12; ret_k BPF_ACCEPT])).
  apply (bool_decide_unpack _). by vm_compute.
Defined.
