(* ===== verification/Vm.v ===== *)
(** The software cBPF interpreter (vm.rs): one step of its loop, the loop, its
    termination, and the machine-width invariant of its registers. *)

From S2P Require Export Error Bpf.

Definition SCRATCH : Z := 16.

(** The local variables of [inner]. *)
Record vm := mk_vm {
  r_a : Z;
  r_x : Z;
  r_scratch : list Z;
  r_pc : Z;
}.

(** How one turn of the loop ends: [continue], or [return] of an option. *)
Inductive turn :=
  | Next (m : vm)
  | Done (r : option bool).

(** [pkt.get(a..b)] *)
Definition slice_get (pkt : list Z) (a b : Z) : option (list Z) :=
  if (a <=? b) && (b <=? zlen pkt)
  then Some (take (Z.to_nat (b - a)) (drop (Z.to_nat a) pkt)) else None.

(** [usize::checked_add] *)
Definition checked_add (a b : Z) : option Z :=
  if a + b <? 2 ^ 64 then Some (a + b) else None.

(** [uN::from_be_bytes] *)
Definition from_be_bytes (bs : list Z) : Z := foldl (λ acc b, acc * 256 + b) 0 bs.

Definition uses_x (insn : Insn) : bool := i_code insn .& 0x08 =? BPF_X.

Definition sized_load (pkt : list Z) (off size : Z) : option Z :=
  if size =? BPF_W then
    e ← checked_add off 4; b ← slice_get pkt off e; Some (from_be_bytes b)
  else if size =? BPF_H then
    e ← checked_add off 2; b ← slice_get pkt off e; Some (from_be_bytes b)
  else if size =? BPF_B then zget pkt off
  else None.

(** The ALU of [inner]; [None] is the [return None] of its error arms. *)
Definition alu (op a v : Z) : option Z :=
  if op =? BPF_ADD then Some (as_u32 (a + v))
  else if op =? BPF_SUB then Some (as_u32 (a - v))
  else if op =? BPF_MUL then Some (as_u32 (a * v))
  else if op =? BPF_DIV then (if v =? 0 then None else Some (a / v))
  else if op =? BPF_OR then Some (a .| v)
  else if op =? BPF_AND then Some (a .& v)
  else if op =? BPF_LSH then Some (as_u32 (Z.shiftl a (v .& 31)))
  else if op =? BPF_RSH then Some (Z.shiftr a (v .& 31))
  else if op =? BPF_NEG then Some (as_u32 (- a))
  else if op =? BPF_XOR then Some (Z.lxor a v)
  else None.

Definition jump_taken (op a v : Z) : option bool :=
  if op =? BPF_JEQ then Some (a =? v)
  else if op =? BPF_JGT then Some (v <? a)
  else if op =? BPF_JGE then Some (v <=? a)
  else if op =? BPF_JSET then Some (negb (a .& v =? 0))
  else None.

Definition load_a (pkt : list Z) (m : vm) (insn : Insn) : option Z :=
  let mode := i_code insn .& 0xe0 in
  if mode =? BPF_ABS then sized_load pkt (i_k insn) (i_code insn .& 0x18)
  else if mode =? BPF_IND then
    sized_load pkt (as_u32 (r_x m + i_k insn)) (i_code insn .& 0x18)
  else if mode =? BPF_LEN then Some (as_u32 (zlen pkt))
  else if mode =? BPF_IMM then Some (i_k insn)
  else if mode =? BPF_MEM then zget (r_scratch m) (i_k insn)
  else None.

Definition load_x (pkt : list Z) (m : vm) (insn : Insn) : option Z :=
  let size := i_code insn .& 0x18 in
  let mode := i_code insn .& 0xe0 in
  if (size =? BPF_B) && (mode =? BPF_MSH) then
    b ← zget pkt (i_k insn); Some (4 * (b .& 0xf))
  else if mode =? BPF_IMM then Some (i_k insn)
  else if mode =? BPF_MEM then zget (r_scratch m) (i_k insn)
  else if mode =? BPF_LEN then Some (as_u32 (zlen pkt))
  else None.

(** [*scratch.get_mut(k)? = v] *)
Definition store (m : vm) (k v : Z) : option (list Z) :=
  if k <? zlen (r_scratch m) then Some (zset k v (r_scratch m)) else None.

(** The effect of one instruction; the program counter of [m] already points
    past it ([pc += 1]). *)
Definition exec_insn (pkt : list Z) (m : vm) (insn : Insn) : turn :=
  let pc := r_pc m in
  let a := r_a m in
  let x := r_x m in
  let s := r_scratch m in
  let class := i_code insn .& 0x07 in
  if class =? BPF_LD then
    match load_a pkt m insn with
    | Some a' => Next (mk_vm a' x s pc)
    | None => Done None
    end
  else if class =? BPF_LDX then
    match load_x pkt m insn with
    | Some x' => Next (mk_vm a x' s pc)
    | None => Done None
    end
  else if class =? BPF_ST then
    match store m (i_k insn) a with
    | Some s' => Next (mk_vm a x s' pc)
    | None => Done None
    end
  else if class =? BPF_STX then
    match store m (i_k insn) x with
    | Some s' => Next (mk_vm a x s' pc)
    | None => Done None
    end
  else if class =? BPF_ALU then
    let v := if uses_x insn then x else i_k insn in
    match alu (i_code insn .& 0xf0) a v with
    | Some a' => Next (mk_vm a' x s pc)
    | None => Done None
    end
  else if class =? BPF_JMP then
    let op := i_code insn .& 0xf0 in
    if op =? BPF_JA then Next (mk_vm a x s (as_usize (pc + i_k insn)))
    else
      let v := if uses_x insn then x else i_k insn in
      match jump_taken op a v with
      | Some taken =>
          Next (mk_vm a x s (pc + (if taken then i_jt insn else i_jf insn)))
      | None => Done None
      end
  else if class =? BPF_RET then
    let retval := if negb (i_code insn .& 0x10 =? 0) then a else i_k insn in
    Done (Some (negb (retval =? 0)))
  else if class =? BPF_MISC then
    if negb (i_code insn .& 0x80 =? 0) then Next (mk_vm x x s pc)
    else Next (mk_vm a a s pc)
  else Done None.

(** The state with another program counter. *)
Definition with_pc (pc : Z) (m : vm) : vm := mk_vm (r_a m) (r_x m) (r_scratch m) pc.

(** One turn of the interpreter loop. *)
Definition step (prog : list Insn) (pkt : list Z) (m : vm) : turn :=
  match zget prog (r_pc m) with
  | None => Done None
  | Some insn => exec_insn pkt (with_pc (r_pc m + 1) m) insn
  end.

(** The loop, with fuel; [None] means the fuel ran out. *)
Fixpoint loop (n : nat) (prog : list Insn) (pkt : list Z) (m : vm) : option (option bool) :=
  match n with
  | O => None
  | S n' =>
      match step prog pkt m with
      | Next m' => loop n' prog pkt m'
      | Done r => Some r
      end
  end.

Definition vm_start : vm := mk_vm 0 0 (replicate (Z.to_nat SCRATCH) 0) 0.

(** Every jump goes forward, so one turn per instruction is enough fuel. *)
Definition fuel (prog : list Insn) : nat := S (length prog).

(** The outcome of the loop entered in state [m]. *)
Definition exec (prog : list Insn) (pkt : list Z) (m : vm) : option bool :=
  match loop (fuel prog) prog pkt m with Some r => r | None => None end.

Definition inner (prog : list Insn) (pkt : list Z) : option bool :=
  exec prog pkt vm_start.

Definition run (prog : list Insn) (pkt : list Z) : bool :=
  unwrap_or false (inner prog pkt).

(** [Program::matches] *)
Definition matches (p : Program) (pkt : list Z) : bool := run (insns p) pkt.

(** * Well-formed programs, packets and states

    The ranges of the Rust types; a vector of 8-byte instructions and a byte
    slice are never longer than [isize::MAX] bytes. *)
Definition wf_prog (prog : list Insn) : Prop :=
  Forall wf_insn prog ∧ zlen prog < 2 ^ 60.

Definition wf_pkt (pkt : list Z) : Prop := Forall is_u8 pkt ∧ zlen pkt < 2 ^ 63.

Record wf_vm (m : vm) : Prop := {
  wf_a : is_u32 (r_a m);
  wf_x : is_u32 (r_x m);
  wf_scratch : Forall is_u32 (r_scratch m);
  wf_scratch_len : zlen (r_scratch m) = SCRATCH;
  wf_pc : 0 ≤ r_pc m;
}.

#[export] Instance wf_prog_dec prog : Decision (wf_prog prog).
Proof. unfold wf_prog. apply _. Defined.
#[export] Instance wf_pkt_dec pkt : Decision (wf_pkt pkt).
Proof. unfold wf_pkt. apply _. Defined.

(** Destruct the opcode tests in the goal, innermost first, recording each. *)
Ltac opcase :=
  repeat match goal with
  | |- context [if ?b then _ else _] =>
      lazymatch b with
      | context [if _ then _ else _] => fail
      | _ => destruct b eqn:?
      end
  | |- context [match ?o with Some _ => _ | None => _ end] =>
      lazymatch o with
      | context [if _ then _ else _] => fail
      | context [match _ with _ => _ end] => fail
      | _ => destruct o eqn:?
      end
  end.

Section termination.
Context (prog : list Insn) (pkt : list Z).
Hypothesis Hwf : wf_prog prog.

Lemma wf_prog_get i insn : zget prog i = Some insn → wf_insn insn.
Proof.
  intros Hg. destruct Hwf as [Hall _]. rewrite Forall_lookup in Hall.
  pose proof (zget_Some_lt _ _ _ Hg).
  rewrite zget_spec, decide_True in Hg by lia. eauto.
Qed.

(** Every turn that continues moves the program counter forward. *)
Lemma step_forward m m' :
  0 ≤ r_pc m → step prog pkt m = Next m' → r_pc m < r_pc m' ∧ r_pc m < zlen prog.
Proof.
  intros Hpc. unfold step. destruct (zget prog (r_pc m)) as [insn|] eqn:Hg; [|done].
  pose proof (zget_Some_lt _ _ _ Hg).
  destruct (wf_prog_get _ _ Hg) as (_ & Hjt & Hjf & Hk).
  destruct Hwf as [_ Hlen].
  unfold exec_insn. cbv zeta. opcase; intros [= <-]; simpl; ulia.
Qed.

Lemma loop_total n m :
  0 ≤ r_pc m → zlen prog - r_pc m < Z.of_nat n → (0 < n)%nat →
  is_Some (loop n prog pkt m).
Proof.
  revert m. induction n as [|n IH]; intros m Hpc Hn Hn0; simpl; [lia|].
  destruct (step prog pkt m) as [m'|] eqn:E; [|eauto].
  pose proof (step_forward _ _ Hpc E). apply IH; lia.
Qed.

Lemma loop_more n k m r :
  loop n prog pkt m = Some r → loop (n + k) prog pkt m = Some r.
Proof.
  revert m. induction n as [|n IH]; intros m; simpl; [done|].
  destruct (step prog pkt m); eauto.
Qed.

Lemma exec_loop n m r : loop n prog pkt m = Some r → 0 ≤ r_pc m → exec prog pkt m = r.
Proof.
  intros Hn Hpc. unfold exec.
  destruct (loop_total (fuel prog) m Hpc) as [r' Hr'];
    [unfold fuel, zlen; lia|unfold fuel; lia|].
  rewrite Hr'.
  pose proof (loop_more _ (fuel prog) _ _ Hn) as H1.
  pose proof (loop_more _ n _ _ Hr') as H2.
  rewrite Nat.add_comm in H2. congruence.
Qed.

(** The equation of the loop, free of fuel. *)
Lemma exec_step m :
  0 ≤ r_pc m →
  exec prog pkt m =
  match step prog pkt m with Next m' => exec prog pkt m' | Done r => r end.
Proof.
  intros Hpc. destruct (step prog pkt m) as [m'|r] eqn:E.
  - pose proof (step_forward _ _ Hpc E) as [? ?].
    destruct (loop_total (fuel prog) m') as [r Hr];
      [lia|unfold fuel, zlen; lia|unfold fuel; lia|].
    rewrite (exec_loop _ _ _ Hr) by lia.
    apply (exec_loop (S (fuel prog))); [|done]. simpl. by rewrite E.
  - apply (exec_loop 1); [|done]. simpl. by rewrite E.
Qed.

Lemma exec_next m m' :
  0 ≤ r_pc m → step prog pkt m = Next m' → exec prog pkt m = exec prog pkt m'.
Proof. intros Hpc E. rewrite exec_step by done. by rewrite E. Qed.

Lemma exec_done m r :
  0 ≤ r_pc m → step prog pkt m = Done r → exec prog pkt m = r.
Proof. intros Hpc E. rewrite exec_step by done. by rewrite E. Qed.

Lemma exec_oob m : zlen prog ≤ r_pc m → exec prog pkt m = None.
Proof.
  intros Hpc. pose proof (zlen_nonneg prog). apply exec_done; [lia|].
  unfold step. by rewrite zget_oob by lia.
Qed.
End termination.

(** * The register invariant *)

Lemma shiftr_range x n : is_u32 x → 0 ≤ n → is_u32 (Z.shiftr x n).
Proof.
  unfold is_u32. intros Hx Hn. rewrite Z.shiftr_div_pow2 by done.
  pose proof (Z.pow_pos_nonneg 2 n ltac:(lia) Hn).
  split; [apply Z.div_pos; lia|].
  apply Z.div_lt_upper_bound; [lia|]. nia.
Qed.

Lemma as_u32_range x : is_u32 (as_u32 x).
Proof. unfold is_u32, as_u32. apply Z.mod_pos_bound. lia. Qed.
#[export] Hint Resolve as_u32_range : pkt.

Lemma alu_range op a v r : is_u32 a → is_u32 v → alu op a v = Some r → is_u32 r.
Proof.
  intros Ha Hv. unfold alu.
  assert (0 ≤ v .& 31) by (apply Z.land_nonneg; ulia).
  opcase; intros [= <-]; auto with pkt.
  - zbool. unfold is_u32 in *. split; [apply Z.div_pos; lia|].
    apply Z.div_lt_upper_bound; nia.
  - by apply lor_range.
  - apply land_range; [done..|ulia].
  - by apply shiftr_range.
  - by apply lxor_range.
Qed.

Lemma from_be_bytes_range bs :
  Forall is_u8 bs → 0 ≤ from_be_bytes bs < 256 ^ zlen bs.
Proof.
  unfold from_be_bytes. induction bs as [|b bs IH] using rev_ind; intros Hall.
  { change (0 ≤ 0 < 1). lia. }
  apply Forall_app in Hall as [Hbs Hb]. inversion Hb; subst.
  rewrite foldl_app. simpl. rewrite zlen_app. change (zlen [b]) with 1.
  specialize (IH Hbs). pose proof (zlen_nonneg bs).
  rewrite Z.pow_add_r by lia. unfold is_u8 in *. lia.
Qed.

Section registers.
Context (prog : list Insn) (pkt : list Z).
Hypothesis Hwf : wf_prog prog.
Hypothesis Hpkt : wf_pkt pkt.

Lemma slice_get_spec a b bs :
  0 ≤ a → slice_get pkt a b = Some bs → Forall is_u8 bs ∧ zlen bs = b - a ∧ b ≤ zlen pkt.
Proof.
  unfold slice_get. intros Ha. case_match eqn:E; [|done]. intros [= <-].
  zbool. split_and!; [|unfold zlen in *; rewrite length_take, length_drop; lia|done].
  apply Forall_take, Forall_drop, Hpkt.
Qed.

Lemma sized_load_range off size v :
  0 ≤ off → sized_load pkt off size = Some v → is_u32 v.
Proof.
  intros Hoff. unfold sized_load, checked_add.
  repeat case_match; simpl; try done; intros Hs.
  - destruct (slice_get pkt off (off + 4)) as [bs|] eqn:E; [|done]. simpl in Hs.
    simplify_eq. apply slice_get_spec in E as (? & Hl & _); [|done].
    pose proof (from_be_bytes_range bs ltac:(done)) as Hr.
    rewrite Hl in Hr. replace (off + 4 - off) with 4 in Hr by lia.
    change (256 ^ 4) with (2 ^ 32) in Hr. done.
  - destruct (slice_get pkt off (off + 2)) as [bs|] eqn:E; [|done]. simpl in Hs.
    simplify_eq. apply slice_get_spec in E as (? & Hl & _); [|done].
    pose proof (from_be_bytes_range bs ltac:(done)) as Hr.
    rewrite Hl in Hr. replace (off + 2 - off) with 2 in Hr by lia.
    change (256 ^ 2) with (2 ^ 16) in Hr. ulia.
  - destruct Hpkt as [Hb _]. apply (Forall_zget _ _ _ _ Hb) in Hs. ulia.
Qed.

Lemma load_a_range m insn v :
  wf_vm m → wf_insn insn → load_a pkt m insn = Some v → is_u32 v.
Proof.
  intros [] (_ & _ & _ & ?). unfold load_a.
  repeat case_match; intros Hv; simplify_eq; auto with pkt.
  - eapply sized_load_range; [|done]. ulia.
  - eapply sized_load_range; [|done]. apply as_u32_range.
  - by eapply Forall_zget.
Qed.

Lemma load_x_range m insn v :
  wf_vm m → wf_insn insn → load_x pkt m insn = Some v → is_u32 v.
Proof.
  intros [] (_ & _ & _ & ?). unfold load_x.
  repeat case_match; intros Hv; simplify_eq; auto with pkt.
  - destruct (zget pkt (i_k insn)) as [b|] eqn:Hb; simpl in Hv; simplify_eq.
    destruct Hpkt as [Hb' _]. apply (Forall_zget _ _ _ _ Hb') in Hb.
    pose proof (land_range 8 b 0xf ltac:(lia) Hb ltac:(lia)). ulia.
  - by eapply Forall_zget.
Qed.

Lemma store_wf m k v s :
  wf_vm m → is_u32 v → store m k v = Some s →
  Forall is_u32 s ∧ zlen s = SCRATCH.
Proof.
  intros [] Hv. unfold store. case_match; [|done]. intros [= <-].
  rewrite zlen_zset. auto using Forall_zset.
Qed.

Lemma uses_x_range m insn :
  wf_vm m → wf_insn insn → is_u32 (if uses_x insn then r_x m else i_k insn).
Proof. intros [] (_ & _ & _ & ?). by destruct (uses_x insn). Qed.

(** One turn of the loop keeps every register and scratch slot 32 bits wide. *)
Lemma step_wf m m' : wf_vm m → step prog pkt m = Next m' → wf_vm m'.
Proof.
  intros Hm Hs. pose proof Hm as [Ha Hx Hsc Hlen Hpc].
  pose proof (step_forward _ _ Hwf _ _ Hpc Hs) as [Hfwd _].
  revert Hs. unfold step.
  destruct (zget prog (r_pc m)) as [insn|] eqn:Hg; [|done].
  pose proof (wf_prog_get _ Hwf _ _ Hg) as Hi.
  assert (Hm1 : wf_vm (with_pc (r_pc m + 1) m)) by (constructor; simpl; auto; lia).
  pose proof (uses_x_range m insn Hm Hi) as Hv. revert Hv.
  unfold exec_insn. cbv zeta. simpl.
  generalize (if uses_x insn then r_x m else i_k insn) as v. intros v Hv.
  opcase; intros [= <-]; constructor; simpl in *; try done; try lia;
    eauto using load_a_range, load_x_range, alu_range;
    match goal with H : store _ _ _ = Some _ |- _ =>
      apply store_wf in H as [? ?]; done end.
Qed.
End registers.

(** * Reachable states *)

Inductive reaches (prog : list Insn) (pkt : list Z) : vm → Prop :=
  | reach_start : reaches prog pkt vm_start
  | reach_step m m' :
      reaches prog pkt m → step prog pkt m = Next m' → reaches prog pkt m'.

Lemma vm_start_wf : wf_vm vm_start.
Proof.
  constructor; simpl; try (unfold is_u32; lia); [|done].
  repeat constructor; unfold is_u32; lia.
Qed.

(** C28: the interpreter terminates on every program, one turn per instruction
    at most: the program counter only moves forward. *)
Theorem vm_terminates (prog : list Insn) (pkt : list Z) :
  wf_prog prog → is_Some (loop (fuel prog) prog pkt vm_start).
Proof.
  intros Hwf. apply loop_total; [done|..]; unfold fuel, vm_start, zlen; simpl; lia.
Qed.

Definition sample_prog : list Insn :=
  [ldh_abs 12; jeq_k 0x0800 0 1; ret_k BPF_ACCEPT; ret_k BPF_DROP].

Lemma vm_terminates_witness : is_Some (loop (fuel sample_prog) sample_prog [0; 1] vm_start).
Proof. apply (vm_terminates sample_prog [0; 1]). apply (bool_decide_unpack _). by vm_compute. Defined.

(** C30: in every state the interpreter reaches, A, X and the sixteen scratch
    slots hold 32-bit values. *)
Theorem vm_registers_u32 (prog : list Insn) (pkt : list Z) (m : vm) :
  wf_prog prog → wf_pkt pkt → reaches prog pkt m → wf_vm m.
Proof. induction 3; eauto using vm_start_wf, step_wf. Qed.

Lemma vm_registers_u32_witness : wf_vm (mk_vm 0x0800 0 (replicate 16 0) 1).
Proof.
  apply (vm_registers_u32 sample_prog (replicate 12 0 ++ [8; 0])).
  - apply (bool_decide_unpack _). by vm_compute.
  - apply (bool_decide_unpack _). by vm_compute.
  - eapply reach_step; [apply reach_start|]. vm_compute. reflexivity.
Defined.
