(* ===== verification/Optimizer.v ===== *)
(** The peephole optimizer (optimizer.rs): jump threading, redundant-load and
    dead-code elimination over a vector of instructions, and [dedup_loads]. *)

From S2P Require Export Bpf.

(** [v[i]], for an index that is in range where it is used. *)
Definition index {A} (d : A) (l : list A) (i : Z) : A :=
  match zget l i with Some x => x | None => d end.

Definition is_ja (insn : Insn) : bool :=
  (i_code insn .& 0x07 =? BPF_JMP) && (i_code insn .& 0xf0 =? BPF_JA).

Definition is_cond_jump (insn : Insn) : bool :=
  (i_code insn .& 0x07 =? BPF_JMP) && negb (i_code insn .& 0xf0 =? BPF_JA).

Definition is_ld_abs (insn : Insn) : bool :=
  i_code insn .& 0xe7 =? (BPF_LD .| BPF_ABS).

Definition is_ret (insn : Insn) : bool := i_code insn .& 0x07 =? BPF_RET.

Definition writes_a (insn : Insn) : bool :=
  let class := i_code insn .& 0x07 in
  (class =? BPF_LD) || (class =? BPF_ALU)
  || ((class =? BPF_MISC) && (i_code insn .& 0xf8 =? BPF_TXA)).

(** * Pass 1: jump threading *)

(** [if t < n { fin[t] } else { t }] *)
Definition final_target (fin : list Z) (t : Z) : Z :=
  if t <? zlen fin then index t fin t else t.

(** One turn of the back-to-front loop that fills [fin]. *)
Definition fin_step (l : list Insn) (i : Z) (fin : list Z) : list Z :=
  match zget l i with
  | Some insn =>
      if is_ja insn then zset i (final_target fin (i + 1 + i_k insn)) fin else fin
  | None => fin
  end.

Definition compute_fin (l : list Insn) : list Z :=
  foldr (fin_step l) (seqZ 0 (zlen l)) (seqZ 0 (zlen l)).

(** [u8::try_from(off)] into a jump field, left alone when it overflows. *)
Definition try_u8 (off old : Z) : Z := if off <=? u8_max then off else old.

Definition thread_insn (fin : list Z) (i : Z) (insn : Insn) : Insn :=
  if is_ja insn then
    let t := final_target fin (i + 1 + i_k insn) in
    set_k (as_u32 (t - i - 1)) insn
  else if is_cond_jump insn then
    let jt_target := final_target fin (i + 1 + i_jt insn) in
    let insn1 := set_jt (try_u8 (jt_target - i - 1) (i_jt insn)) insn in
    let jf_target := final_target fin (i + 1 + i_jf insn) in
    set_jf (try_u8 (jf_target - i - 1) (i_jf insn)) insn1
  else insn.

Definition thread_jumps (l : list Insn) : list Insn :=
  let fin := compute_fin l in
  imap (λ i insn, thread_insn fin (Z.of_nat i) insn) l.

(** * Pass 2: redundant loads *)

Inductive AState :=
  | Unknown
  | Load (code k : Z).

#[export] Instance AState_eq_dec : EqDecision AState.
Proof. solve_decision. Defined.

Definition meet (slot : option AState) (incoming : AState) : option AState :=
  Some (match slot with
        | None => incoming
        | Some prev => if decide (prev = incoming) then incoming else Unknown
        end).

(** [if t < len { meet(&mut in_state[t], out) }] *)
Definition meet_at (t : Z) (out : AState) (in_state : list (option AState)) :
    list (option AState) :=
  if t <? zlen in_state then zset t (meet (index None in_state t) out) in_state
  else in_state.

(** The state after [insn], and whether [insn] is a redundant load. *)
Definition a_transfer (insn : Insn) (state : AState) : AState :=
  if is_ld_abs insn then Load (i_code insn) (i_k insn)
  else if writes_a insn then Unknown
  else state.

Definition is_redundant (insn : Insn) (state : AState) : bool :=
  is_ld_abs insn && bool_decide (state = Load (i_code insn) (i_k insn)).

(** The indices control can pass to after instruction [i]. *)
Definition successors (i : Z) (insn : Insn) : list Z :=
  if is_ret insn then []
  else if is_ja insn then [i + 1 + i_k insn]
  else if is_cond_jump insn then [i + 1 + i_jt insn; i + 1 + i_jf insn]
  else [i + 1].

Definition marks_step (l : list Insn) (st : list bool * list (option AState)) (i : Z) :
    list bool * list (option AState) :=
  let '(marks, in_state) := st in
  match zget l i, index None in_state i with
  | Some insn, Some state =>
      let marks' := if is_redundant insn state then zset i true marks else marks in
      let out := a_transfer insn state in
      (marks', foldl (λ s t, meet_at t out s) in_state (successors i insn))
  | _, _ => (marks, in_state)
  end.

Definition marks_init (l : list Insn) : list bool * list (option AState) :=
  (replicate (length l) false, zset 0 (Some Unknown) (replicate (length l) None)).

Definition redundant_load_marks (l : list Insn) : list bool :=
  (foldl (marks_step l) (marks_init l) (seqZ 0 (zlen l))).1.

(** * Pass 3: dead code *)

(** The worklist; the top of the stack is the head of [stack]. *)
Fixpoint reach_loop (n : nat) (l : list Insn) (stack : list Z) (reachable : list bool) :
    option (list bool) :=
  match n with
  | O => None
  | S n' =>
      match stack with
      | [] => Some reachable
      | i :: stack' =>
          match zget l i with
          | None => reach_loop n' l stack' reachable
          | Some insn =>
              if index false reachable i then reach_loop n' l stack' reachable
              else
                reach_loop n' l (reverse (successors i insn) ++ stack')
                  (zset i true reachable)
          end
      end
  end.

(** Each instruction pushes at most two indices, once. *)
Definition reach_fuel (l : list Insn) : nat := 2 * length l + 2.

Definition reachable_marks (l : list Insn) : list bool :=
  match reach_loop (reach_fuel l) l [0] (replicate (length l) false) with
  | Some r => r
  | None => replicate (length l) false
  end.

(** [new_index], one longer than [keep]. *)
Fixpoint new_index_from (count : Z) (keep : list bool) : list Z :=
  match keep with
  | [] => [count]
  | k :: keep' => count :: new_index_from (count + Z.b2z k) keep'
  end.

Definition renumber_insn (new_index : list Z) (i : Z) (insn : Insn) : Insn :=
  let at_ (t : Z) := index 0 new_index t in
  let clip (t : Z) := Z.min t (zlen new_index - 1) in
  if is_ja insn then
    set_k (as_u32 (at_ (clip (i + 1 + i_k insn)) - at_ i - 1)) insn
  else if is_cond_jump insn then
    set_jf (as_u8 (at_ (clip (i + 1 + i_jf insn)) - at_ i - 1))
      (set_jt (as_u8 (at_ (clip (i + 1 + i_jt insn)) - at_ i - 1)) insn)
  else insn.

(** The rebuilding loop from old index [i] on. *)
Fixpoint rebuild (new_index : list Z) (i : Z) (l : list Insn) (keep : list bool) : list Insn :=
  match l, keep with
  | insn :: l', k :: keep' =>
      if k then renumber_insn new_index i insn :: rebuild new_index (i + 1) l' keep'
      else rebuild new_index (i + 1) l' keep'
  | _, _ => []
  end.

Definition remove_unkept (l : list Insn) (keep : list bool) : list Insn :=
  if forallb id keep then l
  else rebuild (new_index_from 0 keep) 0 l keep.

Definition keep_marks (l : list Insn) : list bool :=
  let redundant := redundant_load_marks l in
  let reachable := reachable_marks l in
  imap (λ i insn,
    index false reachable (Z.of_nat i) && negb (index false redundant (Z.of_nat i))
    && negb (is_ja insn && (i_k insn =? 0))) l.

Definition optimize (l : list Insn) : list Insn :=
  let l1 := thread_jumps l in
  remove_unkept l1 (keep_marks l1).

(** * [dedup_loads] *)

Definition adjust_field (removed_idx src field : Z) : Z :=
  if (removed_idx <=? src + 1 + field) && (0 <? field) then field - 1 else field.

Definition adjust_insn (removed_idx src : Z) (insn : Insn) : Insn :=
  if negb (i_code insn .& 0x07 =? BPF_JMP) then insn
  else if removed_idx <=? src then insn
  else if i_code insn .& 0xf0 =? BPF_JA then
    if removed_idx <=? src + 1 + i_k insn then set_k (i_k insn - 1) insn else insn
  else
    set_jf (adjust_field removed_idx src (i_jf insn))
      (set_jt (adjust_field removed_idx src (i_jt insn)) insn).

Definition adjust_jumps (l : list Insn) (removed_idx : Z) : list Insn :=
  imap (λ src insn, adjust_insn removed_idx (Z.of_nat src) insn) l.

(** [Vec::remove] *)
Definition vec_remove (i : Z) (l : list Insn) : list Insn := delete (Z.to_nat i) l.

Fixpoint dedup_loop (n : nat) (i : Z) (l : list Insn) : option (list Insn) :=
  match n with
  | O => None
  | S n' =>
      match zget l i, zget l (i + 1) with
      | Some cur, Some nxt =>
          if is_ld_abs cur && is_ld_abs nxt && (i_code cur =? i_code nxt)
             && (i_k cur =? i_k nxt)
          then dedup_loop n' i (adjust_jumps (vec_remove (i + 1) l) (i + 1))
          else dedup_loop n' (i + 1) l
      | _, _ => Some l
      end
  end.

Definition dedup_loads (l : list Insn) : list Insn :=
  match l with
  | [] => []
  | _ => match dedup_loop (S (length l)) 0 l with Some l' => l' | None => l end
  end.

(** * The unit tests of the module *)

Example threading_retargets_cond_jump_through_ja :
  optimize [ldh_abs 12; jeq_k 0x0800 0 2; ja 0; ret_k BPF_ACCEPT; ret_k BPF_DROP]
  = [ldh_abs 12; jeq_k 0x0800 0 1; ret_k BPF_ACCEPT; ret_k BPF_DROP].
Proof. vm_compute. reflexivity. Qed.

Example cond_jump_offsets_survive_removal :
  optimize [jeq_k 1 0 4; ldh_abs 0; ldh_abs 0; jeq_k 2 0 1; ret_k BPF_ACCEPT; ret_k BPF_DROP]
  = [jeq_k 1 0 3; ldh_abs 0; jeq_k 2 0 1; ret_k BPF_ACCEPT; ret_k BPF_DROP].
Proof. vm_compute. reflexivity. Qed.
