(* ===== verification/OptimizerCorrect.v ===== *)
(** Correctness of the peephole optimizer: each pass, and their composition,
    preserves the outcome of the interpreter on every packet. *)

From S2P Require Export Vm Optimizer.

(** * Instructions by their control flow *)

(** [m1] and [m2] differ at most in the program counter. *)
Definition same_regs (m1 m2 : vm) : Prop := with_pc 0 m1 = with_pc 0 m2.

Lemma with_pc_same p m : same_regs (with_pc p m) m.
Proof. done. Qed.

Lemma with_pc_with_pc p q m : with_pc p (with_pc q m) = with_pc p m.
Proof. done. Qed.

Lemma with_pc_id m : with_pc (r_pc m) m = m.
Proof. by destruct m. Qed.

Section control.
Context (pkt : list Z).
Implicit Types (m : vm) (i : Insn).

Lemma exec_insn_ja m i :
  is_ja i = true → exec_insn pkt m i = Next (with_pc (as_usize (r_pc m + i_k i)) m).
Proof.
  unfold is_ja, exec_insn. intros H. zbool. rewrite H, H0. done.
Qed.

(** The outcome of a conditional jump's test. *)
Definition cond_test (i : Insn) (m : vm) : option bool :=
  jump_taken (i_code i .& 0xf0) (r_a m) (if uses_x i then r_x m else i_k i).

Lemma exec_insn_cond m i :
  is_cond_jump i = true →
  exec_insn pkt m i =
  match cond_test i m with
  | Some b => Next (with_pc (r_pc m + (if b then i_jt i else i_jf i)) m)
  | None => Done None
  end.
Proof.
  unfold is_cond_jump, exec_insn. intros H. zbool. rewrite H.
  apply Z.eqb_neq in H0. cbv zeta. rewrite H0. done.
Qed.

Definition is_jump (i : Insn) : bool := is_ja i || is_cond_jump i.

Lemma is_jump_class i : is_jump i = (i_code i .& 0x07 =? BPF_JMP).
Proof.
  unfold is_jump, is_ja, is_cond_jump.
  destruct (i_code i .& 0x07 =? BPF_JMP), (i_code i .& 0xf0 =? BPF_JA); done.
Qed.

Definition turn_with_pc (p : Z) (t : turn) : turn :=
  match t with Next m => Next (with_pc p m) | Done r => Done r end.

(** An instruction that is not a jump falls through and is relocatable. *)
Lemma exec_insn_plain p m i :
  is_jump i = false →
  exec_insn pkt (with_pc p m) i = turn_with_pc p (exec_insn pkt m i) ∧
  (∀ m', exec_insn pkt m i = Next m' → r_pc m' = r_pc m).
Proof.
  rewrite is_jump_class. unfold exec_insn. cbv zeta. intros H. simpl.
  rewrite H. unfold load_a, load_x, store. simpl.
  opcase; simpl; split; try done; intros ? [= <-]; done.
Qed.

Lemma exec_insn_ret m i :
  is_ret i = true → ∃ r, exec_insn pkt m i = Done r.
Proof.
  unfold is_ret, exec_insn. intros H. zbool. rewrite H. simpl. eauto.
Qed.
End control.

(** Where control goes next: [successors] covers every continuing turn. *)
Lemma exec_insn_successor pkt m i idx insn m' :
  i = r_pc m - 1 → idx = i → exec_insn pkt m insn = Next m' →
  0 ≤ i_k insn → 0 ≤ r_pc m → r_pc m + i_k insn < 2 ^ 64 →
  r_pc m' ∈ successors idx insn.
Proof.
  intros -> -> Hx Hk Hpc Hlim. unfold successors.
  destruct (is_ret insn) eqn:Hr.
  { destruct (exec_insn_ret pkt m insn Hr) as [r Hd]. congruence. }
  destruct (is_ja insn) eqn:Hja.
  { rewrite exec_insn_ja in Hx by done. simplify_eq/=.
    rewrite list_elem_of_singleton. ulia. }
  destruct (is_cond_jump insn) eqn:Hcj.
  { rewrite exec_insn_cond in Hx by done.
    destruct (cond_test insn m) as [[]|]; simplify_eq/=; set_unfold; lia. }
  assert (Hp : is_jump insn = false) by (unfold is_jump; by rewrite Hja, Hcj).
  apply (exec_insn_plain pkt (r_pc m) m) in Hp as [_ Hp].
  apply Hp in Hx. rewrite list_elem_of_singleton. lia.
Qed.

(** * Jump threading *)

Lemma index_spec {A} (d : A) l i x : zget l i = Some x → index d l i = x.
Proof. unfold index. by intros ->. Qed.

Lemma index_zset_eq {A} (d : A) l i x : 0 ≤ i < zlen l → index d (zset i x l) i = x.
Proof. intros. by apply index_spec, zget_zset_eq. Qed.

Lemma index_zset_ne {A} (d : A) l i j x : i ≠ j → index d (zset i x l) j = index d l j.
Proof. intros. unfold index. by rewrite zget_zset_ne. Qed.

Lemma final_target_zset fin i x t :
  i < t → final_target (zset i x fin) t = final_target fin t.
Proof.
  intros. unfold final_target. rewrite zlen_zset. case_match; [|done].
  unfold index. by rewrite zget_zset_ne by lia.
Qed.

Lemma zlen_seqZ a n : 0 ≤ n → zlen (seqZ a n) = n.
Proof. intros. unfold zlen. rewrite length_seqZ. lia. Qed.

Lemma zget_seqZ a n i : 0 ≤ i < n → zget (seqZ a n) i = Some (a + i).
Proof.
  intros. rewrite zget_spec, decide_True by lia.
  apply lookup_seqZ. lia.
Qed.

Section fin.
Context (l : list Insn).
Hypothesis Hl : Forall wf_insn l.

Lemma l_insn i insn : zget l i = Some insn → wf_insn insn.
Proof. by apply Forall_zget. Qed.

Definition fin_from (lo : Z) : list Z :=
  foldr (fin_step l) (seqZ 0 (zlen l)) (seqZ lo (zlen l - lo)).

Lemma fin_from_step lo :
  lo < zlen l → fin_from lo = fin_step l lo (fin_from (lo + 1)).
Proof.
  intros. unfold fin_from. rewrite (seqZ_cons lo) by lia. simpl.
  by replace (Z.pred (zlen l - lo)) with (zlen l - (lo + 1)) by lia.
Qed.

Lemma zlen_fin_step i fin : zlen (fin_step l i fin) = zlen fin.
Proof. unfold fin_step. repeat case_match; by rewrite ?zlen_zset. Qed.

(** [fin] from index [lo] on; smaller indices still hold themselves. *)
Lemma fin_from_spec k lo :
  0 ≤ lo → zlen l - lo = Z.of_nat k →
  zlen (fin_from lo) = zlen l ∧
  (∀ i, 0 ≤ i < lo → index i (fin_from lo) i = i) ∧
  (∀ i insn, lo ≤ i → zget l i = Some insn →
     index i (fin_from lo) i =
       if is_ja insn then final_target (fin_from lo) (i + 1 + i_k insn) else i).
Proof.
  revert lo. induction k as [|k IH]; intros lo Hlo Hk.
  { unfold fin_from. replace (zlen l - lo) with 0 by lia. simpl.
    rewrite zlen_seqZ by apply zlen_nonneg. split_and!; [done| |].
    - intros i Hi. unfold index. by rewrite zget_seqZ by lia.
    - intros i insn Hi Hg. apply zget_Some_lt in Hg. lia. }
  destruct (IH (lo + 1)) as (Hlen & Hlow & Hhigh); [lia..|].
  rewrite fin_from_step by lia.
  split; [by rewrite zlen_fin_step|].
  unfold fin_step. destruct (zget l lo) as [ilo|] eqn:Hglo; cycle 1.
  { apply zget_None in Hglo. lia. }
  pose proof (l_insn _ _ Hglo) as (_ & _ & _ & Hklo).
  destruct (is_ja ilo) eqn:Eja; split.
  - intros i Hi. rewrite index_zset_ne by lia. apply Hlow. lia.
  - intros i insn Hi Hg. pose proof (l_insn _ _ Hg) as (_ & _ & _ & Hki).
    rewrite final_target_zset by ulia.
    destruct (decide (i = lo)) as [->|].
    + rewrite index_zset_eq by lia. simplify_eq. by rewrite Eja.
    + rewrite index_zset_ne by lia. apply Hhigh; [lia|done].
  - intros i Hi. apply Hlow. lia.
  - intros i insn Hi Hg. destruct (decide (i = lo)) as [->|].
    + simplify_eq. rewrite Eja. apply Hlow. lia.
    + apply Hhigh; [lia|done].
Qed.

Lemma compute_fin_from : compute_fin l = fin_from 0.
Proof. unfold compute_fin, fin_from. by rewrite Z.sub_0_r. Qed.

Lemma zlen_compute_fin : zlen (compute_fin l) = zlen l.
Proof.
  rewrite compute_fin_from.
  apply (fin_from_spec (length l) 0); unfold zlen; lia.
Qed.

(** The equation that defines the final target of every index. *)
Lemma final_target_eq t :
  0 ≤ t →
  final_target (compute_fin l) t =
  match zget l t with
  | Some insn =>
      if is_ja insn then final_target (compute_fin l) (t + 1 + i_k insn) else t
  | None => t
  end.
Proof.
  intros Ht. rewrite compute_fin_from.
  destruct (fin_from_spec (length l) 0) as (Hlen & _ & Hspec);
    [unfold zlen; lia..|].
  unfold final_target at 1. rewrite Hlen.
  destruct (zget l t) as [insn|] eqn:Hg.
  - pose proof (zget_Some_lt _ _ _ Hg).
    rewrite (proj2 (Z.ltb_lt _ _)) by lia. apply Hspec; [lia|done].
  - apply zget_None in Hg. by rewrite (proj2 (Z.ltb_ge _ _)) by lia.
Qed.

(** Induction on the distance to the end of the program. *)
Lemma forward_ind (P : Z → Prop) :
  (∀ t, 0 ≤ t → (∀ u, t < u → t < zlen l → P u) → P t) → ∀ t, 0 ≤ t → P t.
Proof.
  intros Hstep. assert (∀ k t, 0 ≤ t → zlen l - t ≤ Z.of_nat k → P t) as Hk.
  { induction k as [|k IH]; intros t Ht Hb; apply Hstep; try done; intros.
    - lia.
    - apply IH; lia. }
  intros t Ht. apply (Hk (length l)); unfold zlen; lia.
Qed.

Lemma final_target_ge t : 0 ≤ t → t ≤ final_target (compute_fin l) t.
Proof.
  revert t. apply (forward_ind (λ t, t ≤ _)). intros t Ht IH.
  rewrite final_target_eq by done.
  destruct (zget l t) as [insn|] eqn:Hg; [|lia].
  pose proof (zget_Some_lt _ _ _ Hg). pose proof (l_insn _ _ Hg) as (_ & _ & _ & Hki).
  case_match; [|lia].
  etrans; [|apply IH; ulia]. ulia.
Qed.

(** A program whose [ja] targets stay addressable with 32 bits. *)
Definition ja_targets_ok : Prop :=
  zlen l ≤ 2 ^ 32 ∧
  ∀ i insn, zget l i = Some insn → is_ja insn = true → i + 1 + i_k insn ≤ 2 ^ 32.

Lemma final_target_le t :
  ja_targets_ok → 0 ≤ t ≤ 2 ^ 32 → final_target (compute_fin l) t ≤ 2 ^ 32.
Proof.
  intros [_ Hja] [Ht Hle]. revert t Ht Hle.
  apply (forward_ind (λ t, _ ≤ _ → _ ≤ _)). intros t Ht IH Hle.
  rewrite final_target_eq by done.
  destruct (zget l t) as [insn|] eqn:Hg; [|lia].
  pose proof (zget_Some_lt _ _ _ Hg). pose proof (l_insn _ _ Hg) as (_ & _ & _ & Hki).
  destruct (is_ja insn) eqn:Eja; [|lia].
  apply IH; [ulia|lia|]. by eapply Hja.
Qed.

(** Following the chain of [ja]s does not change the outcome. *)
Lemma exec_final_target pkt m t :
  wf_prog l → 0 ≤ t →
  exec l pkt (with_pc t m) = exec l pkt (with_pc (final_target (compute_fin l) t) m).
Proof.
  intros Hwf Ht. revert t Ht.
  apply (forward_ind (λ t, exec _ _ (with_pc t _) = _)). intros t Ht IH.
  rewrite final_target_eq by done.
  destruct (zget l t) as [insn|] eqn:Hg; [|done].
  pose proof (zget_Some_lt _ _ _ Hg). pose proof (l_insn _ _ Hg) as (_ & _ & _ & Hki).
  destruct (is_ja insn) eqn:Eja; [|done].
  rewrite <- IH by ulia.
  apply exec_next; [done..|].
  unfold step. simpl. rewrite Hg. rewrite exec_insn_ja by done. simpl.
  unfold with_pc. simpl. do 2 f_equal. destruct Hwf. ulia.
Qed.
End fin.

Lemma zget_imap {A B} (f : Z → A → B) (l : list A) i :
  zget (imap (λ j, f (Z.of_nat j)) l) i = f i <$> zget l i.
Proof.
  rewrite !zget_spec. case_decide; [|done]. rewrite list_lookup_imap.
  destruct (l !! Z.to_nat i); simpl; [|done]. by rewrite Z2Nat.id by lia.
Qed.

Lemma zlen_imap {A B} (f : nat → A → B) (l : list A) : zlen (imap f l) = zlen l.
Proof. unfold zlen. by rewrite length_imap. Qed.

(** One turn, at the level of outcomes. *)
Section exec_at.
Context (l : list Insn) (pkt : list Z).
Hypothesis Hwf : wf_prog l.

Lemma exec_at_ja m i :
  0 ≤ r_pc m → zget l (r_pc m) = Some i → is_ja i = true →
  exec l pkt m = exec l pkt (with_pc (r_pc m + 1 + i_k i) m).
Proof.
  intros Hpc Hg Hja. apply exec_next; [done..|].
  unfold step. rewrite Hg, exec_insn_ja by done.
  pose proof (wf_prog_get _ Hwf _ _ Hg) as (_ & _ & _ & Hk).
  pose proof (zget_Some_lt _ _ _ Hg). destruct Hwf as [_ Hlen].
  unfold with_pc. simpl. do 2 f_equal. ulia.
Qed.

Lemma exec_at_cond m i :
  0 ≤ r_pc m → zget l (r_pc m) = Some i → is_cond_jump i = true →
  exec l pkt m =
  match cond_test i m with
  | Some b => exec l pkt (with_pc (r_pc m + 1 + (if b then i_jt i else i_jf i)) m)
  | None => None
  end.
Proof.
  intros Hpc Hg Hcj. rewrite exec_step by done. unfold step.
  rewrite Hg, exec_insn_cond by done.
  change (cond_test i (with_pc _ m)) with (cond_test i m).
  by destruct (cond_test i m).
Qed.

Lemma exec_at_plain m i :
  0 ≤ r_pc m → zget l (r_pc m) = Some i → is_jump i = false →
  exec l pkt m =
  match exec_insn pkt m i with
  | Next m' => exec l pkt (with_pc (r_pc m + 1) m')
  | Done r => r
  end.
Proof.
  intros Hpc Hg Hp. rewrite exec_step by done. unfold step. rewrite Hg.
  destruct (exec_insn_plain pkt (r_pc m + 1) m i Hp) as [-> _].
  by destruct (exec_insn pkt m i).
Qed.
End exec_at.

(** A rewriting of the instructions, index by index, is correct when every
    turn of the new program matches a turn of the old one. *)
Section pointwise.
Context (l l' : list Insn) (pkt : list Z).
Hypothesis Hwf : wf_prog l.
Hypothesis Hwf' : wf_prog l'.
Hypothesis Hlen : zlen l' = zlen l.
Hypothesis Hturn : ∀ m insn,
  0 ≤ r_pc m → zget l (r_pc m) = Some insn →
  (∀ p n, r_pc m < p → exec l pkt (with_pc p n) = exec l' pkt (with_pc p n)) →
  exec l pkt m = exec l' pkt m.

Lemma pointwise_exec m : 0 ≤ r_pc m → exec l pkt m = exec l' pkt m.
Proof.
  enough (∀ t, 0 ≤ t → ∀ n, exec l pkt (with_pc t n) = exec l' pkt (with_pc t n)) as He
    by (intros; rewrite <- (with_pc_id m); auto).
  apply (forward_ind l (λ t, ∀ n, exec _ _ _ = exec _ _ _)). intros t Ht IH n.
  destruct (zget l t) as [insn|] eqn:Hg.
  - apply (Hturn _ insn); [done..|]. simpl. intros p q Hp.
    apply IH; [done|]. apply (zget_Some_lt _ _ _ Hg).
  - apply zget_None in Hg.
    rewrite !exec_oob; simpl; try done; lia.
Qed.
End pointwise.

Section thread.
Context (l : list Insn).
Hypothesis Hwf : wf_prog l.
Hypothesis Hja : ja_targets_ok l.

Let Hl : Forall wf_insn l := proj1 Hwf.

Lemma try_u8_range off old : 0 ≤ off → is_u8 old → is_u8 (try_u8 off old).
Proof. unfold try_u8. intros. case_match; zbool; ulia. Qed.

Lemma thread_insn_wf i insn :
  zget l i = Some insn → wf_insn (thread_insn (compute_fin l) i insn).
Proof.
  intros Hg. pose proof (zget_Some_lt _ _ _ Hg).
  pose proof (l_insn l Hl _ _ Hg) as (Hc & Hjt & Hjf & Hk).
  pose proof (λ t, final_target_ge l Hl t) as Hge.
  unfold thread_insn. case_match; [|case_match; [|done]].
  - repeat split; simpl; try apply Hc; try apply Hjt; try apply Hjf; apply as_u32_range.
  - repeat split; simpl; try apply Hc; try apply Hk.
    all: apply try_u8_range; try done.
    + specialize (Hge (i + 1 + i_jt insn)). ulia.
    + specialize (Hge (i + 1 + i_jt insn)). ulia.
    + specialize (Hge (i + 1 + i_jf insn)). ulia.
    + specialize (Hge (i + 1 + i_jf insn)). ulia.
Qed.

Lemma zget_thread i :
  zget (thread_jumps l) i = thread_insn (compute_fin l) i <$> zget l i.
Proof. apply zget_imap. Qed.

Lemma thread_jumps_wf : wf_prog (thread_jumps l).
Proof.
  split; [|unfold thread_jumps; rewrite zlen_imap; apply Hwf].
  apply Forall_lookup. intros i insn Hi.
  assert (Hz : zget (thread_jumps l) (Z.of_nat i) = Some insn).
  { by rewrite zget_spec, decide_True, Nat2Z.id by lia. }
  rewrite zget_thread in Hz. apply fmap_Some in Hz as (insn0 & Hg & ->).
  by apply thread_insn_wf.
Qed.

Lemma try_u8_target t old i : 
  i + 1 + try_u8 (t - i - 1) old = t ∨ try_u8 (t - i - 1) old = old.
Proof. unfold try_u8. case_match; [left; lia|by right]. Qed.

(** The turn at a conditional jump: both tests agree, and whichever target
    threading kept or replaced, it leads to the same outcome. *)
Lemma thread_target_exec pkt m i t old u :
  0 ≤ i → t = i + 1 + old → 0 ≤ old →
  u = i + 1 + try_u8 (final_target (compute_fin l) t - i - 1) old →
  (∀ p n, i < p → exec l pkt (with_pc p n) = exec (thread_jumps l) pkt (with_pc p n)) →
  exec l pkt (with_pc t m) = exec (thread_jumps l) pkt (with_pc u m).
Proof.
  intros Hi -> Hold -> IH.
  destruct (try_u8_target (final_target (compute_fin l) (i + 1 + old)) old i)
    as [->| ->].
  - rewrite exec_final_target by (done || lia). apply IH.
    pose proof (final_target_ge l Hl (i + 1 + old)). lia.
  - apply IH. lia.
Qed.

Lemma thread_jumps_exec pkt m :
  0 ≤ r_pc m → exec l pkt m = exec (thread_jumps l) pkt m.
Proof.
  apply pointwise_exec; [done|apply thread_jumps_wf|apply zlen_imap|].
  clear m. intros m insn Hpc Hg IH.
  pose proof (l_insn l Hl _ _ Hg) as (_ & Hjt & Hjf & Hk).
  pose proof (zget_Some_lt _ _ _ Hg) as Hlt.
  pose proof (zget_thread (r_pc m)) as Hg'. rewrite Hg in Hg'. simpl in Hg'.
  pose proof thread_jumps_wf as Hwf'.
  destruct (is_ja insn) eqn:Ej; [|destruct (is_cond_jump insn) eqn:Ec].
  - unfold thread_insn in Hg'. rewrite Ej in Hg'.
    rewrite (exec_at_ja l pkt Hwf _ _ Hpc Hg) by done. rewrite (exec_at_ja _ _ Hwf' _ _ Hpc Hg') by done.
    rewrite exec_final_target by (done || ulia). simpl.
    pose proof (final_target_ge l Hl (r_pc m + 1 + i_k insn)).
    pose proof (final_target_le l Hl (r_pc m + 1 + i_k insn) Hja) as Hle.
    destruct Hja as [_ Hja']. specialize (Hja' _ _ Hg Ej).
    rewrite IH by ulia. do 2 f_equal. ulia.
  - unfold thread_insn in Hg'. rewrite Ej, Ec in Hg'.
    rewrite (exec_at_cond l pkt Hwf _ _ Hpc Hg) by done. rewrite (exec_at_cond _ _ Hwf' _ _ Hpc Hg') by done.
    simpl. change (cond_test _ m) with (cond_test insn m) at 2.
    destruct (cond_test insn m) as [[]|]; [..|done];
      (eapply thread_target_exec; [done|done|ulia|done|done]).
  - unfold thread_insn in Hg'. rewrite Ej, Ec in Hg'.
    assert (Hp : is_jump insn = false) by (unfold is_jump; by rewrite Ej, Ec).
    rewrite (exec_at_plain l pkt Hwf _ _ Hpc Hg) by done. rewrite (exec_at_plain _ _ Hwf' _ _ Hpc Hg') by done.
    destruct (exec_insn pkt m insn); [|done]. apply IH. lia.
Qed.
End thread.

(** * Renumbering *)

Section renumber.
Context (l : list Insn) (keep : list bool).
Hypothesis Hkeep : zlen keep = zlen l.

(** Number of kept instructions before index [t]. *)
Definition kept_before (t : Z) : Z := index 0 (new_index_from 0 keep) t.

Lemma zlen_new_index c ks : zlen (new_index_from c ks) = zlen ks + 1.
Proof.
  revert c. induction ks as [|k ks IH]; intros c; simpl; [done|].
  rewrite !zlen_cons, IH. lia.
Qed.

Lemma index_cons_0 {A} (d x : A) xs : index d (x :: xs) 0 = x.
Proof. by apply index_spec. Qed.

Lemma index_cons_S {A} (d x : A) xs i : 0 < i → index d (x :: xs) i = index d xs (i - 1).
Proof. intros. unfold index. by rewrite zget_cons_S. Qed.

Lemma new_index_0 c ks : index 0 (new_index_from c ks) 0 = c.
Proof. by destruct ks. Qed.

Lemma new_index_succ c ks t :
  0 ≤ t < zlen ks →
  index 0 (new_index_from c ks) (t + 1) =
  index 0 (new_index_from c ks) t + Z.b2z (index false ks t).
Proof.
  revert c t. induction ks as [|k ks IH]; intros c t Ht; simpl.
  { znil. lia. }
  rewrite zlen_cons in Ht. rewrite index_cons_S by lia.
  destruct (decide (t = 0)) as [->|].
  - rewrite !index_cons_0. change (0 + 1 - 1) with 0. by rewrite new_index_0.
  - rewrite !(index_cons_S _ _ _ t) by lia.
    replace (t + 1 - 1) with (t - 1 + 1) by lia. apply IH. lia.
Qed.

Lemma kept_before_succ t :
  0 ≤ t < zlen l → kept_before (t + 1) = kept_before t + Z.b2z (index false keep t).
Proof. intros. apply new_index_succ. lia. Qed.

Lemma kept_before_mono k s :
  0 ≤ s → s + Z.of_nat k ≤ zlen l →
  kept_before s ≤ kept_before (s + Z.of_nat k) ≤ kept_before s + Z.of_nat k.
Proof.
  intros Hs. induction k as [|k IH]; intros Hk.
  { rewrite Z.add_0_r. lia. }
  rewrite Nat2Z.inj_succ. replace (s + Z.succ (Z.of_nat k)) with (s + Z.of_nat k + 1) by lia.
  rewrite kept_before_succ by lia. destruct (index false keep _); simpl; lia.
Qed.

Lemma kept_before_bounds s t :
  0 ≤ s ≤ t → t ≤ zlen l → kept_before s ≤ kept_before t ≤ kept_before s + (t - s).
Proof.
  intros Hs Ht. pose proof (kept_before_mono (Z.to_nat (t - s)) s) as H.
  rewrite Z2Nat.id in H by lia. replace (s + (t - s)) with t in H by lia. lia.
Qed.

Lemma kept_before_0 : kept_before 0 = 0.
Proof. apply new_index_0. Qed.

Lemma zlen_rebuild nix c i ls ks :
  zlen ls = zlen ks →
  zlen (rebuild nix i ls ks) = index 0 (new_index_from c ks) (zlen ks) - c.
Proof.
  revert c i ks. induction ls as [|x ls IH]; intros c i [|k ks] Hl; simpl;
    try zlen_lia.
  { rewrite index_cons_0. znil. lia. }
  autorewrite with zlen in Hl |- *.
  rewrite index_cons_S by zlen_lia. replace (1 + zlen ks - 1) with (zlen ks) by lia.
  specialize (IH (c + Z.b2z k) (i + 1) ks ltac:(lia)).
  destruct k; simpl in *; rewrite ?zlen_cons, IH; lia.
Qed.

Lemma zget_rebuild nix c i ls ks j insn :
  zlen ls = zlen ks → zget ls j = Some insn → index false ks j = true →
  zget (rebuild nix i ls ks) (index 0 (new_index_from c ks) j - c) =
  Some (renumber_insn nix (i + j) insn).
Proof.
  revert c i ks j. induction ls as [|x ls IH]; intros c i [|k ks] j Hl Hg Hk;
    try (exfalso; zlen_lia).
  { apply zget_Some_lt in Hg. znil. lia. }
  autorewrite with zlen in Hl.
  pose proof (zget_Some_lt _ _ _ Hg) as Hj. rewrite zlen_cons in Hj. simpl.
  destruct (decide (j = 0)) as [->|].
  - rewrite zget_cons_0 in Hg. rewrite index_cons_0 in Hk.
    rewrite index_cons_0. simplify_eq.
    replace (c - c) with 0 by lia. simpl. rewrite zget_cons_0. by rewrite Z.add_0_r.
  - rewrite zget_cons_S in Hg by lia. rewrite index_cons_S in Hk by lia.
    rewrite index_cons_S by lia.
    specialize (IH (c + Z.b2z k) (i + 1) ks (j - 1) ltac:(lia) Hg Hk).
    replace (i + 1 + (j - 1)) with (i + j) in IH by lia. rewrite <- IH.
    destruct k; simpl; [|f_equal; lia].
    assert (Hlow : ∀ c' ks' t, 0 ≤ t ≤ zlen ks' → c' ≤ index 0 (new_index_from c' ks') t).
    { clear. intros c' ks'. revert c'. induction ks' as [|k ks IH]; intros c' t Ht; simpl.
      - znil. assert (t = 0) as -> by lia. by rewrite index_cons_0.
      - rewrite zlen_cons in Ht. destruct (decide (t = 0)) as [->|].
        + by rewrite index_cons_0.
        + rewrite index_cons_S by lia.
          specialize (IH (c' + Z.b2z k) (t - 1)). destruct k; simpl in *; lia. }
    specialize (Hlow (c + 1) ks (j - 1) ltac:(lia)).
    rewrite zget_cons_S by lia. f_equal. lia.
Qed.

Definition removed : list Insn := rebuild (new_index_from 0 keep) 0 l keep.

Lemma zlen_removed : zlen removed = kept_before (zlen l).
Proof. unfold removed. rewrite (zlen_rebuild _ 0), Hkeep by done. unfold kept_before. lia. Qed.

Lemma zget_removed j insn :
  zget l j = Some insn → index false keep j = true →
  zget removed (kept_before j) = Some (renumber_insn (new_index_from 0 keep) j insn).
Proof.
  intros Hg Hk. unfold removed.
  rewrite <- (zget_rebuild _ 0 0 l keep j insn (eq_sym Hkeep) Hg Hk).
  f_equal. unfold kept_before. lia.
Qed.
End renumber.

(** Removal preserves the outcome from every state satisfying an invariant of
    the execution under which the dropped instructions fall through. *)
Section removal.
Context (l : list Insn) (keep : list bool) (pkt : list Z) (Inv : vm → Prop).
Hypothesis Hwf : wf_prog l.
Hypothesis Hkeep : zlen keep = zlen l.
Hypothesis Hskip : ∀ m insn,
  Inv m → zget l (r_pc m) = Some insn → index false keep (r_pc m) = false →
  step l pkt m = Next (with_pc (r_pc m + 1) m).
Hypothesis Hstep : ∀ m m',
  Inv m → step l pkt m = Next m' → r_pc m' < zlen l → Inv m'.

Let Hl : Forall wf_insn l := proj1 Hwf.
Let nix := new_index_from 0 keep.

Lemma clip_eq t : 0 ≤ t → Z.min t (zlen nix - 1) = Z.min t (zlen l).
Proof. unfold nix. rewrite zlen_new_index. lia. Qed.

(** A jump offset after renumbering. *)
Lemma renumber_offset i off :
  0 ≤ i < zlen l → 0 ≤ off → index false keep i = true →
  0 ≤ kept_before keep (Z.min (i + 1 + off) (zlen l)) - kept_before keep i - 1 ≤ off.
Proof.
  intros Hi Hoff Hk.
  pose proof (kept_before_succ l keep Hkeep i Hi) as Hs. rewrite Hk in Hs.
  pose proof (kept_before_bounds l keep Hkeep (i + 1) (Z.min (i + 1 + off) (zlen l))
    ltac:(lia) ltac:(lia)). simpl in Hs. lia.
Qed.

Lemma renumber_insn_eq i insn :
  zget l i = Some insn → index false keep i = true →
  renumber_insn nix i insn =
  let d off := kept_before keep (Z.min (i + 1 + off) (zlen l)) - kept_before keep i - 1 in
  if is_ja insn then set_k (d (i_k insn)) insn
  else if is_cond_jump insn then set_jf (d (i_jf insn)) (set_jt (d (i_jt insn)) insn)
  else insn.
Proof.
  intros Hg Hk. pose proof (zget_Some_lt _ _ _ Hg) as Hi.
  pose proof (l_insn l Hl _ _ Hg) as (_ & Hjt & Hjf & Hkr).
  unfold renumber_insn, is_u8, is_u32 in *.
  pose proof (renumber_offset i (i_k insn) Hi ltac:(lia) Hk).
  pose proof (renumber_offset i (i_jt insn) Hi ltac:(lia) Hk).
  pose proof (renumber_offset i (i_jf insn) Hi ltac:(lia) Hk).
  rewrite !clip_eq by lia. unfold kept_before, nix in *.
  case_match; [|case_match; [|done]].
  - f_equal. unfold as_u32. by rewrite Z.mod_small by lia.
  - unfold as_u8. by rewrite !Z.mod_small by lia.
Qed.

Lemma removed_insn i' insn' :
  zget (removed l keep) i' = Some insn' →
  ∃ i insn, zget l i = Some insn ∧ index false keep i = true ∧
    insn' = renumber_insn nix i insn.
Proof.
  unfold removed. fold nix. intros Hg.
  assert (∀ ls ks j, (∀ i x, zget ls i = Some x → zget l (j + i) = Some x) →
    (∀ i, 0 ≤ i < zlen ks → index false ks i = index false keep (j + i)) →
    ∀ x, x ∈ rebuild nix j ls ks → ∃ i insn, zget l i = Some insn ∧
      index false keep i = true ∧ x = renumber_insn nix i insn) as Hin.
  { induction ls as [|y ls IH]; intros [|k ks] j Hls Hks x Hx; simpl in Hx;
      try (by apply not_elem_of_nil in Hx).
    assert (Hrec : x ∈ rebuild nix (j + 1) ls ks → ∃ i insn, zget l i = Some insn ∧
      index false keep i = true ∧ x = renumber_insn nix i insn).
    { apply IH.
      - intros i z Hz. pose proof (zget_Some_lt _ _ _ Hz).
        replace (j + 1 + i) with (j + (1 + i)) by lia. apply Hls.
        rewrite zget_cons_S by lia. by replace (1 + i - 1) with i by lia.
      - intros i Hi. replace (j + 1 + i) with (j + (1 + i)) by lia.
        rewrite <- Hks by zlen_lia. rewrite index_cons_S by lia. f_equal. lia. }
    destruct k; [|auto]. apply elem_of_cons in Hx as [->|Hx]; [|auto].
    exists j, y. split_and!; [| |done].
    - specialize (Hls 0 y). rewrite Z.add_0_r in Hls. apply Hls. apply zget_cons_0.
    - specialize (Hks 0). rewrite Z.add_0_r in Hks. rewrite <- Hks by zlen_lia. done. }
  pose proof (zget_Some_lt _ _ _ Hg). rewrite zget_spec, decide_True in Hg by lia.
  apply (Hin l keep 0); [done|done|]. by eapply list_elem_of_lookup_2.
Qed.

Lemma removed_wf : wf_prog (removed l keep).
Proof.
  split.
  - apply Forall_lookup. intros j x Hx.
    destruct (removed_insn (Z.of_nat j) x) as (i & insn & Hg & Hk & ->).
    { by rewrite zget_spec, decide_True, Nat2Z.id by lia. }
    rewrite renumber_insn_eq by done.
    pose proof (zget_Some_lt _ _ _ Hg) as Hi.
    pose proof (l_insn l Hl _ _ Hg) as (Hc & Hjt & Hjf & Hkr).
    unfold is_u8, is_u32 in Hjt, Hjf, Hkr.
    pose proof (renumber_offset i (i_k insn) Hi ltac:(lia) Hk).
    pose proof (renumber_offset i (i_jt insn) Hi ltac:(lia) Hk).
    pose proof (renumber_offset i (i_jf insn) Hi ltac:(lia) Hk).
    cbv zeta. case_match; [|case_match];
      (split; [exact Hc|split_and!; simpl; unfold is_u8, is_u32; lia]).
  - rewrite zlen_removed by done. pose proof (proj2 Hwf).
    pose proof (kept_before_bounds l keep Hkeep 0 (zlen l)) as Hb.
    rewrite kept_before_0 in Hb. pose proof (zlen_nonneg l). lia.
Qed.

(** The outcome from index [u] is preserved. *)
Definition same_from (u : Z) : Prop :=
  ∀ n, (u < zlen l → Inv (with_pc u n)) →
    exec l pkt (with_pc u n) =
    exec (removed l keep) pkt (with_pc (kept_before keep (Z.min u (zlen l))) n).

(** A dropped instruction. *)
Lemma removed_exec_skip t insn :
  0 ≤ t → zget l t = Some insn → index false keep t = false →
  same_from (t + 1) → same_from t.
Proof.
  intros Ht Hg Hk IH n Hinv. pose proof (zget_Some_lt _ _ _ Hg) as Hlt.
  specialize (Hinv ltac:(lia)). replace (Z.min t (zlen l)) with t by lia.
  pose proof (kept_before_succ l keep Hkeep t Hlt) as Hsucc. rewrite Hk in Hsucc.
  pose proof (Hskip (with_pc t n) _ Hinv Hg Hk) as Hs.
  rewrite (exec_next l pkt Hwf (with_pc t n) _ Ht Hs). simpl. rewrite with_pc_with_pc.
  rewrite IH; cycle 1.
  { intros. eapply Hstep; [done|exact Hs|done]. }
  replace (Z.min (t + 1) (zlen l)) with (t + 1) by lia. simpl in Hsucc.
  by rewrite Hsucc, Z.add_0_r.
Qed.

(** Both programs at a kept instruction: the old one at [t], the new one at
    [kept_before keep t]. *)
Lemma kept_before_nonneg t : 0 ≤ t ≤ zlen l → 0 ≤ kept_before keep t.
Proof.
  intros. pose proof (kept_before_bounds l keep Hkeep 0 t) as Hb.
  rewrite kept_before_0 in Hb. lia.
Qed.

Lemma removed_exec_jump t insn :
  0 ≤ t → zget l t = Some insn → index false keep t = true → is_jump insn = true →
  (∀ u, t < u → same_from u) → same_from t.
Proof.
  intros Ht Hg Hk Hj IH n Hinv. pose proof (zget_Some_lt _ _ _ Hg) as Hlt.
  specialize (Hinv ltac:(lia)). replace (Z.min t (zlen l)) with t by lia.
  pose proof (zget_removed l keep Hkeep _ _ Hg Hk) as Hg'. fold nix in Hg'.
  rewrite renumber_insn_eq in Hg' by done. cbv zeta in Hg'.
  pose proof (kept_before_nonneg t ltac:(lia)) as Hkb.
  pose proof (l_insn l Hl _ _ Hg) as (_ & Hjt & Hjf & Hkr).
  unfold is_u8, is_u32 in Hjt, Hjf, Hkr. pose proof removed_wf as Hwf'.
  set (n' := with_pc (kept_before keep t) n).
  change (kept_before keep t) with (r_pc n') in Hkb, Hg'.
  pose proof (λ m', Hstep _ m' Hinv) as Hnext.
  unfold step in Hnext. simpl in Hnext. rewrite Hg in Hnext.
  destruct (is_ja insn) eqn:Ej.
  - rewrite (exec_at_ja l pkt Hwf (with_pc t n) insn) by done.
    rewrite (exec_at_ja _ pkt Hwf' _ _ Hkb Hg') by done. simpl.
    rewrite !with_pc_with_pc, IH; [|lia|].
    + unfold n'. simpl. rewrite with_pc_with_pc. do 2 f_equal. lia.
    + intros. apply Hnext; [|done]. rewrite exec_insn_ja by done.
      unfold with_pc. simpl. do 2 f_equal. pose proof (proj2 Hwf). ulia.
  - unfold is_jump in Hj. rewrite Ej in Hj. simpl in Hj. rewrite Hj in Hg'.
    rewrite (exec_at_cond l pkt Hwf (with_pc t n) insn) by done.
    rewrite (exec_at_cond _ pkt Hwf' _ _ Hkb Hg') by done.
    change (cond_test _ n') with (cond_test insn n).
    change (cond_test insn (with_pc t n)) with (cond_test insn n).
    destruct (cond_test insn n) as [b|] eqn:Ecb; [|done]. simpl.
    rewrite !with_pc_with_pc, IH; [|destruct b; lia|].
    + unfold n'. simpl. rewrite with_pc_with_pc. do 2 f_equal. destruct b; lia.
    + intros. apply Hnext; [|done]. rewrite exec_insn_cond by done.
      change (cond_test insn (with_pc _ _)) with (cond_test insn n).
      by rewrite Ecb.
Qed.

Lemma removed_exec_plain t insn :
  0 ≤ t → zget l t = Some insn → index false keep t = true → is_jump insn = false →
  same_from (t + 1) → same_from t.
Proof.
  intros Ht Hg Hk Hp IH n Hinv. pose proof (zget_Some_lt _ _ _ Hg) as Hlt.
  specialize (Hinv ltac:(lia)). replace (Z.min t (zlen l)) with t by lia.
  pose proof (zget_removed l keep Hkeep _ _ Hg Hk) as Hg'. fold nix in Hg'.
  rewrite renumber_insn_eq in Hg' by done. cbv zeta in Hg'.
  pose proof (kept_before_succ l keep Hkeep t Hlt) as Hsucc. rewrite Hk in Hsucc.
  apply orb_false_iff in Hp as Hjj. destruct Hjj as [Ej Ec]. rewrite Ej, Ec in Hg'.
  pose proof (kept_before_nonneg t ltac:(lia)) as Hkb.
  set (n' := with_pc (kept_before keep t) n).
  change (kept_before keep t) with (r_pc n') in Hkb, Hg'.
  pose proof (λ m', Hstep _ m' Hinv) as Hnext.
  unfold step in Hnext. simpl in Hnext. rewrite Hg, with_pc_with_pc in Hnext.
  rewrite (exec_at_plain l pkt Hwf (with_pc t n) insn) by done.
  rewrite (exec_at_plain _ pkt removed_wf _ _ Hkb Hg') by done.
  destruct (exec_insn_plain pkt t n insn Hp) as [-> _].
  unfold n'. destruct (exec_insn_plain pkt (kept_before keep t) n insn Hp) as [-> _].
  destruct (exec_insn_plain pkt (t + 1) n insn Hp) as [Ht1 _]. rewrite Ht1 in Hnext.
  destruct (exec_insn pkt n insn) as [m'|]; [|done]. simpl.
  rewrite !with_pc_with_pc, IH.
  - replace (Z.min (t + 1) (zlen l)) with (t + 1) by lia. by rewrite Hsucc.
  - intros. by apply Hnext.
Qed.

Lemma removed_exec m :
  0 ≤ r_pc m → (r_pc m < zlen l → Inv m) →
  exec l pkt m =
  exec (removed l keep) pkt (with_pc (kept_before keep (Z.min (r_pc m) (zlen l))) m).
Proof.
  enough (∀ t, 0 ≤ t → same_from t) as He.
  { intros Hpc Hi. rewrite <- (with_pc_id m) at 1. apply He; [done|].
    by rewrite with_pc_id. }
  apply (forward_ind l). intros t Ht IH.
  destruct (zget l t) as [insn|] eqn:Hg; cycle 1.
  { intros n _. apply zget_None in Hg.
    rewrite !exec_oob; simpl; try done; try apply removed_wf; try lia.
    rewrite zlen_removed by done. replace (Z.min t (zlen l)) with (zlen l) by lia. lia. }
  pose proof (zget_Some_lt _ _ _ Hg).
  destruct (index false keep t) eqn:Hk; [destruct (is_jump insn) eqn:Hj|].
  - eapply removed_exec_jump; try done. intros. apply IH; lia.
  - eapply removed_exec_plain; try done. apply IH; lia.
  - eapply removed_exec_skip; try done. apply IH; lia.
Qed.
End removal.

(** * The dataflow of pass 2 *)

(** [s] claims no more than [s']. *)
Definition weaker (s s' : AState) : Prop := s = Unknown ∨ s = s'.

Lemma weaker_refl s : weaker s s.
Proof. by right. Qed.

Lemma weaker_trans s1 s2 s3 : weaker s1 s2 → weaker s2 s3 → weaker s1 s3.
Proof. unfold weaker. intros [->| ->]; tauto. Qed.
#[export] Hint Resolve weaker_refl : pkt.

Lemma meet_weaker slot inc :
  ∃ s, meet slot inc = Some s ∧ weaker s inc ∧ (∀ p, slot = Some p → weaker s p).
Proof.
  unfold meet, weaker. eexists. split; [done|].
  destruct slot as [p|]; [|naive_solver].
  case_decide; naive_solver.
Qed.

(** Meeting [out] into the in-range indices of [ts]. *)
Lemma meet_all_spec ts out (ins ins' : list (option AState)) :
  ins' = foldl (λ s t, meet_at t out s) ins ts →
  Forall (λ t, 0 ≤ t) ts →
  zlen ins' = zlen ins ∧
  (∀ j, j ∉ ts → index None ins' j = index None ins j) ∧
  (∀ j, j ∈ ts → j < zlen ins → ∃ s, index None ins' j = Some s ∧ weaker s out) ∧
  (∀ j p, index None ins j = Some p → ∃ s, index None ins' j = Some s ∧ weaker s p).
Proof.
  revert ins ins'. induction ts as [|t ts IH]; intros ins ins' -> Hts; simpl.
  { split_and!; [done|done|set_solver|eauto with pkt]. }
  inversion Hts as [|? ? Ht Hts']; subst.
  destruct (IH (meet_at t out ins) _ eq_refl Hts') as (Hlen & Hout & Hin & Hold).
  assert (Hlen1 : zlen (meet_at t out ins) = zlen ins)
    by (unfold meet_at; case_match; by rewrite ?zlen_zset).
  assert (H1 : ∀ j p, index None ins j = Some p →
    ∃ s, index None (meet_at t out ins) j = Some s ∧ weaker s p).
  { intros j p Hj. unfold meet_at. case_match eqn:Et; [|eauto with pkt]. zbool.
    destruct (decide (t = j)) as [<-|]; [|rewrite index_zset_ne by done; eauto with pkt].
    rewrite index_zset_eq by lia.
    destruct (meet_weaker (index None ins t) out) as (s & -> & _ & Hs). eauto. }
  split_and!.
  - congruence.
  - intros j Hj. apply not_elem_of_cons in Hj as [Hjt Hj]. rewrite Hout by done.
    unfold meet_at. case_match; [by rewrite index_zset_ne|done].
  - intros j Hj Hjn. destruct (decide (j ∈ ts)) as [Hjs|Hjs].
    { apply Hin; [done|lia]. }
    assert (j = t) as -> by (apply elem_of_cons in Hj as [|]; done).
    rewrite Hout by done. unfold meet_at.
    rewrite (proj2 (Z.ltb_lt _ _)), index_zset_eq by lia.
    destruct (meet_weaker (index None ins t) out) as (s & -> & Hs & _). eauto.
  - intros j p Hj. destruct (H1 j p Hj) as (s1 & Hs1 & Hw1).
    destruct (Hold j s1 Hs1) as (s2 & Hs2 & Hw2). eauto using weaker_trans.
Qed.

Section dataflow.
Context (l : list Insn).
Hypothesis Hl : Forall wf_insn l.

Lemma successors_gt i insn t :
  zget l i = Some insn → t ∈ successors i insn → i < t.
Proof.
  intros Hg Ht. pose proof (l_insn l Hl _ _ Hg) as (_ & Hjt & Hjf & Hk).
  unfold is_u8, is_u32 in *. unfold successors in Ht.
  repeat case_match; set_unfold; lia.
Qed.

(** The invariant of the sweep after the first [k] instructions. *)
Record sweep_ok (k : Z) (marks : list bool) (ins : list (option AState)) : Prop := {
  sw_marks_len : zlen marks = zlen l;
  sw_ins_len : zlen ins = zlen l;
  sw_flow : ∀ i insn s t, i < k → zget l i = Some insn → index None ins i = Some s →
    t ∈ successors i insn → t < zlen l →
    ∃ s', index None ins t = Some s' ∧ weaker s' (a_transfer insn s);
  sw_marks : ∀ i, index false marks i = true →
    i < k ∧ ∃ insn s, zget l i = Some insn ∧ index None ins i = Some s ∧
      is_redundant insn s = true;
  sw_start : 0 < zlen l → index None ins 0 = Some Unknown;
}.

Lemma marks_step_ok k marks ins :
  0 ≤ k < zlen l → sweep_ok k marks ins →
  let '(marks', ins') := marks_step l (marks, ins) k in sweep_ok (k + 1) marks' ins'.
Proof.
  intros Hk [Hml Hil Hflow Hmarks Hst]. unfold marks_step.
  destruct (zget_lt_Some l k Hk) as [insn Hg]. rewrite Hg.
  destruct (index None ins k) as [s|] eqn:Es; cycle 1.
  { constructor; try done.
    - intros i insn' s t Hi Hg' Hs Ht Htn.
      destruct (decide (i = k)) as [->|]; [congruence|]. apply (Hflow i _ s); [lia|done..].
    - intros i Hi. apply Hmarks in Hi as [? ?]. split; [lia|done]. }
  destruct (meet_all_spec (successors k insn) (a_transfer insn s) ins _ eq_refl)
    as (Hlen & Hout & Hin & Hold).
  { apply Forall_forall. intros t Ht. pose proof (successors_gt _ _ _ Hg Ht). lia. }
  set (ins' := foldl _ ins _) in *.
  assert (Hkeep : ∀ i, i ≤ k → index None ins' i = index None ins i).
  { intros i Hi. apply Hout. intros Ht. pose proof (successors_gt _ _ _ Hg Ht). lia. }
  constructor.
  - case_match; by rewrite ?zlen_zset.
  - lia.
  - intros i insn' s' t Hi Hg' Hs' Ht Htn. rewrite Hkeep in Hs' by lia.
    destruct (decide (i = k)) as [->|].
    + simplify_eq. apply Hin; [done|lia].
    + destruct (Hflow i insn' s' t) as (s1 & Hs1 & Hw); [lia|done..|].
      destruct (Hold _ _ Hs1) as (s2 & Hs2 & Hw2). eauto using weaker_trans.
  - intros i Hi. destruct (decide (i = k)) as [->|Hik].
    + split; [lia|]. exists insn, s. rewrite Hkeep by lia. split_and!; [done..|].
      destruct (is_redundant insn s); [done|]. apply Hmarks in Hi as [? _]. lia.
    + assert (Hi' : index false marks i = true).
      { destruct (is_redundant insn s); [|done].
        rewrite index_zset_ne in Hi by lia. done. }
      apply Hmarks in Hi' as (? & insn' & s' & ? & ? & ?). split; [lia|].
      exists insn', s'. rewrite Hkeep by lia. done.
  - intros Hn. destruct (decide (0 ≤ k)); [|lia]. rewrite Hkeep by lia. auto.
Qed.

Definition marks_from (k : nat) : list bool * list (option AState) :=
  foldl (marks_step l) (marks_init l) (seqZ 0 (Z.of_nat k)).

Lemma index_replicate {A} (d x : A) n i :
  index d (replicate n x) i = if (0 <=? i) && (i <? Z.of_nat n) then x else d.
Proof.
  unfold index, zget, zlen. rewrite length_replicate.
  destruct ((0 <=? i) && (i <? Z.of_nat n)) eqn:E; [|done].
  zbool. rewrite lookup_replicate_2 by lia. done.
Qed.

Lemma marks_init_ok : sweep_ok 0 (marks_init l).1 (marks_init l).2.
Proof.
  constructor; simpl.
  - unfold zlen. by rewrite length_replicate.
  - rewrite zlen_zset. unfold zlen. by rewrite length_replicate.
  - intros i insn s t Hi Hg. apply zget_Some_lt in Hg. lia.
  - intros i. rewrite index_replicate. by case_match.
  - intros Hn. rewrite index_zset_eq; [done|]. unfold zlen in *.
    rewrite length_replicate. lia.
Qed.

Lemma marks_from_ok k :
  Z.of_nat k ≤ zlen l → sweep_ok (Z.of_nat k) (marks_from k).1 (marks_from k).2.
Proof.
  induction k as [|k IH]; intros Hk; [apply marks_init_ok|].
  unfold marks_from. rewrite seqZ_S, foldl_app, Nat2Z.inj_succ.
  fold (marks_from k). cbn [foldl]. rewrite Z.add_0_l.
  pose proof (marks_step_ok (Z.of_nat k) (marks_from k).1
    (marks_from k).2 ltac:(lia) ltac:(apply IH; lia)) as Hs.
  destruct (marks_from k) as [ms ins]. cbn [fst snd] in Hs.
  replace (Z.succ (Z.of_nat k)) with (Z.of_nat k + 1) by lia.
  by destruct (marks_step l (ms, ins) (Z.of_nat k)).
Qed.

(** What the accumulator is known to hold on entry to each instruction. *)
Definition in_states : list (option AState) := (marks_from (length l)).2.

Lemma sweep_final : sweep_ok (zlen l) (redundant_load_marks l) in_states.
Proof. apply (marks_from_ok (length l)). unfold zlen. lia. Qed.

(** * Reachability *)

Definition unmarked (r : list bool) : nat := length (filter (λ b, b = false) r).

Record worklist_ok (stack : list Z) (r : list bool) : Prop := {
  wl_len : zlen r = zlen l;
  wl_closed : ∀ i insn t, index false r i = true → zget l i = Some insn →
    t ∈ successors i insn → t < zlen l → index false r t = true ∨ t ∈ stack;
  wl_entry : 0 < zlen l → index false r 0 = true ∨ 0 ∈ stack;
}.

Lemma worklist_expand i insn stack r :
  zget l i = Some insn → worklist_ok (i :: stack) r →
  worklist_ok (reverse (successors i insn) ++ stack) (zset i true r).
Proof.
  intros Hg [Hlen Hclosed Hentry]. pose proof (zget_Some_lt _ _ _ Hg).
  constructor.
  - by rewrite zlen_zset.
  - intros j insn' t Hj Hg' Ht Htn.
    destruct (decide (t = i)) as [->|Hti]; [left; apply index_zset_eq; lia|].
    rewrite index_zset_ne by lia.
    destruct (decide (j = i)) as [->|Hji].
    + simplify_eq. right. apply elem_of_app. left. by apply elem_of_reverse.
    + rewrite index_zset_ne in Hj by lia.
      destruct (Hclosed j insn' t Hj Hg' Ht Htn) as [?|Hs]; [by left|right].
      apply elem_of_cons in Hs as [->|Hs]; [done|]. apply elem_of_app. by right.
  - intros Hn. destruct (decide (i = 0)) as [->|Hi]; [left; apply index_zset_eq; lia|].
    rewrite index_zset_ne by done.
    destruct (Hentry Hn) as [?|Hs]; [by left|right].
    apply elem_of_cons in Hs as [E|Hs]; [congruence|]. apply elem_of_app. by right.
Qed.

(** An index already expanded, or past the end, is dropped. *)
Lemma worklist_drop i stack r :
  zget l i = None ∨ index false r i = true →
  worklist_ok (i :: stack) r → worklist_ok stack r.
Proof.
  intros Hi [Hlen Hclosed Hentry]. constructor; [done| |].
  - intros j insn t Hj Hg Ht Htn. pose proof (successors_gt _ _ _ Hg Ht).
    pose proof (zget_Some_lt _ _ _ Hg).
    destruct (Hclosed j insn t Hj Hg Ht Htn) as [?|Hs]; [by left|].
    apply elem_of_cons in Hs as [->|Hs]; [|by right]. left.
    destruct Hi as [Hi|?]; [|done]. apply zget_None in Hi. lia.
  - intros Hn. destruct (Hentry Hn) as [?|Hs]; [by left|].
    apply elem_of_cons in Hs as [E|Hs]; [subst i|by right]. left.
    destruct Hi as [Hi|?]; [|done]. apply zget_None in Hi. lia.
Qed.

Lemma reach_loop_ok n stack r r' :
  worklist_ok stack r → reach_loop n l stack r = Some r' → worklist_ok [] r'.
Proof.
  revert stack r. induction n as [|n IH]; intros stack r Hwl; simpl; [done|].
  destruct stack as [|i stack]; [by intros [= <-]|].
  destruct (zget l i) as [insn|] eqn:Hg; [destruct (index false r i) eqn:Hi|].
  - apply IH. eapply worklist_drop; [by right|done].
  - apply IH. by apply worklist_expand.
  - apply IH. eapply worklist_drop; [by left|done].
Qed.

(** Expanding marks one more instruction. *)
Lemma unmarked_zset r i :
  0 ≤ i < zlen r → index false r i = false →
  (unmarked r = S (unmarked (zset i true r)))%nat.
Proof.
  unfold unmarked, zlen. intros Hi Hf. unfold zset, zlen.
  rewrite (proj2 (Z.leb_le _ _)), (proj2 (Z.ltb_lt _ _)) by lia. simpl.
  destruct (zget_lt_Some r i ltac:(unfold zlen; lia)) as [b Hb].
  rewrite (index_spec _ _ _ _ Hb) in Hf. subst.
  rewrite zget_spec, decide_True in Hb by lia.
  rewrite <- (take_drop_middle r (Z.to_nat i) false Hb) at 1.
  assert (Hlt : (Z.to_nat i < length r)%nat) by lia.
  rewrite (insert_take_drop r (Z.to_nat i) true Hlt).
  rewrite !filter_app, !length_app, filter_cons_True, filter_cons_False by done.
  simpl. lia.
Qed.

Lemma length_successors i insn : (length (successors i insn) ≤ 2)%nat.
Proof. unfold successors. repeat case_match; simpl; lia. Qed.

Lemma reach_loop_total n stack r :
  zlen r = zlen l → (2 * unmarked r + length stack < n)%nat →
  is_Some (reach_loop n l stack r).
Proof.
  revert stack r. induction n as [|n IH]; intros stack r Hlen Hn; [lia|]. simpl.
  destruct stack as [|i stack]; [eauto|]. simpl in Hn.
  destruct (zget l i) as [insn|] eqn:Hg; [destruct (index false r i) eqn:Hi|].
  - apply IH; [done|lia].
  - pose proof (zget_Some_lt _ _ _ Hg). apply IH; [by rewrite zlen_zset|].
    rewrite (unmarked_zset r i) in Hn by (done || lia).
    rewrite length_app, length_reverse.
    pose proof (length_successors i insn). lia.
  - apply IH; [done|lia].
Qed.

Lemma reach_loop_fuel :
  is_Some (reach_loop (reach_fuel l) l [0] (replicate (length l) false)).
Proof.
  apply reach_loop_total.
  - unfold zlen. by rewrite length_replicate.
  - unfold unmarked, reach_fuel. simpl.
    pose proof (length_filter (λ b, b = false) (replicate (length l) false)) as H.
    rewrite length_replicate in H. lia.
Qed.

Lemma reachable_ok : worklist_ok [] (reachable_marks l).
Proof.
  unfold reachable_marks. destruct reach_loop_fuel as [r Hr]. rewrite Hr.
  eapply reach_loop_ok; [|exact Hr]. constructor.
  - unfold zlen. by rewrite length_replicate.
  - intros i insn t. rewrite index_replicate. by case_match.
  - intros _. right. set_solver.
Qed.
End dataflow.

(** * The optimizer *)

(** Instructions whose [MISC] opcodes are exactly [tax] or [txa]. *)
Definition misc_ok (i : Insn) : Prop :=
  i_code i .& 0x07 = BPF_MISC → i_code i .& 0x80 = 0 ∨ i_code i .& 0xf8 = BPF_TXA.

(** The programs [optimize] may be given. *)
Definition optimizable (l : list Insn) : Prop :=
  wf_prog l ∧ ja_targets_ok l ∧ Forall misc_ok l.

(** What an accumulator state says of a machine state. *)
Definition state_holds (pkt : list Z) (s : AState) (m : vm) : Prop :=
  match s with
  | Unknown => True
  | Load code k => sized_load pkt k (code .& 0x18) = Some (r_a m)
  end.

Lemma is_ld_abs_bits i :
  is_ld_abs i = true → i_code i .& 0x07 = BPF_LD ∧ i_code i .& 0xe0 = BPF_ABS.
Proof.
  unfold is_ld_abs. intros H. zbool.
  change (0x07) with (0xe7 .& 0x07). change (0xe0) with (0xe7 .& 0xe0).
  rewrite !Z.land_assoc, H. done.
Qed.

Lemma exec_ld_abs pkt m i :
  is_ld_abs i = true →
  exec_insn pkt m i =
  match sized_load pkt (i_k i) (i_code i .& 0x18) with
  | Some v => Next (mk_vm v (r_x m) (r_scratch m) (r_pc m))
  | None => Done None
  end.
Proof.
  intros H. apply is_ld_abs_bits in H as [Hc Hm].
  unfold exec_insn, load_a. rewrite Hc, Hm. done.
Qed.

(** An instruction that does not write A leaves it alone. *)
Lemma writes_a_spec pkt m m' i :
  misc_ok i → writes_a i = false → exec_insn pkt m i = Next m' → r_a m' = r_a m.
Proof.
  unfold misc_ok, writes_a, exec_insn. cbv zeta. intros Hm Hw.
  zbool. apply andb_false_iff in H0.
  apply Z.eqb_neq in H, H1. rewrite H, H1.
  opcase; intros [= <-]; try done. simpl. zbool.
  destruct Hm as [?|Hm]; [done..|]. destruct H0; zbool; done.
Qed.

Lemma a_transfer_sound pkt s m m' i :
  misc_ok i → state_holds pkt s m → exec_insn pkt m i = Next m' →
  state_holds pkt (a_transfer i s) m'.
Proof.
  intros Hm Hs Hx. unfold a_transfer.
  destruct (is_ld_abs i) eqn:Hld; [|destruct (writes_a i) eqn:Hw; [done|]].
  - rewrite exec_ld_abs in Hx by done. simpl. by case_match; simplify_eq.
  - apply (writes_a_spec pkt m m') in Hw; [|done..].
    destruct s; [done|]. simpl in *. congruence.
Qed.

Lemma weaker_sound pkt s s' m : weaker s s' → state_holds pkt s' m → state_holds pkt s m.
Proof. by intros [->| ->]. Qed.

Section cleanup.
Context (l : list Insn) (pkt : list Z).
Hypothesis Hwf : wf_prog l.
Hypothesis Hmisc : Forall misc_ok l.

Let Hl : Forall wf_insn l := proj1 Hwf.

(** The invariant of execution: the instruction is marked reachable, and the
    dataflow fact computed for it holds. *)
Definition flow_inv (m : vm) : Prop :=
  0 ≤ r_pc m ∧ index false (reachable_marks l) (r_pc m) = true ∧
  ∃ s, index None (in_states l) (r_pc m) = Some s ∧ state_holds pkt s m.

Lemma zlen_keep_marks : zlen (keep_marks l) = zlen l.
Proof. apply zlen_imap. Qed.

Lemma index_keep_marks i insn :
  zget l i = Some insn →
  index false (keep_marks l) i =
  index false (reachable_marks l) i && negb (index false (redundant_load_marks l) i)
  && negb (is_ja insn && (i_k insn =? 0)).
Proof.
  intros Hg. apply index_spec. unfold keep_marks.
  rewrite (zget_imap (λ j insn, index false (reachable_marks l) j &&
    negb (index false (redundant_load_marks l) j) && negb (is_ja insn && (i_k insn =? 0)))).
  by rewrite Hg.
Qed.

Lemma flow_inv_skip m insn :
  flow_inv m → zget l (r_pc m) = Some insn →
  index false (keep_marks l) (r_pc m) = false →
  step l pkt m = Next (with_pc (r_pc m + 1) m).
Proof.
  intros (Hpc & Hr & s & Hs & Hh) Hg Hk. pose proof (zget_Some_lt _ _ _ Hg).
  unfold step. rewrite Hg. rewrite (index_keep_marks _ _ Hg), Hr in Hk. simpl in Hk.
  destruct (index false (redundant_load_marks l) (r_pc m)) eqn:Hred.
  - apply (sw_marks _ _ _ _ (sweep_final l Hl)) in Hred
      as (_ & insn' & s' & ? & ? & Hi). simplify_eq.
    apply andb_true_iff in Hi as [Hld Hst]. apply bool_decide_eq_true in Hst as ->.
    rewrite exec_ld_abs by done. simpl in Hh. by rewrite Hh.
  - simpl in Hk. apply negb_false_iff, andb_true_iff in Hk as [Hja Hk0].
    apply Z.eqb_eq in Hk0. rewrite exec_insn_ja by done. rewrite Hk0. simpl.
    unfold with_pc. simpl. do 2 f_equal. pose proof (proj2 Hwf). ulia.
Qed.

Lemma flow_inv_step m m' :
  flow_inv m → step l pkt m = Next m' → r_pc m' < zlen l → flow_inv m'.
Proof.
  intros (Hpc & Hr & s & Hs & Hh) Hst Hm'.
  pose proof (step_forward _ _ Hwf _ _ Hpc Hst) as [Hfwd _].
  unfold step in Hst. destruct (zget l (r_pc m)) as [insn|] eqn:Hg; [|done].
  pose proof (zget_Some_lt _ _ _ Hg).
  pose proof (l_insn l Hl _ _ Hg) as (_ & _ & _ & Hkr).
  pose proof (proj2 Hwf).
  assert (Hsucc : r_pc m' ∈ successors (r_pc m) insn).
  { eapply (exec_insn_successor pkt (with_pc (r_pc m + 1) m) (r_pc m));
      simpl; [lia|done|exact Hst|ulia..]. }
  split; [lia|]. split.
  - destruct (wl_closed _ _ _ (reachable_ok l Hl) _ _ _ Hr Hg Hsucc Hm') as [?|Hn];
      [done|by apply not_elem_of_nil in Hn].
  - destruct (sw_flow _ _ _ _ (sweep_final l Hl) (r_pc m) insn s (r_pc m'))
      as (s' & Hs' & Hw); [lia|done..|].
    exists s'. split; [done|]. eapply weaker_sound; [done|].
    eapply a_transfer_sound; [by eapply Forall_zget| |exact Hst]. by destruct s.
Qed.

Lemma flow_inv_start : 0 < zlen l → flow_inv vm_start.
Proof.
  intros Hn. split; [done|]. split.
  - destruct (wl_entry _ _ _ (reachable_ok l Hl) Hn) as [?|H];
      [done|by apply not_elem_of_nil in H].
  - exists Unknown. split; [|done]. by apply (sw_start _ _ _ _ (sweep_final l Hl)).
Qed.

(** Passes 2 and 3 on any program without exotic [MISC] opcodes. *)
Lemma cleanup_correct : inner (remove_unkept l (keep_marks l)) pkt = inner l pkt.
Proof.
  unfold remove_unkept. case_match; [done|].
  change (rebuild _ 0 l _) with (removed l (keep_marks l)).
  unfold inner. symmetry.
  rewrite (removed_exec l (keep_marks l) pkt flow_inv Hwf zlen_keep_marks
    flow_inv_skip flow_inv_step vm_start); [|done|apply flow_inv_start].
  f_equal. unfold vm_start, with_pc. simpl. f_equal.
  rewrite Z.min_l by apply zlen_nonneg. apply kept_before_0.
Qed.
End cleanup.

Lemma thread_jumps_misc l : Forall misc_ok l → Forall misc_ok (thread_jumps l).
Proof.
  intros Hm. apply Forall_lookup. intros i insn Hi.
  unfold thread_jumps in Hi. rewrite list_lookup_imap in Hi.
  apply fmap_Some in Hi as (insn0 & Hi & ->).
  rewrite Forall_lookup in Hm. specialize (Hm _ _ Hi).
  unfold misc_ok, thread_insn in *. repeat case_match; done.
Qed.

(** Thread jumps, then drop dead instructions and redundant loads. *)
Lemma optimize_exec l pkt : optimizable l → inner (optimize l) pkt = inner l pkt.
Proof.
  intros (Hwf & Hja & Hmisc). unfold optimize.
  rewrite cleanup_correct by auto using thread_jumps_wf, thread_jumps_misc.
  unfold inner. symmetry. by apply thread_jumps_exec.
Qed.

(** C21: the optimized program gives the interpreter the same outcome (accept,
    drop or fault) as the original one, on every packet. *)
Theorem optimize_correct (l : list Insn) (pkt : list Z) :
  optimizable l → inner (optimize l) pkt = inner l pkt.
Proof. apply optimize_exec. Qed.

Lemma optimize_correct_witness :
  inner (optimize (ja 0 :: sample_prog)) [1; 2] = inner (ja 0 :: sample_prog) [1; 2].
Proof.
  apply (optimize_correct (ja 0 :: sample_prog) [1; 2]). split_and!.
  - apply (bool_decide_unpack _). by vm_compute.
  - split; [by vm_compute|]. intros i insn Hi. pose proof (zget_Some_lt _ _ _ Hi) as Hr.
    change (zlen (ja 0 :: sample_prog)) with 5 in Hr.
    assert (i = 0 ∨ i = 1 ∨ i = 2 ∨ i = 3 ∨ i = 4) as [->|[->|[->|[->| ->]]]] by lia;
      vm_compute in Hi; injection Hi as <-; vm_compute; done.
  - repeat apply Forall_cons_2; try apply Forall_nil_2; intros H; vm_compute in H; done.
Defined.
