(* ===== verification/DedupCorrect.v ===== *)
(** Correctness of [dedup_loads]: dropping one of two adjacent identical
    absolute loads and shifting the jumps across it preserves the outcome. *)

From S2P Require Export OptimizerCorrect.

Section drop_one.
(** [l] holds the same absolute load at [i] and [i + 1]. *)
Context (l : list Insn) (i : Z) (cur nxt : Insn) (pkt : list Z).
Hypothesis Hwf : wf_prog l.
Hypothesis Hcur : zget l i = Some cur.
Hypothesis Hnxt : zget l (i + 1) = Some nxt.
Hypothesis Hld : is_ld_abs cur = true.
Hypothesis Hsame : i_code cur = i_code nxt ∧ i_k cur = i_k nxt.

Definition dropped : list Insn := adjust_jumps (vec_remove (i + 1) l) (i + 1).

Let Hl : Forall wf_insn l := proj1 Hwf.

(** The index in [dropped] that behaves as index [t] of [l]. *)
Definition shift (t : Z) : Z := if t <=? i then t else t - 1.

Lemma i_range : 0 ≤ i ∧ i + 1 < zlen l.
Proof.
  pose proof (zget_Some_lt _ _ _ Hcur). pose proof (zget_Some_lt _ _ _ Hnxt). lia.
Qed.

Lemma zlen_dropped : zlen dropped = zlen l - 1.
Proof.
  pose proof i_range. unfold dropped, adjust_jumps. rewrite zlen_imap.
  unfold vec_remove, zlen in *. rewrite length_delete by (apply lookup_lt_is_Some_2; lia).
  lia.
Qed.

Lemma zget_vec_remove j :
  0 ≤ j → zget (vec_remove (i + 1) l) j = zget l (if j <=? i then j else j + 1).
Proof.
  intros Hj. pose proof i_range. unfold vec_remove. rewrite !zget_spec.
  rewrite decide_True by done. destruct (Z.leb_spec j i); rewrite decide_True by lia.
  - apply list_lookup_delete_lt. lia.
  - rewrite list_lookup_delete_ge by lia. f_equal. lia.
Qed.

(** Every instruction but the second load, at its new place. *)
Lemma zget_dropped t insn :
  zget l t = Some insn → t ≠ i + 1 →
  zget dropped (shift t) = Some (adjust_insn (i + 1) (shift t) insn).
Proof.
  intros Hg Ht. pose proof (zget_Some_lt _ _ _ Hg). pose proof i_range.
  unfold dropped, adjust_jumps. rewrite zget_imap.
  unfold shift. destruct (Z.leb_spec t i).
  - rewrite zget_vec_remove, (proj2 (Z.leb_le _ _)) by lia. by rewrite Hg.
  - rewrite zget_vec_remove, (proj2 (Z.leb_gt _ _)) by lia.
    replace (t - 1 + 1) with t by lia. by rewrite Hg.
Qed.

Lemma adjust_plain src insn :
  is_jump insn = false → adjust_insn (i + 1) src insn = insn.
Proof. rewrite is_jump_class. unfold adjust_insn. by intros ->. Qed.

(** A jump's field after adjustment leads to the shifted target. *)
Lemma adjust_target t off :
  0 ≤ t → 0 ≤ off → t ≠ i → t ≠ i + 1 →
  shift t + 1 + (if i + 1 <=? shift t then off else adjust_field (i + 1) (shift t) off)
  = shift (t + 1 + off).
Proof.
  intros. unfold adjust_field, shift.
  repeat (case_match; zbool; try lia).
Qed.

Lemma adjust_insn_wf src insn :
  0 ≤ src → wf_insn insn → (src = i → is_jump insn = false) →
  wf_insn (adjust_insn (i + 1) src insn).
Proof.
  intros Hsrc (? & ? & ? & ?) Hi. unfold adjust_insn, adjust_field.
  rewrite is_jump_class in Hi.
  repeat (case_match; zbool); unfold wf_insn; simpl; split_and!; try done; try ulia;
    (destruct (Z.eq_dec src i); [by rewrite Hi in * |ulia]).
Qed.

Lemma cur_plain : is_jump cur = false.
Proof.
  destruct (is_ld_abs_bits _ Hld) as [Hc _]. rewrite is_jump_class, Hc. done.
Qed.

Lemma nxt_ld : is_ld_abs nxt = true.
Proof. unfold is_ld_abs in *. by rewrite <- (proj1 Hsame). Qed.

Lemma nxt_plain : is_jump nxt = false.
Proof.
  destruct (is_ld_abs_bits _ nxt_ld) as [Hc _]. rewrite is_jump_class, Hc. done.
Qed.

Lemma dropped_wf : wf_prog dropped.
Proof.
  pose proof i_range. split.
  - apply Forall_lookup. intros j insn Hj. unfold dropped, adjust_jumps in Hj.
    rewrite list_lookup_imap in Hj. apply fmap_Some in Hj as (insn0 & Hj & ->).
    assert (Hz : zget (vec_remove (i + 1) l) (Z.of_nat j) = Some insn0).
    { rewrite zget_spec, decide_True, Nat2Z.id by lia. done. }
    rewrite zget_vec_remove in Hz by lia.
    apply adjust_insn_wf; [lia|by eapply Forall_zget|]. intros Heq.
    rewrite Heq, (proj2 (Z.leb_le _ _)) in Hz by lia.
    rewrite Hcur in Hz. assert (insn0 = cur) as -> by congruence. apply cur_plain.
  - rewrite zlen_dropped. pose proof (proj2 Hwf). lia.
Qed.

(** The two loads have the same effect. *)
Lemma exec_cur_nxt m : exec_insn pkt m nxt = exec_insn pkt m cur.
Proof.
  rewrite !exec_ld_abs by (apply nxt_ld || done). by destruct Hsame as [-> ->].
Qed.

Lemma dropped_at_cur m :
  exec dropped pkt (with_pc i m) =
  match exec_insn pkt m cur with
  | Next m' => exec dropped pkt (with_pc (i + 1) m')
  | Done r => r
  end.
Proof.
  pose proof i_range.
  assert (Hg : zget dropped i = Some cur).
  { pose proof (zget_dropped i cur Hcur ltac:(lia)) as Hg.
    rewrite adjust_plain in Hg by apply cur_plain.
    unfold shift in Hg. by rewrite (proj2 (Z.leb_le i i)) in Hg by lia. }
  rewrite (exec_at_plain _ _ dropped_wf (with_pc i m) cur);
    [|simpl; lia|done|apply cur_plain].
  destruct (exec_insn_plain pkt i m cur cur_plain) as [-> _].
  by destruct (exec_insn pkt m cur).
Qed.

Lemma exec_at_insn t m insn :
  0 ≤ t → zget l t = Some insn → is_jump insn = false →
  exec l pkt (with_pc t m) =
  match exec_insn pkt m insn with
  | Next m' => exec l pkt (with_pc (t + 1) m')
  | Done r => r
  end.
Proof.
  intros Ht Hg Hp. rewrite (exec_at_plain _ _ Hwf (with_pc t m) insn) by done.
  destruct (exec_insn_plain pkt t m insn Hp) as [-> _].
  by destruct (exec_insn pkt m insn).
Qed.

Definition same_at (t : Z) : Prop :=
  ∀ m, exec l pkt (with_pc t m) = exec dropped pkt (with_pc (shift t) m).

Lemma same_at_nxt : same_at (i + 2) → same_at (i + 1).
Proof.
  intros IH m. pose proof i_range.
  rewrite (exec_at_insn (i + 1) m nxt) by (lia || done || apply nxt_plain).
  rewrite exec_cur_nxt. unfold shift. rewrite (proj2 (Z.leb_gt _ _)) by lia.
  replace (i + 1 - 1) with i by lia. rewrite dropped_at_cur.
  destruct (exec_insn pkt m cur) as [m'|]; [|done].
  replace (i + 1 + 1) with (i + 2) by lia. rewrite IH. unfold shift.
  rewrite (proj2 (Z.leb_gt _ _)) by lia. by replace (i + 2 - 1) with (i + 1) by lia.
Qed.

Lemma same_at_cur : same_at (i + 1) → same_at i.
Proof.
  intros IH m. pose proof i_range.
  rewrite (exec_at_insn i m cur) by (lia || done || apply cur_plain).
  unfold shift. rewrite (proj2 (Z.leb_le _ _)) by lia.
  destruct (exec_insn pkt m cur) as [m'|] eqn:E.
  - rewrite IH. unfold shift. rewrite (proj2 (Z.leb_gt _ _)) by lia.
    replace (i + 1 - 1) with i by lia. rewrite !dropped_at_cur.
    rewrite exec_ld_abs in E |- * by done. rewrite exec_ld_abs by done.
    by case_match; simplify_eq.
  - rewrite dropped_at_cur, E. done.
Qed.

Lemma same_at_jump t insn :
  0 ≤ t → zget l t = Some insn → is_jump insn = true →
  (∀ u, t < u → same_at u) → same_at t.
Proof.
  intros Ht Hg Hj IH m.
  assert (t ≠ i) by (intros ->; pose proof cur_plain; congruence).
  assert (t ≠ i + 1) by (intros ->; pose proof nxt_plain; congruence).
  pose proof (zget_dropped t insn Hg ltac:(done)) as Hd.
  destruct (Forall_zget _ _ _ _ Hl Hg) as (_ & Hjt & Hjf & Hk).
  assert (Hs : 0 ≤ shift t) by (unfold shift; case_match; zbool; pose proof i_range; lia).
  assert (Hcls : i_code insn .& 0x07 = BPF_JMP) by (rewrite is_jump_class in Hj; by zbool).
  unfold adjust_insn in Hd. rewrite Hcls in Hd. simpl in Hd.
  unfold is_jump in Hj. apply orb_true_iff in Hj as [Hja|Hcj].
  - rewrite (exec_at_ja _ _ Hwf (with_pc t m) insn) by done. simpl.
    assert (Hop : (i_code insn .& 0xf0 =? BPF_JA) = true)
      by (unfold is_ja in Hja; by apply andb_true_iff in Hja as [_ ->]).
    rewrite Hop in Hd.
    set (insn' := if _ <=? _ then insn else _) in Hd.
    rewrite (exec_at_ja _ _ dropped_wf (with_pc (shift t) m) insn');
      [|simpl; lia|done|by unfold insn'; repeat case_match].
    simpl. rewrite IH by ulia. rewrite !with_pc_with_pc.
    assert (shift (t + 1 + i_k insn) = shift t + 1 + i_k insn') as ->; [|done].
    rewrite <- (adjust_target t (i_k insn)) by ulia.
    assert (0 ≤ i_k insn) by ulia.
    assert (t = i ∨ t < i ∨ i + 1 < t) as [?|[?|?]] by lia; [done|..];
      unfold insn', adjust_field, shift;
      repeat (case_match; simpl; zbool; try lia).
  - rewrite (exec_at_cond _ _ Hwf (with_pc t m) insn) by done. simpl.
    assert (Hop : (i_code insn .& 0xf0 =? BPF_JA) = false).
    { unfold is_cond_jump in Hcj. apply andb_true_iff in Hcj as [_ Hop]. by apply negb_true_iff. }
    rewrite Hop in Hd.
    set (insn' := if _ <=? _ then insn else _) in Hd.
    rewrite (exec_at_cond _ _ dropped_wf (with_pc (shift t) m) insn');
      [|simpl; lia|done|by unfold insn'; repeat case_match].
    assert (cond_test insn' (with_pc (shift t) m) = cond_test insn (with_pc t m)) as ->
      by (by unfold insn'; case_match).
    destruct (cond_test insn (with_pc t m)) as [b|]; [|done].
    rewrite IH by (destruct b; ulia). simpl. rewrite !with_pc_with_pc. f_equal. f_equal.
    rewrite <- (adjust_target t (if b then i_jt insn else i_jf insn))
      by (destruct b; ulia).
    unfold insn'. by destruct b; case_match.
Qed.

Lemma same_at_plain t insn :
  0 ≤ t → zget l t = Some insn → is_jump insn = false → t ≠ i → t ≠ i + 1 →
  same_at (t + 1) → same_at t.
Proof.
  intros Ht Hg Hp Hti Hti1 IH m. pose proof i_range.
  rewrite (exec_at_insn t m insn) by done.
  pose proof (zget_dropped t insn Hg ltac:(done)) as Hd.
  rewrite adjust_plain in Hd by done.
  rewrite (exec_at_plain _ _ dropped_wf (with_pc (shift t) m) insn);
    [|unfold shift; simpl; case_match; zbool; lia|done|done].
  destruct (exec_insn_plain pkt (shift t) m insn Hp) as [-> _].
  destruct (exec_insn pkt m insn) as [m'|]; [|done]. simpl.
  rewrite IH, with_pc_with_pc. do 2 f_equal. unfold shift.
  repeat case_match; zbool; lia.
Qed.

Lemma exec_dropped t : 0 ≤ t → same_at t.
Proof.
  apply (forward_ind l same_at). clear t. intros t Ht IH. pose proof i_range.
  destruct (zget l t) as [insn|] eqn:Hg.
  - pose proof (zget_Some_lt _ _ _ Hg).
    assert (IH' : ∀ u, t < u → same_at u) by (intros; apply IH; lia). clear IH.
    destruct (Z.eq_dec t i) as [->|]; [apply same_at_cur, IH'; lia|].
    destruct (Z.eq_dec t (i + 1)) as [->|]; [apply same_at_nxt, IH'; lia|].
    destruct (is_jump insn) eqn:Hj.
    + apply (same_at_jump t insn); [done..|exact IH'].
    + apply (same_at_plain t insn); try done. apply IH'. lia.
  - apply zget_None in Hg. intros m.
    rewrite !exec_oob; [done|apply dropped_wf| |done|simpl; lia].
    rewrite zlen_dropped. unfold shift. simpl. case_match; zbool; lia.
Qed.

Lemma dropped_inner : inner dropped pkt = inner l pkt.
Proof.
  pose proof i_range. pose proof (exec_dropped 0 ltac:(lia) vm_start) as H0.
  unfold shift in H0. rewrite (proj2 (Z.leb_le 0 i)) in H0 by lia. symmetry. exact H0.
Qed.
End drop_one.

(** Each turn of the loop advances [i] or shortens the vector. *)
Lemma dedup_loop_correct n i l pkt :
  wf_prog l → 0 ≤ i → zlen l - i < Z.of_nat n → (0 < n)%nat →
  ∃ l', dedup_loop n i l = Some l' ∧ wf_prog l' ∧ zlen l' ≤ zlen l ∧
        inner l' pkt = inner l pkt.
Proof.
  revert i l. induction n as [|n IH]; intros i l Hwf Hi Hn H0; [lia|]. simpl.
  destruct (zget l i) as [cur|] eqn:Hc; [|by (exists l; split_and!; [..|lia|])].
  destruct (zget l (i + 1)) as [nxt|] eqn:Hn1; [|by (exists l; split_and!; [..|lia|])].
  pose proof (zget_Some_lt _ _ _ Hn1).
  case_match eqn:E; [|by apply IH; auto with lia].
  zbool. change (adjust_jumps _ _) with (dropped l i).
  assert (Hsame : i_code cur = i_code nxt ∧ i_k cur = i_k nxt) by done.
  pose proof (zlen_dropped l i cur nxt Hc Hn1) as Hlen.
  destruct (IH i (dropped l i)) as (l' & -> & ? & ? & Hi'); [|lia..|].
  { by eapply dropped_wf. }
  exists l'. split_and!; [done..|lia|]. rewrite Hi'. by eapply dropped_inner.
Qed.

(** C27: [dedup_loads] always returns, never grows the program and leaves the
    interpreter's outcome on every packet unchanged. *)
Theorem dedup_loads_correct (l : list Insn) (pkt : list Z) :
  wf_prog l →
  zlen (dedup_loads l) ≤ zlen l ∧ inner (dedup_loads l) pkt = inner l pkt.
Proof.
  intros Hwf. unfold dedup_loads. destruct l as [|x l0] eqn:E; [done|]. rewrite <- E in *.
  destruct (dedup_loop_correct (S (length l)) 0 l pkt) as (l' & -> & _ & ? & ?);
    auto with lia. unfold zlen. lia.
Qed.

Lemma dedup_loads_correct_witness :
  inner (dedup_loads (ldh_abs 12 :: sample_prog)) [] = inner (ldh_abs 12 :: sample_prog) [].
Proof.
  apply (dedup_loads_correct (ldh_abs 12 :: sample_prog) []).
  apply (bool_decide_unpack _). by vm_compute.
Defined.
