(* ===== verification/Text.v ===== *)
(** Strings as the Rust standard library offers them to the front end: byte
    classes, slices, number parsing and formatting. A [&str] is a [string] of
    the bytes of its UTF-8 encoding. *)

From S2P Require Export Prelude.
From Stdlib Require Export Ascii.

Abbreviation byte := Ascii.ascii.

#[global] Arguments Ascii.eqb : simpl never.
#[global] Arguments String.app : simpl nomatch.

Definition code (c : byte) : Z := Z.of_nat (nat_of_ascii c).

(** * Byte classes *)

Definition byte_in (lo hi : Z) (c : byte) : bool := (lo <=? code c) && (code c <=? hi).

(** [u8::is_ascii_digit] and its siblings *)
Definition is_ascii_digit : byte → bool := byte_in 48 57.
Definition is_ascii_upper : byte → bool := byte_in 65 90.
Definition is_ascii_lower : byte → bool := byte_in 97 122.
Definition is_ascii_alphabetic (c : byte) : bool := is_ascii_upper c || is_ascii_lower c.
Definition is_ascii_alphanumeric (c : byte) : bool := is_ascii_alphabetic c || is_ascii_digit c.
Definition is_ascii_hexdigit (c : byte) : bool :=
  is_ascii_digit c || byte_in 65 70 c || byte_in 97 102 c.
Definition is_ascii_whitespace (c : byte) : bool :=
  (code c =? 9) || (code c =? 10) || (code c =? 12) || (code c =? 13) || (code c =? 32).

#[global] Arguments is_ascii_digit : simpl never.
#[global] Arguments is_ascii_alphabetic : simpl never.
#[global] Arguments is_ascii_alphanumeric : simpl never.
#[global] Arguments is_ascii_hexdigit : simpl never.
#[global] Arguments is_ascii_whitespace : simpl never.

(** [char::to_digit], for a radix of at most 36 *)
Definition to_digit (radix : Z) (c : byte) : option Z :=
  let d := if is_ascii_digit c then code c - 48
           else if is_ascii_lower c then code c - 87
           else if is_ascii_upper c then code c - 55
           else radix in
  if d <? radix then Some d else None.

#[global] Arguments to_digit : simpl never.

(** * Slices *)

Definition slen (s : string) : Z := Z.of_nat (String.length s).

(** The longest prefix whose bytes satisfy [p], which also sees what follows
    the byte; and the rest. *)
Fixpoint span (p : byte → string → bool) (s : string) : string * string :=
  match s with
  | EmptyString => (EmptyString, EmptyString)
  | String c s' =>
      if p c s' then let '(w, rest) := span p s' in (String c w, rest)
      else (EmptyString, s)
  end.

(** The first byte. *)
Definition head (s : string) : option byte :=
  match s with EmptyString => None | String c _ => Some c end.

Definition starts_with (c : byte) (s : string) : bool :=
  match s with EmptyString => false | String c' _ => Ascii.eqb c' c end.

(** [str::strip_prefix], for a literal prefix *)
Fixpoint strip_prefix (p s : string) : option string :=
  match p, s with
  | EmptyString, _ => Some s
  | String c p', String c' s' => if Ascii.eqb c c' then strip_prefix p' s' else None
  | String _ _, EmptyString => None
  end.

(** [str::contains], for a literal *)
Fixpoint contains (pat s : string) : bool :=
  match strip_prefix pat s with Some _ => true | None => false end ||
  match s with EmptyString => false | String _ s' => contains pat s' end.

(** The number of bytes equal to [c]. *)
Fixpoint count_byte (c : byte) (s : string) : Z :=
  match s with
  | EmptyString => 0
  | String c' s' => (if Ascii.eqb c' c then 1 else 0) + count_byte c s'
  end.

(** [str::split], at a byte *)
Fixpoint str_split (sep : byte) (s : string) : list string :=
  match s with
  | EmptyString => [EmptyString]
  | String c s' =>
      if Ascii.eqb c sep then EmptyString :: str_split sep s'
      else match str_split sep s' with
           | [] => [String c EmptyString]
           | w :: ws => String c w :: ws
           end
  end.

(** The first [char] of a string: the code point that its first bytes encode. *)
Definition first_char (s : string) : option Z :=
  let cont (s : string) : Z * string :=
    match s with
    | EmptyString => (0, s)
    | String c s' => (code c .& 0x3f, s')
    end in
  match s with
  | EmptyString => None
  | String c s1 =>
      let x := code c in
      if x <? 128 then Some x
      else
        let init := x .& 0x1f in
        let '(y, s2) := cont s1 in
        if x <? 0xe0 then Some (Z.shiftl init 6 .| y)
        else
          let '(z, s3) := cont s2 in
          let y_z := Z.shiftl y 6 .| z in
          if x <? 0xf0 then Some (Z.shiftl init 12 .| y_z)
          else
            let '(w, _) := cont s3 in
            Some (Z.shiftl (init .& 7) 18 .| (Z.shiftl y_z 6 .| w))
  end.

(** * Numbers *)

(** [u8::from_str_radix]; a [+] in front is allowed. *)
Fixpoint u8_digits (radix : Z) (s : string) (result : Z) : option Z :=
  match s with
  | EmptyString => Some result
  | String c s' =>
      match to_digit radix c with
      | Some d =>
          if u8_max <? result * radix + d then None
          else u8_digits radix s' (result * radix + d)
      | None => None
      end
  end.

Definition u8_from_str_radix (s : string) (radix : Z) : option Z :=
  let digits := match s with
                | String c s' => if Ascii.eqb c "+" then s' else s
                | EmptyString => s
                end in
  match digits with
  | EmptyString => None
  | _ => u8_digits radix digits 0
  end.

(** [{}] of an integer *)
Definition dec_digit (d : Z) : byte := ascii_of_nat (48 + Z.to_nat d).
#[global] Opaque dec_digit.

Fixpoint dec_digits (fuel : nat) (n : Z) (acc : string) : string :=
  let acc' := String (dec_digit (n mod 10)) acc in
  match fuel with
  | O => acc'
  | S fuel' => if n / 10 =? 0 then acc' else dec_digits fuel' (n / 10) acc'
  end.

Definition show_dec (n : Z) : string := dec_digits 20 n "".

Definition show_int (n : Z) : string :=
  if n <? 0 then String "-" (show_dec (- n)) else show_dec n.

(** [{:x}] and [{:04x}] of an integer *)
Definition hex_digit (d : Z) : byte :=
  ascii_of_nat (Z.to_nat (if d <? 10 then 48 + d else 87 + d)).
#[global] Opaque hex_digit.

Fixpoint hex_digits (fuel : nat) (width : nat) (n : Z) (acc : string) : string :=
  match fuel with
  | O => acc
  | S fuel' =>
      match width with
      | O => if n =? 0 then acc
             else hex_digits fuel' O (n / 16) (String (hex_digit (n mod 16)) acc)
      | S width' => hex_digits fuel' width' (n / 16) (String (hex_digit (n mod 16)) acc)
      end
  end.

Definition hex (n : Z) : string := hex_digits 16 1 n "".
Definition hex2 (n : Z) : string := hex_digits 12 2 n "".
Definition hex4 (n : Z) : string := hex_digits 12 4 n "".

(** [[a, b, c]], the [{:?}] of an array *)
Definition show_list (l : list string) : string :=
  ("[" +:+ String.concat ", " l +:+ "]")%string.

(** [{:?}] of an [Option] *)
Definition debug_option {A} (show : A → string) (o : option A) : string :=
  match o with Some a => "Some(" +:+ show a +:+ ")" | None => "None" end%string.
