(* ===== verification/Net.v ===== *)
(** IP addresses as the Rust standard library reads and prints them
    ([core::net]): [Ipv6Addr::from_str] and the [Display] of both address
    types. An IPv4 address is a [u32], an IPv6 address its eight segments. *)

From S2P Require Export Text.

(** * Reading

    A reader returns what it has read and the rest of the input; [None] leaves
    the input as it was ([read_atomically]). *)

(** [read_given_char] *)
Definition read_given_char (c : byte) (s : string) : option string :=
  match s with
  | String c' s' => if Ascii.eqb c' c then Some s' else None
  | EmptyString => None
  end.

(** [read_separator]: the separator stands in front of every item but the first. *)
Definition read_separator {A} (sep : byte) (index : Z)
    (inner : string → option (A * string)) (s : string) : option (A * string) :=
  if 0 <? index then s' ← read_given_char sep s; inner s' else inner s.

(** The digit loop of [read_number]: the value, the number of digits, the rest. *)
Fixpoint read_digits (radix max_digits : Z) (s : string) (result digit_count : Z) :
    option (Z * Z * string) :=
  match s with
  | EmptyString => Some (result, digit_count, s)
  | String c s' =>
      match to_digit radix c with
      | Some d =>
          if max_digits <? digit_count + 1 then None
          else read_digits radix max_digits s' (result * radix + d) (digit_count + 1)
      | None => Some (result, digit_count, s)
      end
  end.

Definition read_number (radix max_digits : Z) (allow_zero_prefix : bool) (max : Z)
    (s : string) : option (Z * string) :=
  '(result, digit_count, rest) ← read_digits radix max_digits s 0 0;
  if digit_count =? 0 then None
  else if negb allow_zero_prefix && starts_with "0" s && (1 <? digit_count) then None
  else if max <? result then None
  else Some (result, rest).

Definition read_octet : string → option (Z * string) := read_number 10 3 false u8_max.

Definition read_ipv4_addr (s : string) : option (Z * Z * Z * Z * string) :=
  '(a, s1) ← read_separator "." 0 read_octet s;
  '(b, s2) ← read_separator "." 1 read_octet s1;
  '(c, s3) ← read_separator "." 2 read_octet s2;
  '(d, s4) ← read_separator "." 3 read_octet s3;
  Some (a, b, c, d, s4).

(** [read_groups], from group [i] on with [slots] groups left: the groups read,
    whether they end in an embedded IPv4 address, and the rest. *)
Fixpoint read_groups (slots : nat) (i : Z) (s : string) : list Z * bool * string :=
  match slots with
  | O => ([], false, s)
  | S slots' =>
      match (match slots' with
             | O => None
             | S _ => read_separator ":" i read_ipv4_addr s
             end) with
      | Some (a, b, c, d, s') => ([a * 256 + b; c * 256 + d], true, s')
      | None =>
          match read_separator ":" i (read_number 16 4 true u16_max) s with
          | Some (g, s') =>
              let '(gs, ipv4, rest) := read_groups slots' (i + 1) s' in
              (g :: gs, ipv4, rest)
          | None => ([], false, s)
          end
      end
  end.

Definition read_ipv6_addr (s : string) : option (list Z * string) :=
  let '(head, head_ipv4, s1) := read_groups 8 0 s in
  if (length head =? 8)%nat then Some (head, s1)
  else if head_ipv4 : bool then None
  else
    s2 ← read_given_char ":" s1;
    s3 ← read_given_char ":" s2;
    let limit := (8 - (length head + 1))%nat in
    let '(tail, _, s4) := read_groups limit 0 s3 in
    Some (head ++ replicate (8 - length head - length tail) 0 ++ tail, s4).

(** [str::parse::<Ipv6Addr>] *)
Definition parse_ipv6 (s : string) : option (list Z) :=
  '(addr, rest) ← read_ipv6_addr s;
  match rest with EmptyString => Some addr | _ => None end.

(** * Printing *)

Definition show_ipv4 (a : Z) : string :=
  String.concat "."
    [show_dec (a / 2 ^ 24); show_dec (a / 2 ^ 16 mod 2 ^ 8);
     show_dec (a / 2 ^ 8 mod 2 ^ 8); show_dec (a mod 2 ^ 8)].

(** The longest run of zero segments, as its start and length. *)
Fixpoint zero_run (i : Z) (segs : list Z) (current longest : Z * Z) : Z * Z :=
  match segs with
  | [] => longest
  | seg :: segs' =>
      if seg =? 0 then
        let start := if current.2 =? 0 then i else current.1 in
        let current' := (start, current.2 + 1) in
        zero_run (i + 1) segs' current' (if longest.2 <? current'.2 then current' else longest)
      else zero_run (i + 1) segs' (0, 0) longest
  end.

Definition fmt_subslice (segs : list Z) : string := String.concat ":" (map hex segs).

Definition show_ipv6 (segs : list Z) : string :=
  if decide (take 6 segs = [0; 0; 0; 0; 0; 0xffff]) then
    ("::ffff:" +:+ show_ipv4 (nth 6 segs 0 * 2 ^ 16 + nth 7 segs 0))%string
  else
    let '(start, n) := zero_run 0 segs (0, 0) (0, 0) in
    if 1 <? n then
      (fmt_subslice (take (Z.to_nat start) segs) +:+ "::" +:+
       fmt_subslice (drop (Z.to_nat (start + n)) segs))%string
    else fmt_subslice segs.
