(* ===== verification/Ast.v ===== *)
(** The filter syntax tree (ast.rs): its data, and the tree operations that the
    code runs with an explicit stack so that a long [a or b or ...] chain needs
    no recursion: [clone], [==] and [drop]; and [Debug], cut off at a depth. *)

From S2P Require Export Error.

(** * Data *)

Inductive Dir := SrcOrDst | Src | Dst | SrcAndDst.

Inductive AddrType :=
  | AddrUnspecified | AddrHost | AddrNet | AddrPort | AddrPortRange | AddrEther.

(** [Ipv4Addr] is the 32-bit integer [u32::from] gives; [Ipv6Addr] its eight
    16-bit [segments()]. *)
Inductive IpAddr :=
  | V4 (a : Z)
  | V6 (segments : list Z).

Record IpNet := mk_ip_net { net_addr : Z; net_mask : Z }.
Record Ipv6Net := mk_ip6_net { net6_segments : list Z; net6_prefix_len : Z }.

(** [IpNet::from_prefix]; [32 - prefix_len] underflows beyond 32. *)
Definition from_prefix (addr prefix_len : Z) : outcome IpNet :=
  if prefix_len =? 0 then Ok (mk_ip_net addr 0)
  else if 32 <? prefix_len then Panic
  else Ok (mk_ip_net addr (as_u32 (Z.shiftl u32_max (32 - prefix_len)))).

(** Six octets. *)
Record MacAddr := mk_mac { mac_octets : list Z }.

Inductive Proto :=
  | Ip | Ip6 | Arp | Rarp | Tcp | Udp | Icmp | Icmp6 | Igmp | Sctp
  | Num (n : Z)
  | Ip6Proto (n : Z).

Inductive ArithOp := Add | Sub | Mul | Div | Mod | And_ | Or_ | Xor | Shl | Shr.
Inductive CmpOp := Eq_ | Ne | Lt_ | Le | Gt_ | Ge | BitAnd.
Inductive AccessSize := Byte | Half | Word.
Inductive Layer := Raw | Net | Trans.

Record ByteLoad := mk_byte_load {
  bl_layer : Layer;
  bl_offset : Z;
  bl_size : AccessSize;
}.

Inductive CmpRhs :=
  | Const (value : Z)
  | Load_ (l : ByteLoad).

Record ByteAccess := mk_byte_access {
  ba_layer : Layer;
  ba_offset : Z;
  ba_size : AccessSize;
  ba_alu_ops : list (ArithOp * Z);
  ba_op : CmpOp;
  ba_rhs : CmpRhs;
}.

Inductive Primitive :=
  | PHost (addr : IpAddr) (dir : Dir)
  | PPort (port : Z) (dir : Dir) (proto : option Proto)
  | PPortRange (lo hi : Z) (dir : Dir) (proto : option Proto)
  | PNet (net : IpNet) (dir : Dir)
  | PNet6 (net : Ipv6Net) (dir : Dir)
  | PProto (p : Proto)
  | PEtherHost (addr : MacAddr) (dir : Dir)
  | PEtherProto (et : Z)
  | PEtherMulticast
  | PIpBroadcast
  | PIpMulticast
  | PIp6Multicast
  | PVlan (id : option Z)
  | PMpls (label : option Z)
  | PPppoeDiscovery
  | PPppoeSession (session_id : option Z)
  | PIpProtoChain (n : Z)
  | PIp6ProtoChain (n : Z)
  | PLen (op : CmpOp) (value : Z)
  | PInbound
  | POutbound
  | PByteAccess (ba : ByteAccess).

Inductive Expr :=
  | And (l r : Expr)
  | Or (l r : Expr)
  | Not (inner : Expr)
  | Prim (p : Primitive).

#[export] Instance Dir_eq_dec : EqDecision Dir. Proof. solve_decision. Defined.
#[export] Instance IpAddr_eq_dec : EqDecision IpAddr. Proof. solve_decision. Defined.
#[export] Instance IpNet_eq_dec : EqDecision IpNet. Proof. solve_decision. Defined.
#[export] Instance Ipv6Net_eq_dec : EqDecision Ipv6Net. Proof. solve_decision. Defined.
#[export] Instance MacAddr_eq_dec : EqDecision MacAddr. Proof. solve_decision. Defined.
#[export] Instance Proto_eq_dec : EqDecision Proto. Proof. solve_decision. Defined.
#[export] Instance ArithOp_eq_dec : EqDecision ArithOp. Proof. solve_decision. Defined.
#[export] Instance CmpOp_eq_dec : EqDecision CmpOp. Proof. solve_decision. Defined.
#[export] Instance AccessSize_eq_dec : EqDecision AccessSize. Proof. solve_decision. Defined.
#[export] Instance Layer_eq_dec : EqDecision Layer. Proof. solve_decision. Defined.
#[export] Instance ByteLoad_eq_dec : EqDecision ByteLoad. Proof. solve_decision. Defined.
#[export] Instance CmpRhs_eq_dec : EqDecision CmpRhs. Proof. solve_decision. Defined.
#[export] Instance ByteAccess_eq_dec : EqDecision ByteAccess. Proof. solve_decision. Defined.
#[export] Instance Primitive_eq_dec : EqDecision Primitive. Proof. solve_decision. Defined.
#[export] Instance Expr_eq_dec : EqDecision Expr. Proof. solve_decision. Defined.

(** * Ranges

    The ranges of the fields' Rust types. Byte-access offsets are [i32] in the
    tree; the parser rejects negative ones, and only those are well formed. *)
Definition wf_proto (p : Proto) : Prop :=
  match p with Num n | Ip6Proto n => is_u8 n | _ => True end.

Definition wf_option (P : Z → Prop) (o : option Z) : Prop :=
  match o with Some x => P x | None => True end.

Definition wf_segments (l : list Z) : Prop := zlen l = 8 ∧ Forall is_u16 l.

Definition wf_offset (o : Z) : Prop := 0 ≤ o < 2 ^ 31.

Definition wf_byte_access (ba : ByteAccess) : Prop :=
  wf_offset (ba_offset ba) ∧ Forall (λ op, is_u32 op.2) (ba_alu_ops ba) ∧
  match ba_rhs ba with
  | Const v => is_u32 v
  | Load_ l => wf_offset (bl_offset l)
  end.

Definition wf_primitive (p : Primitive) : Prop :=
  match p with
  | PHost (V4 a) _ => is_u32 a
  | PHost (V6 segs) _ => wf_segments segs
  | PPort port _ _ => is_u16 port
  | PPortRange lo hi _ _ => is_u16 lo ∧ is_u16 hi
  | PNet n _ => is_u32 (net_addr n) ∧ is_u32 (net_mask n)
  | PNet6 n _ => wf_segments (net6_segments n) ∧ is_u8 (net6_prefix_len n)
  | PProto p => wf_proto p
  | PEtherHost a _ => zlen (mac_octets a) = 6 ∧ Forall is_u8 (mac_octets a)
  | PEtherProto et => is_u16 et
  | PVlan id | PPppoeSession id => wf_option is_u16 id
  | PMpls label => wf_option is_u32 label
  | PIpProtoChain n | PIp6ProtoChain n => is_u8 n
  | PLen _ v => is_u32 v
  | PByteAccess ba => wf_byte_access ba
  | PEtherMulticast | PIpBroadcast | PIpMulticast | PIp6Multicast | PPppoeDiscovery
  | PInbound | POutbound => True
  end.

Fixpoint wf_expr (e : Expr) : Prop :=
  match e with
  | And l r | Or l r => wf_expr l ∧ wf_expr r
  | Not x => wf_expr x
  | Prim p => wf_primitive p
  end.

(** Number of nodes of a tree. *)
Fixpoint size (e : Expr) : nat :=
  match e with
  | And l r | Or l r => S (size l + size r)
  | Not x => S (size x)
  | Prim _ => 1
  end.

Fixpoint depth (e : Expr) : nat :=
  match e with
  | And l r | Or l r => S (depth l `max` depth r)
  | Not x => S (depth x)
  | Prim _ => 0
  end.

Lemma size_pos e : (0 < size e)%nat.
Proof. destruct e; simpl; lia. Qed.

Definition placeholder : Expr := Prim PIpBroadcast.

(** * [Clone]

    A [&mut Expr] into the tree under construction is the path of child
    numbers that leads from the root to it. *)

(** [*dst = v], for the slot at path [p] of [t]. *)
Fixpoint set_at (p : list bool) (v t : Expr) : Expr :=
  match p with
  | [] => v
  | b :: p' =>
      match t with
      | And l r => if b then And l (set_at p' v r) else And (set_at p' v l) r
      | Or l r => if b then Or l (set_at p' v r) else Or (set_at p' v l) r
      | Not x => Not (set_at p' v x)
      | Prim q => Prim q
      end
  end.

(** A node of the kind of [src] over fresh placeholders, and the child slots
    with what is to be copied into them, the top of the stack first. *)
Definition clone_shallow (src : Expr) : Expr :=
  match src with
  | And _ _ => And placeholder placeholder
  | Or _ _ => Or placeholder placeholder
  | Not _ => Not placeholder
  | Prim p => Prim p
  end.

Definition clone_children (src : Expr) (p : list bool) : list (Expr * list bool) :=
  match src with
  | And l r | Or l r => [(l, p ++ [false]); (r, p ++ [true])]
  | Not x => [(x, p ++ [false])]
  | Prim _ => []
  end.

Fixpoint clone_loop (n : nat) (root : Expr) (stack : list (Expr * list bool)) : option Expr :=
  match n with
  | O => None
  | S n' =>
      match stack with
      | [] => Some root
      | (src, dst) :: stack' =>
          clone_loop n' (set_at dst (clone_shallow src) root)
            (clone_children src dst ++ stack')
      end
  end.

Definition clone (e : Expr) : option Expr :=
  clone_loop (S (size e)) placeholder [(e, [])].

(** * [PartialEq] *)

Fixpoint eq_loop (n : nat) (stack : list (Expr * Expr)) : option bool :=
  match n with
  | O => None
  | S n' =>
      match stack with
      | [] => Some true
      | (And al ar, And bl br) :: stack' | (Or al ar, Or bl br) :: stack' =>
          eq_loop n' ((al, bl) :: (ar, br) :: stack')
      | (Not a, Not b) :: stack' => eq_loop n' ((a, b) :: stack')
      | (Prim a, Prim b) :: stack' =>
          if decide (a = b) then eq_loop n' stack' else Some false
      | _ => Some false
      end
  end.

Definition eq (a b : Expr) : option bool := eq_loop (S (size a)) [(a, b)].

(** * [Drop] *)

(** [take_children]: what is left of the node, and the detached children in
    the order they are pushed. *)
Definition take_children (e : Expr) : Expr * list Expr :=
  match e with
  | And l r => (And placeholder placeholder, [l; r])
  | Or l r => (Or placeholder placeholder, [l; r])
  | Not x => (Not placeholder, [x])
  | Prim p => (Prim p, [])
  end.

(** The loop; [dropped] lists the nodes as they are when they go out of scope. *)
Fixpoint drop_loop (n : nat) (stack dropped : list Expr) : option (list Expr) :=
  match n with
  | O => None
  | S n' =>
      match stack with
      | [] => Some dropped
      | e :: stack' =>
          let '(rest, children) := take_children e in
          drop_loop n' (reverse children ++ stack') (dropped ++ [rest])
      end
  end.

(** [Drop::drop] of [e], which is itself what is left of it afterwards. *)
Definition drop_expr (e : Expr) : option (list Expr) :=
  let '(rest, children) := take_children e in
  drop_loop (S (size e)) (reverse children) [rest].

(** * [Debug] *)

Definition DEBUG_MAX_DEPTH : nat := 128.

Section debug.
(** What [#[derive(Debug)]] prints for a [Primitive]. *)
Context (debug_primitive : Primitive → string).

(** [{:?}] of a tuple struct: name and fields. *)
Definition debug_tuple (name : string) (fields : list string) : string :=
  (name +:+ "(" +:+ String.concat ", " fields +:+ ")")%string.

(** [AtDepth(e, depth)] *)
Fixpoint fmt_at_depth (e : Expr) (d : nat) : string :=
  if (DEBUG_MAX_DEPTH <? d)%nat then ".."
  else
    match e with
    | And l r => debug_tuple "And" [fmt_at_depth l (S d); fmt_at_depth r (S d)]
    | Or l r => debug_tuple "Or" [fmt_at_depth l (S d); fmt_at_depth r (S d)]
    | Not x => debug_tuple "Not" [fmt_at_depth x (S d)]
    | Prim p => debug_tuple "Primitive" [debug_primitive p]
    end.

Definition fmt (e : Expr) : string := fmt_at_depth e 0.

(** What the derived implementation would print. *)
Fixpoint derived_debug (e : Expr) : string :=
  match e with
  | And l r => debug_tuple "And" [derived_debug l; derived_debug r]
  | Or l r => debug_tuple "Or" [derived_debug l; derived_debug r]
  | Not x => debug_tuple "Not" [derived_debug x]
  | Prim p => debug_tuple "Primitive" [debug_primitive p]
  end.
End debug.

(** * Correctness of the explicit stacks *)

Lemma set_at_app p q v w t : set_at (p ++ q) w (set_at p v t) = set_at p (set_at q w v) t.
Proof.
  revert t. induction p as [|b p IH]; intros t; [done|].
  destruct t; destruct b; simpl; by rewrite ?IH.
Qed.

Lemma set_at_set_at p v w t : set_at p w (set_at p v t) = set_at p w t.
Proof. rewrite <- (app_nil_r p) at 1. apply set_at_app. Qed.

Lemma set_at_children_2 p v x y t :
  set_at (p ++ [true]) y (set_at (p ++ [false]) x (set_at p v t)) =
  set_at p (set_at [true] y (set_at [false] x v)) t.
Proof. by rewrite !set_at_app. Qed.

(** What the pending copies of [stack] will make of [root]. *)
Definition filled (stack : list (Expr * list bool)) (root : Expr) : Expr :=
  foldl (λ t '(src, dst), set_at dst src t) root stack.

Lemma filled_step src dst stack root :
  filled (clone_children src dst ++ stack) (set_at dst (clone_shallow src) root) =
  filled ((src, dst) :: stack) root.
Proof.
  unfold filled. rewrite foldl_app. simpl. f_equal.
  destruct src; simpl; rewrite ?set_at_children_2, ?set_at_app; done.
Qed.

Definition stack_size {A} (f : A → nat) (stack : list A) : nat := sum_list_with f stack.

Lemma clone_children_size src dst :
  (stack_size (size ∘ fst) (clone_children src dst) < size src)%nat.
Proof. destruct src; simpl; lia. Qed.

Lemma clone_loop_filled n root stack :
  (stack_size (size ∘ fst) stack < n)%nat → clone_loop n root stack = Some (filled stack root).
Proof.
  revert root stack. induction n as [|n IH]; intros root stack Hn; [lia|]. simpl.
  destruct stack as [|[src dst] stack]; [done|].
  rewrite IH, filled_step; [done|].
  pose proof (clone_children_size src dst). unfold stack_size in *.
  rewrite sum_list_with_app. simpl in *. lia.
Qed.

(** C36: the cloning loop terminates and builds a copy of its argument. *)
Theorem clone_correct (e : Expr) : clone e = Some e.
Proof. unfold clone. rewrite clone_loop_filled; [done|]. simpl. lia. Qed.

Lemma eq_loop_spec n stack :
  (stack_size (size ∘ fst) stack < n)%nat →
  eq_loop n stack = Some (bool_decide (Forall (λ p, p.1 = p.2) stack)).
Proof.
  revert stack. induction n as [|n IH]; intros stack Hn; [lia|].
  assert (Hno : ∀ (a b : Expr) st, a ≠ b →
    Some false = Some (bool_decide (Forall (λ p : Expr * Expr, p.1 = p.2) ((a, b) :: st)))).
  { intros a b st Hab. rewrite bool_decide_false; [done|].
    intros Hall. by inversion Hall. }
  destruct stack as [|[a b] stack]; [by rewrite bool_decide_true by constructor|].
  destruct a, b; simpl in *; try done.
  1-3: rewrite IH by (simpl; lia); f_equal; apply bool_decide_ext;
    rewrite !Forall_cons; simpl; naive_solver.
  case_decide as Hd; [|apply Hno; congruence].
  rewrite IH by (simpl in *; lia). f_equal. apply bool_decide_ext.
  rewrite Forall_cons. simpl. naive_solver.
Qed.

(** C37: the comparison loop terminates and decides structural equality, the
    result of the derived implementation. *)
Theorem eq_correct (a b : Expr) : eq a b = Some (bool_decide (a = b)).
Proof.
  unfold eq. rewrite eq_loop_spec by (simpl; lia). f_equal. apply bool_decide_ext.
  rewrite Forall_cons. simpl. split; [by intros [? _]|by repeat constructor].
Qed.

Lemma drop_loop_spec n stack dropped :
  (stack_size size stack < n)%nat →
  ∃ rest, drop_loop n stack dropped = Some (dropped ++ rest) ∧
    length rest = stack_size size stack ∧ Forall (λ x, (depth x ≤ 1)%nat) rest.
Proof.
  revert stack dropped. induction n as [|n IH]; intros stack dropped Hn; [lia|]. simpl.
  destruct stack as [|e stack]; [exists []; by rewrite app_nil_r|].
  destruct (take_children e) as [rest children] eqn:E.
  assert (stack_size size (reverse children) = pred (size e) ∧ (depth rest ≤ 1)%nat) as [Hs Hd]
    by (destruct e; simpl in E; simplify_eq; simpl; split; lia).
  assert (0 < size e)%nat by (destruct e; simpl; lia).
  unfold stack_size in *. simpl in *.
  destruct (IH (reverse children ++ stack) (dropped ++ [rest])) as (r & -> & Hr & Hall).
  { rewrite sum_list_with_app. lia. }
  exists (rest :: r). rewrite <- app_assoc. split_and!; [done| |by constructor].
  simpl. rewrite Hr, sum_list_with_app. lia.
Qed.

(** C38: dropping a tree terminates, lets every node go out of scope exactly
    once, and each of them with its children already detached, so that no drop
    nests deeper than one level. *)
Theorem drop_shallow (e : Expr) :
  ∃ dropped, drop_expr e = Some dropped ∧ length dropped = size e ∧
    Forall (λ x, (depth x ≤ 1)%nat) dropped.
Proof.
  unfold drop_expr. destruct (take_children e) as [rest children] eqn:E.
  destruct (drop_loop_spec (S (size e)) (reverse children) [rest]) as (r & -> & Hr & Hall);
    [destruct e; simpl in E; simplify_eq; simpl; lia|].
  exists (rest :: r). split_and!; [done| |constructor; [|done]].
  - simpl. rewrite Hr. destruct e; simpl in E; simplify_eq; simpl; lia.
  - destruct e; simpl in E; simplify_eq; simpl; lia.
Qed.

Lemma fmt_at_depth_derived dbg e d :
  (d + depth e ≤ DEBUG_MAX_DEPTH)%nat → fmt_at_depth dbg e d = derived_debug dbg e.
Proof.
  revert d. induction e; intros d Hd; simpl in *;
    rewrite (proj2 (Nat.ltb_ge _ _)) by lia;
    rewrite ?IHe1, ?IHe2, ?IHe by lia; done.
Qed.

(** C39: up to 128 levels deep, [Debug] prints what the derived one would. *)
Theorem fmt_derived (debug_primitive : Primitive → string) (e : Expr) :
  (depth e ≤ DEBUG_MAX_DEPTH)%nat → fmt debug_primitive e = derived_debug debug_primitive e.
Proof. intros. apply fmt_at_depth_derived. lia. Qed.

Lemma fmt_derived_witness :
  fmt (λ _, "p"%string) (Not placeholder) = derived_debug (λ _, "p"%string) (Not placeholder).
Proof. apply (fmt_derived (λ _, "p"%string) (Not placeholder)). vm_compute. lia. Defined.

(** C40: [from_prefix] sets exactly the top [prefix_len] bits of the mask. *)
Theorem from_prefix_bits (addr prefix_len : Z) :
  0 ≤ prefix_len ≤ 32 →
  ∃ net, from_prefix addr prefix_len = Ok net ∧ net_addr net = addr ∧
    is_u32 (net_mask net) ∧
    ∀ i, 0 ≤ i < 32 → Z.testbit (net_mask net) i = (32 - prefix_len <=? i).
Proof.
  intros Hp. unfold from_prefix. destruct (Z.eqb_spec prefix_len 0) as [->|].
  - eexists. split_and!; [done..| |]; simpl; [ulia|].
    intros i Hi. rewrite Z.bits_0. symmetry. apply Z.leb_gt. lia.
  - rewrite (proj2 (Z.ltb_ge _ _)) by lia. eexists. split_and!; [done..| |]; simpl.
    { unfold is_u32, as_u32. apply Z.mod_pos_bound. lia. }
    intros i Hi. unfold as_u32. rewrite Z.mod_pow2_bits_low by lia.
    rewrite Z.shiftl_spec by lia. unfold u32_max. change (2 ^ 32 - 1) with (Z.ones 32).
    destruct (Z.leb_spec (32 - prefix_len) i).
    + apply Z.ones_spec_low. lia.
    + apply Z.testbit_neg_r. lia.
Qed.

Lemma from_prefix_bits_witness :
  ∃ net, from_prefix 0x0a000000 8 = Ok net ∧ net_addr net = 0x0a000000.
Proof.
  destruct (from_prefix_bits 0x0a000000 8) as (net & E & Ha & _); [lia|]. by exists net.
Defined.
