(* ===== verification/Lexer.v ===== *)
(** The tokenizer (lexer.rs). A position in the source is a byte offset; the
    lexer holds the offset together with the rest of the source behind it. *)

From S2P Require Export Error Net.

(** * Tokens *)

(** [TIpv4] carries the four octets and how many were written, [TIpv6] the
    eight segments, [TMac] the six octets. *)
Inductive Token :=
  | TAnd | TOr | TNot | TSrc | TDst | THost | TNet | TPort | TPortRange | TEther
  | TBroadcast | TMulticast | TIp | TIp6 | TArp | TRarp | TTcp | TUdp | TIcmp | TIcmp6
  | TIgmp | TSctp | TProto | TAh | TEsp | TPim | TIgrp | TVrrp | TProtochain | TVlan
  | TMpls | TPppoed | TPppoes | TInbound | TOutbound | TLen | TMask | TGateway | TLess
  | TGreater | TLParen | TRParen | TLBracket | TRBracket | TColon | TMinus | TPlus | TStar
  | TSlash | TPercent | TPipe | TCaret | TShl | TShr | TEq | TNe | TLt | TLe | TGt | TGe
  | TAmp | TBang
  | TNum (n : Z)
  | TIpv4 (octets : list Z) (parts : Z)
  | TIpv6 (addr : list Z)
  | TMac (octets : list Z)
  | TIdent (s : string).

#[export] Instance Token_eq_dec : EqDecision Token.
Proof. solve_decision. Defined.

Record Spanned := mk_spanned {
  token : Token;
  sp_offset : Z;
}.

Definition quote : string := String (ascii_of_nat 34) "".

(** [{:?}] of a token. An identifier holds no character that is escaped. *)
Definition debug_token (t : Token) : string :=
  match t with
  | TAnd => "And" | TOr => "Or" | TNot => "Not" | TSrc => "Src" | TDst => "Dst"
  | THost => "Host" | TNet => "Net" | TPort => "Port" | TPortRange => "PortRange"
  | TEther => "Ether" | TBroadcast => "Broadcast" | TMulticast => "Multicast" | TIp => "Ip"
  | TIp6 => "Ip6" | TArp => "Arp" | TRarp => "Rarp" | TTcp => "Tcp" | TUdp => "Udp"
  | TIcmp => "Icmp" | TIcmp6 => "Icmp6" | TIgmp => "Igmp" | TSctp => "Sctp"
  | TProto => "Proto" | TAh => "Ah" | TEsp => "Esp" | TPim => "Pim" | TIgrp => "Igrp"
  | TVrrp => "Vrrp" | TProtochain => "Protochain" | TVlan => "Vlan" | TMpls => "Mpls"
  | TPppoed => "Pppoed" | TPppoes => "Pppoes" | TInbound => "Inbound"
  | TOutbound => "Outbound" | TLen => "Len" | TMask => "Mask" | TGateway => "Gateway"
  | TLess => "Less" | TGreater => "Greater" | TLParen => "LParen" | TRParen => "RParen"
  | TLBracket => "LBracket" | TRBracket => "RBracket" | TColon => "Colon"
  | TMinus => "Minus" | TPlus => "Plus" | TStar => "Star" | TSlash => "Slash"
  | TPercent => "Percent" | TPipe => "Pipe" | TCaret => "Caret" | TShl => "Shl"
  | TShr => "Shr" | TEq => "Eq" | TNe => "Ne" | TLt => "Lt" | TLe => "Le" | TGt => "Gt"
  | TGe => "Ge" | TAmp => "Amp" | TBang => "Bang"
  | TNum n => "Num(" +:+ show_dec n +:+ ")"
  | TIpv4 octets parts => "Ipv4(" +:+ show_list (map show_dec octets) +:+ ", " +:+ show_dec parts +:+ ")"
  | TIpv6 addr => "Ipv6(" +:+ show_ipv6 addr +:+ ")"
  | TMac octets => "Mac(" +:+ show_list (map show_dec octets) +:+ ")"
  | TIdent s => "Ident(" +:+ quote +:+ s +:+ quote +:+ ")"
  end%string.

(** * Words *)

Definition keywords : list (string * Token) :=
  [("and", TAnd); ("or", TOr); ("not", TNot); ("src", TSrc); ("dst", TDst); ("host", THost);
   ("net", TNet); ("port", TPort); ("portrange", TPortRange); ("ether", TEther);
   ("broadcast", TBroadcast); ("multicast", TMulticast); ("ip", TIp); ("ip6", TIp6);
   ("arp", TArp); ("rarp", TRarp); ("tcp", TTcp); ("udp", TUdp); ("icmp", TIcmp);
   ("icmp6", TIcmp6); ("igmp", TIgmp); ("sctp", TSctp); ("proto", TProto); ("less", TLess);
   ("greater", TGreater); ("ah", TAh); ("esp", TEsp); ("pim", TPim); ("igrp", TIgrp);
   ("vrrp", TVrrp); ("vlan", TVlan); ("mpls", TMpls); ("pppoed", TPppoed); ("pppoes", TPppoes);
   ("protochain", TProtochain); ("inbound", TInbound); ("outbound", TOutbound); ("len", TLen);
   ("mask", TMask); ("gateway", TGateway); ("tcpflags", TNum 13); ("icmptype", TNum 0);
   ("icmpcode", TNum 1); ("icmp6type", TNum 0); ("icmp6code", TNum 1); ("tcp-fin", TNum 0x01);
   ("tcp-syn", TNum 0x02); ("tcp-rst", TNum 0x04); ("tcp-push", TNum 0x08);
   ("tcp-ack", TNum 0x10); ("tcp-urg", TNum 0x20); ("tcp-ece", TNum 0x40);
   ("tcp-cwr", TNum 0x80); ("icmp-echoreply", TNum 0); ("icmp-unreach", TNum 3);
   ("icmp-sourcequench", TNum 4); ("icmp-redirect", TNum 5); ("icmp-echo", TNum 8);
   ("icmp-routeradvert", TNum 9); ("icmp-routersolicit", TNum 10); ("icmp-timxceed", TNum 11);
   ("icmp-paramprob", TNum 12); ("icmp-tstamp", TNum 13); ("icmp-tstampreply", TNum 14);
   ("icmp-ireq", TNum 15); ("icmp-ireqreply", TNum 16); ("icmp-maskreq", TNum 17);
   ("icmp-maskreply", TNum 18)]%string.

Fixpoint assoc_string {A} (s : string) (l : list (string * A)) : option A :=
  match l with
  | [] => None
  | (k, a) :: l' => if String.eqb s k then Some a else assoc_string s l'
  end.

Definition keyword_or_ident (s : string) : Token :=
  match assoc_string s keywords with Some t => t | None => TIdent s end.

Definition looks_like_ipv6 (s : string) : bool :=
  contains "::" s || (2 <=? count_byte ":" s).

Definition looks_like_mac (s : string) : bool := count_byte ":" s =? 5.

Definition parse_mac (s : string) : option (list Z) :=
  let parts := str_split ":" s in
  if (length parts =? 6)%nat then mapM (λ p, u8_from_str_radix p 16) parts else None.

(** * Numbers *)

Definition invalid (raw : string) (offset : Z) (why : string) : Error :=
  ParseError ("invalid number '" +:+ raw +:+ "' at offset " +:+ show_dec offset +:+ ": " +:+ why).

Fixpoint parse_digits (radix : Z) (raw : string) (offset : Z) (digits : string) (n : Z) :
    outcome Z :=
  match digits with
  | EmptyString => Ok n
  | String c digits' =>
      match to_digit radix c with
      | None =>
          Err (invalid raw offset
                 (if (radix =? 8) && is_ascii_digit c then "contains non-octal digit"
                  else "contains invalid digit"))
      | Some d =>
          let n' := n * radix + d in
          if u32_max <? n' then Err (invalid raw offset "overflows 32 bits")
          else parse_digits radix raw offset digits' n'
      end
  end.

(** The digits of a literal, and their radix. *)
Definition literal_radix (raw : string) : string * Z :=
  match strip_prefix "0x" raw, strip_prefix "0X" raw with
  | Some hex, _ | None, Some hex => (hex, 16)
  | None, None =>
      match strip_prefix "0" raw with
      | Some (String _ _ as oct) => (oct, 8)
      | _ => (raw, 10)
      end
  end.

Definition parse_int (raw : string) (offset : Z) : outcome Z :=
  let '(digits, radix) := literal_radix raw in
  match digits with
  | EmptyString => Err (invalid raw offset "expected digits")
  | _ => parse_digits radix raw offset digits 0
  end.

(** The loop over the parts of a dotted address from part [i] on. *)
Fixpoint parse_octets (i : nat) (parts : list string) (octets : list Z) : option (list Z) :=
  match parts with
  | [] => Some octets
  | p :: parts' =>
      match octets !! i, u8_from_str_radix p 10 with
      | Some _, Some n => parse_octets (S i) parts' (<[i := n]> octets)
      | _, _ => None
      end
  end.

Definition parse_numlike (raw : string) (offset : Z) : outcome Token :=
  if contains "." raw then
    let parts := str_split "." raw in
    match parse_octets 0 parts [0; 0; 0; 0] with
    | Some octets => Ok (TIpv4 octets (zlen parts))
    | None =>
        Err (ParseError ("invalid IPv4 address '" +:+ raw +:+ "' at offset " +:+ show_dec offset))
    end
  else
    match (if looks_like_ipv6 raw then parse_ipv6 raw else None) with
    | Some addr => Ok (TIpv6 addr)
    | None =>
        match (if looks_like_mac raw then parse_mac raw else None) with
        | Some mac => Ok (TMac mac)
        | None => TNum <$> parse_int raw offset
        end
    end.

(** * The scanner

    Each [lex_*] returns the token that starts at the head of [s], if there is
    one, and what follows it. *)

Definition is_hex_colon_dot (c : byte) (_ : string) : bool :=
  is_ascii_hexdigit c || Ascii.eqb c ":" || Ascii.eqb c ".".

Definition two_char (c d : byte) : option Token :=
  if Ascii.eqb c "!" && Ascii.eqb d "=" then Some TNe
  else if Ascii.eqb c "<" && Ascii.eqb d "=" then Some TLe
  else if Ascii.eqb c ">" && Ascii.eqb d "=" then Some TGe
  else if Ascii.eqb c "&" && Ascii.eqb d "&" then Some TAnd
  else if Ascii.eqb c "|" && Ascii.eqb d "|" then Some TOr
  else if Ascii.eqb c "<" && Ascii.eqb d "<" then Some TShl
  else if Ascii.eqb c ">" && Ascii.eqb d ">" then Some TShr
  else None.

Definition lex_two_char (s : string) : option (Token * string) :=
  match s with
  | String c (String d rest) => t ← two_char c d; Some (t, rest)
  | _ => None
  end.

(** The single-character tokens; [:] is one when no IPv6 address starts there. *)
Definition one_char (c : byte) : option Token :=
  match c with
  | "(" => Some TLParen | ")" => Some TRParen | "[" => Some TLBracket | "]" => Some TRBracket
  | ":" => Some TColon | "-" => Some TMinus | "+" => Some TPlus | "*" => Some TStar
  | "/" => Some TSlash | "%" => Some TPercent | "|" => Some TPipe | "^" => Some TCaret
  | "&" => Some TAmp | "!" => Some TBang | "=" => Some TEq | "<" => Some TLt | ">" => Some TGt
  | _ => None
  end%char.

(** An IPv6 address that starts with [::]. *)
Definition lex_colons (s : string) : option (Token * string) :=
  match s with
  | String c s' =>
      if Ascii.eqb c ":" && starts_with ":" s' then
        let '(candidate, rest) := span is_hex_colon_dot s in
        addr ← parse_ipv6 candidate; Some (TIpv6 addr, rest)
      else None
  | EmptyString => None
  end.

Definition lex_one_char (s : string) : option (Token * string) :=
  match s with
  | String c rest => t ← one_char c; Some (t, rest)
  | EmptyString => None
  end.

(** [0x] and the hexadecimal digits behind it. *)
Definition lex_hex (pos : Z) (s : string) : option (outcome (Token * string)) :=
  match s with
  | String z (String x s') =>
      if Ascii.eqb z "0" && (Ascii.eqb x "x" || Ascii.eqb x "X") then
        let '(digits, rest) := span (λ c _, is_ascii_hexdigit c) s' in
        Some (n ← parse_int (String z (String x digits)) pos; Ok (TNum n, rest))
      else None
  | _ => None
  end.

(** [n] groups of a colon and one or two hexadecimal digits. *)
Fixpoint mac_groups (n : nat) (s : string) : option (string * string) :=
  match n with
  | O => Some (EmptyString, s)
  | S n' =>
      match s with
      | String c s' =>
          if Ascii.eqb c ":" then
            let '(seg, rest) := span (λ c _, is_ascii_hexdigit c) s' in
            if (slen seg =? 0) || (2 <? slen seg) then None
            else
              '(groups, rest') ← mac_groups n' rest;
              Some (String c seg +:+ groups, rest')
          else None
      | EmptyString => None
      end
  end.

(** A MAC address whose first group [raw] has been read. *)
Definition lex_digit_mac (raw rest : string) : option (Token * string) :=
  if starts_with ":" rest then
    '(groups, rest') ← mac_groups 5 rest;
    if starts_with ":" rest' then None
    else mac ← parse_mac (raw +:+ groups); Some (TMac mac, rest')
  else None.

(** An IPv6 address whose first group [raw] has been read. *)
Definition lex_digit_ipv6 (raw rest : string) : option (Token * string) :=
  if starts_with ":" rest then
    let '(tail, rest') := span is_hex_colon_dot rest in
    let candidate := (raw +:+ tail)%string in
    if looks_like_ipv6 candidate then
      addr ← parse_ipv6 candidate; Some (TIpv6 addr, rest')
    else None
  else None.

Definition lex_number (pos : Z) (s : string) : outcome (Token * string) :=
  let '(raw, rest) := span (λ c _, is_ascii_alphanumeric c || Ascii.eqb c ".") s in
  match lex_digit_mac raw rest with
  | Some r => Ok r
  | None =>
      match lex_digit_ipv6 raw rest with
      | Some r => Ok r
      | None => t ← parse_numlike raw pos; Ok (t, rest)
      end
  end.

(** The bytes of a word; a hyphen belongs to it when a letter follows. *)
Definition is_word_char (c : byte) (s : string) : bool :=
  is_ascii_alphanumeric c || Ascii.eqb c "_" || Ascii.eqb c ":" || Ascii.eqb c "."
  || (Ascii.eqb c "-" && match s with String d _ => is_ascii_alphabetic d | EmptyString => false end).

Definition word_token (word : string) : Token :=
  match (if looks_like_ipv6 word then parse_ipv6 word else None) with
  | Some addr => TIpv6 addr
  | None =>
      match (if looks_like_mac word then parse_mac word else None) with
      | Some mac => TMac mac
      | None => keyword_or_ident word
      end
  end.

Definition lex_word (s : string) : Token * string :=
  let '(word, rest) := span is_word_char s in (word_token word, rest).

(** One turn of the loop on the non-empty rest [String c s'] of the source at
    offset [pos]: the token pushed, if any, and the rest behind it. *)
Definition lex_step (pos : Z) (c : byte) (s' : string) : outcome (option Token * string) :=
  let s := String c s' in
  if is_ascii_whitespace c then Ok (None, s')
  else
    match lex_two_char s with
    | Some (t, rest) => Ok (Some t, rest)
    | None =>
        match lex_colons s with
        | Some (t, rest) => Ok (Some t, rest)
        | None =>
            match lex_one_char s with
            | Some (t, rest) => Ok (Some t, rest)
            | None =>
                match lex_hex pos s with
                | Some o => '(t, rest) ← o; Ok (Some t, rest)
                | None =>
                    if is_ascii_digit c then
                      '(t, rest) ← lex_number pos s; Ok (Some t, rest)
                    else if is_ascii_alphabetic c || Ascii.eqb c "_" then
                      let '(t, rest) := lex_word s in Ok (Some t, rest)
                    else Err (LexError pos (unwrap_or 63 (first_char s)))
                end
            end
        end
    end.

(** The token of a turn at [pos], in front of the later ones. *)
Definition push_token (pos : Z) (t : option Token) (toks : list Spanned) : list Spanned :=
  match t with Some t => mk_spanned t pos :: toks | None => toks end.

Fixpoint lex_loop (n : nat) (pos : Z) (s : string) : outcome (list Spanned) :=
  match n with
  | O => OutOfFuel
  | S n' =>
      match s with
      | EmptyString => Ok []
      | String c s' =>
          '(t, rest) ← lex_step pos c s';
          toks ← lex_loop n' (pos + (slen s - slen rest)) rest;
          Ok (push_token pos t toks)
      end
  end.

(** Every turn consumes a byte at least. *)
Definition lex (src : string) : outcome (list Spanned) :=
  lex_loop (S (String.length src)) 0 src.
