(* ===== verification/LexerSound.v ===== *)
(** What the tokenizer guarantees of every source: it returns, its offsets
    increase and stay in range, and the values of its tokens fit their types. *)

From S2P Require Export Lexer.
From S2P Require Import Ast.
From Stdlib Require Import Sorted.

(** * Strings *)

Lemma str_app_assoc (a b c : string) : (a +:+ b +:+ c = (a +:+ b) +:+ c)%string.
Proof. induction a; simpl; [done|]. by f_equal. Qed.

Lemma slen_app (a b : string) : slen (a +:+ b) = slen a + slen b.
Proof.
  unfold slen. induction a as [|c a IH]; [done|].
  simpl. lia.
Qed.

Lemma slen_nonneg s : 0 ≤ slen s.
Proof. unfold slen. lia. Qed.

Lemma slen_cons c s : slen (String c s) = 1 + slen s.
Proof. unfold slen. simpl. lia. Qed.

(** All bytes satisfy [p]. *)
Fixpoint str_forall (p : byte → bool) (s : string) : bool :=
  match s with EmptyString => true | String c s' => p c && str_forall p s' end.

Lemma span_app p s w rest : span p s = (w, rest) → s = (w +:+ rest)%string.
Proof.
  revert w rest. induction s as [|c s IH]; intros w rest; simpl; [by intros [= <- <-]|].
  destruct (p c s); [|by intros [= <- <-]].
  destruct (span p s) as [w' r'] eqn:E. intros [= <- <-].
  by rewrite (IH w' r' eq_refl).
Qed.

Lemma span_forall (p : byte → string → bool) (q : byte → bool) s w rest :
  (∀ c s, p c s = true → q c = true) → span p s = (w, rest) → str_forall q w = true.
Proof.
  intros Hq. revert w rest. induction s as [|c s IH]; intros w rest; simpl; [by intros [= <- <-]|].
  destruct (p c s) eqn:Hp; [|by intros [= <- <-]].
  destruct (span p s) as [w' r'] eqn:E. intros [= <- <-]. simpl.
  by rewrite (Hq _ _ Hp), (IH w' r' eq_refl).
Qed.

(** [rest] is what follows some bytes of [s]. *)
Definition consumes (s rest : string) : Prop := ∃ w, s = (w +:+ rest)%string ∧ 0 < slen w.

Lemma consumes_len s rest : consumes s rest → slen rest < slen s.
Proof. intros (w & -> & Hw). rewrite slen_app. lia. Qed.

Lemma consumes_one c s : consumes (String c s) s.
Proof. exists (String c ""). split; [done|]. by vm_compute. Qed.

Lemma consumes_cons c w s rest : s = (w +:+ rest)%string → consumes (String c s) rest.
Proof.
  intros ->. exists (String c w). split; [done|].
  rewrite slen_cons. pose proof (slen_nonneg w). lia.
Qed.

Lemma span_consumes p s w rest :
  span p s = (w, rest) → 0 < slen w → consumes s rest.
Proof. intros H%span_app Hw. by exists w. Qed.

Lemma span_head p c s w rest :
  p c s = true → span p (String c s) = (w, rest) → consumes (String c s) rest.
Proof.
  intros Hp. simpl. rewrite Hp. destruct (span p s) as [w' r'] eqn:E. intros [= <- <-].
  eapply consumes_cons, span_app, E.
Qed.

(** * Token values *)

Definition wf_token (t : Token) : Prop :=
  match t with
  | TNum n => is_u32 n
  | TIpv4 octets parts => zlen octets = 4 ∧ Forall is_u8 octets ∧ 2 ≤ parts ≤ 4
  | TIpv6 addr => wf_segments addr
  | TMac octets => zlen octets = 6 ∧ Forall is_u8 octets
  | _ => True
  end.

Lemma code_range c : 0 ≤ code c < 256.
Proof. unfold code. pose proof (nat_ascii_bounded c). lia. Qed.

Lemma to_digit_range radix c d : to_digit radix c = Some d → 0 ≤ d < radix.
Proof.
  unfold to_digit, is_ascii_digit, is_ascii_lower, is_ascii_upper, byte_in.
  pose proof (code_range c).
  repeat case_match; intros [= <-]; zbool; lia.
Qed.

Lemma u8_digits_range radix s r v :
  0 ≤ radix → is_u8 r → u8_digits radix s r = Some v → is_u8 v.
Proof.
  intros Hr. revert r. induction s as [|c s IH]; intros r Hv; simpl; [by intros [= <-]|].
  destruct (to_digit radix c) as [d|] eqn:Hd; [|done]. apply to_digit_range in Hd.
  destruct (Z.ltb_spec u8_max (r * radix + d)); [done|]. apply IH.
  unfold is_u8, u8_max in *. nia.
Qed.

Lemma u8_from_str_radix_range s radix v :
  0 ≤ radix → u8_from_str_radix s radix = Some v → is_u8 v.
Proof.
  intros Hr. unfold u8_from_str_radix. case_match; [done|].
  by apply u8_digits_range.
Qed.

Lemma parse_mac_wf s mac : parse_mac s = Some mac → wf_token (TMac mac).
Proof.
  unfold parse_mac. case_match eqn:Hl; [|done]. apply Nat.eqb_eq in Hl. intros Hm. split.
  - unfold zlen. apply length_mapM in Hm. lia.
  - apply mapM_Some_1 in Hm. clear Hl. induction Hm; constructor; [|done].
    by apply (u8_from_str_radix_range x 16); [lia|].
Qed.

Lemma parse_octets_wf i parts octets v :
  length octets = 4%nat → Forall is_u8 octets → parse_octets i parts octets = Some v →
  length v = 4%nat ∧ Forall is_u8 v ∧ (length parts + i ≤ 4 ∨ parts = [])%nat.
Proof.
  revert i octets. induction parts as [|p parts IH]; intros i octets Hl Hf; simpl.
  { intros [= <-]. auto. }
  destruct (octets !! i) as [o|] eqn:Ho; [|done].
  destruct (u8_from_str_radix p 10) as [n|] eqn:Hn; [|done].
  apply lookup_lt_Some in Ho. intros H. destruct (IH (S i) (<[i := n]> octets)) as (? & ? & Hp).
  - by rewrite length_insert.
  - apply Forall_insert; [done|]. by apply (u8_from_str_radix_range p 10); [lia|].
  - done.
  - split_and!; [done..|]. left. destruct Hp as [|Hp]; [lia|]. rewrite Hp. simpl. lia.
Qed.

Lemma split_dot_two s : contains "." s = true → (2 ≤ length (str_split "." s))%nat.
Proof.
  assert (Hpos : ∀ s, (1 ≤ length (str_split "." s))%nat).
  { intros []; simpl; [lia|]. repeat case_match; simpl; lia. }
  induction s as [|c s IH]; [done|]. simpl.
  destruct (Ascii.eqb_spec c "."); [simpl; specialize (Hpos s); lia|].
  rewrite (proj2 (Ascii.eqb_neq "." c)) by done. intros Hs. specialize (IH Hs).
  destruct (str_split "." s); simpl in *; lia.
Qed.

Lemma parse_digits_wf radix raw off s n :
  0 ≤ radix → is_u32 n →
  match parse_digits radix raw off s n with
  | Ok v => is_u32 v
  | Err e => ∃ why, e = invalid raw off why
  | _ => False
  end.
Proof.
  intros Hr. revert n. induction s as [|c s IH]; intros n Hn; simpl; [done|].
  destruct (to_digit radix c) as [d|] eqn:Hd; [|by eexists]. apply to_digit_range in Hd.
  destruct (Z.ltb_spec u32_max (n * radix + d)); [by eexists|]. apply IH.
  unfold is_u32, u32_max in *. nia.
Qed.

Lemma literal_radix_pos raw : 0 ≤ (literal_radix raw).2.
Proof. unfold literal_radix. repeat case_match; simpl; lia. Qed.

Lemma parse_int_wf raw off :
  match parse_int raw off with
  | Ok v => is_u32 v
  | Err e => ∃ why, e = invalid raw off why
  | _ => False
  end.
Proof.
  unfold parse_int. pose proof (literal_radix_pos raw) as Hr.
  destruct (literal_radix raw) as [[|c s] radix]; [by eexists|].
  by apply parse_digits_wf.
Qed.

(** * IPv6 addresses *)

Lemma read_digits_range radix m s r k v n rest :
  0 ≤ radix → 0 ≤ r → read_digits radix m s r k = Some (v, n, rest) → 0 ≤ v.
Proof.
  intros Hr. revert r k. induction s as [|c s IH]; intros r k Hr0; simpl; [by intros [= <- _ _]|].
  destruct (to_digit radix c) as [d|] eqn:Hd; [|by intros [= <- _ _]].
  apply to_digit_range in Hd. destruct (m <? k + 1); [done|]. apply IH. nia.
Qed.

Lemma read_number_range radix m z max s v rest :
  0 ≤ radix → read_number radix m z max s = Some (v, rest) → 0 ≤ v ≤ max.
Proof.
  intros Hr. unfold read_number.
  destruct (read_digits radix m s 0 0) as [[[v' n] r']|] eqn:E; simpl; [|done].
  apply read_digits_range in E; [|done..].
  repeat case_match; intros [= <- <-]. zbool. lia.
Qed.

Lemma read_separator_Some {A} sep i (inner : string → option (A * string)) s r :
  read_separator sep i inner s = Some r → ∃ s', inner s' = Some r.
Proof.
  unfold read_separator. case_match; [|by eexists].
  destruct (read_given_char sep s); simpl; [by eexists|done].
Qed.

Lemma read_octet_range i s v rest :
  read_separator "." i read_octet s = Some (v, rest) → is_u8 v.
Proof.
  intros [s' H]%read_separator_Some. apply read_number_range in H; [|lia].
  unfold is_u8, u8_max in *. lia.
Qed.

Lemma read_ipv4_range s a b c d rest :
  read_ipv4_addr s = Some (a, b, c, d, rest) → is_u8 a ∧ is_u8 b ∧ is_u8 c ∧ is_u8 d.
Proof.
  unfold read_ipv4_addr. intros H.
  repeat (let E := fresh "E" in apply bind_Some in H as ([? ?] & E & H);
          apply read_octet_range in E).
  by simplify_eq.
Qed.

Lemma read_groups_range slots i s gs v4 rest :
  read_groups slots i s = (gs, v4, rest) → (length gs ≤ slots)%nat ∧ Forall is_u16 gs.
Proof.
  revert i s gs v4 rest. induction slots as [|slots IH]; intros i s gs v4 rest; simpl.
  { intros [= <- _ _]. by split; [simpl; lia|]. }
  destruct (match slots with O => None | S _ => _ end) as [[[[[a b] c] d] s']|] eqn:H4.
  - destruct slots; [done|]. apply read_separator_Some in H4 as [s0 H4].
    apply read_ipv4_range in H4 as (? & ? & ? & ?). intros [= <- _ _].
    split; [simpl; lia|]. unfold is_u8, is_u16 in *. repeat constructor; lia.
  - destruct (read_separator ":" i (read_number 16 4 true u16_max) s) as [[g s']|] eqn:Hg.
    + apply read_separator_Some in Hg as [s0 Hg]. apply read_number_range in Hg; [|lia].
      destruct (read_groups slots (i + 1) s') as [[gs' v4'] r'] eqn:E.
      intros [= <- _ _]. apply IH in E as [? ?]. split; [simpl; lia|].
      constructor; [|done]. unfold is_u16, u16_max in *. lia.
    + intros [= <- _ _]. by split; [simpl; lia|].
Qed.

Lemma read_ipv6_range s addr rest : read_ipv6_addr s = Some (addr, rest) → wf_segments addr.
Proof.
  unfold read_ipv6_addr. destruct (read_groups 8 0 s) as [[gs v4] s1] eqn:E.
  apply read_groups_range in E as [Hl Hf].
  case_match eqn:H8; [apply Nat.eqb_eq in H8; intros [= <- _]; split; [unfold zlen; lia|done]|].
  destruct v4; [done|]. intros H.
  apply bind_Some in H as (s2 & _ & H). apply bind_Some in H as (s3 & _ & H).
  destruct (read_groups _ 0 s3) as [[tl v4'] s4] eqn:E. apply read_groups_range in E as [Hl' Hf'].
  apply Nat.eqb_neq in H8.
  injection H as <- _. split.
  - unfold zlen. rewrite !length_app, length_replicate. lia.
  - apply Forall_app. split; [done|]. apply Forall_app. split; [|done].
    by apply Forall_replicate.
Qed.

Lemma parse_ipv6_wf s addr : parse_ipv6 s = Some addr → wf_segments addr.
Proof.
  unfold parse_ipv6. intros ([a r] & H & E)%bind_Some. case_match; simplify_eq.
  by eapply read_ipv6_range.
Qed.

Lemma parse_numlike_wf raw off :
  match parse_numlike raw off with
  | Ok t => wf_token t
  | Err e => ∃ msg, e = ParseError msg
  | _ => False
  end.
Proof.
  unfold parse_numlike. destruct (contains "." raw) eqn:Hdot.
  - destruct (parse_octets 0 _ _) as [v|] eqn:Hv; [|by eexists].
    apply parse_octets_wf in Hv as (Hl & Hf & Hp); [|done|by repeat constructor].
    apply split_dot_two in Hdot. destruct Hp as [Hp|Hp]; [|by rewrite Hp in Hdot; simpl in *; lia].
    split_and!; [unfold zlen; lia|done|unfold zlen; lia..].
  - destruct (if looks_like_ipv6 raw then _ else _) as [addr|] eqn:H6.
    { destruct (looks_like_ipv6 raw); [|done]. by apply parse_ipv6_wf in H6. }
    destruct (if looks_like_mac raw then _ else _) as [mac|] eqn:Hm.
    { destruct (looks_like_mac raw); [|done]. by eapply parse_mac_wf. }
    pose proof (parse_int_wf raw off) as Hi.
    destruct (parse_int raw off); simpl; [done| |done..].
    destruct Hi as [why ->]. by eexists.
Qed.

(** * One turn of the loop *)

(** A token, and what follows it, as the scanner must produce them from [s]. *)
Definition scanned (s : string) (r : Token * string) : Prop :=
  wf_token r.1 ∧ consumes s r.2.

Lemma lex_two_char_ok s r : lex_two_char s = Some r → scanned s r.
Proof.
  destruct s as [|c [|d s]]; simpl; [done..|]. unfold two_char.
  assert (Hc : consumes (String c (String d s)) s) by (by apply (consumes_cons c (String d ""))).
  repeat case_match; intros [= <-]; by split.
Qed.

Lemma one_char_wf c t : one_char c = Some t → wf_token t.
Proof.
  destruct c as [[] [] [] [] [] [] [] []]; by intros [= <-].
Qed.

Lemma lex_one_char_ok s r : lex_one_char s = Some r → scanned s r.
Proof.
  destruct s as [|c s]; simpl; [done|]. intros (t & Ht & [= <-])%bind_Some.
  split; [by eapply one_char_wf|apply consumes_one].
Qed.

Lemma lex_colons_ok s r : lex_colons s = Some r → scanned s r.
Proof.
  destruct s as [|c s]; [done|]. unfold lex_colons.
  destruct (Ascii.eqb_spec c ":") as [->|]; [|done]. destruct (starts_with ":" s); [|done].
  simpl andb. destruct (span is_hex_colon_dot (String ":" s)) as [w rest] eqn:E.
  intros (addr & Ha & [= <-])%bind_Some. split; [by eapply parse_ipv6_wf|].
  by eapply span_head in E.
Qed.

Lemma lex_hex_ok pos s o :
  lex_hex pos s = Some o →
  match o with
  | Ok r => scanned s r
  | Err e => ∃ msg, e = ParseError msg
  | _ => False
  end.
Proof.
  destruct s as [|z [|x s]]; [done..|]. unfold lex_hex. case_match; [|done].
  destruct (span _ s) as [digits rest] eqn:E. apply span_app in E.
  intros [= <-]. pose proof (parse_int_wf (String z (String x digits)) pos) as H0.
  destruct (parse_int _ pos); simpl; [|by destruct H0 as [why ->]; eexists|done..].
  split; [done|]. apply (consumes_cons z (String x digits)). by rewrite E.
Qed.

Lemma mac_groups_app n s w rest : mac_groups n s = Some (w, rest) → s = (w +:+ rest)%string.
Proof.
  revert s w rest. induction n as [|n IH]; intros s w rest; simpl; [by intros [= <- <-]|].
  destruct s as [|c s]; [done|]. destruct (Ascii.eqb c ":"); [|done].
  destruct (span _ s) as [seg r] eqn:E. apply span_app in E as ->.
  case_match; [done|]. intros ([g r'] & Hg%IH & [= <- <-])%bind_Some.
  rewrite Hg. simpl. by rewrite str_app_assoc.
Qed.

Lemma lex_digit_mac_ok raw rest r :
  lex_digit_mac raw rest = Some r → wf_token r.1 ∧ ∃ w, rest = (w +:+ r.2)%string.
Proof.
  unfold lex_digit_mac. case_match; [|done].
  intros ([w r'] & Hg%mac_groups_app & Hm)%bind_Some. case_match; [done|].
  apply bind_Some in Hm as (mac & Hm & [= <-]). split; [by eapply parse_mac_wf|].
  by exists w.
Qed.

Lemma lex_digit_ipv6_ok raw rest r :
  lex_digit_ipv6 raw rest = Some r → wf_token r.1 ∧ ∃ w, rest = (w +:+ r.2)%string.
Proof.
  unfold lex_digit_ipv6. case_match; [|done].
  destruct (span is_hex_colon_dot rest) as [w r'] eqn:E. apply span_app in E. case_match; [|done].
  intros (addr & Ha & [= <-])%bind_Some. split; [by eapply parse_ipv6_wf|by exists w].
Qed.

Lemma consumes_more s rest w rest' :
  consumes s rest → rest = (w +:+ rest')%string → consumes s rest'.
Proof.
  intros (w0 & -> & Hw) ->. exists (w0 +:+ w)%string.
  split; [apply str_app_assoc|]. rewrite slen_app. pose proof (slen_nonneg w). lia.
Qed.

Lemma lex_number_ok pos c s :
  is_ascii_digit c = true →
  match lex_number pos (String c s) with
  | Ok r => scanned (String c s) r
  | Err e => ∃ msg, e = ParseError msg
  | _ => False
  end.
Proof.
  intros Hc. unfold lex_number. destruct (span _ (String c s)) as [raw rest] eqn:E.
  apply span_head in E; [|unfold is_ascii_alphanumeric; by rewrite Hc, orb_true_r].
  destruct (lex_digit_mac raw rest) as [r|] eqn:Hm.
  { apply lex_digit_mac_ok in Hm as (? & w & Hw). split; [done|]. by eapply consumes_more. }
  destruct (lex_digit_ipv6 raw rest) as [r|] eqn:H6.
  { apply lex_digit_ipv6_ok in H6 as (? & w & Hw). split; [done|]. by eapply consumes_more. }
  pose proof (parse_numlike_wf raw pos). by destruct (parse_numlike raw pos).
Qed.

Lemma keyword_or_ident_wf s : wf_token (keyword_or_ident s).
Proof.
  unfold keyword_or_ident. destruct (assoc_string s keywords) as [t|] eqn:E; [|done].
  assert (H : Forall (λ kv, wf_token kv.2) keywords) by (repeat constructor; simpl; ulia).
  revert E. induction H as [|[k v] l Hv Hl IH]; simpl; [done|].
  case_match; [by intros [= <-]|done].
Qed.

Lemma lex_word_ok c s :
  is_ascii_alphabetic c || Ascii.eqb c "_" = true → scanned (String c s) (lex_word (String c s)).
Proof.
  intros Hc. unfold lex_word. destruct (span is_word_char (String c s)) as [w rest] eqn:E.
  apply span_head in E.
  - split; [|done]. simpl. unfold word_token.
    destruct (if looks_like_ipv6 w then _ else _) as [addr|] eqn:H6.
    { destruct (looks_like_ipv6 w); [|done]. by apply parse_ipv6_wf in H6. }
    destruct (if looks_like_mac w then _ else _) as [mac|] eqn:Hm; [|apply keyword_or_ident_wf].
    destruct (looks_like_mac w); [|done]. by eapply parse_mac_wf.
  - unfold is_word_char, is_ascii_alphanumeric.
    apply orb_true_iff in Hc as [->| ->]; by rewrite ?orb_true_r.
Qed.

Lemma lex_step_ok pos c s :
  match lex_step pos c s with
  | Ok (t, rest) => consumes (String c s) rest ∧ from_option wf_token True t
  | Err e => e = LexError pos (unwrap_or 63 (first_char (String c s))) ∨ ∃ msg, e = ParseError msg
  | _ => False
  end.
Proof.
  unfold lex_step. destruct (is_ascii_whitespace c); [by split; [apply consumes_one|]|].
  destruct (lex_two_char _) as [[t r]|] eqn:E2; [by apply lex_two_char_ok in E2 as []|].
  destruct (lex_colons _) as [[t r]|] eqn:E6; [by apply lex_colons_ok in E6 as []|].
  destruct (lex_one_char _) as [[t r]|] eqn:E1; [by apply lex_one_char_ok in E1 as []|].
  destruct (lex_hex pos _) as [o|] eqn:Eh.
  { apply lex_hex_ok in Eh. destruct o as [[t r]|e| |]; simpl; [by destruct Eh|by right|done..]. }
  destruct (is_ascii_digit c) eqn:Hd.
  { pose proof (lex_number_ok pos c s Hd) as Hn.
    destruct (lex_number pos _) as [[t r]|e| |]; simpl; [by destruct Hn|by right|done..]. }
  destruct (_ || _) eqn:Hw; [|by left].
  pose proof (lex_word_ok c s Hw) as Hs. destruct (lex_word _) as [t r]. by destruct Hs.
Qed.

(** * The loop *)

(** Offsets in [[lo, hi)], in increasing order. *)
Definition increasing (lo hi : Z) (toks : list Spanned) : Prop :=
  StronglySorted Z.lt (map sp_offset toks) ∧
  Forall (λ t, lo ≤ sp_offset t < hi) toks.

Lemma increasing_mono lo lo' hi toks :
  lo ≤ lo' → increasing lo' hi toks → increasing lo hi toks.
Proof.
  intros Hlo [? Hf]. split; [done|]. eapply Forall_impl; [exact Hf|]. simpl. lia.
Qed.

Lemma increasing_cons lo hi t toks :
  lo ≤ sp_offset t < hi → increasing (sp_offset t + 1) hi toks → increasing lo hi (t :: toks).
Proof.
  intros Ht [Hs Hf]. split.
  - simpl. constructor; [done|]. apply List.Forall_map. eapply Forall_impl; [exact Hf|].
    simpl. lia.
  - constructor; [done|]. eapply Forall_impl; [exact Hf|]. simpl. lia.
Qed.

(** What a [LexError] for the rest [s] of the source at [pos] points to. *)
Definition blames (pos : Z) (s : string) (e : Error) : Prop :=
  match e with
  | LexError off ch =>
      ∃ before rest, s = (before +:+ rest)%string ∧ off = pos + slen before ∧
        first_char rest = Some ch
  | ParseError _ => True
  | CodegenError _ => False
  end.

Lemma first_char_cons c s : is_Some (first_char (String c s)).
Proof. unfold first_char. repeat case_match; by eexists. Qed.

Lemma blames_here pos c s :
  blames pos (String c s) (LexError pos (unwrap_or 63 (first_char (String c s)))).
Proof.
  destruct (first_char_cons c s) as [ch Hc]. rewrite Hc.
  exists "", (String c s). split_and!; [done| |done]. unfold slen. simpl. lia.
Qed.

Lemma lex_loop_ok n pos s :
  (String.length s < n)%nat →
  match lex_loop n pos s with
  | Ok toks => Forall (λ t, wf_token (token t)) toks ∧ increasing pos (pos + slen s) toks
  | Err e => blames pos s e
  | _ => False
  end.
Proof.
  revert pos s. induction n as [|n IH]; intros pos s Hn; [lia|].
  destruct s as [|c s]; [by split; [|split; constructor]|]. simpl.
  pose proof (lex_step_ok pos c s) as Hs.
  destruct (lex_step pos c s) as [[t rest]|e| |]; simpl; [|by destruct Hs as [->|[? ->]];
    [apply blames_here|]|done..].
  destruct Hs as [Hc Ht]. pose proof (consumes_len _ _ Hc) as Hlen.
  specialize (IH (pos + (slen (String c s) - slen rest)) rest).
  destruct Hc as (w & Hw & _). unfold slen in Hlen.
  destruct (lex_loop n _ rest) as [toks|e| |]; simpl.
  - destruct IH as [Hwf Hi]; [simpl in *; lia|].
    replace (pos + (_ - slen rest) + slen rest) with (pos + slen (String c s)) in Hi by lia.
    unfold slen in *. destruct t as [t|]; simpl.
    + split; [by constructor|]. apply increasing_cons; [simpl; lia|].
      eapply increasing_mono; [|exact Hi]. simpl in *. lia.
    + split; [done|]. eapply increasing_mono; [|exact Hi]. lia.
  - assert (Hb : blames (pos + (slen (String c s) - slen rest)) rest e)
      by (apply IH; simpl in *; lia).
    destruct e as [off ch| |]; [|done..]. destruct Hb as (b & r & -> & -> & Hch).
    exists (w +:+ b)%string, r. rewrite Hw. split_and!; [apply str_app_assoc| |done].
    rewrite !slen_app. lia.
  - apply IH. simpl in *. lia.
  - apply IH. simpl in *. lia.
Qed.

Lemma lex_ok src :
  match lex src with
  | Ok toks => Forall (λ t, wf_token (token t)) toks ∧ increasing 0 (slen src) toks
  | Err e => blames 0 src e
  | _ => False
  end.
Proof. apply lex_loop_ok. lia. Qed.

(** Tokenizing terminates on every string, without a panic: it gives tokens
    or an error. *)
Theorem lex_returns (src : string) : returns (lex src).
Proof. pose proof (lex_ok src). by destruct (lex src). Qed.

(** C32: every token's value fits its type (numbers are 32 bits wide, addresses
    have all their octets or segments), and the tokens come in source order, at
    offsets inside the source. *)
Theorem lex_tokens (src : string) (toks : list Spanned) :
  lex src = Ok toks →
  Forall (λ t, wf_token (token t)) toks ∧ increasing 0 (slen src) toks.
Proof. intros H. pose proof (lex_ok src) as Hl. by rewrite H in Hl. Qed.

Lemma lex_tokens_witness :
  increasing 0 11 [mk_spanned TTcp 0; mk_spanned TPort 4; mk_spanned (TNum 80) 9].
Proof. apply (lex_tokens "tcp port 80"). vm_compute. reflexivity. Defined.

(** C33: a lexical error names the offset of the character it complains of, and
    that character; a malformed number is a parse error. *)
Theorem lex_error (src : string) (e : Error) : lex src = Err e → blames 0 src e.
Proof. intros H. pose proof (lex_ok src) as Hl. by rewrite H in Hl. Qed.

Lemma lex_error_witness : blames 0 "tcp @" (LexError 4 64).
Proof. apply (lex_error "tcp @"). vm_compute. reflexivity. Defined.

(** * Integer literals *)

(** The value of a string of digits, read without any bound. *)
Fixpoint radix_value (radix : Z) (s : string) (n : Z) : option Z :=
  match s with
  | EmptyString => Some n
  | String c s' => d ← to_digit radix c; radix_value radix s' (n * radix + d)
  end.

Lemma radix_value_ge radix s n v : 1 ≤ radix → 0 ≤ n → radix_value radix s n = Some v → n ≤ v.
Proof.
  intros Hr. revert n. induction s as [|c s IH]; intros n Hn; simpl; [by intros [= <-]|].
  intros (d & Hd%to_digit_range & Hv)%bind_Some. apply IH in Hv; nia.
Qed.

Lemma parse_digits_value radix raw off s n v :
  1 ≤ radix → 0 ≤ n ≤ u32_max →
  parse_digits radix raw off s n = Ok v ↔ radix_value radix s n = Some v ∧ v ≤ u32_max.
Proof.
  intros Hr. revert n. induction s as [|c s IH]; intros n Hn; simpl.
  { split; [intros [= <-]; split; [done|lia]|]. by intros [[= <-] _]. }
  destruct (to_digit radix c) as [d|] eqn:Hd; simpl; [|naive_solver].
  apply to_digit_range in Hd. destruct (Z.ltb_spec u32_max (n * radix + d)) as [Hm|Hm].
  - split; [done|]. intros [Hv%radix_value_ge ?]; nia.
  - apply IH. nia.
Qed.

Lemma parse_int_spec raw offset n :
  parse_int raw offset = Ok n ↔
  let '(digits, radix) := literal_radix raw in
  digits ≠ EmptyString ∧ radix_value radix digits 0 = Some n ∧ n ≤ u32_max.
Proof.
  unfold parse_int. assert (Hr : 1 ≤ (literal_radix raw).2)
    by (unfold literal_radix; repeat case_match; simpl; lia).
  destruct (literal_radix raw) as [[|c s] radix]; [naive_solver|]. simpl in Hr.
  rewrite (parse_digits_value radix raw offset (String c s) 0) by (unfold u32_max; lia).
  naive_solver.
Qed.

(** An integer literal is accepted exactly when its digits, in the radix its
    prefix selects as in C, denote a number of 32 bits; that is its value. *)
Theorem parse_int_value (raw : string) (offset n : Z) :
  parse_int raw offset = Ok n ↔
  let '(digits, radix) := literal_radix raw in
  digits ≠ EmptyString ∧ radix_value radix digits 0 = Some n ∧ n ≤ u32_max.
Proof. apply parse_int_spec. Qed.
