(* ===== verification/LexerRoundtrip.v ===== *)
(** Printing tokens and reading them back: the tokenizer recognises every
    token from its text, whatever follows behind a blank. *)

From S2P Require Export LexerSound.
From S2P Require Import Ast.

(** * The text of a token *)

Definition symbols : list (string * Token) :=
  [("(", TLParen); (")", TRParen); ("[", TLBracket); ("]", TRBracket); (":", TColon);
   ("-", TMinus); ("+", TPlus); ("*", TStar); ("/", TSlash); ("%", TPercent); ("|", TPipe);
   ("^", TCaret); ("<<", TShl); (">>", TShr); ("=", TEq); ("!=", TNe); ("<", TLt); ("<=", TLe);
   (">", TGt); (">=", TGe); ("&", TAmp); ("!", TBang)]%string.

Fixpoint text_of (t : Token) (l : list (string * Token)) : string :=
  match l with
  | [] => EmptyString
  | (s, t') :: l' => if decide (t' = t) then s else text_of t l'
  end.

Definition show_token (t : Token) : string :=
  match t with
  | TNum n => show_dec n
  | TIpv4 octets parts => String.concat "." (map show_dec (take (Z.to_nat parts) octets))
  | TIpv6 addr => String.concat ":" (map hex4 addr)
  | TMac octets => String.concat ":" (map hex2 octets)
  | TIdent s => s
  | _ => text_of t (keywords ++ symbols)
  end.

(** Every token followed by a blank. *)
Definition show_tokens (ts : list Token) : string :=
  foldr (λ t s, (show_token t +:+ String " " s)%string) EmptyString ts.

Definition is_ident_char (c : byte) : bool := is_ascii_alphanumeric c || Ascii.eqb c "_".

(** A token that has a text: a short dotted address is zero behind the octets
    written, and an identifier is not a keyword. *)
Definition printable (t : Token) : Prop :=
  wf_token t ∧
  match t with
  | TIpv4 octets parts => Forall (λ o, o = 0) (drop (Z.to_nat parts) octets)
  | TIdent s =>
      str_forall is_ident_char s = true ∧ assoc_string s keywords = None ∧
      match s with
      | String c _ => is_ascii_alphabetic c || Ascii.eqb c "_" = true
      | EmptyString => False
      end
  | _ => True
  end.

(** * Bytes *)

(** Decide a property of a byte by its 256 values. *)
Ltac byte_cases c := destruct c as [[] [] [] [] [] [] [] []]; try done.

(** Decide a property of a number in a short range by its values. *)
Lemma in_range (P : Z → Prop) `{!∀ x, Decision (P x)} (lo n x : Z) :
  forallb (λ x, bool_decide (P x)) (seqZ lo n) = true → lo ≤ x < lo + n → P x.
Proof.
  intros Hall Hx. apply Is_true_true, forallb_True in Hall. rewrite Forall_forall in Hall.
  apply (bool_decide_unpack (P x)). apply Hall. apply elem_of_seqZ. lia.
Qed.

Lemma dec_digit_spec d :
  0 ≤ d < 10 → is_ascii_digit (dec_digit d) = true ∧ to_digit 10 (dec_digit d) = Some d.
Proof. intros Hd. pattern d. apply (in_range _ 0 10); [by vm_compute|lia]. Qed.

Lemma hex_digit_spec d :
  0 ≤ d < 16 → is_ascii_hexdigit (hex_digit d) = true ∧ to_digit 16 (hex_digit d) = Some d.
Proof. intros Hd. pattern d. apply (in_range _ 0 16); [by vm_compute|lia]. Qed.

Lemma digit_alphanumeric c : is_ascii_digit c = true → is_ascii_alphanumeric c = true.
Proof. byte_cases c. Qed.

Lemma hexdigit_alphanumeric c : is_ascii_hexdigit c = true → is_ascii_alphanumeric c = true.
Proof. byte_cases c. Qed.

Lemma alphanumeric_not c d :
  is_ascii_alphanumeric c = true → is_ascii_alphanumeric d = false → Ascii.eqb c d = false.
Proof. intros Hc Hd. apply Ascii.eqb_neq. intros ->. congruence. Qed.

(** A word does not start like anything else. *)
Lemma word_start pos c s :
  is_ascii_alphanumeric c || Ascii.eqb c "_" = true →
  lex_step pos c s =
  match lex_hex pos (String c s) with
  | Some o => '(t, rest) ← o; Ok (Some t, rest)
  | None =>
      if is_ascii_digit c then '(t, rest) ← lex_number pos (String c s); Ok (Some t, rest)
      else let '(t, rest) := lex_word (String c s) in Ok (Some t, rest)
  end.
Proof.
  intros Hc. unfold lex_step.
  assert (H : is_ascii_whitespace c = false ∧ (∀ d, two_char c d = None) ∧
    Ascii.eqb c ":" = false ∧ one_char c = None) by byte_cases c.
  destruct H as (-> & H2 & H6 & H1).
  replace (lex_two_char (String c s)) with (@None (Token * string))
    by (destruct s; simpl; by rewrite ?H2).
  unfold lex_colons, lex_one_char. rewrite H6, H1. cbn [andb mbind option_bind].
  destruct (lex_hex pos (String c s)); [done|].
  destruct (is_ascii_digit c) eqn:Hd; [done|].
  replace (is_ascii_alphabetic c || Ascii.eqb c "_") with true; [done|].
  unfold is_ascii_alphanumeric in Hc. rewrite Hd, orb_false_r in Hc. by rewrite Hc.
Qed.

(** * Words *)

Lemma str_forall_impl (p q : byte → bool) s :
  (∀ c, p c = true → q c = true) → str_forall p s = true → str_forall q s = true.
Proof.
  intros Hpq. induction s as [|c s IH]; simpl; [done|].
  intros [Hc Hs]%andb_true_iff. by rewrite (Hpq c Hc), IH.
Qed.

Lemma str_forall_app p s1 s2 :
  str_forall p (s1 +:+ s2) = str_forall p s1 && str_forall p s2.
Proof. induction s1 as [|c s1 IH]; simpl; [done|]. by rewrite IH, andb_assoc. Qed.

Lemma span_stop (p : byte → string → bool) (q : byte → bool) w c r :
  str_forall q w = true → (∀ c s, q c = true → p c s = true) → p c r = false →
  span p (w +:+ String c r) = (w, String c r).
Proof.
  intros Hw Hq Hc. induction w as [|d w IH]; simpl.
  - by rewrite Hc.
  - apply andb_true_iff in Hw as [Hd Hw]. rewrite (Hq d) by done. by rewrite IH.
Qed.

Lemma contains_absent d pat s :
  str_forall (λ c, negb (Ascii.eqb c d)) s = true → contains (String d pat) s = false.
Proof.
  induction s as [|c s IH]; simpl; [done|]. intros [Hc Hs]%andb_true_iff.
  rewrite Ascii.eqb_sym. apply negb_true_iff in Hc. rewrite Hc. by apply IH.
Qed.

Lemma count_absent d s : str_forall (λ c, negb (Ascii.eqb c d)) s = true → count_byte d s = 0.
Proof.
  induction s as [|c s IH]; simpl; [done|]. intros [Hc Hs]%andb_true_iff.
  apply negb_true_iff in Hc. rewrite Hc, IH; done.
Qed.

Lemma count_byte_app d s1 s2 : count_byte d (s1 +:+ s2) = count_byte d s1 + count_byte d s2.
Proof. induction s1 as [|c s1 IH]; simpl; [done|]. rewrite IH. lia. Qed.

Lemma alphanumeric_absent d s :
  is_ascii_alphanumeric d = false → str_forall is_ascii_alphanumeric s = true →
  str_forall (λ c, negb (Ascii.eqb c d)) s = true.
Proof.
  intros Hd. apply str_forall_impl. intros c Hc. by rewrite (alphanumeric_not c d).
Qed.

(** A word without a colon is no address. *)
Lemma no_colon_no_address w :
  str_forall (λ c, negb (Ascii.eqb c ":")) w = true →
  looks_like_ipv6 w = false ∧ looks_like_mac w = false.
Proof.
  intros Hw. unfold looks_like_ipv6, looks_like_mac.
  by rewrite contains_absent, count_absent by done.
Qed.

(** * Tokens without a value, and identifiers *)

(** The text of [t] is read as [t] when a blank follows. *)
Definition lexes (t : Token) : Prop :=
  ∃ c w, show_token t = String c w ∧
    ∀ pos rest, lex_step pos c (w +:+ String " " rest) = Ok (Some t, String " " rest).

Definition has_value (t : Token) : bool :=
  match t with TNum _ | TIpv4 _ _ | TIpv6 _ | TMac _ | TIdent _ => true | _ => false end.

Lemma lexes_fixed t : has_value t = false → lexes t.
Proof.
  intros Hv. destruct t; try done; (eexists _, _; split; [vm_compute; reflexivity|]);
    intros pos rest; vm_compute; reflexivity.
Qed.

Lemma lexes_ident s : printable (TIdent s) → lexes (TIdent s).
Proof.
  intros (_ & Hf & Hk & Hc). destruct s as [|c w]; [done|].
  exists c, w. split; [done|]. intros pos rest.
  apply andb_true_iff in Hf as Hcw. destruct Hcw as [Hi Hw].
  rewrite (word_start pos c) by done.
  assert (H : lex_hex pos (String c (w +:+ String " " rest)) = None ∧ is_ascii_digit c = false).
  { assert (Hd : is_ascii_digit c = false ∧ Ascii.eqb c "0" = false) by byte_cases c.
    destruct Hd as [Hd H0]. split; [|done]. unfold lex_hex.
    case_match; [done|]. by rewrite H0. }
  destruct H as [-> ->]. unfold lex_word.
  change (String c (w +:+ String " " rest)) with (String c w +:+ String " " rest)%string.
  rewrite (span_stop is_word_char is_ident_char (String c w) " " rest Hf);
    [|intros d ? Hd; unfold is_word_char, is_ident_char in *; by rewrite Hd|done].
  unfold word_token.
  destruct (no_colon_no_address (String c w)) as [-> ->].
  { eapply str_forall_impl; [|exact Hf]. intros d. byte_cases d. }
  unfold keyword_or_ident. by rewrite Hk.
Qed.

(** * Numbers *)

Lemma dec_digits_forall fuel n acc :
  str_forall is_ascii_digit acc = true → str_forall is_ascii_digit (dec_digits fuel n acc) = true.
Proof.
  revert n acc. induction fuel as [|fuel IH]; intros n acc Hacc; cbn [dec_digits str_forall].
  all: assert (Hd : is_ascii_digit (dec_digit (n mod 10)) = true)
    by (refine (proj1 (dec_digit_spec _ _)); apply Z.mod_pos_bound; lia).
  - by rewrite Hd.
  - case_match; [cbn [str_forall]; by rewrite Hd|]. apply IH. cbn [dec_digits str_forall]. by rewrite Hd.
Qed.

Lemma show_dec_forall n : str_forall is_ascii_digit (show_dec n) = true.
Proof. by apply dec_digits_forall. Qed.

(** A reader that takes digits one by one reads [n] off its digits. *)
Lemma dec_digits_read {A} (F : string → Z → A) (max : Z) fuel n acc :
  (∀ d s v, 0 ≤ d < 10 → 0 ≤ v → v * 10 + d ≤ max →
    F (String (dec_digit d) s) v = F s (v * 10 + d)) →
  0 ≤ n ≤ max → n < 10 ^ Z.of_nat (S fuel) →
  F (dec_digits fuel n acc) 0 = F acc n.
Proof.
  intros HF. revert n acc. induction fuel as [|fuel IH]; intros n acc Hn Hf; cbn [dec_digits str_forall].
  - change (10 ^ Z.of_nat 1) with 10 in Hf. rewrite Z.mod_small by lia.
    rewrite HF by lia. f_equal.
  - assert (Hm : 0 ≤ n mod 10 < 10) by (apply Z.mod_pos_bound; lia).
    pose proof (Z.div_mod n 10 ltac:(lia)) as Hdm.
    case_match; zbool.
    + rewrite HF by lia. f_equal. lia.
    + rewrite IH; [|Z.div_mod_to_equations; lia|].
      * rewrite HF by (Z.div_mod_to_equations; lia). f_equal. lia.
      * replace (Z.of_nat (S (S fuel))) with (Z.of_nat (S fuel) + 1) in Hf by lia.
        rewrite Z.pow_add_r in Hf by lia. Z.div_mod_to_equations; lia.
Qed.

Lemma show_dec_read {A} (F : string → Z → A) (max : Z) n :
  (∀ d s v, 0 ≤ d < 10 → 0 ≤ v → v * 10 + d ≤ max →
    F (String (dec_digit d) s) v = F s (v * 10 + d)) →
  0 ≤ n ≤ max → is_u32 n → F (show_dec n) 0 = F EmptyString n.
Proof.
  intros HF Hn H32. apply (dec_digits_read F max); [done..|].
  unfold is_u32 in H32. eapply Z.lt_trans; [apply H32|]. by vm_compute.
Qed.

(** The digits of a positive number do not start with a zero. *)
Lemma dec_digits_start fuel n acc :
  0 < n → n < 10 ^ Z.of_nat (S fuel) →
  ∃ d w, 0 < d < 10 ∧ dec_digits fuel n acc = String (dec_digit d) w.
Proof.
  revert n acc. induction fuel as [|fuel IH]; intros n acc Hn Hf; cbn [dec_digits str_forall].
  - change (10 ^ Z.of_nat 1) with 10 in Hf. exists n, acc. split; [lia|].
    by rewrite Z.mod_small by lia.
  - case_match; zbool.
    + exists (n mod 10), acc. split; [Z.div_mod_to_equations; lia|done].
    + apply IH; [Z.div_mod_to_equations; lia|].
      replace (Z.of_nat (S (S fuel))) with (Z.of_nat (S fuel) + 1) in Hf by lia.
      rewrite Z.pow_add_r in Hf by lia. Z.div_mod_to_equations; lia.
Qed.

Lemma show_dec_start n :
  is_u32 n → n = 0 ∧ show_dec n = "0"%string ∨
  ∃ d w, 0 < d < 10 ∧ show_dec n = String (dec_digit d) w.
Proof.
  intros Hn. destruct (decide (n = 0)) as [->|]; [by left|right].
  apply dec_digits_start; [ulia|]. unfold is_u32 in Hn.
  eapply Z.lt_trans; [apply Hn|]. by vm_compute.
Qed.

Lemma dec_digit_nonzero d : 0 < d < 10 → Ascii.eqb (dec_digit d) "0" = false.
Proof. intros Hd. pattern d. apply (in_range _ 1 9); [by vm_compute|lia]. Qed.

Lemma parse_int_show n off : is_u32 n → parse_int (show_dec n) off = Ok n.
Proof.
  intros Hn. apply parse_int_spec.
  assert (Hv : radix_value 10 (show_dec n) 0 = Some n).
  { apply (show_dec_read (radix_value 10) u32_max); [|ulia|done].
    intros d s v Hd _ _. simpl. by rewrite (proj2 (dec_digit_spec d Hd)). }
  assert (Hl : literal_radix (show_dec n) = (show_dec n, 10)).
  { unfold literal_radix. destruct (show_dec_start n Hn) as [[_ ->]|(d & w & Hd & ->)]; [done|].
    simpl. rewrite Ascii.eqb_sym. by rewrite dec_digit_nonzero. }
  rewrite Hl. split_and!; [|done|ulia].
  destruct (show_dec_start n Hn) as [[_ ->]|(d & w & _ & ->)]; done.
Qed.

(** * Words that start with a hexadecimal digit *)

Definition is_addr_char (c : byte) : bool := is_hex_colon_dot c EmptyString.

Lemma hexdigit_addr c : is_ascii_hexdigit c = true → is_addr_char c = true.
Proof. intros Hc. unfold is_addr_char, is_hex_colon_dot. by rewrite Hc. Qed.

Lemma digit_hexdigit c : is_ascii_digit c = true → is_ascii_hexdigit c = true.
Proof. intros Hc. unfold is_ascii_hexdigit. by rewrite Hc. Qed.

Lemma addr_word_char c s : is_addr_char c = true → is_word_char c s = true.
Proof.
  intros Hc. unfold is_word_char.
  assert (is_ascii_alphanumeric c || Ascii.eqb c "_" || Ascii.eqb c ":" || Ascii.eqb c "." = true)
    as -> by (revert Hc; byte_cases c). done.
Qed.

Lemma addr_step pos c w rest :
  is_ascii_hexdigit c = true → str_forall is_addr_char w = true →
  lex_step pos c (w +:+ String " " rest) =
  if is_ascii_digit c then
    '(t, r) ← lex_number pos (String c w +:+ String " " rest)%string; Ok (Some t, r)
  else Ok (Some (word_token (String c w)), String " " rest).
Proof.
  intros Hc Hw. rewrite word_start by (by rewrite hexdigit_alphanumeric).
  replace (lex_hex pos _) with (@None (outcome (Token * string))).
  2: { symmetry. unfold lex_hex. destruct w as [|x w]; cbn [String.app].
       - simpl. by rewrite andb_false_r.
       - apply andb_true_iff in Hw as [Hx _].
         assert (Ascii.eqb x "x" = false ∧ Ascii.eqb x "X" = false) as [E1 E2] by byte_cases x.
         simpl. by rewrite E1, E2, andb_false_r. }
  case_match; [done|]. unfold lex_word.
  change (String c (w +:+ String " " rest)) with (String c w +:+ String " " rest)%string.
  rewrite (span_stop is_word_char is_addr_char (String c w) " " rest); [done| |apply addr_word_char|done].
  simpl. by rewrite hexdigit_addr.
Qed.

Lemma lex_number_plain pos raw rest :
  str_forall (λ c, is_ascii_digit c || Ascii.eqb c ".") raw = true →
  lex_number pos (raw +:+ String " " rest) =
  t ← parse_numlike raw pos; Ok (t, String " " rest).
Proof.
  intros Hraw. unfold lex_number.
  rewrite (span_stop _ _ raw " " rest Hraw); [done| |done].
  intros c _. byte_cases c.
Qed.

(** The text of an address that starts with a digit is read by [lex_number]. *)
Lemma lexes_addr t :
  (∃ c w, show_token t = String c w ∧ is_ascii_hexdigit c = true) →
  str_forall is_addr_char (show_token t) = true →
  (∀ c w, show_token t = String c w → is_ascii_digit c = true →
    ∀ pos rest, lex_number pos (show_token t +:+ String " " rest) = Ok (t, String " " rest)) →
  (∀ c w, show_token t = String c w → is_ascii_digit c = false → word_token (show_token t) = t) →
  lexes t.
Proof.
  intros (c & w & E & Hc) Hall Hnum Hword. exists c, w. split; [done|]. intros pos rest.
  rewrite E in Hall. apply andb_true_iff in Hall as [_ Hw].
  rewrite addr_step by done. destruct (is_ascii_digit c) eqn:Hd.
  - specialize (Hnum c w E Hd pos rest). rewrite E in Hnum. by rewrite Hnum.
  - specialize (Hword c w E Hd). rewrite E in Hword. by rewrite Hword.
Qed.

Lemma show_dec_cons n : ∃ c w, show_dec n = String c w ∧ is_ascii_digit c = true.
Proof.
  pose proof (show_dec_forall n) as H. destruct (show_dec n) as [|c w] eqn:E.
  - exfalso. revert E. unfold show_dec. generalize ""%string at 1.
    generalize 20%nat as f. intros f. revert n H. 
    induction f as [|f IH]; intros n _ s; cbn [dec_digits]; [done|]. case_match; [done|].
    destruct (dec_digits f (n / 10) _) eqn:E'; [|done]. by destruct (IH (n / 10) eq_refl _ E').
  - exists c, w. split; [done|]. by apply andb_true_iff in H as [? _].
Qed.

Lemma digit_addr c : is_ascii_digit c = true → is_addr_char c = true.
Proof. intros Hc. by apply hexdigit_addr, digit_hexdigit. Qed.

Lemma digit_not c d : is_ascii_digit c = true → is_ascii_digit d = false → Ascii.eqb c d = false.
Proof. intros Hc Hd. apply Ascii.eqb_neq. intros ->. congruence. Qed.

Lemma digits_absent d s :
  is_ascii_digit d = false → str_forall is_ascii_digit s = true →
  str_forall (λ c, negb (Ascii.eqb c d)) s = true.
Proof.
  intros Hd. apply str_forall_impl. intros c Hc. by rewrite (digit_not c d).
Qed.

Lemma lexes_num n : printable (TNum n) → lexes (TNum n).
Proof.
  intros [Hn _]. pose proof (show_dec_forall n) as Hall. apply lexes_addr.
  - destruct (show_dec_cons n) as (c & w & E & Hc). exists c, w.
    split; [done|by apply digit_hexdigit].
  - eapply str_forall_impl; [apply digit_addr|done].
  - intros _ _ _ _ pos rest. change (show_token (TNum n)) with (show_dec n).
    rewrite lex_number_plain
      by (eapply str_forall_impl; [|exact Hall]; intros c Hc; by rewrite Hc).
    unfold parse_numlike. rewrite contains_absent by (by apply digits_absent).
    destruct (no_colon_no_address (show_dec n)) as [-> ->]; [by apply digits_absent|].
    by rewrite parse_int_show.
  - intros c w E Hc. simpl in E. rewrite E in Hall. simpl in Hall. by rewrite Hc in Hall.
Qed.

(** * Lists of words *)

(** Each word behind a separator. *)
Fixpoint each (sep : byte) (ws : list string) : string :=
  match ws with
  | [] => EmptyString
  | w :: ws' => String sep (w +:+ each sep ws')
  end.

Lemma concat_each sep w ws :
  String.concat (String sep "") (w :: ws) = (w +:+ each sep ws)%string.
Proof.
  revert w. induction ws as [|w' ws IH]; intros w.
  - simpl. induction w as [|c w IHw]; simpl; [done|]. by f_equal.
  - change (String.concat (String sep "") (w :: w' :: ws))
      with (w +:+ String sep (String.concat (String sep "") (w' :: ws)))%string.
    by rewrite IH.
Qed.

Lemma str_app_nil s : (s +:+ "")%string = s.
Proof. induction s as [|c s IH]; simpl; [done|]. by rewrite IH. Qed.

Lemma str_forall_each p sep ws :
  p sep = true → Forall (λ w, str_forall p w = true) ws → str_forall p (each sep ws) = true.
Proof.
  intros Hs. induction 1 as [|w ws Hw _ IH]; simpl; [done|].
  by rewrite Hs, str_forall_app, Hw, IH.
Qed.

Lemma str_split_word sep w s :
  str_forall (λ c, negb (Ascii.eqb c sep)) w = true →
  str_split sep (w +:+ String sep s) = w :: str_split sep s.
Proof.
  induction w as [|c w IH]; simpl; [by rewrite Ascii.eqb_refl|].
  intros [Hc Hw]%andb_true_iff. apply negb_true_iff in Hc. by rewrite Hc, IH.
Qed.

Lemma str_split_end sep w :
  str_forall (λ c, negb (Ascii.eqb c sep)) w = true → str_split sep w = [w].
Proof.
  induction w as [|c w IH]; simpl; [done|].
  intros [Hc Hw]%andb_true_iff. apply negb_true_iff in Hc. by rewrite Hc, IH.
Qed.

Lemma str_split_concat sep w ws :
  Forall (λ w, str_forall (λ c, negb (Ascii.eqb c sep)) w = true) (w :: ws) →
  str_split sep (String.concat (String sep "") (w :: ws)) = w :: ws.
Proof.
  revert w. induction ws as [|w' ws IH]; intros w [Hw Hws]%Forall_cons.
  - by apply str_split_end.
  - change (String.concat (String sep "") (w :: w' :: ws))
      with (w +:+ String sep (String.concat (String sep "") (w' :: ws)))%string.
    by rewrite str_split_word, IH.
Qed.

Lemma contains_sep sep w s : contains (String sep "") (w +:+ String sep s) = true.
Proof.
  induction w as [|c w IH]; [simpl; by rewrite Ascii.eqb_refl|].
  simpl. rewrite IH. by rewrite orb_true_r.
Qed.

(** * Dotted addresses *)

Lemma u8_from_show n : is_u8 n → u8_from_str_radix (show_dec n) 10 = Some n.
Proof.
  intros Hn. destruct (show_dec_cons n) as (c & w & E & Hc).
  assert (Hp : Ascii.eqb c "+" = false) by (by apply digit_not).
  assert (Hv : u8_digits 10 (show_dec n) 0 = Some n).
  { apply (show_dec_read (u8_digits 10) u8_max); [|ulia..].
    intros d s v Hd _ Hm. simpl. rewrite (proj2 (dec_digit_spec d Hd)).
    by rewrite (proj2 (Z.ltb_ge _ _)). }
  unfold u8_from_str_radix. rewrite E in *. rewrite Hp. done.
Qed.

Lemma parse_octets_show i os zs octets :
  length octets = i → Forall is_u8 os → (length os ≤ length zs)%nat →
  parse_octets i (map show_dec os) (octets ++ zs) = Some (octets ++ os ++ drop (length os) zs).
Proof.
  revert i zs octets. induction os as [|o os IH]; intros i zs octets Hi Hos Hz; [done|].
  destruct zs as [|z zs]; simpl in Hz; [lia|]. apply Forall_cons in Hos as [Ho Hos]. simpl.
  rewrite lookup_app_r, Hi, Nat.sub_diag by lia. simpl. rewrite u8_from_show by done.
  rewrite insert_app_r_alt, Hi, Nat.sub_diag by lia. simpl.
  specialize (IH (S i) zs (octets ++ [o])). rewrite <- !app_assoc in IH. simpl in IH.
  apply IH; [rewrite length_app; simpl; lia|done|lia].
Qed.

Lemma concat_dec_forall p os :
  (∀ c, is_ascii_digit c = true → p c = true) → p "."%char = true →
  str_forall p (String.concat "." (map show_dec os)) = true.
Proof.
  intros Hp Hdot. destruct os as [|o os]; [done|]. simpl map. rewrite (concat_each ".").
  assert (Hall : ∀ n, str_forall p (show_dec n) = true)
    by (intros n; eapply str_forall_impl; [exact Hp|apply show_dec_forall]).
  rewrite str_forall_app, Hall. apply str_forall_each; [done|].
  induction os; constructor; auto.
Qed.

Lemma split_dec os :
  os ≠ [] → str_split "." (String.concat "." (map show_dec os)) = map show_dec os.
Proof.
  intros Hos. destruct os as [|o os]; [done|]. apply str_split_concat.
  change (show_dec o :: _) with (map show_dec (o :: os)).
  apply List.Forall_map, Forall_true. intros n. apply digits_absent, show_dec_forall. done.
Qed.

Lemma parse_numlike_dotted os pos :
  Forall is_u8 os → (2 ≤ length os ≤ 4)%nat →
  parse_numlike (String.concat "." (map show_dec os)) pos =
  Ok (TIpv4 (os ++ replicate (4 - length os) 0) (zlen os)).
Proof.
  intros Hos Hl. unfold parse_numlike.
  assert (Hdot : contains "." (String.concat "." (map show_dec os)) = true).
  { destruct os as [|o [|o' os]]; simpl in Hl; [lia..|]. apply contains_sep. }
  rewrite Hdot, split_dec by (by destruct os; simpl in *; [lia|]).
  pose proof (parse_octets_show 0 os [0; 0; 0; 0] [] eq_refl Hos ltac:(simpl; lia)) as E.
  cbn [app] in E. rewrite E. f_equal. f_equal; [|unfold zlen; by rewrite length_map].
  f_equal. destruct (length os) as [|[|[|[|[|n]]]]]; [done..|lia].
Qed.

Lemma lexes_ipv4 octets parts : printable (TIpv4 octets parts) → lexes (TIpv4 octets parts).
Proof.
  intros [(Hl & Hu & Hp) Hz]. simpl in Hz.
  set (os := take (Z.to_nat parts) octets). assert (Hos : Forall is_u8 os) by (by apply Forall_take).
  assert (Hn : length os = Z.to_nat parts)
    by (unfold os; rewrite length_take; unfold zlen in Hl; lia).
  change (show_token (TIpv4 octets parts)) with (String.concat "." (map show_dec os)).
  assert (Hstart : ∃ c w, String.concat "." (map show_dec os) = String c w ∧ is_ascii_digit c = true).
  { destruct os as [|o os']; simpl in Hn; [lia|]. destruct (show_dec_cons o) as (c & w & Eo & Hc).
    simpl map. rewrite (concat_each "."), Eo. by eexists _, _. }
  apply lexes_addr; change (show_token (TIpv4 octets parts)) with (String.concat "." (map show_dec os)).
  - destruct Hstart as (c & w & E & Hc). exists c, w. split; [done|by apply digit_hexdigit].
  - by apply concat_dec_forall; [apply digit_addr|].
  - intros _ _ _ _ pos rest.
    rewrite lex_number_plain by (apply concat_dec_forall; [intros d Hd; by rewrite Hd|done]).
    rewrite parse_numlike_dotted by (done || lia). simpl. repeat f_equal; [|unfold zlen; lia].
    transitivity (os ++ drop (Z.to_nat parts) octets); [|apply take_drop]. f_equal. symmetry.
    replace (4 - length os)%nat with (length (drop (Z.to_nat parts) octets))
      by (rewrite length_drop; unfold zlen in Hl; lia).
    symmetry. apply replicate_as_Forall. split; [done|]. eapply Forall_impl; [exact Hz|]. by intros ? ->.
  - intros c w E Hc. destruct Hstart as (c' & w' & E' & Hc'). congruence.
Qed.

(** * Colon-separated addresses *)

Lemma hex2_eq o :
  is_u8 o → hex2 o = String (hex_digit (o / 16)) (String (hex_digit (o mod 16)) "").
Proof.
  intros Ho. unfold hex2. cbn [hex_digits].
  rewrite (Z.mod_small (o / 16)) by (unfold is_u8 in Ho; Z.div_mod_to_equations; lia).
  replace (o / 16 / 16 =? 0) with true; [done|].
  symmetry. apply Z.eqb_eq. unfold is_u8 in Ho. Z.div_mod_to_equations; lia.
Qed.

Lemma hex4_eq g :
  is_u16 g →
  hex4 g = String (hex_digit (g / 4096)) (String (hex_digit (g / 256 mod 16))
    (String (hex_digit (g / 16 mod 16)) (String (hex_digit (g mod 16)) ""))).
Proof.
  intros Hg. unfold hex4. cbn [hex_digits]. rewrite (Z.div_div g 16 16) by lia.
  rewrite (Z.div_div g (16 * 16) 16) by lia. rewrite (Z.div_div g (16 * 16 * 16) 16) by lia.
  change (16 * 16) with 256. change (256 * 16) with 4096. change (4096 * 16) with 65536.
  rewrite (Z.mod_small (g / 4096)) by (unfold is_u16 in Hg; Z.div_mod_to_equations; lia).
  rewrite (Z.div_small g 65536) by (unfold is_u16 in Hg; lia). done.
Qed.

(** A word of hexadecimal digits. *)
Definition is_hex (w : string) : Prop :=
  str_forall is_ascii_hexdigit w = true ∧ w ≠ EmptyString.

Lemma hex2_is_hex o : is_u8 o → is_hex (hex2 o) ∧ slen (hex2 o) = 2.
Proof.
  intros Ho. rewrite hex2_eq by done. split; [|done]. split; [|done]. simpl.
  assert (Hd : 0 ≤ o / 16 < 16) by (unfold is_u8 in Ho; Z.div_mod_to_equations; lia).
  assert (Hm : 0 ≤ o mod 16 < 16) by (apply Z.mod_pos_bound; lia).
  by rewrite (proj1 (hex_digit_spec _ Hd)), (proj1 (hex_digit_spec _ Hm)).
Qed.

Lemma hex4_is_hex g : is_u16 g → is_hex (hex4 g) ∧ slen (hex4 g) = 4.
Proof.
  intros Hg. rewrite hex4_eq by done. split; [|done]. split; [|done]. simpl.
  assert (Hd : 0 ≤ g / 4096 < 16) by (unfold is_u16 in Hg; Z.div_mod_to_equations; lia).
  rewrite (proj1 (hex_digit_spec _ Hd)).
  by rewrite !(λ x, proj1 (hex_digit_spec (x mod 16) (Z.mod_pos_bound x 16 eq_refl))).
Qed.

Lemma is_hex_start w :
  is_hex w → ∃ c w', w = String c w' ∧ is_ascii_hexdigit c = true.
Proof.
  intros [Hw Hne]. destruct w as [|c w']; [done|]. exists c, w'.
  by apply andb_true_iff in Hw as [? _].
Qed.

Lemma is_hex_absent d w :
  is_ascii_hexdigit d = false → is_hex w → str_forall (λ c, negb (Ascii.eqb c d)) w = true.
Proof.
  intros Hd [Hw _]. eapply str_forall_impl; [|exact Hw]. intros c Hc.
  apply negb_true_iff, Ascii.eqb_neq. intros ->. simpl in Hc. congruence.
Qed.

Lemma hex_addr_forall w ws :
  Forall is_hex (w :: ws) → str_forall is_addr_char (String.concat ":" (w :: ws)) = true.
Proof.
  intros [Hw Hws]%Forall_cons. rewrite (concat_each ":"), str_forall_app.
  rewrite (str_forall_impl _ _ _ hexdigit_addr (proj1 Hw)). apply str_forall_each; [done|].
  eapply Forall_impl; [exact Hws|]. intros v [Hv _]. by apply (str_forall_impl _ _ _ hexdigit_addr).
Qed.

Lemma count_colons ws : Forall is_hex ws → count_byte ":" (each ":" ws) = zlen ws.
Proof.
  induction 1 as [|w ws Hw _ IH]; [done|]. cbn [each count_byte].
  rewrite Ascii.eqb_refl, count_byte_app, IH, zlen_cons.
  rewrite count_absent by (by apply is_hex_absent). lia.
Qed.

(** The groups of an address behind its first one. *)
Lemma mac_groups_each ws s :
  Forall (λ w, is_hex w ∧ slen w ≤ 2) ws →
  mac_groups (length ws) (each ":" ws +:+ String " " s) = Some (each ":" ws, String " " s).
Proof.
  induction 1 as [|w ws [Hw Hlen] Hws IH]; [done|]. cbn [length mac_groups each String.app].
  rewrite Ascii.eqb_refl, <- str_app_assoc.
  assert (E : span (λ c _, is_ascii_hexdigit c) (w +:+ each ":" ws +:+ String " " s) =
    (w, each ":" ws +:+ String " " s)%string).
  { destruct ws; simpl; by eapply span_stop; [apply Hw| |]. }
  rewrite E. destruct (is_hex_start w Hw) as (c & w' & -> & _). rewrite slen_cons in *.
  pose proof (slen_nonneg w').
  rewrite (proj2 (Z.eqb_neq _ _)), (proj2 (Z.ltb_ge _ _)) by lia. simpl. rewrite IH. done.
Qed.

Lemma mac_groups_long n w s :
  is_hex w → 2 < slen w → mac_groups (S n) (String ":" (w +:+ String ":" s)) = None.
Proof.
  intros Hw Hlen. cbn [mac_groups]. rewrite Ascii.eqb_refl.
  rewrite (span_stop _ is_ascii_hexdigit w ":" s) by (done || apply Hw).
  by rewrite (proj2 (Z.ltb_lt _ _)), orb_true_r.
Qed.

Lemma parse_mac_show octets :
  zlen octets = 6 → Forall is_u8 octets →
  parse_mac (String.concat ":" (map hex2 octets)) = Some octets.
Proof.
  intros Hl Ho. unfold parse_mac.
  assert (Hs : str_split ":" (String.concat ":" (map hex2 octets)) = map hex2 octets).
  { destruct octets as [|o os]; [done|]. simpl map. apply str_split_concat.
    change (hex2 o :: _) with (map hex2 (o :: os)). apply List.Forall_map.
    eapply Forall_impl; [exact Ho|]. intros x Hx. by apply is_hex_absent, hex2_is_hex. }
  rewrite Hs, length_map. unfold zlen in Hl. replace (length octets) with 6%nat by lia. simpl.
  clear Hl Hs. apply mapM_Some. induction Ho as [|o os Ho _ IH]; constructor; [|done].
  unfold u8_from_str_radix. rewrite hex2_eq by done.
  assert (Hd : 0 ≤ o / 16 < 16) by (unfold is_u8 in Ho; Z.div_mod_to_equations; lia).
  assert (Hm : 0 ≤ o mod 16 < 16) by (apply Z.mod_pos_bound; lia).
  destruct (hex_digit_spec _ Hd) as [Hh Ed], (hex_digit_spec _ Hm) as [_ Em].
  assert (Hp : Ascii.eqb (hex_digit (o / 16)) "+" = false)
    by (apply Ascii.eqb_neq; intros Hc; by rewrite Hc in Hh).
  rewrite Hp. cbn [u8_digits]. rewrite Ed, Em.
  rewrite !(proj2 (Z.ltb_ge _ _)) by (unfold u8_max; unfold is_u8 in Ho; Z.div_mod_to_equations; lia).
  f_equal. rewrite (Z.div_mod o 16) at 3 by lia. lia.
Qed.

(** * Reading an IPv6 address *)

(** What can follow a group: nothing, or a colon. *)
Definition ends (s : string) : Prop := s = EmptyString ∨ ∃ s', s = String ":" s'.

Lemma read_digits_no_dot m w s r k v n rest :
  str_forall is_ascii_hexdigit w = true → ends s →
  read_digits 10 m (w +:+ s) r k = Some (v, n, rest) → starts_with "." rest = false.
Proof.
  intros Hw Hs. revert r k. induction w as [|c w IH]; intros r k; cbn [String.app].
  - destruct Hs as [->|[s' ->]]; simpl; by intros [= _ _ <-].
  - apply andb_true_iff in Hw as [Hc Hw]. cbn [read_digits]. destruct (to_digit 10 c).
    + case_match; [done|]. by apply IH.
    + intros [= _ _ <-]. simpl. apply Ascii.eqb_neq. intros ->. by vm_compute in Hc.
Qed.

Lemma no_ipv4 w s :
  str_forall is_ascii_hexdigit w = true → ends s → read_ipv4_addr (w +:+ s) = None.
Proof.
  intros Hw Hs. unfold read_ipv4_addr, read_separator. simpl.
  destruct (read_octet (w +:+ s)) as [[v rest]|] eqn:E; [|done]. simpl.
  assert (Hdot : starts_with "." rest = false).
  { unfold read_octet, read_number in E. apply bind_Some in E as ([[v' n] r'] & Hd & E).
    apply read_digits_no_dot in Hd; [|done..]. repeat case_match; simplify_eq; done. }
  destruct rest as [|c rest]; [done|]. simpl in *. by rewrite Hdot.
Qed.

(** [w] is read as the group [g]. *)
Definition reads_group (w : string) (g : Z) : Prop :=
  is_hex w ∧ ∀ s, ends s → read_number 16 4 true u16_max (w +:+ s) = Some (g, s).

Lemma read_digits_ends m s v n :
  ends s → read_digits 16 m s v n = Some (v, n, s).
Proof. by intros [->|[s' ->]]. Qed.

Lemma hex4_reads g : is_u16 g → reads_group (hex4 g) g.
Proof.
  intros Hg. split; [by apply hex4_is_hex|]. intros s Hs. unfold read_number.
  rewrite hex4_eq by done. cbn [String.app read_digits].
  assert (Hd : 0 ≤ g / 4096 < 16) by (unfold is_u16 in Hg; Z.div_mod_to_equations; lia).
  rewrite (proj2 (hex_digit_spec _ Hd)).
  rewrite !(λ x, proj2 (hex_digit_spec (x mod 16) (Z.mod_pos_bound x 16 eq_refl))).
  cbn -[Z.mul Z.add Z.div Z.modulo read_digits]. rewrite read_digits_ends by done.
  rewrite !(proj2 (Z.ltb_ge 4 _)) by lia. cbn -[Z.mul Z.div Z.modulo Z.add u16_max Z.eqb].
  rewrite (proj2 (Z.eqb_neq _ 0)) by lia.
  assert (E : (((0 * 16 + g / 4096) * 16 + g / 256 mod 16) * 16 + g / 16 mod 16) * 16 + g mod 16 = g)
    by (clear; Z.div_mod_to_equations; lia).
  rewrite E, (proj2 (Z.ltb_ge _ _)) by (unfold is_u16, u16_max in *; lia). done.
Qed.

Lemma hex2_reads o : is_u8 o → reads_group (hex2 o) o.
Proof.
  intros Ho. split; [by apply hex2_is_hex|]. intros s Hs. unfold read_number.
  rewrite hex2_eq by done. cbn [String.app read_digits].
  assert (Hd : 0 ≤ o / 16 < 16) by (unfold is_u8 in Ho; Z.div_mod_to_equations; lia).
  rewrite (proj2 (hex_digit_spec _ Hd)).
  rewrite (proj2 (hex_digit_spec _ (Z.mod_pos_bound o 16 eq_refl))).
  cbn -[Z.mul Z.add Z.div Z.modulo read_digits]. rewrite read_digits_ends by done.
  rewrite !(proj2 (Z.ltb_ge 4 _)) by lia. cbn -[Z.mul Z.div Z.modulo Z.add u16_max Z.eqb].
  rewrite (proj2 (Z.eqb_neq _ 0)) by lia.
  replace ((0 * 16 + o / 16) * 16 + o mod 16) with o by (Z.div_mod_to_equations; lia).
  rewrite (proj2 (Z.ltb_ge _ _)) by (unfold is_u8, u16_max in *; lia). done.
Qed.

Lemma read_group_step slots i w g s sep :
  reads_group w g → ends s → sep = (if 0 <? i then String ":" "" else "") →
  read_groups (S slots) i (sep +:+ w +:+ s) =
  let '(gs, v4, rest) := read_groups slots (i + 1) s in (g :: gs, v4, rest).
Proof.
  intros [[Hw _] Hg] Hs ->. cbn [read_groups].
  assert (Hsep : ∀ A (inner : string → option (A * string)),
    read_separator ":" i inner ((if 0 <? i then String ":" "" else "") +:+ w +:+ s) =
    inner (w +:+ s)%string) by (intros; unfold read_separator; by destruct (0 <? i)).
  rewrite !Hsep, no_ipv4, Hg by done. by destruct slots.
Qed.

Lemma read_groups_end slots i : 0 < i → read_groups slots i "" = ([], false, EmptyString).
Proof.
  intros Hi. destruct slots; [done|]. simpl. unfold read_separator.
  rewrite (proj2 (Z.ltb_lt _ _)) by done. by destruct slots.
Qed.

Lemma ends_each ws : ends (each ":" ws).
Proof. destruct ws; [by left|right; by eexists]. Qed.

Lemma read_groups_each slots i ws gs :
  0 < i → Forall2 reads_group ws gs → (length ws ≤ slots)%nat →
  read_groups slots i (each ":" ws) = (gs, false, EmptyString).
Proof.
  intros Hi Hf. revert slots i Hi. induction Hf as [|w g ws gs Hg Hf IH]; intros slots i Hi Hl.
  - by apply read_groups_end.
  - destruct slots as [|slots]; simpl in Hl; [lia|].
    change (each ":" (w :: ws)) with (String ":" "" +:+ w +:+ each ":" ws)%string.
    rewrite (read_group_step slots i w g (each ":" ws)) by
      (done || apply ends_each || by rewrite (proj2 (Z.ltb_lt _ _))).
    rewrite IH by lia. done.
Qed.

Lemma read_groups_all slots w ws g gs :
  Forall2 reads_group (w :: ws) (g :: gs) → (length (w :: ws) ≤ slots)%nat →
  read_groups slots 0 (String.concat ":" (w :: ws)) = (g :: gs, false, EmptyString).
Proof.
  intros [Hg Hf]%Forall2_cons Hl. destruct slots as [|slots]; simpl in Hl; [lia|].
  rewrite (concat_each ":").
  change (w +:+ each ":" ws)%string with ("" +:+ w +:+ each ":" ws)%string.
  rewrite (read_group_step slots 0 w g (each ":" ws)) by (done || apply ends_each).
  rewrite (read_groups_each _ _ ws gs) by (done || lia). done.
Qed.

Lemma parse_ipv6_show addr :
  wf_segments addr → parse_ipv6 (String.concat ":" (map hex4 addr)) = Some addr.
Proof.
  intros [Hl Ha]. destruct addr as [|g gs]; [done|]. unfold parse_ipv6, read_ipv6_addr. cbn [map].
  rewrite (read_groups_all 8 (hex4 g) (map hex4 gs) g gs).
  - unfold zlen in Hl. by rewrite (proj2 (Nat.eqb_eq _ _)) by lia.
  - change (Forall2 reads_group (map hex4 (g :: gs)) (g :: gs)).
    clear Hl. induction Ha; constructor; [by apply hex4_reads|done].
  - unfold zlen in Hl. simpl in *. rewrite length_map. lia.
Qed.

Lemma parse_ipv6_mac octets :
  zlen octets = 6 → Forall is_u8 octets →
  parse_ipv6 (String.concat ":" (map hex2 octets)) = None.
Proof.
  intros Hl Ho. destruct octets as [|o os]; [done|]. unfold parse_ipv6, read_ipv6_addr. cbn [map].
  rewrite (read_groups_all 8 (hex2 o) (map hex2 os) o os).
  - unfold zlen in Hl. by rewrite (proj2 (Nat.eqb_neq _ _)) by lia.
  - change (Forall2 reads_group (map hex2 (o :: os)) (o :: os)).
    clear Hl. induction Ho; constructor; [by apply hex2_reads|done].
  - unfold zlen in Hl. simpl in *. rewrite length_map. lia.
Qed.

(** * Colon-separated tokens *)

(** The text of an address with more than one group starts with a word of
    digits and a colon. *)
Lemma lex_number_colon pos w s :
  is_hex w → lex_number pos (w +:+ String ":" s) =
  match lex_digit_mac w (String ":" s) with
  | Some r => Ok r
  | None =>
      match lex_digit_ipv6 w (String ":" s) with
      | Some r => Ok r
      | None => t ← parse_numlike w pos; Ok (t, String ":" s)
      end
  end.
Proof.
  intros [Hw _]. unfold lex_number.
  rewrite (span_stop _ is_ascii_hexdigit w ":" s) by
    (done || by intros c _ Hc; rewrite hexdigit_alphanumeric). done.
Qed.

Lemma looks_like_groups w ws :
  Forall is_hex (w :: ws) → (2 ≤ length ws)%nat →
  looks_like_ipv6 (w +:+ each ":" ws) = true ∧
  looks_like_mac (w +:+ each ":" ws) = (zlen ws =? 5).
Proof.
  intros [Hw Hws]%Forall_cons Hl. unfold looks_like_ipv6, looks_like_mac.
  rewrite count_byte_app, count_colons by done.
  rewrite count_absent by (by apply is_hex_absent). rewrite Z.add_0_l. split; [|done].
  rewrite (proj2 (Z.leb_le _ _)) by (unfold zlen; lia). by rewrite orb_true_r.
Qed.

(** The text of a token of groups: [show] prints each of them. *)
Lemma lexes_groups (t : Token) (show : Z → string) (g : Z) (gs : list Z) :
  show_token t = String.concat ":" (map show (g :: gs)) →
  Forall is_hex (map show (g :: gs)) →
  (∀ pos rest, lex_number pos (show_token t +:+ String " " rest) = Ok (t, String " " rest)) →
  word_token (show_token t) = t → lexes t.
Proof.
  intros E Hh Hn Hw. apply lexes_addr; [|rewrite E; by apply hex_addr_forall|auto..].
  apply Forall_cons in Hh as [Hg _]. destruct (is_hex_start _ Hg) as (c & w & Ec & Hc).
  rewrite E. cbn [map]. rewrite (concat_each ":"), Ec. by eexists _, _.
Qed.

Lemma concat_split (show : Z → string) g g' (gs : list Z) rest :
  (String.concat ":" (map show (g :: g' :: gs)) +:+ String " " rest)%string =
  (show g +:+ String ":" (show g' +:+ each ":" (map show gs) +:+ String " " rest))%string.
Proof.
  cbn [map]. rewrite (concat_each ":"). cbn [each]. rewrite <- !str_app_assoc. cbn [String.app].
  by rewrite <- !str_app_assoc.
Qed.

Lemma lexes_mac octets : printable (TMac octets) → lexes (TMac octets).
Proof.
  intros [(Hl & Ho) _]. destruct octets as [|o [|o' os]]; [done..|].
  assert (Hh : Forall (λ w, is_hex w ∧ slen w ≤ 2) (map hex2 (o :: o' :: os))).
  { apply List.Forall_map. eapply Forall_impl; [exact Ho|]. intros x Hx.
    destruct (hex2_is_hex x Hx) as [? ->]. done. }
  assert (Hh' : Forall is_hex (map hex2 (o :: o' :: os)))
    by (eapply Forall_impl; [exact Hh|]; by intros ? []).
  assert (Hlen : length os = 4%nat) by (unfold zlen in Hl; simpl in Hl; lia).
  apply (lexes_groups _ hex2 o (o' :: os)); [done..| |].
  - intros pos rest. change (show_token (TMac ?l)) with (String.concat ":" (map hex2 l)).
    rewrite concat_split, lex_number_colon by (by apply Forall_cons in Hh' as [? _]).
    unfold lex_digit_mac. cbn [starts_with]. rewrite Ascii.eqb_refl.
    apply Forall_cons in Hh as [_ Hh].
    pose proof (mac_groups_each (map hex2 (o' :: os)) rest Hh) as E.
    rewrite length_map in E. cbn [map each length String.app] in E. rewrite Hlen in E.
    rewrite <- !str_app_assoc in E. rewrite E. cbn [mbind option_bind]. simpl starts_with.
    pose proof (parse_mac_show (o :: o' :: os) Hl Ho) as Em. cbn [map] in Em.
    rewrite (concat_each ":") in Em. cbn [each] in Em. cbn [mbind option_bind].
    rewrite Em. done.
  - change (show_token (TMac ?l)) with (String.concat ":" (map hex2 l)). unfold word_token.
    rewrite parse_ipv6_mac, parse_mac_show by done. cbn [map]. rewrite (concat_each ":").
    destruct (looks_like_groups (hex2 o) (map hex2 (o' :: os)) Hh') as [E6 Em];
      [rewrite length_map; simpl; lia|].
    cbn [map] in E6, Em. rewrite E6, Em. unfold zlen. cbn [length]. by rewrite length_map, Hlen.
Qed.

Lemma lex_digit_ipv6_show w ws rest addr :
  Forall is_hex (w :: ws) → (2 ≤ length ws)%nat →
  parse_ipv6 (w +:+ each ":" ws) = Some addr →
  lex_digit_ipv6 w (each ":" ws +:+ String " " rest) = Some (TIpv6 addr, String " " rest).
Proof.
  intros Hh Hl Hp. unfold lex_digit_ipv6.
  replace (starts_with ":" _) with true by (by destruct ws; [simpl in Hl; lia|]).
  rewrite (span_stop is_hex_colon_dot is_addr_char (each ":" ws) " " rest); [| |done..].
  - rewrite (proj1 (looks_like_groups w ws Hh Hl)), Hp. done.
  - apply Forall_cons in Hh as [_ Hh]. apply str_forall_each; [done|].
    eapply Forall_impl; [exact Hh|]. intros v [Hv _]. by apply (str_forall_impl _ _ _ hexdigit_addr).
Qed.

Lemma lexes_ipv6 addr : printable (TIpv6 addr) → lexes (TIpv6 addr).
Proof.
  intros [[Hl Ha] _]. destruct addr as [|g [|g' [|g'' gs]]]; [done..|].
  assert (Hh : Forall is_hex (map hex4 (g :: g' :: g'' :: gs))).
  { apply List.Forall_map. eapply Forall_impl; [exact Ha|]. intros x Hx. by apply hex4_is_hex. }
  pose proof (parse_ipv6_show (g :: g' :: g'' :: gs) (conj Hl Ha)) as Hp.
  cbn [map] in Hp. rewrite (concat_each ":") in Hp.
  apply (lexes_groups _ hex4 g (g' :: g'' :: gs)); [done..| |].
  - intros pos rest. change (show_token (TIpv6 ?l)) with (String.concat ":" (map hex4 l)).
    rewrite concat_split, lex_number_colon by (by apply Forall_cons in Hh as [? _]).
    assert (Hm : lex_digit_mac (hex4 g)
      (String ":" (hex4 g' +:+ each ":" (map hex4 (g'' :: gs)) +:+ String " " rest)) = None).
    { unfold lex_digit_mac. cbn [starts_with each map String.app]. rewrite Ascii.eqb_refl.
      apply Forall_cons in Ha as [_ [Hg' _]%Forall_cons].
      destruct (hex4_is_hex g' Hg') as [? E4]. by rewrite mac_groups_long by (done || lia). }
    rewrite Hm.
    pose proof (lex_digit_ipv6_show (hex4 g) (map hex4 (g' :: g'' :: gs)) rest _ Hh
      ltac:(simpl; lia) Hp) as E6.
    cbn [map each String.app] in E6 |- *. rewrite <- !str_app_assoc in E6.
    cbn [String.app] in E6. rewrite E6. done.
  - change (show_token (TIpv6 ?l)) with (String.concat ":" (map hex4 l)). unfold word_token.
    cbn [map]. rewrite (concat_each ":").
    destruct (looks_like_groups (hex4 g) (map hex4 (g' :: g'' :: gs)) Hh) as [E6 _];
      [simpl; lia|].
    cbn [map] in E6. by rewrite E6, Hp.
Qed.

(** * The round trip *)

Lemma printable_lexes t : printable t → lexes t.
Proof.
  intros Ht. destruct t; try (by apply lexes_fixed).
  - by apply lexes_num.
  - by apply lexes_ipv4.
  - by apply lexes_ipv6.
  - by apply lexes_mac.
  - by apply lexes_ident.
Qed.

Lemma lex_loop_step n pos c s :
  lex_loop (S n) pos (String c s) =
  '(t, rest) ← lex_step pos c s;
  toks ← lex_loop n (pos + (slen (String c s) - slen rest)) rest;
  Ok (push_token pos t toks).
Proof. done. Qed.

Lemma lex_loop_blank n pos rest :
  lex_loop (S n) pos (String " " rest) =
  toks ← lex_loop n (pos + 1) rest; Ok toks.
Proof.
  rewrite lex_loop_step. change (lex_step pos " " rest) with (Ok (@None Token, rest)).
  cbn [mbind outcome_bind push_token]. rewrite slen_cons.
  by replace (pos + (1 + slen rest - slen rest)) with (pos + 1) by lia.
Qed.

Lemma lex_loop_show n pos ts :
  Forall printable ts → (String.length (show_tokens ts) < n)%nat →
  ∃ toks, lex_loop n pos (show_tokens ts) = Ok toks ∧ map token toks = ts.
Proof.
  intros Hts. revert n pos. induction Hts as [|t ts Ht Hts IH]; intros n pos Hn.
  { destruct n; [simpl in Hn; lia|]. by exists []. }
  destruct (printable_lexes t Ht) as (c & w & E & Hlex).
  cbn [show_tokens foldr] in *. fold (show_tokens ts) in *. rewrite E in *.
  cbn [String.app] in *. destruct n as [|[|n]]; [simpl in Hn; lia..|].
  assert (Hlen : (String.length (show_tokens ts) < n)%nat).
  { cbn [String.length] in Hn.
    pose proof (slen_app w (String " " (show_tokens ts))) as Hl. rewrite slen_cons in Hl.
    unfold slen in Hl. lia. }
  rewrite lex_loop_step, Hlex. cbn [mbind outcome_bind].
  destruct (IH n (pos + (slen (String c (w +:+ String " " (show_tokens ts))) -
    slen (String " " (show_tokens ts))) + 1) Hlen) as (toks & Hl & Ht').
  rewrite lex_loop_blank, Hl. cbn [mbind outcome_bind push_token].
  exists (mk_spanned t pos :: toks). split; [done|]. simpl. by rewrite Ht'.
Qed.

Lemma lex_back (ts : list Token) :
  Forall printable ts → ∃ toks, lex (show_tokens ts) = Ok toks ∧ map token toks = ts.
Proof. intros Hts. apply lex_loop_show; [done|lia]. Qed.

(** C26: tokens printed with a blank behind each are read back: keywords,
    operators, numbers, addresses of every kind and identifiers. *)
Theorem lex_show (ts : list Token) :
  Forall printable ts → ∃ toks, lex (show_tokens ts) = Ok toks ∧ map token toks = ts.
Proof. apply lex_back. Qed.

Definition sample_tokens : list Token :=
  [THost; TIpv4 [10; 1; 0; 0] 2; TOr; TEther; TMac [0xaa; 0; 1; 2; 3; 4]; TAnd; TLen; TLe; TNum 80;
   TBang; TIpv6 [0x2001; 0xdb8; 0; 0; 0; 0; 0; 1]; TIdent "eth_0"].

Lemma lex_show_witness :
  show_tokens sample_tokens =
  "host 10.1 or ether aa:00:01:02:03:04 and len <= 80 ! 2001:0db8:0000:0000:0000:0000:0000:0001 eth_0 "%string ∧
  ∃ toks, lex (show_tokens sample_tokens) = Ok toks ∧ map token toks = sample_tokens.
Proof.
  split; [by vm_compute|]. apply (lex_show sample_tokens).
  repeat apply Forall_cons_2; [..|by apply Forall_nil_2];
    split; try (by vm_compute); simpl; repeat split; try (by vm_compute);
    repeat constructor; vm_compute; done.
Defined.
