(* ===== verification/Parser.v ===== *)
(** The parser (parser.rs): a token cursor, the explicit stack for [and], [or],
    [not] and parentheses, recursive descent for primitives and for the
    constant offset expressions of byte accesses. *)

From S2P Require Export Lexer Ast.

(** * The cursor *)

Record Parser := mk_parser {
  p_tokens : list Spanned;
  p_pos : Z;
  p_depth : Z;
}.

Definition P : Type → Type := M Parser.

Definition set_pos (pos : Z) (p : Parser) : Parser := mk_parser (p_tokens p) pos (p_depth p).
Definition set_p_depth (d : Z) (p : Parser) : Parser := mk_parser (p_tokens p) (p_pos p) d.

Definition peek_tok (lookahead : Z) : P (option Token) :=
  gets (λ p, token <$> zget (p_tokens p) (p_pos p + lookahead)).

Definition cur_tok : P (option Token) :=
  gets (λ p, token <$> zget (p_tokens p) (p_pos p)).

Definition advance : P (option Token) :=
  t ← cur_tok;
  match t with
  | Some _ => modify (λ p, set_pos (p_pos p + 1) p);; mret t
  | None => mret t
  end.

Definition eat (expected : Token) : P bool :=
  t ← cur_tok;
  if decide (t = Some expected) then modify (λ p, set_pos (p_pos p + 1) p);; mret true
  else mret false.

(** [self.err(msg)] as the result. *)
Definition err {A} (msg : string) : P A := fail (ParseError msg).

Definition debug_tok (t : option Token) : string := debug_option debug_token t.

Definition expect_tok (expected : Token) : P unit :=
  b ← eat expected;
  if b : bool then mret tt
  else
    t ← cur_tok;
    err ("expected " +:+ debug_token expected +:+ ", got " +:+ debug_tok t).

(** [self.cur_tok() == Some(t)] *)
Definition at_tok (t : Token) : P bool := c ← cur_tok; mret (bool_decide (c = Some t)).

(** The loops consume a token a turn: as many turns as tokens are enough. *)
Definition turns : P nat := gets (λ p, S (length (p_tokens p))).

(** * Integers *)

Definition parse_u32 : P Z :=
  d ← cur_tok;
  t ← advance;
  match t with
  | Some (TNum n) =>
      if u32_max <? n then err "integer literal too large (max u32)" else mret n
  | _ => err ("expected integer literal, got " +:+ debug_tok d)
  end.

Definition parse_u16 : P Z :=
  n ← parse_u32;
  if 0xffff <? n then
    err "value out of range for a port number (0–65535)"
  else mret n.

Definition parse_proto_num : P Z :=
  t ← cur_tok;
  match t with
  | Some TTcp => advance;; mret 6
  | Some TUdp => advance;; mret 17
  | Some TIcmp => advance;; mret 1
  | Some TIcmp6 => advance;; mret 58
  | Some TIgmp => advance;; mret 2
  | Some TSctp => advance;; mret 132
  | Some TAh => advance;; mret 51
  | Some TEsp => advance;; mret 50
  | Some TPim => advance;; mret 103
  | Some TIgrp => advance;; mret 9
  | Some TVrrp => advance;; mret 112
  | _ =>
      n ← parse_u32;
      if 0xff <? n then err "IP protocol number out of range (0–255)"
      else mret n
  end.

(** * Offset expressions

    [i64] arithmetic, checked as the code checks it. *)

Definition i64_min : Z := - 2 ^ 63.
Definition i64_max : Z := 2 ^ 63 - 1.
Definition is_i64 (x : Z) : Prop := i64_min ≤ x ≤ i64_max.

Definition checked_i64 (x : Z) : P Z :=
  if (i64_min <=? x) && (x <=? i64_max) then mret x else err "offset expression overflow".

(** [x as i64], the bits of [x] *)
Definition as_i64 (x : Z) : Z := (x + 2 ^ 63) mod 2 ^ 64 - 2 ^ 63.

Definition MAX_OFFSET_DEPTH : Z := 127.
Definition OFFSET_PAREN_COST : Z := 4.

Definition nested_offset {A} (cost : Z) (f : P A) : P A :=
  modify (λ p, set_p_depth (p_depth p + cost) p);;
  d ← gets p_depth;
  if MAX_OFFSET_DEPTH <? d then err "offset expression nested too deeply"
  else
    λ s, match f s with
         | Ok (a, s') => Ok (a, set_p_depth (p_depth s' - cost) s')
         | o => o
         end.

(** [while self.cur_tok() == Some(&tok) { advance; lhs = op(lhs, operand) }] *)
Fixpoint fold_op (n : nat) (tok : Token) (op : Z → Z → Z) (operand : P Z) (lhs : Z) : P Z :=
  match n with
  | O => λ _, OutOfFuel
  | S n' =>
      b ← at_tok tok;
      if b : bool then advance;; rhs ← operand; fold_op n' tok op operand (op lhs rhs)
      else mret lhs
  end.

Section offset.
(** [parse_offset_atom] *)
Context (atom : P Z).

Fixpoint mul_loop (n : nat) (lhs : Z) : P Z :=
  match n with
  | O => λ _, OutOfFuel
  | S n' =>
      t ← cur_tok;
      match t with
      | Some TStar => advance;; rhs ← atom; v ← checked_i64 (lhs * rhs); mul_loop n' v
      | Some TSlash =>
          advance;;
          rhs ← atom;
          if rhs =? 0 then err "division by zero in offset expression"
          else v ← checked_i64 (Z.quot lhs rhs); mul_loop n' v
      | _ => mret lhs
      end
  end.

Definition parse_offset_mul : P Z := lhs ← atom; n ← turns; mul_loop n lhs.

Fixpoint add_loop (n : nat) (lhs : Z) : P Z :=
  match n with
  | O => λ _, OutOfFuel
  | S n' =>
      t ← cur_tok;
      match t with
      | Some TPlus => advance;; rhs ← parse_offset_mul; v ← checked_i64 (lhs + rhs); add_loop n' v
      | Some TMinus => advance;; rhs ← parse_offset_mul; v ← checked_i64 (lhs - rhs); add_loop n' v
      | _ => mret lhs
      end
  end.

Definition parse_offset_add : P Z := lhs ← parse_offset_mul; n ← turns; add_loop n lhs.

(** [if !(0..64).contains(&rhs) { return Err(..) }] *)
Definition shift_amount (rhs : Z) : P unit :=
  if (0 <=? rhs) && (rhs <? 64) then mret tt
  else err "shift amount out of range in offset expression".

Fixpoint shift_loop (n : nat) (lhs : Z) : P Z :=
  match n with
  | O => λ _, OutOfFuel
  | S n' =>
      t ← cur_tok;
      match t with
      | Some TShl =>
          advance;;
          rhs ← parse_offset_add;
          shift_amount rhs;;
          let shifted := as_i64 (Z.shiftl lhs rhs) in
          if negb (Z.shiftr shifted rhs =? lhs) then err "offset expression overflow"
          else shift_loop n' shifted
      | Some TShr =>
          advance;;
          rhs ← parse_offset_add;
          shift_amount rhs;;
          shift_loop n' (Z.shiftr lhs rhs)
      | _ => mret lhs
      end
  end.

Definition parse_offset_shift : P Z := lhs ← parse_offset_add; n ← turns; shift_loop n lhs.

Definition parse_offset_and : P Z :=
  lhs ← parse_offset_shift; n ← turns; fold_op n TAmp Z.land parse_offset_shift lhs.

Definition parse_offset_xor : P Z :=
  lhs ← parse_offset_and; n ← turns; fold_op n TCaret Z.lxor parse_offset_and lhs.

Definition parse_offset_or : P Z :=
  lhs ← parse_offset_xor; n ← turns; fold_op n TPipe Z.lor parse_offset_xor lhs.
End offset.

(** [n] bounds the nesting of calls, which [nested_offset] limits. *)
Fixpoint parse_offset_atom (n : nat) : P Z :=
  match n with
  | O => λ _, OutOfFuel
  | S n' =>
      t ← cur_tok;
      match t with
      | Some TLParen =>
          advance;;
          val ← nested_offset OFFSET_PAREN_COST (parse_offset_or (parse_offset_atom n'));
          expect_tok TRParen;;
          mret val
      | Some TMinus =>
          advance;;
          val ← nested_offset 1 (parse_offset_atom n');
          checked_i64 (- val)
      | _ => parse_u32
      end
  end.

Definition offset_fuel : nat := 129.

Definition parse_offset_expr : P Z :=
  v ← parse_offset_or (parse_offset_atom offset_fuel);
  if (- 2 ^ 31 <=? v) && (v <? 2 ^ 31) then mret v
  else err ("offset expression out of range: " +:+ show_int v).

(** * Byte access *)

Definition parse_cmpop : P CmpOp :=
  d ← cur_tok;
  t ← advance;
  match t with
  | Some TEq => mret Eq_
  | Some TNe => mret Ne
  | Some TLt => mret Lt_
  | Some TLe => mret Le
  | Some TGt => mret Gt_
  | Some TGe => mret Ge
  | Some TAmp => mret BitAnd
  | _ =>
      err ("expected comparison operator (=, !=, <, <=, >, >=, &), got " +:+ debug_tok d)
  end.

(** The offset of a byte access, which is not negative. *)
Definition parse_offset : P Z :=
  offset ← parse_offset_expr;
  if offset <? 0 then
    err ("byte-access offset must be non-negative, got " +:+ show_int offset)
  else mret offset.

(** [: size], or one byte *)
Definition parse_size : P AccessSize :=
  b ← eat TColon;
  if b : bool then
    t ← cur_tok;
    match t with
    | Some (TNum 1) => advance;; mret Byte
    | Some (TNum 2) => advance;; mret Half
    | Some (TNum 4) => advance;; mret Word
    | tok => err ("invalid byte-access size " +:+ debug_tok tok +:+ " (must be 1, 2, or 4)")
    end
  else mret Byte.

Definition parse_byte_load (layer : Layer) : P ByteLoad :=
  expect_tok TLBracket;;
  offset ← parse_offset;
  size ← parse_size;
  expect_tok TRBracket;;
  mret (mk_byte_load layer offset size).

Definition rhs_layer (t : option Token) : option Layer :=
  match t with
  | Some TTcp | Some TUdp | Some TIcmp | Some TIcmp6 => Some Trans
  | Some TIp | Some TIp6 => Some Net
  | Some TEther => Some Raw
  | _ => None
  end.

Definition parse_cmp_rhs : P CmpRhs :=
  t ← cur_tok;
  next ← peek_tok 1;
  match rhs_layer t with
  | Some layer =>
      if decide (next = Some TLBracket) then
        advance;; l ← parse_byte_load layer; mret (Load_ l)
      else v ← parse_u32; mret (Const v)
  | None => v ← parse_u32; mret (Const v)
  end.

Definition arith_op (t : option Token) : option ArithOp :=
  match t with
  | Some TAmp => Some And_
  | Some TPipe => Some Or_
  | Some TCaret => Some Xor
  | Some TPlus => Some Add
  | Some TMinus => Some Sub
  | Some TStar => Some Mul
  | Some TSlash => Some Div
  | Some TPercent => Some Mod
  | Some TShl => Some Shl
  | Some TShr => Some Shr
  | _ => None
  end.

(** The operators and operands applied to the loaded value. *)
Fixpoint parse_alu_ops (n : nat) : P (list (ArithOp * Z)) :=
  match n with
  | O => λ _, OutOfFuel
  | S n' =>
      t ← cur_tok;
      match arith_op t with
      | Some aop =>
          advance;;
          operand ← parse_u32;
          l ← parse_alu_ops n';
          mret ((aop, operand) :: l)
      | None => mret []
      end
  end.

Definition parse_byte_access (layer : Layer) : P Primitive :=
  expect_tok TLBracket;;
  offset ← parse_offset;
  size ← parse_size;
  expect_tok TRBracket;;
  n ← turns;
  alu_ops ← parse_alu_ops n;
  op ← parse_cmpop;
  rhs ← parse_cmp_rhs;
  mret (PByteAccess (mk_byte_access layer offset size alu_ops op rhs)).

(** * Addresses *)

(** [u32::from(Ipv4Addr::from(octets))] *)
Definition ipv4_of (octets : list Z) : Z := foldl (λ a o, a * 256 + o) 0 octets.

(** [!0u32 << (32 - 8 * u32::from(parts))], which overflows for 0 octets and
    more than 4. *)
Definition mask_of_parts (parts : Z) : P Z :=
  if (0 <? parts) && (parts <=? 4) then mret (as_u32 (Z.shiftl u32_max (32 - 8 * parts)))
  else panic.

Definition parse_ip : P IpAddr :=
  d ← cur_tok;
  t ← advance;
  match t with
  | Some (TIpv4 octs _) => mret (V4 (ipv4_of octs))
  | Some (TIpv6 a) => mret (V6 a)
  | Some (TNum n) =>
      if n <=? u32_max then mret (V4 n) else err ("expected IP address, got " +:+ debug_tok d)
  | _ => err ("expected IP address, got " +:+ debug_tok d)
  end.

Definition parse_mac_tok : P MacAddr :=
  d ← cur_tok;
  t ← advance;
  match t with
  | Some (TMac m) => mret (mk_mac m)
  | _ => err ("expected MAC address (xx:xx:xx:xx:xx:xx), got " +:+ debug_tok d)
  end.

(** The offset of the slash that was just consumed is only needed to report an
    error, but it is read first. *)
Definition parse_prefix_len (family : string) (max : Z) : P Z :=
  p ← get;
  s ← expect (zget (p_tokens p) (p_pos p - 1));
  t ← advance;
  match t with
  | Some (TNum n) =>
      if n <=? max then mret (as_u8 n)
      else
        err (family +:+ " prefix length " +:+ show_dec n +:+ " out of range (0–"
             +:+ show_dec max +:+ ")")
  | _ => err ("expected a prefix length after '/' at offset " +:+ show_dec (sp_offset s))
  end.

(** [Some(&Token::Ipv4(octs, parts @ 2..=3))] *)
Definition short_ipv4 (t : option Token) : option (list Z * Z) :=
  match t with
  | Some (TIpv4 octs parts) => if (2 <=? parts) && (parts <=? 3) then Some (octs, parts) else None
  | _ => None
  end.

Definition parse_host (dir : Dir) : P Primitive :=
  t ← cur_tok;
  match short_ipv4 t with
  | Some (octs, parts) =>
      advance;;
      mask ← mask_of_parts parts;
      mret (PNet (mk_ip_net (ipv4_of octs) mask) dir)
  | None =>
      addr ← parse_ip;
      match addr with
      | V6 _ =>
          b ← eat TSlash;
          if b : bool then
            n ← parse_prefix_len "IPv6" 128;
            if n =? 128 then mret (PHost addr dir) else err "mask syntax for networks only"
          else mret (PHost addr dir)
      | V4 _ => mret (PHost addr dir)
      end
  end.

(** [while addr != 0 && addr & 0xff00_0000 == 0 { addr <<= 8; mask <<= 8 }] *)
Fixpoint widen_net (n : nat) (addr mask : Z) : P (Z * Z) :=
  match n with
  | O => λ _, OutOfFuel
  | S n' =>
      if negb (addr =? 0) && (addr .& 0xff000000 =? 0) then
        widen_net n' (as_u32 (Z.shiftl addr 8)) (as_u32 (Z.shiftl mask 8))
      else mret (addr, mask)
  end.

(** [u128::from(addr)] *)
Definition ipv6_of (segs : list Z) : Z := foldl (λ a s, a * 2 ^ 16 + s) 0 segs.

(** [u128::MAX.checked_shr(n).unwrap_or(0)] *)
Definition host_bits6 (prefix_len : Z) : Z :=
  if prefix_len <? 128 then Z.shiftr (2 ^ 128 - 1) prefix_len else 0.

(** [!m] on [u32] *)
Definition not_u32 (m : Z) : Z := Z.lxor u32_max m.

Definition parse_net6 (addr : list Z) (dir : Dir) : P Primitive :=
  b ← eat TSlash;
  prefix_len ← (if b : bool then parse_prefix_len "IPv6" 128 else mret 128);
  if negb (ipv6_of addr .& host_bits6 prefix_len =? 0) then
    err ("non-network bits set in " +:+ quote +:+ show_ipv6 addr +:+ "/" +:+ show_dec prefix_len
         +:+ quote)
  else mret (PNet6 (mk_ip6_net addr prefix_len) dir).

(** The mask of [net <addr>]: [/len], [mask <netmask>] or by the octets written. *)
Definition parse_net_mask (addr parts : Z) : P Z :=
  slash ← eat TSlash;
  if slash : bool then
    n ← parse_prefix_len "IPv4" 32;
    net ← (λ s, (λ net, (net, s)) <$> from_prefix addr n);
    let mask := net_mask net in
    if negb (addr .& not_u32 mask =? 0) then
      err ("non-network bits set in " +:+ quote +:+ show_ipv4 addr +:+ "/" +:+ show_dec n +:+ quote)
    else mret mask
  else
    b ← eat TMask;
    if b : bool then
      t ← advance;
      match t with
      | Some (TIpv4 octs _) =>
          let m := ipv4_of octs in
          if negb (addr .& not_u32 m =? 0) then
            err ("non-network bits set in " +:+ quote +:+ show_ipv4 addr +:+ " mask "
                 +:+ show_ipv4 m +:+ quote)
          else mret m
      | _ => err "expected IPv4 netmask after 'mask'"
      end
    else mask_of_parts parts.

Definition parse_net (dir : Dir) : P Primitive :=
  d ← cur_tok;
  t ← advance;
  match t with
  | Some (TIpv4 octs parts) =>
      let addr := ipv4_of octs in
      b ← eat TMinus;
      if b : bool then err "net range syntax not supported; use CIDR or mask notation"
      else
        mask ← parse_net_mask addr parts;
        mret (PNet (mk_ip_net addr mask) dir)
  | Some (TNum n) =>
      if u32_max <? n then err ("expected IPv4 network after 'net', got " +:+ debug_tok d)
      else
        '(addr, mask) ← widen_net 5 n u32_max;
        mret (PNet (mk_ip_net addr mask) dir)
  | Some (TIpv6 addr) => parse_net6 addr dir
  | _ => err ("expected IPv4 or IPv6 network after 'net', got " +:+ debug_tok d)
  end.

Definition parse_port (dir : Dir) (proto : option Proto) : P Primitive :=
  port ← parse_u16; mret (PPort port dir proto).

Definition parse_portrange (dir : Dir) (proto : option Proto) : P Primitive :=
  lo ← parse_u16;
  expect_tok TMinus;;
  hi ← parse_u16;
  mret (PPortRange lo hi dir proto).

(** * Primitives *)

(** [if self.eat(&tok) { return a } b] *)
Definition if_eat {A} (tok : Token) (a b : P A) : P A :=
  e ← eat tok; if e : bool then a else b.

Definition if_at {A} (tok : Token) (a b : P A) : P A :=
  e ← at_tok tok; if e : bool then a else b.

(** [port] or [portrange] behind a transport protocol. *)
Definition port_or (dir : Dir) (pr : Proto) (other : P Primitive) : P Primitive :=
  if_eat TPort (parse_port dir (Some pr))
    (if_eat TPortRange (parse_portrange dir (Some pr)) other).

Definition parse_dir : P Dir :=
  t ← cur_tok;
  match t with
  | Some TSrc =>
      advance;;
      a ← eat TAnd;
      d ← at_tok TDst;
      if a && d : bool then advance;; mret SrcAndDst
      else
        o ← eat TOr;
        d ← at_tok TDst;
        if o && d : bool then advance;; mret SrcOrDst else mret Src
  | Some TDst => advance;; mret Dst
  | _ => mret SrcOrDst
  end.

Definition parse_after_dir (dir : Dir) : P Primitive :=
  let need_port (name : string) (pr : Proto) : P Primitive :=
    advance;;
    port_or dir pr
      (t ← cur_tok;
       err ("expected 'port' or 'portrange' after '" +:+ name +:+ "', got " +:+ debug_tok t)) in
  t ← cur_tok;
  match t with
  | Some THost => advance;; parse_host dir
  | Some TNet => advance;; parse_net dir
  | Some TPort => advance;; parse_port dir None
  | Some TPortRange => advance;; parse_portrange dir None
  | Some TTcp => need_port "tcp" Tcp
  | Some TUdp => need_port "udp" Udp
  | Some TSctp => need_port "sctp" Sctp
  | Some (TIpv4 _ _) | Some (TIpv6 _) | Some (TNum _) => parse_host dir
  | tok =>
      err ("expected 'host', 'net', 'port', 'portrange', or an IP address after direction qualifier, got "
           +:+ debug_tok tok)
  end.

Definition broadcast_mac : MacAddr := mk_mac (replicate 6 0xff).

Definition parse_ether_prim : P Primitive :=
  advance;;
  if_at TLBracket (parse_byte_access Raw)
    (dir ← parse_dir;
     t ← cur_tok;
     match t with
     | Some THost => advance;; mac ← parse_mac_tok; mret (PEtherHost mac dir)
     | Some (TMac _) => mac ← parse_mac_tok; mret (PEtherHost mac dir)
     | Some TBroadcast => advance;; mret (PEtherHost broadcast_mac Dst)
     | Some TMulticast => advance;; mret PEtherMulticast
     | Some TProto =>
         advance;;
         t ← cur_tok;
         ethertype ←
           (match t with
            | Some TIp => advance;; mret 0x0800
            | Some TIp6 => advance;; mret 0x86dd
            | Some TArp => advance;; mret 0x0806
            | Some TRarp => advance;; mret 0x8035
            | _ => n ← parse_u32; mret (as_u16 n)
            end);
         mret (PEtherProto ethertype)
     | Some TIp => advance;; mret (PEtherProto 0x0800)
     | Some TIp6 => advance;; mret (PEtherProto 0x86dd)
     | Some TArp => advance;; mret (PEtherProto 0x0806)
     | Some TRarp => advance;; mret (PEtherProto 0x8035)
     | tok =>
         err ("expected 'host', 'broadcast', 'multicast', 'proto', 'ip', 'ip6', 'arp', 'rarp', or a MAC address after 'ether', got "
              +:+ debug_tok tok)
     end).

(** The number behind a keyword, if there is one. *)
Definition optional_num (cast : Z → P Z) : P (option Z) :=
  t ← cur_tok;
  match t with
  | Some (TNum n) => v ← cast n; advance;; mret (Some v)
  | _ => mret None
  end.

Definition parse_primitive : P Primitive :=
  let proto (p : Proto) : P Primitive := mret (PProto p) in
  t ← cur_tok;
  match t with
  | Some TLess => advance;; v ← parse_u32; mret (PLen Le v)
  | Some TGreater => advance;; v ← parse_u32; mret (PLen Ge v)
  | Some TLen => advance;; op ← parse_cmpop; v ← parse_u32; mret (PLen op v)
  | Some TBroadcast => advance;; mret (PEtherHost broadcast_mac Dst)
  | Some TMulticast => advance;; mret PEtherMulticast
  | Some TIp =>
      advance;;
      if_at TLBracket (parse_byte_access Net)
        (if_eat TProto (n ← parse_proto_num; proto (Num n))
           (if_eat TProtochain (n ← parse_proto_num; mret (PIpProtoChain n))
              (if_eat TBroadcast (mret PIpBroadcast)
                 (if_eat TMulticast (mret PIpMulticast) (proto Ip)))))
  | Some TIp6 =>
      advance;;
      if_at TLBracket (parse_byte_access Net)
        (if_eat TProto (n ← parse_proto_num; proto (Ip6Proto n))
           (if_eat TProtochain (n ← parse_proto_num; mret (PIp6ProtoChain n))
              (if_eat TMulticast (mret PIp6Multicast) (proto Ip6))))
  | Some TArp => advance;; proto Arp
  | Some TRarp => advance;; proto Rarp
  | Some TIcmp => advance;; if_at TLBracket (parse_byte_access Trans) (proto Icmp)
  | Some TIcmp6 => advance;; if_at TLBracket (parse_byte_access Trans) (proto Icmp6)
  | Some TIgmp => advance;; proto Igmp
  | Some TSctp => advance;; port_or SrcOrDst Sctp (proto Sctp)
  | Some TTcp =>
      advance;; if_at TLBracket (parse_byte_access Trans) (port_or SrcOrDst Tcp (proto Tcp))
  | Some TUdp =>
      advance;; if_at TLBracket (parse_byte_access Trans) (port_or SrcOrDst Udp (proto Udp))
  | Some TProto => advance;; n ← parse_u32; proto (Num (as_u8 n))
  | Some TAh => advance;; proto (Num 51)
  | Some TEsp => advance;; proto (Num 50)
  | Some TPim => advance;; proto (Num 103)
  | Some TIgrp => advance;; proto (Num 9)
  | Some TVrrp => advance;; proto (Num 112)
  | Some TVlan => advance;; id ← optional_num (λ n, mret (as_u16 n)); mret (PVlan id)
  | Some TMpls => advance;; label ← optional_num (λ n, mret (as_u32 n)); mret (PMpls label)
  | Some TPppoed => advance;; mret PPppoeDiscovery
  | Some TPppoes =>
      advance;;
      session_id ← optional_num (λ n,
        if 0xffff <? n then
          err ("pppoes session ID " +:+ show_dec n +:+ " out of range (max 65535)")
        else mret (as_u16 n));
      mret (PPppoeSession session_id)
  | Some TInbound => advance;; mret PInbound
  | Some TOutbound => advance;; mret POutbound
  | Some TGateway =>
      advance;; advance;; err "'gateway' requires DNS resolution and is not supported"
  | Some TEther => parse_ether_prim
  | Some TSrc | Some TDst => dir ← parse_dir; parse_after_dir dir
  | Some THost => advance;; parse_host SrcOrDst
  | Some TNet => advance;; parse_net SrcOrDst
  | Some TPort => advance;; parse_port SrcOrDst None
  | Some TPortRange => advance;; parse_portrange SrcOrDst None
  | Some (TIpv4 _ parts) =>
      if parts <? 4 then
        err "a short IPv4 address needs 'host' or 'net' before it (e.g. host 10.1)"
      else parse_host SrcOrDst
  | Some (TIpv6 _) => parse_host SrcOrDst
  | Some TLBracket => parse_byte_access Raw
  | tok => err ("unexpected token " +:+ debug_tok tok +:+ " — expected a filter primitive")
  end.

(** * Expressions *)

Definition MAX_PAREN_DEPTH : Z := 9995.

(** [looks_like_primitive_start], of the current token *)
Definition starts_primitive (t : option Token) : bool :=
  match t with
  | Some
      (TNot | TBang | TLParen | TSrc | TDst | THost | TNet | TPort | TPortRange | TEther
      | TBroadcast | TMulticast | TIp | TIp6 | TArp | TRarp | TTcp | TUdp | TIcmp | TIcmp6
      | TIgmp | TSctp | TProto | TAh | TEsp | TPim | TIgrp | TVrrp | TVlan | TMpls | TPppoed
      | TPppoes | TInbound | TOutbound | TLen | TLess | TGreater | TGateway | TIpv4 _ _
      | TIpv6 _ | TNum _ | TLBracket) => true
  | _ => false
  end.

Definition parse_logical_op : P (option bool) :=
  if_eat TOr (mret (Some true))
    (if_eat TAnd (mret (Some false))
       (t ← cur_tok; mret (if starts_primitive t then Some false else None))).

(** An enclosing level suspended at its parenthesis. *)
Record Open := mk_open {
  o_left : option (Expr * bool);
  o_nots : nat;
}.

Fixpoint count_nots (n : nat) : P nat :=
  match n with
  | O => λ _, OutOfFuel
  | S n' =>
      if_eat TNot (k ← count_nots n'; mret (S k))
        (if_eat TBang (k ← count_nots n'; mret (S k)) (mret O))
  end.

Definition apply_nots (nots : nat) (e : Expr) : Expr := Nat.iter nots Not e.

Definition join (left : option (Expr * bool)) (operand : Expr) : Expr :=
  match left with
  | None => operand
  | Some (l, true) => Or l operand
  | Some (l, false) => And l operand
  end.

(** Fold an operand into its level, and complete levels into the enclosing
    ones: either the whole expression, or the levels left open with the next
    operand to come. *)
Fixpoint fold_operand (open : list Open) (left : option (Expr * bool)) (operand : Expr)
    (nots : nat) : P (Expr + list Open * option (Expr * bool)) :=
  let expr := join left (apply_nots nots operand) in
  op ← parse_logical_op;
  match op with
  | Some is_or => mret (inr (open, Some (expr, is_or)))
  | None =>
      match open with
      | [] => mret (inl expr)
      | outer :: open' =>
          expect_tok TRParen;;
          fold_operand open' (o_left outer) expr (o_nots outer)
      end
  end.

Fixpoint parse_loop (n : nat) (open : list Open) (left : option (Expr * bool)) : P Expr :=
  match n with
  | O => λ _, OutOfFuel
  | S n' =>
      k ← turns;
      nots ← count_nots k;
      paren ← eat TLParen;
      if paren : bool then
        if zlen open =? MAX_PAREN_DEPTH then
          err ("expression nested too deeply (max " +:+ show_dec MAX_PAREN_DEPTH +:+ " parentheses)")
        else parse_loop n' (mk_open left nots :: open) None
      else
        prim ← parse_primitive;
        r ← fold_operand open left (Prim prim) nots;
        match r with
        | inl e => mret e
        | inr (open', left') => parse_loop n' open' left'
        end
  end.

Definition parse_expr : P Expr := n ← turns; parse_loop n [] None.

Definition parse (tokens : list Spanned) : outcome Expr :=
  '(e, p) ← parse_expr (mk_parser tokens 0 0);
  if p_pos p <? zlen (p_tokens p) then
    Err (ParseError ("unexpected token " +:+ debug_tok (token <$> zget (p_tokens p) (p_pos p))
                     +:+ " — trailing input"))
  else Ok e.
