(* ===== verification/ParserSound.v ===== *)
(** What the parser guarantees of every token sequence the tokenizer can give:
    it returns, and a tree it returns is well formed. *)

From S2P Require Export LexerSound Parser.

(** * Specifications of parsing functions *)

Definition good (s : Parser) : Prop :=
  Forall (λ t, wf_token (token t)) (p_tokens s) ∧
  0 ≤ p_pos s ≤ zlen (p_tokens s) ∧ 0 ≤ p_depth s ≤ MAX_OFFSET_DEPTH.

(** [s'] comes after [s], [k] tokens later at least. *)
Definition after (k : Z) (s s' : Parser) : Prop :=
  p_tokens s' = p_tokens s ∧ p_depth s' = p_depth s ∧
  p_pos s + k ≤ p_pos s' ≤ zlen (p_tokens s).

Definition cur (s : Parser) : option Token := token <$> zget (p_tokens s) (p_pos s).

(** In every state that satisfies [pre], [m] returns, consumes [k] tokens at
    least when it succeeds, and its value satisfies [Q]. *)
Definition parses {A} (pre : Parser → Prop) (k : A → Z) (m : P A) (Q : A → Prop) : Prop :=
  ∀ s, good s → pre s → wp m s (λ a s', after (k a) s s' ∧ Q a).

(** Preconditions that hold on from one state to the next. *)
Definition any (s : Parser) : Prop := True.
Definition at_depth (d : Z) (s : Parser) : Prop := p_depth s = d.

Class Stable (pre : Parser → Prop) : Prop :=
  stable k s s' : pre s → 0 ≤ k → after k s s' → pre s'.

#[export] Instance any_stable : Stable any.
Proof. done. Qed.

#[export] Instance at_depth_stable d : Stable (at_depth d).
Proof. unfold at_depth. intros k s s' <- _ (_ & ? & _). done. Qed.

Lemma good_after k s s' : 0 ≤ k → good s → after k s s' → good s'.
Proof. intros Hk (Hf & Hp & Hd) (Ht & Hd' & Hp'). unfold good. rewrite Ht, Hd'. split_and!; lia || done. Qed.

Lemma after_trans j k s s' s'' : after j s s' → after k s' s'' → after (j + k) s s''.
Proof.
  intros (T1 & D1 & P1) (T2 & D2 & P2). unfold after. rewrite T2, D2, T1, D1 in *.
  split_and!; [done..|lia|lia].
Qed.

Lemma after_step j k s s' s'' : after j s s' → after (k - j) s' s'' → after k s s''.
Proof. intros H1 H2. pose proof (after_trans _ _ _ _ _ H1 H2) as H. by rewrite Zplus_minus in H. Qed.

Lemma after_weaken j k s s' : j ≤ k → after k s s' → after j s s'.
Proof. intros Hj (? & ? & ?). split_and!; [done..|lia|lia]. Qed.

Lemma cur_wf s t : good s → cur s = Some t → wf_token t.
Proof.
  intros (Hf & _ & _). unfold cur. destruct (zget _ _) as [sp|] eqn:E; [|done].
  intros [= <-]. rewrite zget_spec in E. case_decide; [|done].
  apply list_elem_of_lookup_2 in E. rewrite Forall_forall in Hf. by apply Hf.
Qed.

Section rules.
Context (pre : Parser → Prop) `{!Stable pre}.

Lemma parses_ret {A} k (a : A) (Q : A → Prop) : k a ≤ 0 → Q a → parses pre k (mret a) Q.
Proof.
  intros Hk HQ s (_ & ? & _) _. apply wp_ret. split; [|done]. by split_and!; [..|lia|lia].
Qed.

Lemma parses_bind {A B} j k (m : P A) (f : A → P B) Q R :
  (∀ a, Q a → 0 ≤ j a) → parses pre j m Q → (∀ a, Q a → parses pre (λ b, k b - j a) (f a) R) →
  parses pre k (m ≫= f) R.
Proof.
  intros Hj Hm Hf s Hs Hp. apply wp_bind. eapply wp_mono; [by apply Hm|].
  intros a s' [Ha HQ]. eapply wp_mono.
  { apply (Hf a HQ); [eapply good_after; eauto|by eapply (stable (j a)); auto]. }
  intros b s'' [Hb HR]. split; [|done]. by apply (after_step _ _ _ _ _ Ha).
Qed.

Lemma parses_weaken {A} j k (m : P A) (Q R : A → Prop) :
  parses pre k m Q → (∀ a, Q a → j a ≤ k a) → (∀ a, Q a → R a) → parses pre j m R.
Proof.
  intros Hm Hj HQ s Hs Hp. eapply wp_mono; [by apply Hm|].
  intros a s' [Ha Hq]. split; [eapply after_weaken; eauto|auto].
Qed.

Lemma parses_err {A} k msg (Q : A → Prop) : parses pre k (err msg) Q.
Proof. intros s _ _. apply wp_fail. Qed.

(** A match on the current token. *)
Lemma parses_cur {B} k (f : option Token → P B) R :
  (∀ t, from_option wf_token True t → parses (λ s, pre s ∧ cur s = t) k (f t) R) →
  parses pre k (cur_tok ≫= f) R.
Proof.
  intros Hf s Hs Hp. apply wp_bind, wp_gets. change (token <$> _) with (cur s).
  apply Hf; [|done|done]. destruct (cur s) eqn:E; [|done]. by eapply cur_wf.
Qed.

(** Forget what the current token is. *)
Lemma parses_at {A} k (m : P A) t Q :
  parses pre k m Q → parses (λ s, pre s ∧ cur s = t) k m Q.
Proof. intros Hm s Hs [Hp _]. by apply Hm. Qed.

Lemma wp_advance_some t s (Q : option Token → Parser → Prop) :
  good s → cur s = Some t →
  Q (Some t) (set_pos (p_pos s + 1) s) → wp advance s Q.
Proof.
  intros Hs Hc HQ. unfold advance. apply wp_bind, wp_gets.
  change (token <$> _) with (cur s). rewrite Hc. apply wp_bind, wp_modify, wp_ret. done.
Qed.

Lemma cur_Some_lt s t : cur s = Some t → p_pos s < zlen (p_tokens s).
Proof.
  unfold cur. destruct (zget _ _) eqn:E; [|done]. intros _. apply zget_Some_lt in E. lia.
Qed.

Lemma after_advance s t : good s → cur s = Some t → after 1 s (set_pos (p_pos s + 1) s).
Proof. intros Hs Hc%cur_Some_lt. by split_and!; simpl; [..|lia|lia]. Qed.

(** [advance] consumes a token when there is one. *)
Lemma parses_advance {B} k t (f : option Token → P B) R :
  parses pre (λ b, k b - 1) (f (Some t)) R →
  parses (λ s, pre s ∧ cur s = Some t) k (advance ≫= f) R.
Proof.
  intros Hf s Hs [Hp Hc]. apply wp_bind, (wp_advance_some t); [done..|].
  pose proof (after_advance s t Hs Hc) as Ha.
  eapply wp_mono; [apply Hf; [by eapply (good_after 1)|by eapply (stable 1)]|].
  intros b s' [Hb HR]. split; [|done]. by apply (after_step _ _ _ _ _ Ha).
Qed.

Lemma parses_advance_any {B} k (f : option Token → P B) R :
  (∀ t, wf_token t → parses pre (λ b, k b - 1) (f (Some t)) R) → parses pre k (f None) R →
  parses pre k (advance ≫= f) R.
Proof.
  intros Hf Hn s Hs Hp. destruct (cur s) as [t|] eqn:Hc.
  - apply parses_advance with t; [|done|done]. apply Hf. by eapply cur_wf.
  - apply wp_bind. unfold advance. apply wp_bind, wp_gets. change (token <$> _) with (cur s).
    rewrite Hc. apply wp_ret. by apply Hn.
Qed.

Lemma parses_eat {B} k t (f : bool → P B) R :
  parses pre (λ b, k b - 1) (f true) R → parses pre k (f false) R →
  parses pre k (eat t ≫= f) R.
Proof.
  intros Ht Hf s Hs Hp. apply wp_bind. unfold eat. apply wp_bind, wp_gets.
  change (token <$> _) with (cur s). case_decide as Hc.
  - apply wp_bind, wp_modify, wp_ret. pose proof (after_advance s t Hs Hc) as Ha.
    eapply wp_mono; [apply Ht; [by eapply (good_after 1)|by eapply (stable 1)]|].
    intros b s' [Hb HR]. split; [|done]. by apply (after_step _ _ _ _ _ Ha).
  - apply wp_ret. by apply Hf.
Qed.

Lemma parses_at_tok {B} k t (f : bool → P B) R :
  parses (λ s, pre s ∧ cur s = Some t) k (f true) R → parses pre k (f false) R →
  parses pre k (at_tok t ≫= f) R.
Proof.
  intros Ht Hf s Hs Hp. apply wp_bind. unfold at_tok. apply wp_bind, wp_gets.
  change (token <$> _) with (cur s). apply wp_ret. case_bool_decide; [by apply Ht|by apply Hf].
Qed.

Lemma parses_if_eat {A} k t (a b : P A) R :
  parses pre (λ b, k b - 1) a R → parses pre k b R → parses pre k (if_eat t a b) R.
Proof. intros Ha Hb. by apply parses_eat. Qed.

Lemma parses_if_at {A} k t (a b : P A) R :
  parses (λ s, pre s ∧ cur s = Some t) k a R → parses pre k b R → parses pre k (if_at t a b) R.
Proof. intros Ha Hb. by apply parses_at_tok. Qed.

Lemma parses_peek {B} i k (f : option Token → P B) R :
  (∀ t, parses pre k (f t) R) → parses pre k (peek_tok i ≫= f) R.
Proof. intros Hf s Hs Hp. by apply wp_bind, wp_gets, Hf. Qed.

Lemma parses_expect t : parses pre (λ _, 1) (expect_tok t) (λ _, True).
Proof.
  apply parses_eat; [apply parses_ret; [lia|done]|].
  apply parses_cur. intros t' _. apply parses_at, parses_err.
Qed.
End rules.

Lemma bind_assoc {A B C} (m : P A) (f : A → P B) (g : B → P C) s :
  ((m ≫= f) ≫= g) s = (m ≫= λ x, f x ≫= g) s.
Proof. unfold mbind, M_bind. by destruct (m s) as [[]| | |]. Qed.

Lemma parses_assoc {A B C} pre k (m : P A) (f : A → P B) (g : B → P C) Q :
  parses pre k (m ≫= λ x, f x ≫= g) Q → parses pre k ((m ≫= f) ≫= g) Q.
Proof. intros H s Hs Hp. unfold wp. rewrite bind_assoc. by apply H. Qed.

Lemma parses_assoc_l {A B C} pre k (m : P A) (f : A → P B) (g : B → P C) Q :
  parses pre k ((m ≫= f) ≫= g) Q → parses pre k (m ≫= λ x, f x ≫= g) Q.
Proof. intros H s Hs Hp. unfold wp. rewrite <- bind_assoc. by apply H. Qed.

Lemma parses_ret_bind {A B} pre k (a : A) (f : A → P B) Q :
  parses pre k (f a) Q → parses pre k (mret a ≫= f) Q.
Proof. done. Qed.

Create HintDb parses discriminated.

(** The tokens counted so far. *)
Ltac pcount := intros; cbn -[Z.add Z.sub zlen] in *; rewrite ?zlen_cons; unfold zlen in *; lia.

(** Take a parsing function apart; what it calls is in the hint database. *)
Ltac pcall_step :=
  match goal with
  | |- parses (λ s, _ ∧ _) _ (advance ≫= _) _ => apply parses_advance; [apply _|]
  | |- parses _ _ match ?t with _ => _ end _ => destruct t eqn:?
  | |- parses (λ s, _ ∧ _) _ _ _ => apply parses_at
  | |- parses _ _ (mret _) _ => apply parses_ret; [pcount|]
  | |- parses _ _ (err _) _ => apply parses_err
  | |- parses _ _ (fail _) _ => apply parses_err
  | |- parses _ _ (cur_tok ≫= _) _ => apply parses_cur; intros ??
  | |- parses _ _ (peek_tok _ ≫= _) _ => apply parses_peek; intros ?
  | |- parses _ _ (advance ≫= _) _ => apply parses_advance_any; [apply _|intros ??|]
  | |- parses _ _ (eat _ ≫= _) _ => apply parses_eat; [apply _|..]
  | |- parses _ _ (at_tok _ ≫= _) _ => apply parses_at_tok
  | |- parses _ _ (if_eat _ _ _) _ => apply parses_if_eat; [apply _|..]
  | |- parses _ _ (if_at _ _ _) _ => apply parses_if_at
  | |- parses _ _ (port_or _ _ _) _ => unfold port_or
  | |- parses _ _ (match ?t with Some _ => _ | None => _ end ≫= _) _ => destruct t as [[]|] eqn:?
  | |- parses _ _ ((_ ≫= _) ≫= _) _ => apply parses_assoc
  | |- parses _ _ (mret _ ≫= _) _ => apply parses_ret_bind
  | |- parses _ _ (_ ≫= _) _ =>
      eapply parses_bind; [apply _| |solve [eauto with parses typeclass_instances]|];
      [pcount|intros ??]
  | |- parses _ _ _ _ => eapply parses_weaken; [solve [eauto with parses typeclass_instances]|pcount|]
  end.
Ltac pcall := pcall_step; cbv beta in *.

#[export] Hint Resolve parses_expect : parses.

(** The ranges of the values of a whole function. *)
Ltac psteps := repeat pcall; simpl in *; try (done || ulia).

Section numbers.
Context (pre : Parser → Prop) `{!Stable pre}.

Lemma parses_u32 : parses pre (λ _, 1) parse_u32 is_u32.
Proof. unfold parse_u32. psteps. Qed.
#[local] Hint Resolve parses_u32 : parses.

Lemma parses_u16 : parses pre (λ _, 1) parse_u16 is_u16.
Proof. unfold parse_u16. psteps; zbool; ulia. Qed.

Lemma parses_proto_num : parses pre (λ _, 1) parse_proto_num is_u8.
Proof. unfold parse_proto_num. psteps; zbool; ulia. Qed.
End numbers.
#[export] Hint Resolve parses_u32 parses_u16 parses_proto_num : parses.

(** * Loops

    A loop with more turns left than tokens. *)

Definition enough (n : nat) (s : Parser) : Prop := zlen (p_tokens s) - p_pos s < Z.of_nat n.

Lemma enough_turns s : good s → enough (S (length (p_tokens s))) s.
Proof. unfold enough, good, zlen. lia. Qed.

Lemma enough_after n k s s' : enough (S n) s → 1 ≤ k → after k s s' → enough n s'.
Proof. unfold enough. intros Hn Hk (-> & _ & ?). lia. Qed.

(** The turns of a loop, given its specification for any number of them. *)
Lemma parses_turns {B} (pre : Parser → Prop) k (f : nat → P B) R :
  (∀ n, parses (λ s, pre s ∧ enough n s) k (f n) R) → parses pre k (turns ≫= f) R.
Proof.
  intros Hf s Hs Hp. apply wp_bind, wp_gets. apply Hf; [done|]. split; [done|].
  by apply enough_turns.
Qed.

(** The tail of a turn that has consumed a token. *)
Lemma parses_next {B} (pre : Parser → Prop) k n t (m : P B) R :
  Stable pre → parses (λ s, pre s ∧ enough n s) (λ b, k b - 1) m R →
  parses (λ s, (pre s ∧ enough (S n) s) ∧ cur s = Some t) k (advance;; m) R.
Proof.
  intros Hst Hm s Hs [[Hp Hn] Hc]. apply wp_bind, (wp_advance_some t); [done..|].
  pose proof (after_advance s t Hs Hc) as Ha.
  eapply wp_mono; [apply Hm|].
  - by eapply (good_after 1).
  - split; [by eapply (stable 1)|by eapply (enough_after n 1)].
  - intros b s' [Hb HR]. split; [|done]. by apply (after_step _ _ _ _ _ Ha).
Qed.

#[export] Instance enough_stable n : Stable (enough n).
Proof. unfold enough. intros k s s' Hn Hk (-> & _ & ?). lia. Qed.

#[export] Instance and_stable pre1 pre2 :
  Stable pre1 → Stable pre2 → Stable (λ s, pre1 s ∧ pre2 s).
Proof. intros H1 H2 k s s' [? ?] Hk Ha. split; [by eapply (H1 k)|by eapply (H2 k)]. Qed.

Lemma enough_0 {B} pre k (m : P B) R : parses (λ s, pre s ∧ enough 0 s) k m R.
Proof. intros s (_ & ? & _) [_ Hn]. unfold enough in Hn. lia. Qed.

(** Use a specification whose precondition is weaker. *)
Lemma parses_pre {A} (pre pre' : Parser → Prop) k (m : P A) Q :
  (∀ s, good s → pre s → pre' s) → parses pre' k m Q → parses pre k m Q.
Proof. intros Hp Hm s Hs H. apply Hm; auto. Qed.

(** * Offset expressions *)

Lemma i64_sign x : is_i64 x ↔ Z.shiftr x 63 = 0 ∨ Z.shiftr x 63 = -1.
Proof.
  unfold is_i64, i64_min, i64_max. rewrite Z.shiftr_div_pow2 by lia.
  change (2 ^ 63) with 9223372036854775808. Z.div_mod_to_equations. lia.
Qed.

Lemma bitop_i64 f x y :
  (∀ a b n, Z.shiftr (f a b) n = f (Z.shiftr a n) (Z.shiftr b n)) →
  (∀ a b, a = 0 ∨ a = -1 → b = 0 ∨ b = -1 → f a b = 0 ∨ f a b = -1) →
  is_i64 x → is_i64 y → is_i64 (f x y).
Proof. rewrite !i64_sign. intros Hf H01 Hx Hy. rewrite Hf. auto. Qed.

Lemma lor_i64 x y : is_i64 x → is_i64 y → is_i64 (Z.lor x y).
Proof. apply bitop_i64; [intros; apply Z.shiftr_lor|]. intros a b [->| ->] [->| ->]; by vm_compute; auto. Qed.

Lemma land_i64 x y : is_i64 x → is_i64 y → is_i64 (Z.land x y).
Proof. apply bitop_i64; [intros; apply Z.shiftr_land|]. intros a b [->| ->] [->| ->]; by vm_compute; auto. Qed.

Lemma lxor_i64 x y : is_i64 x → is_i64 y → is_i64 (Z.lxor x y).
Proof. apply bitop_i64; [intros; apply Z.shiftr_lxor|]. intros a b [->| ->] [->| ->]; by vm_compute; auto. Qed.

Lemma as_i64_range x : is_i64 (as_i64 x).
Proof. unfold is_i64, i64_min, i64_max, as_i64. pose proof (Z.mod_pos_bound (x + 2 ^ 63) (2 ^ 64)). lia. Qed.

Lemma shiftr_i64 x n : 0 ≤ n → is_i64 x → is_i64 (Z.shiftr x n).
Proof.
  rewrite !i64_sign. intros Hn [E|E]; rewrite Z.shiftr_shiftr, Z.add_comm, <- Z.shiftr_shiftr, E by lia.
  - left. apply Z.shiftr_0_l.
  - right. change (-1) with (Z.lnot 0). by rewrite <- Z.lnot_shiftr, Z.shiftr_0_l.
Qed.

Lemma u32_i64 x : is_u32 x → is_i64 x.
Proof. unfold is_u32, is_i64, i64_min, i64_max. lia. Qed.

Lemma parses_and {A} (pre pre' : Parser → Prop) k (m : P A) Q :
  parses pre k m Q → parses (λ s, pre s ∧ pre' s) k m Q.
Proof. apply parses_pre. tauto. Qed.

Lemma parses_checked pre x : parses pre (λ _, 0) (checked_i64 x) is_i64.
Proof. unfold checked_i64. psteps. zbool. done. Qed.

Lemma parses_shift_amount pre x : parses pre (λ _, 0) (shift_amount x) (λ _, 0 ≤ x < 64).
Proof. unfold shift_amount. psteps. Qed.

#[export] Hint Resolve parses_and parses_checked parses_shift_amount : parses.

(** A turn of a loop: the token decides. *)
Ltac pturn := apply parses_cur; intros [[]|] ?; try (apply parses_ret; [lia|done]); (apply parses_next; [apply _|]).

Section offsets.
Context (pre : Parser → Prop) `{!Stable pre} (atom : P Z).
Hypothesis Hatom : parses pre (λ _, 1) atom is_i64.
#[local] Hint Resolve Hatom : parses.

Lemma parses_mul_loop n lhs :
  is_i64 lhs → parses (λ s, pre s ∧ enough n s) (λ _, 0) (mul_loop atom n lhs) is_i64.
Proof.
  revert lhs. induction n as [|n IH]; intros lhs Hlhs; [apply enough_0|]. cbn [mul_loop].
  pturn; psteps; eapply parses_weaken; eauto; lia.
Qed.

Lemma parses_mul : parses pre (λ _, 1) (parse_offset_mul atom) is_i64.
Proof.
  unfold parse_offset_mul. pcall. apply parses_turns. intros n. by apply parses_mul_loop.
Qed.
#[local] Hint Resolve parses_mul : parses.

Lemma parses_add_loop n lhs :
  is_i64 lhs → parses (λ s, pre s ∧ enough n s) (λ _, 0) (add_loop atom n lhs) is_i64.
Proof.
  revert lhs. induction n as [|n IH]; intros lhs Hlhs; [apply enough_0|]. cbn [add_loop].
  pturn; psteps; eapply parses_weaken; eauto; lia.
Qed.

Lemma parses_add : parses pre (λ _, 1) (parse_offset_add atom) is_i64.
Proof.
  unfold parse_offset_add. pcall. apply parses_turns. intros n. by apply parses_add_loop.
Qed.
#[local] Hint Resolve parses_add : parses.

Lemma parses_shift_loop n lhs :
  is_i64 lhs → parses (λ s, pre s ∧ enough n s) (λ _, 0) (shift_loop atom n lhs) is_i64.
Proof.
  revert lhs. induction n as [|n IH]; intros lhs Hlhs; [apply enough_0|]. cbn [shift_loop].
  pturn; psteps; eapply parses_weaken; try apply IH; try lia; try done.
  - apply as_i64_range.
  - apply shiftr_i64; [lia|done].
Qed.

Lemma parses_shift : parses pre (λ _, 1) (parse_offset_shift atom) is_i64.
Proof.
  unfold parse_offset_shift. pcall. apply parses_turns. intros n. by apply parses_shift_loop.
Qed.
#[local] Hint Resolve parses_shift : parses.

Lemma parses_fold_op n tok op operand lhs :
  (∀ x y, is_i64 x → is_i64 y → is_i64 (op x y)) → parses pre (λ _, 1) operand is_i64 → is_i64 lhs →
  parses (λ s, pre s ∧ enough n s) (λ _, 0) (fold_op n tok op operand lhs) is_i64.
Proof.
  intros Hop Ho. revert lhs. induction n as [|n IH]; intros lhs Hlhs; [apply enough_0|].
  cbn [fold_op]. apply parses_at_tok; [|psteps]. apply parses_next; [apply _|].
  psteps.
Qed.

(** A level whose operators fold from the left. *)
Lemma parses_fold_level tok op operand :
  (∀ x y, is_i64 x → is_i64 y → is_i64 (op x y)) → parses pre (λ _, 1) operand is_i64 →
  parses pre (λ _, 1) (lhs ← operand; n ← turns; fold_op n tok op operand lhs) is_i64.
Proof.
  intros Hop Ho. pcall. apply parses_turns. intros n. by apply parses_fold_op.
Qed.

Lemma parses_or : parses pre (λ _, 1) (parse_offset_or atom) is_i64.
Proof.
  apply parses_fold_level; [apply lor_i64|]. apply parses_fold_level; [apply lxor_i64|].
  apply parses_fold_level; [apply land_i64|]. apply parses_shift.
Qed.
End offsets.

Lemma parses_nested {A} d cost k (f : P A) Q :
  0 ≤ cost →
  (d + cost ≤ MAX_OFFSET_DEPTH → parses (at_depth (d + cost)) k f Q) →
  parses (at_depth d) k (nested_offset cost f) Q.
Proof.
  intros Hc Hf s Hs Hd. unfold nested_offset. apply wp_bind, wp_modify, wp_bind, wp_gets. simpl.
  unfold at_depth in Hd. destruct (Z.ltb_spec MAX_OFFSET_DEPTH (p_depth s + cost)); [apply wp_fail|].
  rewrite Hd in *. specialize (Hf ltac:(lia) (set_p_depth (d + cost) s)).
  unfold wp in *. destruct Hs as (? & ? & ?).
  destruct (f _) as [[a s']| | |].
  2: done.
  - destruct Hf as [(? & ? & ?) ?]; [by split_and!; simpl; [..|lia|lia|lia|lia]|done|].
    split; [|done]. simpl in *. split_and!; simpl; [done|lia|lia|lia].
  - destruct Hf; [by split_and!; simpl; [..|lia|lia|lia|lia]|done].
  - destruct Hf; [by split_and!; simpl; [..|lia|lia|lia|lia]|done].
Qed.

(** The nesting budget bounds the recursion. *)
Lemma parses_atom n d :
  MAX_OFFSET_DEPTH + 1 - d < Z.of_nat n → 0 ≤ d ≤ MAX_OFFSET_DEPTH →
  parses (at_depth d) (λ _, 1) (parse_offset_atom n) is_i64.
Proof.
  revert d. induction n as [|n IH]; intros d Hn Hd; [lia|]. cbn [parse_offset_atom].
  pcall. destruct t as [[]|]; try (pcall; pcall; by apply u32_i64);
    (apply parses_advance; [apply _|]).
  - eapply parses_bind with (j := λ _, 1) (Q := is_i64); [apply _|lia| |intros v Hv; psteps].
    apply parses_nested; [done|]. unfold OFFSET_PAREN_COST. intros Hd'.
    apply parses_or; [apply _|]. apply IH; lia.
  - eapply parses_bind with (j := λ _, 1) (Q := is_i64); [apply _|lia| |intros v Hv; psteps].
    apply parses_nested; [done|]. intros Hd'. apply IH; lia.
Qed.

Lemma parses_offset_expr pre : parses pre (λ _, 1) parse_offset_expr (λ v, - 2 ^ 31 ≤ v < 2 ^ 31).
Proof.
  intros s Hs _. assert (Hd : 0 ≤ p_depth s ≤ MAX_OFFSET_DEPTH) by apply Hs.
  apply (parses_pre (at_depth (p_depth s)) (at_depth (p_depth s))); [done| |done|done].
  unfold parse_offset_expr. eapply parses_bind with (j := λ _, 1) (Q := is_i64); [apply _|lia| |].
  { apply parses_or; [apply _|]. apply parses_atom; [|done].
    unfold offset_fuel, MAX_OFFSET_DEPTH. lia. }
  intros v _. psteps.
Qed.
#[export] Hint Resolve parses_offset_expr : parses.

(** * Byte accesses *)

(** The operators of a byte access, which take tokens of their own. *)
Definition alu_count (p : Primitive) : Z :=
  match p with PByteAccess ba => zlen (ba_alu_ops ba) | _ => 0 end.

Section byte_access.
Context (pre : Parser → Prop) `{!Stable pre}.

Lemma parses_cmpop : parses pre (λ _, 1) parse_cmpop (λ _, True).
Proof. unfold parse_cmpop. psteps. Qed.

Lemma parses_offset : parses pre (λ _, 1) parse_offset wf_offset.
Proof. unfold parse_offset, wf_offset. psteps; zbool; lia. Qed.

Lemma parses_size : parses pre (λ _, 0) parse_size (λ _, True).
Proof. unfold parse_size. psteps. Qed.
#[local] Hint Resolve parses_cmpop parses_offset parses_size : parses.

Lemma parses_byte_load layer : parses pre (λ _, 1) (parse_byte_load layer) (λ l, wf_offset (bl_offset l)).
Proof. unfold parse_byte_load. psteps. Qed.
#[local] Hint Resolve parses_byte_load : parses.

Lemma parses_cmp_rhs : parses pre (λ _, 0) parse_cmp_rhs
  (λ r, match r with Const v => is_u32 v | Load_ l => wf_offset (bl_offset l) end).
Proof. unfold parse_cmp_rhs. psteps. Qed.
#[local] Hint Resolve parses_cmp_rhs : parses.

Lemma parses_alu_ops n :
  parses (λ s, pre s ∧ enough n s) zlen (parse_alu_ops n) (Forall (λ op, is_u32 op.2)).
Proof.
  induction n as [|n IH]; [apply enough_0|]. cbn [parse_alu_ops].
  apply parses_cur. intros [t|] _; [|by apply parses_ret].
  destruct (arith_op (Some t)) as [aop|]; [|by apply parses_ret].
  apply parses_next; [apply _|]. psteps. by constructor.
Qed.

Lemma parses_alu_list : parses pre zlen (n ← turns; parse_alu_ops n) (Forall (λ op, is_u32 op.2)).
Proof. apply parses_turns, parses_alu_ops. Qed.
#[local] Hint Resolve parses_alu_list : parses.

Lemma parses_byte_access layer : parses pre (λ p, 1 + alu_count p) (parse_byte_access layer) wf_primitive.
Proof.
  unfold parse_byte_access. do 4 pcall. apply parses_assoc_l.
  eapply parses_bind; [done| |apply parses_alu_list|]; [pcount|intros ??]. psteps.
Qed.
End byte_access.
#[export] Hint Resolve parses_cmpop parses_byte_access : parses.

(** * Addresses *)

Lemma ipv4_of_u32 l : zlen l = 4 → Forall is_u8 l → is_u32 (ipv4_of l).
Proof.
  unfold zlen. destruct l as [|a [|b [|c [|d []]]]]; simpl; try lia. intros _.
  rewrite !Forall_cons. unfold ipv4_of. simpl. ulia.
Qed.

Definition wf_ip (a : IpAddr) : Prop :=
  match a with V4 a => is_u32 a | V6 segs => wf_segments segs end.

Lemma wf_host a dir : wf_ip a → wf_primitive (PHost a dir).
Proof. by destruct a. Qed.

Section addresses.
Context (pre : Parser → Prop) `{!Stable pre}.

Lemma parses_mask parts : 1 ≤ parts ≤ 4 → parses pre (λ _, 0) (mask_of_parts parts) is_u32.
Proof.
  intros H. unfold mask_of_parts.
  rewrite (proj2 (Z.ltb_lt _ _)), (proj2 (Z.leb_le _ _)) by lia. psteps.
Qed.

Lemma parses_ip : parses pre (λ _, 1) parse_ip wf_ip.
Proof.
  unfold parse_ip. psteps. apply ipv4_of_u32; naive_solver.
Qed.

Lemma parses_mac : parses pre (λ _, 1) parse_mac_tok (λ a, zlen (mac_octets a) = 6 ∧ Forall is_u8 (mac_octets a)).
Proof. unfold parse_mac_tok. psteps. Qed.
#[local] Hint Resolve parses_mask parses_ip parses_mac : parses.

(** Some token is behind the cursor. *)
Definition started (s : Parser) : Prop := 1 ≤ p_pos s.

#[local] Instance started_stable : Stable started.
Proof. unfold started. intros k s s' Hs Hk (_ & _ & ?). lia. Qed.

Lemma parses_eat_started {B} k t (f : bool → P B) R :
  parses (λ s, pre s ∧ started s) (λ b, k b - 1) (f true) R → parses pre k (f false) R →
  parses pre k (eat t ≫= f) R.
Proof.
  intros Ht Hf s Hs Hp. apply wp_bind. unfold eat. apply wp_bind, wp_gets.
  change (token <$> _) with (cur s). case_decide as Hc; [|by apply wp_ret, Hf].
  apply wp_bind, wp_modify, wp_ret. pose proof (after_advance s t Hs Hc) as Ha.
  eapply wp_mono; [refine (Ht _ _ (conj _ _))|].
  - by eapply (good_after 1).
  - by eapply (stable 1).
  - unfold started. simpl. destruct Hs as (_ & ? & _). lia.
  - intros b s' [Hb HR]. split; [|done]. by apply (after_step _ _ _ _ _ Ha).
Qed.

Lemma parses_prefix_len family max :
  max ≤ 255 →
  parses (λ s, pre s ∧ started s) (λ _, 0) (parse_prefix_len family max) (λ n, 0 ≤ n ≤ max).
Proof.
  intros Hm s Hs [Hp Hst]. unfold parse_prefix_len. apply wp_bind, wp_get.
  destruct (zget_lt_Some (p_tokens s) (p_pos s - 1)) as [sp ->].
  { destruct Hs as (_ & ? & _). unfold started in Hst. lia. }
  apply wp_bind, wp_ret.
  apply (λ H : parses pre (λ _, 0) _ _, H s Hs Hp). psteps; zbool; ulia.
Qed.

Lemma parses_prefix_len6 :
  parses (λ s, pre s ∧ started s) (λ _, 0) (parse_prefix_len "IPv6" 128) (λ n, 0 ≤ n ≤ 128).
Proof. by apply parses_prefix_len. Qed.
Lemma parses_prefix_len4 :
  parses (λ s, pre s ∧ started s) (λ _, 0) (parse_prefix_len "IPv4" 32) (λ n, 0 ≤ n ≤ 32).
Proof. by apply parses_prefix_len. Qed.
#[local] Hint Resolve parses_prefix_len4 parses_prefix_len6 : parses.

Ltac pslash := apply parses_eat_started.

Lemma parses_host dir : parses pre (λ p, 1 + alu_count p) (parse_host dir) wf_primitive.
Proof.
  unfold parse_host. pcall. destruct (short_ipv4 t) as [[octs parts]|] eqn:E.
  - destruct t as [[]|]; try done. simpl in *. case_match; [|done]. simplify_eq. zbool.
    apply parses_advance; [done|]. eapply parses_bind with (j := λ _, 0); [done|pcount|apply parses_mask; lia|].
    intros mask Hm. psteps. split; [|done]. apply ipv4_of_u32; naive_solver.
  - pcall. eapply parses_bind; [done| |apply parses_ip|]; [pcount|].
    intros a Ha. destruct a; [by psteps|]. pslash; psteps.
Qed.
#[local] Hint Resolve parses_host : parses.

Lemma land_top_octet a : is_u32 a → a .& 0xff000000 = 0 → a < 2 ^ 24.
Proof.
  intros Ha Hz. assert (Hl : a .& Z.ones 32 = a) by (rewrite Z.land_ones by lia; apply Z.mod_small, Ha).
  rewrite <- Hl, <- Z.land_assoc in Hz.
  change (Z.ones 32 .& 0xff000000) with (Z.ones 32 .& Z.lnot (Z.ones 24)) in Hz.
  rewrite Z.land_assoc, Hl, <- Z.ldiff_land, Z.ldiff_ones_r, Z.shiftl_eq_0_iff, Z.shiftr_div_pow2 in Hz by lia.
  unfold is_u32 in Ha. Z.div_mod_to_equations. lia.
Qed.

(** The address is out of octets to shift after three turns. *)
Lemma parses_widen n addr mask :
  is_u32 addr → is_u32 mask → addr = 0 ∧ (0 < n)%nat ∨ 2 ^ 32 ≤ addr * 2 ^ (8 * Z.of_nat n) →
  parses pre (λ _, 0) (widen_net n addr mask) (λ r, is_u32 r.1 ∧ is_u32 r.2).
Proof.
  revert addr mask. induction n as [|n IH]; intros addr mask Ha Hm Hn.
  { unfold is_u32 in Ha. simpl in Hn. lia. }
  cbn [widen_net]. destruct (Z.eqb_spec addr 0) as [->|Hne]; [by apply parses_ret|]. simpl.
  destruct (Z.eqb_spec (addr .& 0xff000000) 0) as [Hz|_]; [|by apply parses_ret].
  apply land_top_octet in Hz; [|done]. rewrite !Z.shiftl_mul_pow2 by lia.
  unfold is_u32 in Ha. apply IH; [ulia..|right]. unfold as_u32. rewrite Z.mod_small by lia.
  destruct Hn as [|Hn]; [pcount|]. rewrite Nat2Z.inj_succ in Hn.
  replace (8 * Z.succ (Z.of_nat n)) with (8 + 8 * Z.of_nat n) in Hn by lia.
  rewrite Z.pow_add_r in Hn; lia.
Qed.

Lemma from_prefix_ok addr n :
  0 ≤ n ≤ 32 → ∃ net, from_prefix addr n = Ok net ∧ is_u32 (net_mask net).
Proof.
  intros Hn. unfold from_prefix. destruct (Z.eqb_spec n 0); [by eexists|].
  rewrite (proj2 (Z.ltb_ge _ _)) by lia. eexists. split; [done|]. simpl. ulia.
Qed.

Lemma parses_from_prefix addr n :
  0 ≤ n ≤ 32 →
  parses pre (λ _, 0) (λ s, (λ net, (net, s)) <$> from_prefix addr n) (λ net, is_u32 (net_mask net)).
Proof.
  intros Hn s Hs Hp. destruct (from_prefix_ok addr n Hn) as (net & E & Hm).
  unfold wp. rewrite E. by apply (parses_ret pre (λ _, 0) net (λ net, is_u32 (net_mask net))).
Qed.

Lemma parses_net_mask addr parts :
  1 ≤ parts ≤ 4 → parses pre (λ _, 0) (parse_net_mask addr parts) is_u32.
Proof.
  intros Hp. unfold parse_net_mask. pslash.
  - eapply parses_bind; [apply _| |apply parses_prefix_len4|]; [pcount|]. intros n Hn.
    eapply parses_bind; [apply _| |by apply parses_and, parses_from_prefix|]; [pcount|intros net Hm].
    psteps.
  - psteps. apply ipv4_of_u32; naive_solver.
Qed.
#[local] Hint Resolve parses_net_mask : parses.

Lemma parses_net6 addr dir : wf_segments addr → parses pre alu_count (parse_net6 addr dir) wf_primitive.
Proof.
  intros Ha. unfold parse_net6. pslash.
  - eapply parses_bind; [apply _| |apply parses_prefix_len6|]; [pcount|]. intros n Hn.
    psteps. split; [done|]. ulia.
  - eapply parses_bind with (j := λ _, 0) (Q := λ n, n = 128); [done|pcount|by apply parses_ret|].
    intros n ->. psteps.
Qed.
#[local] Hint Resolve parses_net6 : parses.

Lemma parses_widen_all n :
  is_u32 n → parses pre (λ _, 0) (widen_net 5 n u32_max) (λ r, is_u32 r.1 ∧ is_u32 r.2).
Proof.
  intros Hn. apply parses_widen; [done|done|]. unfold is_u32 in Hn.
  destruct (Z.eq_dec n 0); [by left; lia|right]. change (2 ^ (8 * Z.of_nat 5)) with (2 ^ 40). lia.
Qed.
#[local] Hint Resolve parses_widen_all : parses.

Lemma parses_net dir : parses pre (λ p, 1 + alu_count p) (parse_net dir) wf_primitive.
Proof.
  unfold parse_net. do 2 pcall. pcall; [|psteps]. destruct t0; simpl in *; try by psteps.
  destruct H0 as (Hl & Hf & Hparts). pose proof (ipv4_of_u32 _ Hl Hf).
  assert (1 ≤ parts ≤ 4) by lia. psteps.
Qed.

Lemma parses_port dir proto : parses pre (λ p, 1 + alu_count p) (parse_port dir proto) wf_primitive.
Proof. unfold parse_port. psteps. Qed.

Lemma parses_portrange dir proto : parses pre (λ p, 1 + alu_count p) (parse_portrange dir proto) wf_primitive.
Proof. unfold parse_portrange. psteps. Qed.
End addresses.
#[export] Hint Resolve parses_mac parses_host parses_net parses_port parses_portrange : parses.

(** * Primitives *)

Section primitives.
Context (pre : Parser → Prop) `{!Stable pre}.

Lemma parses_dir : parses pre (λ _, 0) parse_dir (λ _, True).
Proof. unfold parse_dir. psteps. Qed.
#[local] Hint Resolve parses_dir : parses.

Lemma wf_broadcast dir : wf_primitive (PEtherHost broadcast_mac dir).
Proof. split; [done|]. unfold broadcast_mac. simpl. by repeat constructor. Qed.

Lemma parses_after_dir dir : parses pre (λ p, 1 + alu_count p) (parse_after_dir dir) wf_primitive.
Proof. unfold parse_after_dir. psteps. Qed.
#[local] Hint Resolve parses_after_dir : parses.

Lemma parses_ether_prim :
  parses pre (λ p, 1 + alu_count p) parse_ether_prim wf_primitive.
Proof. unfold parse_ether_prim. psteps; by apply (wf_broadcast Dst). Qed.
#[local] Hint Resolve parses_ether_prim : parses.

Lemma parses_optional_num cast Q :
  (∀ n, is_u32 n → parses pre (λ _, 0) (cast n) Q) → parses pre (λ _, 0) (optional_num cast) (wf_option Q).
Proof.
  intros Hc. unfold optional_num. pcall. destruct t as [[]|]; simpl in *; psteps.
Qed.

Lemma parses_vlan_id : parses pre (λ _, 0) (optional_num (λ n, mret (as_u16 n))) (wf_option is_u16).
Proof. apply parses_optional_num. intros n Hn. psteps. Qed.

Lemma parses_mpls_label : parses pre (λ _, 0) (optional_num (λ n, mret (as_u32 n))) (wf_option is_u32).
Proof. apply parses_optional_num. intros n Hn. psteps. Qed.

Lemma parses_session_id :
  parses pre (λ _, 0) (optional_num (λ n,
    if 0xffff <? n then
      err ("pppoes session ID " +:+ show_dec n +:+ " out of range (max 65535)")
    else mret (as_u16 n))) (wf_option is_u16).
Proof. apply parses_optional_num. intros n Hn. psteps. Qed.
#[local] Hint Resolve parses_vlan_id parses_mpls_label parses_session_id : parses.

Lemma parses_primitive : parses pre (λ p, 1 + alu_count p) parse_primitive wf_primitive.
Proof. unfold parse_primitive. psteps; by apply (wf_broadcast Dst). Qed.
End primitives.
#[export] Hint Resolve parses_primitive : parses.

(** * Expressions *)

(** The tokens a tree needs at least: one for each primitive, negation and
    operator of a byte access. *)
Fixpoint weight (e : Expr) : Z :=
  match e with
  | And l r | Or l r => weight l + weight r
  | Not x => 1 + weight x
  | Prim p => 1 + alu_count p
  end.

Definition left_weight (l : option (Expr * bool)) : Z :=
  match l with Some (e, _) => weight e | None => 0 end.

Fixpoint levels_weight (open : list Open) : Z :=
  match open with
  | [] => 0
  | o :: open' => left_weight (o_left o) + Z.of_nat (o_nots o) + levels_weight open'
  end.

Definition wf_left (l : option (Expr * bool)) : Prop :=
  match l with Some (e, _) => wf_expr e | None => True end.

Definition wf_levels (open : list Open) : Prop := Forall (λ o, wf_left (o_left o)) open.

Lemma alu_count_nonneg p : 0 ≤ alu_count p.
Proof. destruct p; try done. apply zlen_nonneg. Qed.

Lemma wf_join left operand : wf_left left → wf_expr operand → wf_expr (join left operand).
Proof. by destruct left as [[? []]|]. Qed.

Lemma weight_join left operand : weight (join left operand) = left_weight left + weight operand.
Proof. by destruct left as [[? []]|]. Qed.

Lemma wf_apply_nots n e : wf_expr e → wf_expr (apply_nots n e).
Proof. intros He. by induction n. Qed.

Lemma weight_apply_nots n e : weight (apply_nots n e) = Z.of_nat n + weight e.
Proof. induction n as [|n IH]; [done|]. change (weight (apply_nots (S n) e)) with (1 + weight (apply_nots n e)). lia. Qed.

Section exprs.
Context (pre : Parser → Prop) `{!Stable pre}.

(** A computation that consumes a token leaves a turn less to run. *)
Lemma parses_spend {A B} j k n (m : P A) (f : A → P B) Q R :
  (∀ a, Q a → 1 ≤ j a) → parses pre j m Q →
  (∀ a, Q a → parses (λ s, pre s ∧ enough n s) (λ b, k b - j a) (f a) R) →
  parses (λ s, pre s ∧ enough (S n) s) k (m ≫= f) R.
Proof.
  intros Hj Hm Hf s Hs [Hp Hn]. apply wp_bind. eapply wp_mono; [by apply Hm|].
  intros a s' [Ha HQ]. pose proof (Hj a HQ) as H1. eapply wp_mono; [refine (Hf a HQ _ _ (conj _ _))|].
  - eapply (good_after (j a)); [lia|done..].
  - eapply (stable (j a)); [done|lia|done].
  - by eapply (enough_after n (j a)).
  - intros b s'' [Hb HR]. split; [|done]. by apply (after_step _ _ _ _ _ Ha).
Qed.

Lemma parses_eat_spend {B} k n t (f : bool → P B) R :
  parses (λ s, pre s ∧ enough n s) (λ b, k b - 1) (f true) R →
  parses (λ s, pre s ∧ enough (S n) s) k (f false) R →
  parses (λ s, pre s ∧ enough (S n) s) k (eat t ≫= f) R.
Proof.
  intros Ht Hf s Hs [Hp Hn]. unfold eat. apply wp_bind, wp_bind, wp_gets.
  change (token <$> _) with (cur s). case_decide as Hc; [|by apply wp_ret, Hf].
  apply wp_bind, wp_modify, wp_ret. pose proof (after_advance s t Hs Hc) as Ha.
  eapply wp_mono; [refine (Ht _ _ (conj _ _))|].
  - by eapply (good_after 1).
  - by eapply (stable 1).
  - by eapply (enough_after n 1).
  - intros b s' [Hb HR]. split; [|done]. by apply (after_step _ _ _ _ _ Ha).
Qed.

Lemma parses_count_nots n :
  parses (λ s, pre s ∧ enough n s) Z.of_nat (count_nots n) (λ _, True).
Proof.
  induction n as [|n IH]; [apply enough_0|]. cbn [count_nots]. unfold if_eat.
  apply parses_eat_spend; [psteps|]. apply parses_eat_spend; psteps.
Qed.

Lemma parses_nots : parses pre Z.of_nat (k ← turns; count_nots k) (λ _, True).
Proof. apply parses_turns, parses_count_nots. Qed.

Lemma parses_logical_op : parses pre (λ _, 0) parse_logical_op (λ _, True).
Proof. unfold parse_logical_op. psteps. Qed.
#[local] Hint Resolve parses_logical_op : parses.

(** What folding returns holds the operands it was given, [w] tokens' worth. *)
Definition folded_ok (w : Z) (r : Expr + list Open * option (Expr * bool)) : Prop :=
  match r with
  | inl e => wf_expr e ∧ weight e = w
  | inr (open, lhs) => wf_levels open ∧ wf_left lhs ∧ levels_weight open + left_weight lhs = w
  end.

Lemma parses_fold_operand open left operand nots :
  wf_levels open → wf_left left → wf_expr operand →
  parses pre (λ _, 0) (fold_operand open left operand nots)
    (folded_ok (levels_weight open + left_weight left + Z.of_nat nots + weight operand)).
Proof.
  revert left operand nots. induction open as [|o open IH]; intros left operand nots Ho Hl He;
    cbn [fold_operand]; pose proof (wf_join _ _ Hl (wf_apply_nots nots _ He)) as Hj;
    pose proof (weight_join left (apply_nots nots operand)) as Hw;
    rewrite weight_apply_nots in Hw.
  - psteps; split_and?; (done || lia).
  - destruct (proj1 (Forall_cons _ _ _) Ho). pcall.
    destruct a; [psteps; split_and!; [done..|simpl; lia]|]. pcall.
    eapply parses_weaken; [by apply IH|lia|]. intros r. rewrite Hw. cbn [levels_weight].
    match goal with |- folded_ok ?v _ → folded_ok ?w _ => replace w with v by lia end. done.
Qed.

Lemma parses_loop n open left :
  wf_levels open → wf_left left →
  parses (λ s, pre s ∧ enough n s) (λ e, weight e - levels_weight open - left_weight left)
    (parse_loop n open left) wf_expr.
Proof.
  revert open left. induction n as [|n IH]; intros open left Ho Hl; [apply enough_0|].
  cbn [parse_loop]. apply parses_assoc_l.
  eapply parses_bind with (j := Z.of_nat) (Q := λ _, True); [apply _|lia| |].
  { apply parses_and, parses_nots. }
  intros nots _. apply parses_eat_spend.
  - pcall; [apply parses_err|]. eapply parses_weaken; [apply IH; [by constructor|done]| |done].
    simpl. lia.
  - apply parses_spend with (j := λ p, 1 + alu_count p) (Q := wf_primitive).
    + intros p _. pose proof (alu_count_nonneg p). lia.
    + apply parses_primitive; apply _.
    + intros prim Hprim.
      eapply parses_bind; [apply _| |by apply parses_and, parses_fold_operand|]; [pcount|].
      intros [e|[open' left']]; simpl.
      * intros [He Hw]. apply parses_ret; [|done]. lia.
      * intros (Ho' & Hl' & Hw). eapply parses_weaken; [by apply IH| |done]. lia.
Qed.
End exprs.

(** [parse] returns on every token sequence the tokenizer can give, and a tree
    it returns is well formed and no heavier than the tokens. *)
Lemma parse_sound tokens :
  Forall (λ t, wf_token (token t)) tokens →
  match parse tokens with
  | Ok e => wf_expr e ∧ weight e ≤ zlen tokens
  | Err _ => True
  | _ => False
  end.
Proof.
  intros Ht. assert (Hs : good (mk_parser tokens 0 0)).
  { split_and!; simpl; [done|lia|apply zlen_nonneg|lia|done]. }
  assert (Hp : parses any weight parse_expr wf_expr).
  { apply parses_turns. intros n. eapply parses_weaken; [by apply parses_loop; [apply _|constructor|]| |done].
    simpl. lia. }
  specialize (Hp _ Hs I). unfold wp in Hp. unfold parse.
  destruct (parse_expr _) as [[e p]|e| |]; simpl; [|done..].
  destruct Hp as [(_ & _ & Hp) He]. simpl in Hp. by destruct (_ <? _); [|split; [|lia]].
Qed.
