(* ===== verification/ParserRuns.v ===== *)
(** Successful runs of the parser, the canonical tokens of a primitive, and the
    runs that read the primitives back. *)

From S2P Require Export ParserSound.

(** * Runs that succeed *)

(** The tokens at and behind the cursor. *)
Definition rest (s : Parser) : list Token := map token (drop (Z.to_nat (p_pos s)) (p_tokens s)).

(** [m] succeeds on [s], and its value and final state satisfy [Q]. *)
Definition goes {A} (m : P A) (s : Parser) (Q : A → Parser → Prop) : Prop :=
  ∃ a s', m s = Ok (a, s') ∧ Q a s'.

(** A position the cursor can have. *)
Definition placed_at (s : Parser) (us : list Token) : Prop := rest s = us ∧ 0 ≤ p_pos s.

Lemma placed_cur s us : placed_at s us → token <$> zget (p_tokens s) (p_pos s) = head us.
Proof.
  intros [<- Hp]. unfold rest. rewrite zget_spec, decide_True by done.
  replace (p_tokens s !! Z.to_nat (p_pos s)) with (drop (Z.to_nat (p_pos s)) (p_tokens s) !! O)
    by (by rewrite lookup_drop, Nat.add_0_r).
  by destruct (drop _ _).
Qed.

Lemma placed_next s t us : placed_at s (t :: us) → placed_at (set_pos (p_pos s + 1) s) us.
Proof.
  intros [E Hp]. split; [|simpl; lia]. unfold rest in *. simpl.
  replace (Z.to_nat (p_pos s + 1)) with (Z.to_nat (p_pos s) + 1)%nat by lia.
  rewrite <- drop_drop. destruct (drop _ _) as [|sp l]; simplify_eq/=. by rewrite drop_0.
Qed.

Lemma placed_length s us : placed_at s us → (length us ≤ length (p_tokens s))%nat.
Proof. intros [<- _]. unfold rest. rewrite length_map, length_drop. lia. Qed.

Lemma placed_end s : placed_at s [] → zlen (p_tokens s) ≤ p_pos s.
Proof.
  intros [E Hp]. unfold rest in E. apply map_eq_nil in E.
  apply (f_equal length) in E. rewrite length_drop in E. simpl in E. unfold zlen. lia.
Qed.

Section rules.
Context {A B : Type}.
Implicit Types (s : Parser) (us : list Token).

Lemma goes_ret (a : A) s (Q : A → Parser → Prop) : Q a s → goes (mret a) s Q.
Proof. by exists a, s. Qed.

Lemma goes_bind (m : P A) (f : A → P B) s (Q : B → Parser → Prop) :
  goes m s (λ a s', goes (f a) s' Q) → goes (m ≫= f) s Q.
Proof. intros (a & s' & E & b & s'' & E' & H). exists b, s''. split; [|done]. unfold mbind, M_bind. by rewrite E. Qed.

Lemma goes_mono (m : P A) s (Q R : A → Parser → Prop) :
  goes m s Q → (∀ a s', Q a s' → R a s') → goes m s R.
Proof. intros (a & s' & E & H) HQ. exists a, s'. auto. Qed.

End rules.

Lemma goes_cur s us (Q : option Token → Parser → Prop) :
  placed_at s us → Q (head us) s → goes cur_tok s Q.
Proof.
  intros Hs HQ. unfold goes, cur_tok, gets. do 2 eexists. split; [done|]. by rewrite (placed_cur _ us).
Qed.

Lemma goes_advance s t us (Q : option Token → Parser → Prop) :
  placed_at s (t :: us) → (∀ s', placed_at s' us → Q (Some t) s') → goes advance s Q.
Proof.
  intros Hs HQ. unfold advance. apply goes_bind, (goes_cur s (t :: us)); [done|]. simpl.
  exists (Some t), (set_pos (p_pos s + 1) s). split; [done|]. eapply HQ, placed_next, Hs.
Qed.

Lemma goes_eat s t us (Q : bool → Parser → Prop) :
  placed_at s (t :: us) → (∀ s', placed_at s' us → Q true s') → goes (eat t) s Q.
Proof.
  intros Hs HQ. unfold eat. apply goes_bind, (goes_cur s (t :: us)); [done|]. simpl.
  rewrite decide_True by done.
  exists true, (set_pos (p_pos s + 1) s). split; [done|]. eapply HQ, placed_next, Hs.
Qed.

Lemma goes_eat_no s t us (Q : bool → Parser → Prop) :
  placed_at s us → head us ≠ Some t → Q false s → goes (eat t) s Q.
Proof.
  intros Hs Hne HQ. unfold eat. apply goes_bind, (goes_cur s us); [done|].
  rewrite decide_False by done. by apply goes_ret.
Qed.

Lemma goes_at_tok s t us (Q : bool → Parser → Prop) :
  placed_at s us → Q (bool_decide (head us = Some t)) s → goes (at_tok t) s Q.
Proof. intros Hs HQ. unfold at_tok. apply goes_bind, (goes_cur s us); [done|]. by apply goes_ret. Qed.

Lemma goes_expect s t us (Q : unit → Parser → Prop) :
  placed_at s (t :: us) → (∀ s', placed_at s' us → Q tt s') → goes (expect_tok t) s Q.
Proof.
  intros Hs HQ. unfold expect_tok. apply goes_bind, (goes_eat s t us); [done|].
  intros s' Hs'. by apply goes_ret, HQ.
Qed.

(** A loop is given more turns than there are tokens left. *)
Lemma goes_turns {B} s us (f : nat → P B) Q :
  placed_at s us → (∀ n, (length us ≤ n)%nat → goes (f (S n)) s Q) → goes (turns ≫= f) s Q.
Proof.
  intros Hs HQ. apply goes_bind. unfold goes at 1, turns, gets. do 2 eexists. split; [done|].
  apply HQ. by apply placed_length.
Qed.

(** One token, of the classes a printed tree is made of. *)
Ltac gtest :=
  repeat match goal with
  | |- context [?a <? ?b] => destruct (Z.ltb_spec a b); [lia|]
  | |- context [?a <=? ?b] => destruct (Z.leb_spec a b); [|lia]
  end.

Ltac gnext :=
  match goal with
  | |- goes (_ ≫= _) _ _ => apply goes_bind
  | |- goes (mret _) _ _ => apply goes_ret
  | |- goes (if_eat _ _ _) _ _ => unfold if_eat
  | |- goes (if_at _ _ _) _ _ => unfold if_at
  | |- goes (port_or _ _ _) _ _ => unfold port_or
  | H : placed_at ?s _ |- goes cur_tok ?s _ => eapply goes_cur; [exact H|]
  | H : placed_at ?s _ |- goes (at_tok _) ?s _ => eapply goes_at_tok; [exact H|];
      try first [rewrite bool_decide_true by done | rewrite bool_decide_false by done]
  | H : placed_at ?s (_ :: _) |- goes advance ?s _ =>
      eapply goes_advance; [exact H|]; clear dependent s; intros s H
  | H : placed_at ?s (?t :: _) |- goes (eat ?t) ?s _ =>
      eapply goes_eat; [exact H|]; clear dependent s; intros s H
  | H : placed_at ?s _ |- goes (eat _) ?s _ => eapply goes_eat_no; [exact H|discriminate|]
  | H : placed_at ?s (?t :: _) |- goes (expect_tok ?t) ?s _ =>
      eapply goes_expect; [exact H|]; clear dependent s; intros s H
  end; cbn beta iota zeta delta [head].

(** * Numbers *)

Lemma goes_u32 s n us (Q : Z → Parser → Prop) :
  is_u32 n → placed_at s (TNum n :: us) → (∀ s', placed_at s' us → Q n s') → goes parse_u32 s Q.
Proof.
  intros Hn Hs HQ. unfold parse_u32, is_u32, u32_max in *. repeat gnext. gtest. by apply goes_ret, HQ.
Qed.

(** * The canonical form *)

Definition octets_of (a : Z) : list Z :=
  [a / 2 ^ 24; a / 2 ^ 16 mod 256; a / 2 ^ 8 mod 256; a mod 256].

Definition show_addr4 (a : Z) : Token := TIpv4 (octets_of a) 4.

Definition show_dir (d : Dir) : list Token :=
  match d with
  | Src => [TSrc]
  | Dst => [TDst]
  | SrcOrDst => [TSrc; TOr; TDst]
  | SrcAndDst => [TSrc; TAnd; TDst]
  end.

Definition show_transport (p : option Proto) : list Token :=
  match p with
  | Some Tcp => [TTcp]
  | Some Udp => [TUdp]
  | Some Sctp => [TSctp]
  | _ => []
  end.

Definition show_proto (p : Proto) : list Token :=
  match p with
  | Ip => [TIp] | Ip6 => [TIp6] | Arp => [TArp] | Rarp => [TRarp] | Tcp => [TTcp] | Udp => [TUdp]
  | Icmp => [TIcmp] | Icmp6 => [TIcmp6] | Igmp => [TIgmp] | Sctp => [TSctp]
  | Num n => [TIp; TProto; TNum n]
  | Ip6Proto n => [TIp6; TProto; TNum n]
  end.

Definition show_cmp (op : CmpOp) : Token :=
  match op with
  | Eq_ => TEq | Ne => TNe | Lt_ => TLt | Le => TLe | Gt_ => TGt | Ge => TGe | BitAnd => TAmp
  end.

Definition show_arith (op : ArithOp) : Token :=
  match op with
  | Add => TPlus | Sub => TMinus | Mul => TStar | Div => TSlash | Mod => TPercent
  | And_ => TAmp | Or_ => TPipe | Xor => TCaret | Shl => TShl | Shr => TShr
  end.

Definition show_layer (l : Layer) : Token :=
  match l with Raw => TEther | Net => TIp | Trans => TTcp end.

Definition show_size (s : AccessSize) : Z := match s with Byte => 1 | Half => 2 | Word => 4 end.

Definition show_load (layer : Layer) (offset : Z) (size : AccessSize) : list Token :=
  [show_layer layer; TLBracket; TNum offset; TColon; TNum (show_size size); TRBracket].

Definition show_rhs (r : CmpRhs) : list Token :=
  match r with
  | Const v => [TNum v]
  | Load_ l => show_load (bl_layer l) (bl_offset l) (bl_size l)
  end.

Definition show_alu (ops : list (ArithOp * Z)) : list Token :=
  ops ≫= λ '(op, v), [show_arith op; TNum v].

Definition show_opt (t : Token) (o : option Z) : list Token :=
  match o with None => [t] | Some n => [t; TNum n] end.

Definition show_primitive (p : Primitive) : list Token :=
  match p with
  | PHost (V4 a) dir => show_dir dir ++ [THost; show_addr4 a]
  | PHost (V6 segs) dir => show_dir dir ++ [THost; TIpv6 segs]
  | PPort port dir proto => show_dir dir ++ show_transport proto ++ [TPort; TNum port]
  | PPortRange lo hi dir proto =>
      show_dir dir ++ show_transport proto ++ [TPortRange; TNum lo; TMinus; TNum hi]
  | PNet n dir => show_dir dir ++ [TNet; show_addr4 (net_addr n); TMask; show_addr4 (net_mask n)]
  | PNet6 n dir =>
      show_dir dir ++ [TNet; TIpv6 (net6_segments n); TSlash; TNum (net6_prefix_len n)]
  | PProto p => show_proto p
  | PEtherHost a dir => TEther :: show_dir dir ++ [THost; TMac (mac_octets a)]
  | PEtherProto et => [TEther; TProto; TNum et]
  | PEtherMulticast => [TMulticast]
  | PIpBroadcast => [TIp; TBroadcast]
  | PIpMulticast => [TIp; TMulticast]
  | PIp6Multicast => [TIp6; TMulticast]
  | PVlan id => show_opt TVlan id
  | PMpls label => show_opt TMpls label
  | PPppoeDiscovery => [TPppoed]
  | PPppoeSession session_id => show_opt TPppoes session_id
  | PIpProtoChain n => [TIp; TProtochain; TNum n]
  | PIp6ProtoChain n => [TIp6; TProtochain; TNum n]
  | PLen op v => [TLen; show_cmp op; TNum v]
  | PInbound => [TInbound]
  | POutbound => [TOutbound]
  | PByteAccess ba =>
      show_load (ba_layer ba) (ba_offset ba) (ba_size ba) ++ show_alu (ba_alu_ops ba) ++
      show_cmp (ba_op ba) :: show_rhs (ba_rhs ba)
  end.

(** What the grammar can express: ports of the three transport protocols,
    networks without host bits, byte accesses that end in a comparison other
    than [&], which the grammar reads as an operator on the value. *)
Definition canonical (p : Primitive) : Prop :=
  wf_primitive p ∧
  match p with
  | PPort _ _ proto | PPortRange _ _ _ proto =>
      proto ∈ [None; Some Tcp; Some Udp; Some Sctp]
  | PNet n _ => net_addr n .& not_u32 (net_mask n) = 0
  | PNet6 n _ =>
      net6_prefix_len n ≤ 128 ∧
      ipv6_of (net6_segments n) .& host_bits6 (net6_prefix_len n) = 0
  | PByteAccess ba => ba_op ba ≠ BitAnd
  | _ => True
  end.

(** Behind a printed primitive or operand: an operator, a closing parenthesis or
    the end. *)
Inductive follow : list Token → Prop :=
  | follow_end : follow []
  | follow_and us : follow (TAnd :: us)
  | follow_or us : follow (TOr :: us)
  | follow_close us : follow (TRParen :: us).

Lemma ipv4_of_octets a : is_u32 a → ipv4_of (octets_of a) = a.
Proof. unfold ipv4_of, octets_of, is_u32. simpl. intros. Z.div_mod_to_equations. lia. Qed.

(** * Primitives *)

(** [m] reads [ts], in front of whatever may follow, as [a]. *)
Definition reads {A} (m : P A) (ts : list Token) (a : A) : Prop :=
  ∀ s us, follow us → placed_at s (ts ++ us) → goes m s (λ a' s', a' = a ∧ placed_at s' us).

(** The functions that a run unfolds. *)
Ltac gcall :=
  first
  [ match goal with
    | Hf : follow ?us, H : placed_at ?s ?us |- goes ?m ?s _ =>
        is_var us;
        lazymatch m with
        | cur_tok => destruct Hf
        | eat _ => destruct Hf
        | at_tok _ => destruct Hf
        end
    end
  | gnext
  | match goal with
    | H : placed_at ?s _ |- goes parse_u32 ?s _ =>
        eapply goes_u32; [|exact H|clear dependent s; intros s H]; [ulia|]
    | |- goes parse_primitive _ _ => unfold parse_primitive
    | |- goes parse_dir _ _ => unfold parse_dir
    | |- goes (parse_after_dir _) _ _ => unfold parse_after_dir
    | |- goes parse_ether_prim _ _ => unfold parse_ether_prim
    | |- goes (parse_host _) _ _ => unfold parse_host
    | |- goes (parse_net _) _ _ => unfold parse_net
    | |- goes (parse_net_mask _ _) _ _ => unfold parse_net_mask
    | |- goes (parse_port _ _) _ _ => unfold parse_port
    | |- goes (parse_portrange _ _) _ _ => unfold parse_portrange
    | |- goes (optional_num _) _ _ => unfold optional_num
    | |- goes parse_ip _ _ => unfold parse_ip
    | |- goes parse_mac_tok _ _ => unfold parse_mac_tok
    | |- goes parse_proto_num _ _ => unfold parse_proto_num
    | |- goes parse_u16 _ _ => unfold parse_u16
    | |- goes parse_cmpop _ _ => unfold parse_cmpop
    | |- context [(2 <=? 4) && (4 <=? 3)] => change ((2 <=? 4) && (4 <=? 3)) with false
    | |- goes (if ?a <? ?b then _ else _) _ _ => destruct (Z.ltb_spec a b); [exfalso; ulia|]
    end ];
  cbn beta iota zeta delta [andb show_dir show_transport show_cmp app short_ipv4 Z.leb Z.ltb Z.compare].

(** Run a printed primitive, in front of each token that may follow. *)
Ltac gread :=
  intros s us Hf Hs;
  cbn [show_primitive show_dir show_transport show_proto show_opt app] in Hs; unfold show_addr4 in Hs;
  repeat gcall; try by (split; [congruence|]).

Lemma reads_host4 a dir : is_u32 a → reads parse_primitive (show_primitive (PHost (V4 a) dir)) (PHost (V4 a) dir).
Proof. intros Ha. pose proof (ipv4_of_octets a Ha). destruct dir; gread. Qed.

Lemma reads_host6 a dir : reads parse_primitive (show_primitive (PHost (V6 a) dir)) (PHost (V6 a) dir).
Proof. destruct dir; gread. Qed.

Lemma reads_port port dir proto :
  is_u16 port → proto ∈ [None; Some Tcp; Some Udp; Some Sctp] →
  reads parse_primitive (show_primitive (PPort port dir proto)) (PPort port dir proto).
Proof.
  intros Hp Hpr. repeat setoid_rewrite elem_of_cons in Hpr. rewrite elem_of_nil in Hpr.
  destruct Hpr as [->|[->|[->|[->|[]]]]], dir; gread.
Qed.

Lemma reads_portrange lo hi dir proto :
  is_u16 lo → is_u16 hi → proto ∈ [None; Some Tcp; Some Udp; Some Sctp] →
  reads parse_primitive (show_primitive (PPortRange lo hi dir proto)) (PPortRange lo hi dir proto).
Proof.
  intros Hl Hh Hpr. repeat setoid_rewrite elem_of_cons in Hpr. rewrite elem_of_nil in Hpr.
  destruct Hpr as [->|[->|[->|[->|[]]]]], dir; gread.
Qed.

Lemma reads_net n dir :
  is_u32 (net_addr n) → is_u32 (net_mask n) → net_addr n .& not_u32 (net_mask n) = 0 →
  reads parse_primitive (show_primitive (PNet n dir)) (PNet n dir).
Proof.
  intros Ha Hm H0. destruct n as [a mk]. simpl in *.
  pose proof (ipv4_of_octets a Ha) as Ea. pose proof (ipv4_of_octets mk Hm) as Em.
  destruct dir; gread; rewrite Ea, Em, H0; change (negb (0 =? 0)) with false; cbn iota; repeat gnext; by split.
Qed.

(** The prefix length behind a slash. *)
Lemma goes_prefix_len s n us family max Q :
  0 ≤ n ≤ max → max ≤ 255 → placed_at s (TNum n :: us) → 1 ≤ p_pos s →
  (∀ s', placed_at s' us → Q n s') → goes (parse_prefix_len family max) s Q.
Proof.
  intros Hn Hmax Hs Hp HQ. unfold parse_prefix_len. apply goes_bind. exists s, s. split; [done|].
  pose proof (placed_cur s _ Hs) as Hc. simpl in Hc.
  destruct (zget (p_tokens s) (p_pos s)) eqn:E; [|done]. apply zget_Some_lt in E.
  destruct (zget_lt_Some (p_tokens s) (p_pos s - 1)) as [sp ->]; [lia|].
  apply goes_bind, goes_ret. repeat gcall. gtest. apply goes_ret. replace (as_u8 n) with n by ulia. by apply HQ.
Qed.

Lemma goes_eat_pos s t us (Q : bool → Parser → Prop) :
  placed_at s (t :: us) → (∀ s', placed_at s' us → 1 ≤ p_pos s' → Q true s') → goes (eat t) s Q.
Proof.
  intros Hs HQ. unfold eat. apply goes_bind, (goes_cur s (t :: us)); [done|]. simpl.
  rewrite decide_True by done.
  exists true, (set_pos (p_pos s + 1) s). split; [done|]. apply HQ; [by eapply placed_next|].
  destruct Hs. simpl. lia.
Qed.

Lemma goes_net6 s n us dir (Q : Primitive → Parser → Prop) :
  is_u8 (net6_prefix_len n) → net6_prefix_len n ≤ 128 →
  ipv6_of (net6_segments n) .& host_bits6 (net6_prefix_len n) = 0 →
  placed_at s (TSlash :: TNum (net6_prefix_len n) :: us) →
  (∀ s', placed_at s' us → Q (PNet6 n dir) s') →
  goes (parse_net6 (net6_segments n) dir) s Q.
Proof.
  intros Hl H128 H0 Hs HQ. unfold parse_net6.
  apply goes_bind. eapply goes_eat_pos; [exact Hs|]. intros s' Hs' Hp.
  apply goes_bind. eapply goes_prefix_len; [|done|exact Hs'|done|]; [ulia|].
  intros s'' Hs''. rewrite H0. change (negb (0 =? 0)) with false. apply goes_ret. destruct n. by apply HQ.
Qed.

Lemma reads_net6 n dir :
  is_u8 (net6_prefix_len n) → net6_prefix_len n ≤ 128 →
  ipv6_of (net6_segments n) .& host_bits6 (net6_prefix_len n) = 0 →
  reads parse_primitive (show_primitive (PNet6 n dir)) (PNet6 n dir).
Proof.
  intros Hl H128 H0 s us Hf Hs. cbn [show_primitive] in Hs.
  destruct dir; cbn [show_dir app] in Hs; repeat gcall;
    (eapply goes_net6; [done..|exact Hs|]; by intros).
Qed.

Lemma reads_proto p : wf_proto p → reads parse_primitive (show_primitive (PProto p)) (PProto p).
Proof. intros Hp. destruct p; simpl in Hp; gread. Qed.

Lemma reads_ether_host a dir : reads parse_primitive (show_primitive (PEtherHost a dir)) (PEtherHost a dir).
Proof. destruct dir; gread; by destruct a. Qed.

Lemma reads_ether_proto et : is_u16 et → reads parse_primitive (show_primitive (PEtherProto et)) (PEtherProto et).
Proof. intros He. gread. split; [|done]. f_equal. ulia. Qed.

Lemma reads_vlan id : wf_option is_u16 id → reads parse_primitive (show_primitive (PVlan id)) (PVlan id).
Proof. intros Hi. destruct id; simpl in Hi; gread. split; [|done]. do 2 f_equal. ulia. Qed.

Lemma reads_mpls l : wf_option is_u32 l → reads parse_primitive (show_primitive (PMpls l)) (PMpls l).
Proof. intros Hi. destruct l; simpl in Hi; gread. split; [|done]. do 2 f_equal. ulia. Qed.

Lemma reads_pppoe id :
  wf_option is_u16 id → reads parse_primitive (show_primitive (PPppoeSession id)) (PPppoeSession id).
Proof. intros Hi. destruct id; simpl in Hi; gread. split; [|done]. do 2 f_equal. ulia. Qed.

Lemma reads_len op v : is_u32 v → reads parse_primitive (show_primitive (PLen op v)) (PLen op v).
Proof. intros Hv. destruct op; gread. Qed.
