(* ===== verification/ParserRoundtrip.v ===== *)
(** The parser on printed trees: every tree in canonical form is read back from
    its tokens, with [and] and [or] folding to the left at one level of
    precedence and [not] binding tighter. *)

From S2P Require Export LexerRoundtrip ParserRuns.

(** * Byte accesses *)

(** The levels of an offset expression that is a number. *)
Section offset.
Context (us : list Token) (v : Z).
Let done_ (v' : Z) (s : Parser) : Prop := v' = v ∧ placed_at s (TColon :: us).

Lemma goes_level (operand : P Z) (loop : nat → Z → P Z) s :
  (∀ n s', placed_at s' (TColon :: us) → goes (loop (S n) v) s' done_) →
  goes operand s done_ → goes (lhs ← operand; n ← turns; loop n lhs) s done_.
Proof.
  intros Hl Ho. apply goes_bind. eapply goes_mono; [exact Ho|]. intros v' s' [-> Hs].
  eapply goes_turns; [exact Hs|]. intros n _. by apply Hl.
Qed.

Lemma goes_fold_level tok op operand s :
  tok ≠ TColon → goes operand s done_ →
  goes (lhs ← operand; n ← turns; fold_op n tok op operand lhs) s done_.
Proof.
  intros Ht. apply goes_level. intros n s' Hs. cbn [fold_op]. apply goes_bind.
  eapply goes_at_tok; [exact Hs|]. rewrite bool_decide_false by (simpl; congruence).
  by apply goes_ret.
Qed.

Lemma goes_or (atom : P Z) s : goes atom s done_ → goes (parse_offset_or atom) s done_.
Proof.
  intros Ha. apply goes_fold_level; [done|]. apply goes_fold_level; [done|].
  apply goes_fold_level; [done|].
  do 2 (apply goes_level; [intros n s' Hs; simpl; by repeat gnext|]).
  apply goes_level; [intros n s' Hs; simpl; by repeat gnext|]. done.
Qed.
End offset.

Lemma goes_atom n v us s :
  is_u32 v → placed_at s (TNum v :: us) →
  goes (parse_offset_atom (S n)) s (λ v' s', v' = v ∧ placed_at s' us).
Proof. intros Hv Hs. cbn [parse_offset_atom]. repeat gcall. done. Qed.

Lemma goes_offset v us s :
  wf_offset v → placed_at s (TNum v :: TColon :: us) →
  goes parse_offset s (λ v' s', v' = v ∧ placed_at s' (TColon :: us)).
Proof.
  unfold wf_offset. intros Hv Hs. unfold parse_offset, parse_offset_expr. do 2 apply goes_bind.
  eapply goes_mono; [apply (goes_or us v)|].
  - apply (goes_atom 128); [unfold is_u32; lia|done].
  - intros v' s' [-> Hs']. cbn beta.
    rewrite (proj2 (Z.leb_le _ _)), (proj2 (Z.ltb_lt v _)) by lia. cbn [andb].
    apply goes_ret. rewrite (proj2 (Z.ltb_ge _ _)) by lia. by apply goes_ret.
Qed.

Lemma goes_size size us s (Q : AccessSize → Parser → Prop) :
  placed_at s (TColon :: TNum (show_size size) :: us) → (∀ s', placed_at s' us → Q size s') →
  goes parse_size s Q.
Proof. intros Hs HQ. unfold parse_size. destruct size; cbn [show_size] in Hs; repeat gnext; by apply HQ. Qed.

Lemma goes_alu_ops n ops op us s :
  Forall (λ o, is_u32 o.2) ops → op ≠ BitAnd → (length (show_alu ops) < n)%nat →
  placed_at s (show_alu ops ++ show_cmp op :: us) →
  goes (parse_alu_ops n) s (λ l s', l = ops ∧ placed_at s' (show_cmp op :: us)).
Proof.
  intros Hops Hop. revert n s. induction Hops as [|[a v] ops Hv _ IH]; intros n s Hn Hs;
    (destruct n as [|n]; [lia|]); cbn [parse_alu_ops].
  - cbn in Hs. destruct op; try done; cbn in Hs; repeat gnext; cbn [arith_op]; by apply goes_ret.
  - assert (E : arith_op (Some (show_arith a)) = Some a) by (by destruct a).
    change (show_alu ((a, v) :: ops)) with (show_arith a :: TNum v :: show_alu ops) in *.
    cbn [length app] in Hs, Hn. simpl in Hv. repeat gnext. rewrite E. repeat gcall.
    eapply goes_mono; [apply IH; [lia|done]|]. intros l s' [-> Hs']. cbn beta. by apply goes_ret.
Qed.

Lemma goes_byte_load layer l us s (Q : ByteLoad → Parser → Prop) :
  layer = bl_layer l → wf_offset (bl_offset l) →
  placed_at s (tail (show_load layer (bl_offset l) (bl_size l)) ++ us) →
  (∀ s', placed_at s' us → Q l s') → goes (parse_byte_load layer) s Q.
Proof.
  intros -> Ho Hs HQ. unfold parse_byte_load. cbn [show_load tail app] in Hs. repeat gnext.
  eapply goes_mono; [by eapply goes_offset|]. clear dependent s. intros v s [-> Hs]. cbn beta.
  apply goes_bind. eapply goes_size; [exact Hs|]. clear dependent s. intros s Hs.
  repeat gnext. destruct l. by apply HQ.
Qed.

Lemma goes_cmp_rhs r us s (Q : CmpRhs → Parser → Prop) :
  match r with Const v => is_u32 v | Load_ l => wf_offset (bl_offset l) end →
  placed_at s (show_rhs r ++ us) → (∀ s', placed_at s' us → Q r s') → goes parse_cmp_rhs s Q.
Proof.
  intros Hr Hs HQ. unfold parse_cmp_rhs. destruct r as [v|l]; cbn [show_rhs show_load app] in Hs.
  - gnext. gnext. cbn [rhs_layer]. apply goes_bind. unfold goes at 1, peek_tok, gets.
    do 2 eexists. split; [done|]. gcall. gcall. by apply goes_ret, HQ.
  - gnext. gnext. apply goes_bind. unfold goes at 1, peek_tok, gets. do 2 eexists. split; [done|].
    assert (E : rhs_layer (Some (show_layer (bl_layer l))) = Some (bl_layer l)) by (by destruct (bl_layer l)).
    rewrite E. pose proof (placed_next _ _ _ Hs) as Hn. apply placed_cur in Hn. simpl in Hn.
    rewrite Hn. cbn [head]. rewrite decide_True by done. gnext. gnext. gnext.
    eapply goes_byte_load; [done|done|exact Hs|]. clear dependent s. intros s Hs.
    by apply goes_ret, HQ.
Qed.

Lemma reads_byte_access ba :
  wf_byte_access ba → ba_op ba ≠ BitAnd →
  ∀ s us, placed_at s (tail (show_primitive (PByteAccess ba)) ++ us) →
  goes (parse_byte_access (ba_layer ba)) s (λ p s', p = PByteAccess ba ∧ placed_at s' us).
Proof.
  intros (Ho & Hops & Hr) Hop s us Hs. unfold parse_byte_access.
  cbn [show_primitive show_load tail app] in Hs. rewrite <- !app_assoc in Hs. cbn [app] in Hs.
  repeat gnext. eapply goes_mono; [by eapply goes_offset|]. clear dependent s. intros v s [-> Hs].
  cbn beta. apply goes_bind. eapply goes_size; [exact Hs|]. clear dependent s. intros s Hs.
  gnext. gnext. eapply goes_turns; [exact Hs|]. intros n Hn. apply goes_bind.
  eapply goes_mono; [eapply (goes_alu_ops _ _ (ba_op ba)); [exact Hops|done| |exact Hs]|].
  { rewrite length_app in Hn. lia. }
  clear dependent s. intros ops s [-> Hs]. cbn beta. apply goes_bind.
  destruct ba as [layer o sz ops op rhs]; simpl in *. unfold parse_cmpop.
  destruct op; try done; cbn [show_cmp] in Hs; repeat gnext;
    (eapply goes_cmp_rhs; [done|exact Hs|]); clear dependent s; intros s Hs; by apply goes_ret.
Qed.

Lemma reads_access ba :
  wf_byte_access ba → ba_op ba ≠ BitAnd →
  reads parse_primitive (show_primitive (PByteAccess ba)) (PByteAccess ba).
Proof.
  intros Hw Hop s us _ Hs. pose proof (reads_byte_access ba Hw Hop) as Hb.
  destruct ba as [layer o sz ops op rhs]. cbn [ba_layer show_primitive show_load tail app] in *.
  destruct layer; cbn [show_layer] in *; unfold parse_primitive; repeat gnext;
    try (unfold parse_ether_prim; repeat gnext); by apply Hb.
Qed.

Lemma reads_primitive p : canonical p → reads parse_primitive (show_primitive p) p.
Proof.
  intros [Hw Hc]. destruct p; simpl in Hw, Hc; try by (intros s us Hf Hs;
    cbn [show_primitive app] in Hs; repeat gcall; try by split).
  - destruct addr; [by apply reads_host4|apply reads_host6].
  - by apply reads_port.
  - destruct Hw. by apply reads_portrange.
  - destruct Hw. by apply reads_net.
  - destruct Hw, Hc. by apply reads_net6.
  - by apply reads_proto.
  - by apply reads_ether_host.
  - by apply reads_ether_proto.
  - by apply reads_vlan.
  - by apply reads_mpls.
  - by apply reads_pppoe.
  - by apply reads_len.
  - by apply reads_access.
Qed.

(** * Expressions *)

Definition paren (ts : list Token) : list Token := TLParen :: ts ++ [TRParen].

(** As an operand ([tight]) a conjunction or disjunction needs parentheses. *)
Fixpoint show_expr (tight : bool) (e : Expr) : list Token :=
  match e with
  | Prim p => show_primitive p
  | Not x => TNot :: show_expr true x
  | And l r =>
      let ts := show_expr false l ++ TAnd :: show_expr true r in
      if tight then paren ts else ts
  | Or l r =>
      let ts := show_expr false l ++ TOr :: show_expr true r in
      if tight then paren ts else ts
  end.

(** The parentheses open at once. *)
Fixpoint parens (tight : bool) (e : Expr) : Z :=
  match e with
  | Prim _ => 0
  | Not x => parens true x
  | And l r | Or l r => (if tight then 1 else 0) + Z.max (parens false l) (parens true r)
  end.

Fixpoint canonical_expr (e : Expr) : Prop :=
  match e with
  | Prim p => canonical p
  | Not x => canonical_expr x
  | And l r | Or l r => canonical_expr l ∧ canonical_expr r
  end.

(** What is left of a turn of [parse_loop] behind [nots] negations. *)
Definition operand_turn (n : nat) (open : list Open) (left : option (Expr * bool)) (nots : nat) :
    P Expr :=
  paren ← eat TLParen;
  if paren : bool then
    if zlen open =? MAX_PAREN_DEPTH then
      err ("expression nested too deeply (max " +:+ show_dec MAX_PAREN_DEPTH +:+ " parentheses)")
    else parse_loop n (mk_open left nots :: open) None
  else
    prim ← parse_primitive;
    r ← fold_operand open left (Prim prim) nots;
    match r with inl e => mret e | inr (open', left') => parse_loop n open' left' end.

(** Behind an operand whose level is [expr] by now. *)
Fixpoint level_done (n : nat) (open : list Open) (expr : Expr) : P Expr :=
  op ← parse_logical_op;
  match op with
  | Some is_or => parse_loop n open (Some (expr, is_or))
  | None =>
      match open with
      | [] => mret expr
      | outer :: open' =>
          expect_tok TRParen;;
          level_done n open' (join (o_left outer) (apply_nots (o_nots outer) expr))
      end
  end.

Lemma run_ext {A B} (m : P A) (k1 k2 : A → P B) s :
  (∀ a s', k1 a s' = k2 a s') → (m ≫= k1) s = (m ≫= k2) s.
Proof. unfold mbind, M_bind. intros H. destruct (m s) as [[a s']| | |]; auto. Qed.

Lemma fold_operand_level n open left operand nots s :
  (r ← fold_operand open left operand nots;
   match r with inl e => mret e | inr (open', left') => parse_loop n open' left' end) s =
  level_done n open (join left (apply_nots nots operand)) s.
Proof.
  revert left operand nots s. induction open as [|o open IH]; intros left operand nots s;
    cbn [fold_operand level_done]; rewrite bind_assoc; apply run_ext; intros [is_or|] s'; try done.
  rewrite bind_assoc. apply run_ext. intros [] s''. apply IH.
Qed.

(** [m] on [s] comes down to [m'] with [us] in front of it. *)
Definition comes_to {A} (m : P A) (s : Parser) (m' : P A) (us : list Token) : Prop :=
  ∃ s', m s = m' s' ∧ placed_at s' us.

Lemma goes_comes {A B} (m : P A) (f : A → P B) s m' us :
  goes m s (λ a s', comes_to (f a) s' m' us) → comes_to (m ≫= f) s m' us.
Proof.
  intros (a & s' & E & s'' & E' & H). exists s''. split; [|done]. unfold mbind, M_bind. by rewrite E.
Qed.

Lemma comes_trans {A} (m : P A) s m' us m'' us' :
  comes_to m s m' us → (∀ s', placed_at s' us → comes_to m' s' m'' us') → comes_to m s m'' us'.
Proof. intros (s' & E & Hs) H. destruct (H s' Hs) as (s'' & E' & H'). exists s''. by rewrite E. Qed.

Lemma apply_nots_S k e : apply_nots (S k) e = apply_nots k (Not e).
Proof. induction k as [|k IH]; [done|]. simpl in *. by f_equal. Qed.

(** A turn, [k] negations counted already and [c] turns left to count more. *)
Definition turn_from (c n : nat) (open : list Open) (left : option (Expr * bool)) (k : nat) :
    P Expr :=
  nots ← count_nots c; operand_turn n open left (k + nots)%nat.

Lemma eat_run s t us {B} (f : bool → P B) :
  placed_at s (t :: us) → (eat t ≫= f) s = f true (set_pos (p_pos s + 1) s).
Proof.
  intros Hs. apply placed_cur in Hs. unfold eat, cur_tok, mbind, M_bind, gets. rewrite Hs. simpl.
  by rewrite decide_True.
Qed.

Lemma eat_no_run s t us {B} (f : bool → P B) :
  placed_at s us → head us ≠ Some t → (eat t ≫= f) s = f false s.
Proof.
  intros Hs Hne. apply placed_cur in Hs. unfold eat, cur_tok, mbind, M_bind, gets. rewrite Hs.
  by rewrite decide_False.
Qed.

Lemma turn_from_nots c n open left k s us :
  placed_at s (TNot :: us) →
  comes_to (turn_from (S c) n open left k) s (turn_from c n open left (S k)) us.
Proof.
  intros Hs. exists (set_pos (p_pos s + 1) s). split; [|by eapply placed_next].
  unfold turn_from. cbn [count_nots]. unfold if_eat.
  rewrite bind_assoc, (eat_run _ _ _ _ Hs). cbn beta iota. rewrite bind_assoc.
  apply run_ext. intros j s'. by rewrite Nat.add_succ_comm.
Qed.

Lemma turn_from_operand c n open left k s us :
  placed_at s us → head us ≠ Some TNot → head us ≠ Some TBang →
  turn_from (S c) n open left k s = operand_turn n open left k s.
Proof.
  intros Hs H1 H2. unfold turn_from. cbn [count_nots]. unfold if_eat.
  rewrite bind_assoc, (eat_no_run _ _ _ _ Hs H1). cbn beta iota.
  rewrite bind_assoc, (eat_no_run _ _ _ _ Hs H2). cbn beta iota.
  transitivity (operand_turn n open left (k + 0)%nat s); [done|]. by rewrite Nat.add_0_r.
Qed.

Lemma parse_loop_turn n open left s us :
  placed_at s us →
  ∃ c, (length us ≤ c)%nat ∧ parse_loop (S n) open left s = turn_from (S c) n open left 0 s.
Proof.
  intros Hs. exists (length (p_tokens s)). split; [by apply placed_length|]. done.
Qed.

Lemma show_primitive_head p :
  ∃ t ts, show_primitive p = t :: ts ∧ t ≠ TNot ∧ t ≠ TBang ∧ t ≠ TLParen.
Proof.
  assert (Hd : ∀ dir ts, ∃ t ts', show_dir dir ++ ts = t :: ts' ∧ t ≠ TNot ∧ t ≠ TBang ∧ t ≠ TLParen)
    by (intros [] ts; by do 2 eexists).
  assert (Ho : ∀ t o, ∃ ts, show_opt t o = t :: ts) by (intros t []; by eexists).
  destruct p as [[]| | | | |[]| | | | | | |[]|[]| |[]| | | | | |[[]]]; simpl; try apply Hd; by do 2 eexists.
Qed.

(** What a level does at each token that may follow an operand. *)
Lemma level_op n open e s (is_or : bool) us :
  placed_at s ((if is_or then TOr else TAnd) :: us) →
  comes_to (level_done n open e) s (parse_loop n open (Some (e, is_or))) us.
Proof.
  intros Hs. exists (set_pos (p_pos s + 1) s). split; [|by eapply placed_next].
  destruct open; cbn [level_done]; unfold parse_logical_op, if_eat; destruct is_or; rewrite bind_assoc;
    solve [by rewrite (eat_run _ _ _ _ Hs)
          |rewrite (eat_no_run _ TOr _ _ Hs) by done; cbn beta iota;
           by rewrite bind_assoc, (eat_run _ _ _ _ Hs)].
Qed.

Lemma logical_op_none s us {B} (f : option bool → P B) :
  placed_at s us → us = [] ∨ (∃ us', us = TRParen :: us') → (parse_logical_op ≫= f) s = f None s.
Proof.
  intros Hs Hus. unfold parse_logical_op, if_eat.
  rewrite bind_assoc, (eat_no_run _ TOr _ _ Hs) by (destruct Hus as [->|[? ->]]; done). cbn beta iota.
  rewrite bind_assoc, (eat_no_run _ TAnd _ _ Hs) by (destruct Hus as [->|[? ->]]; done). cbn beta iota.
  apply placed_cur in Hs. unfold cur_tok, mbind, M_bind, gets, mret, M_ret. rewrite Hs.
  by destruct Hus as [->|[? ->]].
Qed.

Lemma level_close n o open e s us :
  placed_at s (TRParen :: us) →
  comes_to (level_done n (o :: open) e) s
    (level_done n open (join (o_left o) (apply_nots (o_nots o) e))) us.
Proof.
  intros Hs. exists (set_pos (p_pos s + 1) s). split; [|by eapply placed_next].
  cbn [level_done]. rewrite (logical_op_none _ _ _ Hs) by eauto.
  unfold expect_tok. by rewrite bind_assoc, (eat_run _ _ _ _ Hs).
Qed.

Lemma level_end n e s : placed_at s [] → level_done n [] e s = Ok (e, s).
Proof. intros Hs. cbn [level_done]. by rewrite (logical_op_none _ _ _ Hs) by eauto. Qed.

(** An operand, and a whole level, is read up to what follows it. *)
Definition tight_ok (e : Expr) : Prop :=
  ∀ c n open left k s us,
    canonical_expr e → follow us → zlen open + parens true e ≤ MAX_PAREN_DEPTH →
    placed_at s (show_expr true e ++ us) →
    (length (show_expr true e ++ us) ≤ c)%nat → (length (show_expr true e ++ us) ≤ n)%nat →
    ∃ n', (length us ≤ n')%nat ∧
      comes_to (turn_from (S c) n open left k) s
        (level_done n' open (join left (apply_nots k e))) us.

Definition loose_ok (e : Expr) : Prop :=
  ∀ n open s us,
    canonical_expr e → follow us → zlen open + parens false e ≤ MAX_PAREN_DEPTH →
    placed_at s (show_expr false e ++ us) → (length (show_expr false e ++ us) ≤ n)%nat →
    ∃ n', (length us ≤ n')%nat ∧ comes_to (parse_loop (S n) open None) s (level_done n' open e) us.

Lemma comes_run {A} (m m' : P A) s m'' us : m s = m' s → comes_to m' s m'' us → comes_to m s m'' us.
Proof. intros E (s' & E' & H). exists s'. by rewrite E. Qed.

Lemma tight_prim p : tight_ok (Prim p).
Proof.
  intros c n open left k s us Hc Hf _ Hs _ Hn. cbn [show_expr] in *.
  destruct (show_primitive_head p) as (t & ts & Et & Hn1 & Hn2 & Hn3).
  exists n. split; [rewrite length_app in Hn; lia|].
  assert (Hh : head (show_primitive p ++ us) = Some t) by (by rewrite Et).
  eapply comes_run; [by apply (turn_from_operand _ _ _ _ _ _ _ Hs); rewrite Hh; intros [=]|].
  eapply comes_run; [apply (eat_no_run _ TLParen _ _ Hs); rewrite Hh; by intros [=]|].
  cbn beta iota. apply goes_comes.
  eapply goes_mono; [by apply (reads_primitive p Hc)|]. intros a s' [-> Hs'].
  exists s'. split; [apply fold_operand_level|done].
Qed.

Lemma tight_not x : tight_ok x → tight_ok (Not x).
Proof.
  intros IH c n open left k s us Hc Hf Hd Hs Hlc Hln. cbn [show_expr app length parens] in *.
  destruct c as [|c]; [lia|].
  destruct (turn_from_nots (S c) n open left k s _ Hs) as (s1 & E1 & Hs1).
  destruct (IH c n open left (S k) s1 us) as (n' & Hn' & s2 & E2 & Hs2); [done..|lia|lia|].
  exists n'. split; [done|]. exists s2. by rewrite E1, E2, apply_nots_S.
Qed.

(** A parenthesised level is an operand. *)
Lemma tight_group e :
  show_expr true e = paren (show_expr false e) → parens true e = 1 + parens false e →
  0 ≤ parens false e → loose_ok e → tight_ok e.
Proof.
  intros Eshow Ep Hp IH c n open left k s us Hc Hf Hd Hs Hlc Hln.
  rewrite Eshow in *. unfold paren in *. cbn [app length] in *. rewrite <- app_assoc in Hs.
  cbn [app] in Hs. destruct n as [|n]; [lia|].
  pose proof (placed_next _ _ _ Hs) as Hs1.
  destruct (IH n (mk_open left k :: open) (set_pos (p_pos s + 1) s) (TRParen :: us) Hc (follow_close us)) as (n' & Hn' & s2 & E2 & Hs2);
    [rewrite zlen_cons; lia|exact Hs1|rewrite !length_app in *; simpl in *; lia|].
  exists n'. split; [simpl in Hn'; lia|].
  destruct (level_close n' (mk_open left k) open e s2 us Hs2) as (s3 & E3 & Hs3).
  exists s3. split; [|done].
  rewrite (turn_from_operand _ _ _ _ _ _ _ Hs) by done. unfold operand_turn.
  rewrite (eat_run _ _ _ _ Hs). cbn beta iota.
  rewrite (proj2 (Z.eqb_neq _ _)) by lia. by rewrite E2, E3.
Qed.

Lemma loose_tight e :
  show_expr false e = show_expr true e → parens false e = parens true e → tight_ok e → loose_ok e.
Proof.
  intros Es Ep IH n open s us Hc Hf Hd Hs Hn. rewrite Es, Ep in *.
  destruct (parse_loop_turn n open None s _ Hs) as (c & Hlc & E).
  destruct (IH c n open None O s us) as (n' & Hn' & s' & E' & Hs'); [done..|].
  exists n'. split; [done|]. exists s'. by rewrite E, E'.
Qed.

Lemma loose_op (is_or : bool) e l r :
  e = (if is_or then Or l r else And l r) → loose_ok l → tight_ok r → loose_ok e.
Proof.
  intros Ee IHl IHr n open s us Hc Hf Hd Hs Hn.
  assert (Es : show_expr false e = show_expr false l ++ (if is_or then TOr else TAnd) :: show_expr true r)
    by (by subst; destruct is_or).
  assert (Ep : parens false e = Z.max (parens false l) (parens true r))
    by (subst; destruct is_or; simpl; lia).
  assert (Hcl : canonical_expr l ∧ canonical_expr r) by (by subst; destruct is_or).
  rewrite Es, Ep, <- app_assoc in *. cbn [app] in *. destruct Hcl as [Hcl Hcr].
  set (op := if is_or then TOr else TAnd) in *.
  assert (Hfo : follow (op :: show_expr true r ++ us)) by (subst op; destruct is_or; constructor).
  destruct (IHl n open s _ Hcl Hfo) as (n1 & Hn1 & s1 & E1 & Hs1); [lia|exact Hs|exact Hn|].
  destruct n1 as [|n1]; [simpl in Hn1; lia|].
  destruct (level_op (S n1) open l s1 is_or _ Hs1) as (s2 & E2 & Hs2).
  destruct (parse_loop_turn n1 open (Some (l, is_or)) s2 _ Hs2) as (c & Hlc & E3).
  cbn [length] in Hn1.
  destruct (IHr c n1 open (Some (l, is_or)) O s2 us) as (n' & Hn' & s3 & E4 & Hs3);
    [done|done|lia|done|lia|lia|].
  exists n'. split; [done|]. exists s3. split; [|done]. rewrite E1, E2, E3, E4.
  subst e. by destruct is_or.
Qed.

Lemma parens_nonneg b e : 0 ≤ parens b e.
Proof. revert b. induction e; intros []; simpl; try done; repeat match goal with H : ∀ b, _ |- _ => pose proof (H true); pose proof (H false); clear H end; lia. Qed.

Lemma exprs_ok e : tight_ok e ∧ loose_ok e.
Proof.
  induction e as [l [_ IHl] r [IHr _]|l [_ IHl] r [IHr _]|x [IHx _]|p].
  - assert (loose_ok (And l r)) by (by eapply (loose_op false)).
    split; [|done]. apply tight_group; [done|simpl; lia|apply parens_nonneg|done].
  - assert (loose_ok (Or l r)) by (by eapply (loose_op true)).
    split; [|done]. apply tight_group; [done|simpl; lia|apply parens_nonneg|done].
  - assert (tight_ok (Not x)) by (by apply tight_not). split; [done|]. by apply loose_tight.
  - pose proof (tight_prim p). split; [done|]. by apply loose_tight.
Qed.

Lemma parse_show_expr e tokens :
  canonical_expr e → parens false e ≤ MAX_PAREN_DEPTH → map token tokens = show_expr false e →
  parse tokens = Ok e.
Proof.
  intros Hc Hd Ht. set (s := mk_parser tokens 0 0).
  assert (Hs : placed_at s (show_expr false e ++ [])).
  { split; [|done]. unfold rest. simpl. by rewrite app_nil_r. }
  destruct (proj2 (exprs_ok e) (length tokens) [] s [] Hc follow_end) as (n' & _ & s' & E & Hs');
    [unfold zlen; simpl; lia|exact Hs|rewrite app_nil_r, <- Ht, length_map; lia|].
  assert (Ee : parse_expr s = Ok (e, s')).
  { unfold parse_expr, turns, gets, mbind, M_bind. cbn [p_tokens s]. rewrite E. by apply level_end. }
  unfold parse. fold s. rewrite Ee. simpl.
  rewrite (proj2 (Z.ltb_ge _ _)) by (by apply placed_end). done.
Qed.

(** * The text of a tree *)

Lemma printable_num n : is_u32 n → printable (TNum n).
Proof. done. Qed.

Lemma printable_addr4 a : is_u32 a → printable (show_addr4 a).
Proof.
  intros Ha. split; [|by constructor]. split_and!; [done| |lia..].
  unfold is_u32 in Ha. repeat constructor; ulia.
Qed.

Lemma printable_dir d : Forall printable (show_dir d).
Proof. by destruct d; repeat constructor. Qed.

Lemma printable_transport p : Forall printable (show_transport p).
Proof. by destruct p as [[]|]; repeat constructor. Qed.

Lemma printable_load layer o sz : wf_offset o → Forall printable (show_load layer o sz).
Proof.
  intros Ho. unfold show_load. assert (printable (TNum o)).
  { apply printable_num. unfold wf_offset, is_u32 in *. lia. }
  rewrite !Forall_cons. split_and!; try done; solve [by destruct layer|by destruct sz].
Qed.

Lemma printable_alu ops : Forall (λ o, is_u32 o.2) ops → Forall printable (show_alu ops).
Proof.
  induction 1 as [|[a v] ops Hv _ IH]; [constructor|]. 
  change (show_alu ((a, v) :: ops)) with (show_arith a :: TNum v :: show_alu ops).
  constructor; [by destruct a|]. constructor; [by apply printable_num|done].
Qed.

Lemma printable_opt t o : printable t → wf_option is_u32 o → Forall printable (show_opt t o).
Proof.
  intros Ht Ho. destruct o; (constructor; [done|]); [|constructor].
  constructor; [by apply printable_num|constructor].
Qed.

Lemma wf_option_impl (P Q : Z → Prop) o : (∀ x, P x → Q x) → wf_option P o → wf_option Q o.
Proof. destruct o; simpl; auto. Qed.

Lemma printable_primitive p : canonical p → Forall printable (show_primitive p).
Proof.
  assert (H8 : ∀ n, is_u8 n → printable (TNum n)) by (intros; apply printable_num; ulia).
  assert (H16 : ∀ n, is_u16 n → printable (TNum n)) by (intros; apply printable_num; ulia).
  assert (Ho : ∀ o, wf_option is_u16 o → wf_option is_u32 o)
    by (intros o; apply wf_option_impl; intros; ulia).
  pose proof printable_dir. pose proof printable_transport. pose proof printable_addr4.
  intros [Hw Hc]. destruct p as [[]| | | | |p| | | | | | | | | | | | | | | |ba]; simpl in Hw, Hc |- *;
    rewrite ?Forall_app, ?Forall_cons, ?Forall_nil;
    try by (split_and?; eauto).
  all: try by (apply printable_opt; auto).
  - destruct Hw. split_and!; auto; done.
  - destruct Hw. split_and!; auto; done.
  - destruct Hw. split_and!; auto; done.
  - destruct p; repeat apply List.Forall_cons; try done; auto.
  - rewrite Forall_app, !Forall_cons. split_and!; auto; done.
  - destruct op; split_and!; auto; done.
  - destruct Hw as (Hb & Hops & Hr).
    pose proof (printable_load (ba_layer ba) _ (ba_size ba) Hb) as Hl.
    unfold show_load in Hl. rewrite !Forall_cons in Hl. destruct Hl as (? & ? & ? & ? & ? & ? & _).
    rewrite Forall_app, Forall_cons.
    split_and!; [done..|by apply printable_alu|by destruct (ba_op ba)|].
    destruct (ba_rhs ba); [by constructor; [apply printable_num|constructor]|by apply printable_load].
Qed.

Lemma printable_expr b e : canonical_expr e → Forall printable (show_expr b e).
Proof.
  assert (Hp : ∀ ts, Forall printable ts → Forall printable (paren ts)).
  { intros ts Hts. unfold paren. rewrite Forall_cons, Forall_app, Forall_cons. by split_and!. }
  revert b. induction e as [l IHl r IHr|l IHl r IHr|x IHx|p]; intros b Hc; simpl in *.
  1,2: destruct Hc; destruct b; try apply Hp; rewrite Forall_app, Forall_cons; split_and!; auto; done.
  - rewrite Forall_cons. split; [done|auto].
  - by apply printable_primitive.
Qed.
