(* ===== verification/Facts.v ===== *)
(** Path facts and required guards (codegen.rs): what the emitter knows on the
    current path, and what an expression requires on every accepting path. *)

From stdpp Require Export gmap.
From S2P Require Export Text Ast.

(** * Link types *)

Inductive LinkType := Ethernet | RawIp | LinuxSll.

#[export] Instance LinkType_eq_dec : EqDecision LinkType.
Proof. solve_decision. Defined.

Definition link_net_offset (l : LinkType) : Z :=
  match l with Ethernet => 14 | RawIp => 0 | LinuxSll => 16 end.

Definition link_ether_proto_offset (l : LinkType) : option Z :=
  match l with Ethernet => Some 12 | LinuxSll => Some 14 | RawIp => None end.

(** * Protocol sets *)

Inductive L4Set :=
  | One (n : Z)
  | TcpOrUdp.

#[export] Instance L4Set_eq_dec : EqDecision L4Set.
Proof. solve_decision. Defined.

Definition l4_contains (s : L4Set) (p : Z) : bool :=
  match s with
  | One x => x =? p
  | TcpOrUdp => (p =? 6) || (p =? 17)
  end.

Definition subset_of (s other : L4Set) : bool :=
  match s, other with
  | One a, o => l4_contains o a
  | TcpOrUdp, TcpOrUdp => true
  | TcpOrUdp, One _ => false
  end.

Definition l4_join (a b : L4Set) : option L4Set :=
  if decide (a = b) then Some a
  else if subset_of a TcpOrUdp && subset_of b TcpOrUdp then Some TcpOrUdp
  else None.

(** [{:?}] of a [Proto] *)
Definition debug_proto (p : Proto) : string :=
  match p with
  | Ip => "Ip" | Ip6 => "Ip6" | Arp => "Arp" | Rarp => "Rarp" | Tcp => "Tcp"
  | Udp => "Udp" | Icmp => "Icmp" | Icmp6 => "Icmp6" | Igmp => "Igmp" | Sctp => "Sctp"
  | Num n => "Num(" +:+ show_dec n +:+ ")"
  | Ip6Proto n => "Ip6Proto(" +:+ show_dec n +:+ ")"
  end%string.

Definition l4set_for (proto : option Proto) : outcome L4Set :=
  match proto with
  | None => Ok TcpOrUdp
  | Some Tcp => Ok (One 6)
  | Some Udp => Ok (One 17)
  | Some Sctp => Ok (One 132)
  | Some pr =>
      Err (CodegenError ("port filter with proto " +:+ debug_proto pr +:+ " is not supported"))
  end%string.

(** * Facts *)

Record Facts := mk_facts {
  f_ethertype : option Z;
  f_ip4_proto : option Z;
  f_ip6_nh : option Z;
  f_ports_ready : option L4Set;
}.

#[export] Instance Facts_eq_dec : EqDecision Facts.
Proof. solve_decision. Defined.

Definition both {A} `{EqDecision A} (x y : option A) : option A :=
  match x, y with
  | Some p, Some q => if decide (p = q) then Some p else None
  | _, _ => None
  end.

Definition facts_meet (a b : Facts) : Facts :=
  mk_facts (both (f_ethertype a) (f_ethertype b))
    (both (f_ip4_proto a) (f_ip4_proto b))
    (both (f_ip6_nh a) (f_ip6_nh b))
    (match f_ports_ready a, f_ports_ready b with
     | Some x, Some y => l4_join x y
     | _, _ => None
     end).

(** * Guard sets *)

Record GuardSet := mk_guards {
  g_ethertype : option Z;
  g_ip4_proto : option Z;
  g_ip6_nh : option Z;
  g_port_prereqs : option L4Set;
}.

Definition guards_default : GuardSet := mk_guards None None None None.

(** [Option::or] *)
Definition or_else {A} (x y : option A) : option A :=
  match x with Some _ => x | None => y end.

Definition guards_union (g other : GuardSet) : GuardSet :=
  mk_guards (or_else (g_ethertype g) (g_ethertype other))
    (or_else (g_ip4_proto g) (g_ip4_proto other))
    (or_else (g_ip6_nh g) (g_ip6_nh other))
    (or_else (g_port_prereqs g) (g_port_prereqs other)).

Definition guards_intersect (g other : GuardSet) : GuardSet :=
  mk_guards (both (g_ethertype g) (g_ethertype other))
    (both (g_ip4_proto g) (g_ip4_proto other))
    (both (g_ip6_nh g) (g_ip6_nh other))
    (both (g_port_prereqs g) (g_port_prereqs other)).

Definition guards_eth (et : Z) : GuardSet := mk_guards (Some et) None None None.
Definition guards_ip4 (n : Z) : GuardSet := mk_guards (Some 0x0800) (Some n) None None.
Definition guards_ip6 (n : Z) : GuardSet := mk_guards (Some 0x86dd) None (Some n) None.

(** [Result::ok] *)
Definition outcome_ok {A} (o : outcome A) : option A :=
  match o with Ok a => Some a | _ => None end.

Definition proto_guards (p : Proto) : GuardSet :=
  match p with
  | Ip => guards_eth 0x0800
  | Ip6 => guards_eth 0x86dd
  | Arp => guards_eth 0x0806
  | Rarp => guards_eth 0x8035
  | Tcp => guards_ip4 6
  | Udp => guards_ip4 17
  | Icmp => guards_ip4 1
  | Igmp => guards_ip4 2
  | Sctp => guards_ip4 132
  | Num n => guards_ip4 n
  | Icmp6 => guards_ip6 58
  | Ip6Proto n => guards_ip6 n
  end.

Definition primitive_guards (prim : Primitive) : GuardSet :=
  match prim with
  | PProto p => proto_guards p
  | PHost (V4 _) _ => guards_eth 0x0800
  | PHost (V6 _) _ => guards_eth 0x86dd
  | PNet _ _ | PIpBroadcast | PIpMulticast => guards_eth 0x0800
  | PNet6 _ _ | PIp6Multicast => guards_eth 0x86dd
  | PPort _ _ proto | PPortRange _ _ _ proto =>
      mk_guards None None None (outcome_ok (l4set_for proto))
  | PEtherProto et => guards_eth et
  | PVlan _ => guards_eth 0x8100
  | PPppoeDiscovery => guards_eth 0x8863
  | PPppoeSession _ => guards_eth 0x8864
  | PIpProtoChain n => guards_ip4 n
  | PIp6ProtoChain n => guards_ip6 n
  | PMpls _ | PEtherHost _ _ | PEtherMulticast | PLen _ _ | PByteAccess _
  | PInbound | POutbound => guards_default
  end.

(** * [required_guards]

    The memo is keyed by the address of a node, which its path from the root
    of the tree being compiled identifies. *)

Definition node : Type := list bool.
Definition GuardMemo : Type := gmap node GuardSet.

Definition child_l (id : node) : node := id ++ [false].
Definition child_r (id : node) : node := id ++ [true].

Inductive Step :=
  | Visit (id : node) (e : Expr)
  | Combine (id : node) (e : Expr).

Definition is_and (e : Expr) : bool := match e with And _ _ => true | _ => false end.

Fixpoint guards_loop (n : nat) (todo : list Step) (done : list GuardSet) (memo : GuardMemo) :
    outcome (GuardSet * GuardMemo) :=
  match n with
  | O => OutOfFuel
  | S n' =>
      match todo with
      | [] =>
          match done with g :: _ => Ok (g, memo) | [] => Panic end
      | Visit id e :: todo' =>
          match memo !! id with
          | Some g => guards_loop n' todo' (g :: done) memo
          | None =>
              match e with
              | And l r | Or l r =>
                  guards_loop n' (Visit (child_l id) l :: Visit (child_r id) r
                                  :: Combine id e :: todo') done memo
              | Not _ => guards_loop n' todo' (guards_default :: done) memo
              | Prim p => guards_loop n' todo' (primitive_guards p :: done) memo
              end
          end
      | Combine id e :: todo' =>
          match done with
          | r :: l :: done' =>
              let g := if is_and e then guards_union l r else guards_intersect l r in
              guards_loop n' todo' (g :: done') (<[id := g]> memo)
          | _ => Panic
          end
      end
  end.

Definition required_guards (id : node) (e : Expr) (memo : GuardMemo) :
    outcome (GuardSet * GuardMemo) :=
  guards_loop (S (2 * size e)) [Visit id e] [] memo.

(** * The guards an expression requires, by recursion *)

Fixpoint guards_of (e : Expr) : GuardSet :=
  match e with
  | And l r => guards_union (guards_of l) (guards_of r)
  | Or l r => guards_intersect (guards_of l) (guards_of r)
  | Not _ => guards_default
  | Prim p => primitive_guards p
  end.

(** The node at a path. *)
Fixpoint subexpr (e : Expr) (id : node) {struct id} : option Expr :=
  match id with
  | [] => Some e
  | b :: id' =>
      match e with
      | And l r | Or l r => subexpr (if b then r else l) id'
      | Not x => if b then None else subexpr x id'
      | Prim _ => None
      end
  end.

Lemma subexpr_app e id id' : subexpr e (id ++ id') = x ← subexpr e id; subexpr x id'.
Proof.
  revert e. induction id as [|b id IH]; intros e; [done|].
  destruct e, b; simpl; first [reflexivity|apply IH].
Qed.

(** A memo holds the right guards for nodes of [root]. *)
Definition memo_ok (root : Expr) (memo : GuardMemo) : Prop :=
  ∀ id g, memo !! id = Some g → ∃ e, subexpr root id = Some e ∧ g = guards_of e.

Lemma memo_ok_empty root : memo_ok root ∅.
Proof. intros id g H. done. Qed.

Lemma memo_ok_insert root memo id e :
  memo_ok root memo → subexpr root id = Some e → memo_ok root (<[id := guards_of e]> memo).
Proof.
  intros Hm He id' g [[<- <-]|[_ ?]]%lookup_insert_Some; eauto.
Qed.

(** Visiting a node costs at most [2 * size e] turns and pushes its guards. *)
Definition visit_ok (root e : Expr) : Prop :=
  ∀ id todo done memo,
    subexpr root id = Some e → memo_ok root memo →
    ∃ k memo', (k ≤ 2 * size e)%nat ∧ memo_ok root memo' ∧
      ∀ n, guards_loop (k + n) (Visit id e :: todo) done memo =
           guards_loop n todo (guards_of e :: done) memo'.

(** The node need only be visited when the memo does not hold it. *)
Lemma visit_memo root e :
  (∀ id todo done memo,
    subexpr root id = Some e → memo_ok root memo → memo !! id = None →
    ∃ k memo', (k ≤ 2 * size e)%nat ∧ memo_ok root memo' ∧
      ∀ n, guards_loop (k + n) (Visit id e :: todo) done memo =
           guards_loop n todo (guards_of e :: done) memo') →
  visit_ok root e.
Proof.
  intros Hmiss id todo dn memo He Hm. destruct (memo !! id) as [g|] eqn:Hg; [|eauto].
  destruct (Hm _ _ Hg) as (e' & He' & ->). assert (e' = e) as -> by congruence.
  exists 1%nat, memo. pose proof (size_pos e). split_and!; [lia|done|].
  intros n. simpl. by rewrite Hg.
Qed.

Lemma visit_binary root e l r :
  e = And l r ∨ e = Or l r → visit_ok root l → visit_ok root r → visit_ok root e.
Proof.
  intros Hor IHl IHr. apply visit_memo. intros id todo dn memo He Hm Hg.
  destruct (IHl (child_l id) (Visit (child_r id) r :: Combine id e :: todo) dn memo)
    as (kl & ml & Hkl & Hml & El).
  { unfold child_l. rewrite subexpr_app, He. by destruct Hor as [->| ->]. }
  { done. }
  destruct (IHr (child_r id) (Combine id e :: todo) (guards_of l :: dn) ml)
    as (kr & mr & Hkr & Hmr & Er).
  { unfold child_r. rewrite subexpr_app, He. by destruct Hor as [->| ->]. }
  { done. }
  exists (S (kl + (kr + 1)))%nat, (<[id := guards_of e]> mr). split_and!.
  - destruct Hor as [->| ->]; simpl; lia.
  - by apply memo_ok_insert.
  - intros n. rewrite Nat.add_succ_l, <- !Nat.add_assoc. simpl. rewrite Hg.
    destruct Hor as [->| ->]; by rewrite El, Er.
Qed.

Lemma guards_loop_visit root e : visit_ok root e.
Proof.
  induction e as [l IHl r IHr|l IHl r IHr|x _|p].
  1, 2: by eapply visit_binary; eauto.
  all: apply visit_memo; intros id todo dn memo He Hm Hg; exists 1%nat, memo;
    split_and!; [simpl; lia|done|]; intros n; simpl; by rewrite Hg.
Qed.

(** The memoised stack machine computes [guards_of]. *)
Lemma required_guards_of root id e memo :
  subexpr root id = Some e → memo_ok root memo →
  ∃ memo', required_guards id e memo = Ok (guards_of e, memo') ∧ memo_ok root memo'.
Proof.
  intros He Hm. unfold required_guards.
  destruct (guards_loop_visit root e id [] [] memo He Hm) as (k & memo' & Hk & Hm' & E).
  exists memo'. split; [|done].
  replace (S (2 * size e))%nat with (k + S (2 * size e - k))%nat by lia.
  by rewrite E.
Qed.

(** C24: the memoised, iterative guard analysis terminates without popping an
    empty stack and gives the guards the recursive definition gives, whatever
    the memo already holds for the tree. *)
Theorem required_guards_correct (root : Expr) (id : node) (e : Expr) (memo : GuardMemo) :
  subexpr root id = Some e → memo_ok root memo →
  ∃ memo', required_guards id e memo = Ok (guards_of e, memo') ∧ memo_ok root memo'.
Proof. apply required_guards_of. Qed.

Lemma required_guards_correct_witness :
  ∃ memo', required_guards [] (Or (Prim (PProto Tcp)) (Prim (PProto Udp))) ∅ =
    Ok (guards_eth 0x0800, memo').
Proof.
  destruct (required_guards_correct (Or (Prim (PProto Tcp)) (Prim (PProto Udp))) []
    (Or (Prim (PProto Tcp)) (Prim (PProto Udp))) ∅) as (memo' & E & _);
    [done|apply memo_ok_empty|]. by exists memo'.
Defined.

(** * Laws of protocol sets *)

Lemma subset_of_contains s t p :
  subset_of s t = true → l4_contains s p = true → l4_contains t p = true.
Proof.
  destruct s as [a|], t as [b|]; simpl; intros Hs Hp; try done.
  - zbool. subst. by apply Z.eqb_refl.
  - zbool. by subst.
Qed.

(** A join of protocol sets admits every protocol that either set admits,
    and [subset_of] is inclusion. *)
Theorem l4_join_upper_bound (a b j : L4Set) (p : Z) :
  l4_join a b = Some j →
  (l4_contains a p = true ∨ l4_contains b p = true → l4_contains j p = true) ∧
  (l4_contains j p = true → subset_of j a = true → l4_contains a p = true).
Proof.
  unfold l4_join. intros Hj. split.
  - case_decide as Hab; [injection Hj as <-; subst b; tauto|].
    destruct (subset_of a TcpOrUdp) eqn:Ha, (subset_of b TcpOrUdp) eqn:Hb;
      simpl in Hj; [injection Hj as <-|done..].
    intros [?|?]; [apply (subset_of_contains a)|apply (subset_of_contains b)]; done.
  - intros. by eapply subset_of_contains.
Qed.

Lemma l4_join_upper_bound_witness : l4_contains TcpOrUdp 6 = true.
Proof.
  destruct (l4_join_upper_bound (One 6) (One 17) TcpOrUdp 6) as [H _]; [reflexivity|].
  apply H. by left.
Defined.
