(* ===== verification/Bytes.v ===== *)
(** Regions of a byte vector: reading a slice, overwriting one, and integers
    stored in little-endian order. *)

From S2P Require Export Prelude.

(** [&l[i..i+n]], for a range inside [l] *)
Definition zslice {A} (i n : Z) (l : list A) : list A :=
  take (Z.to_nat n) (drop (Z.to_nat i) l).

(** [l[i..i+bs.len()].copy_from_slice(bs)], for a range inside [l] *)
Definition zput {A} (i : Z) (bs l : list A) : list A :=
  take (Z.to_nat i) l ++ bs ++ drop (Z.to_nat (i + zlen bs)) l.

(** The unsigned integer of [n] bytes at [i]. *)
Definition le_at (n i : Z) (l : list Z) : Z := of_le_bytes (zslice i n l).

Definition bytes (l : list Z) : Prop := Forall is_u8 l.

Section regions.
Context {A : Type}.
Implicit Types (l k bs : list A) (i j n : Z).

Lemma zlen_zslice i n l : 0 ≤ i → 0 ≤ n → i + n ≤ zlen l → zlen (zslice i n l) = n.
Proof. unfold zlen, zslice. rewrite length_take, length_drop. lia. Qed.

Lemma zlen_zput i bs l : 0 ≤ i → i + zlen bs ≤ zlen l → zlen (zput i bs l) = zlen l.
Proof.
  unfold zput. rewrite !zlen_app. unfold zlen. rewrite length_take, length_drop. lia.
Qed.

Lemma zget_zslice i n l j :
  0 ≤ i → zget (zslice i n l) j = if decide (0 ≤ j < n) then zget l (i + j) else None.
Proof.
  intros Hi. rewrite !zget_spec. unfold zslice. repeat case_decide; try lia; try done.
  - rewrite lookup_take_lt by lia. rewrite lookup_drop. f_equal. lia.
  - apply lookup_take_ge. lia.
Qed.

Lemma zget_zput i bs l j :
  0 ≤ i → i + zlen bs ≤ zlen l →
  zget (zput i bs l) j = if decide (i ≤ j < i + zlen bs) then zget bs (j - i) else zget l j.
Proof.
  intros Hi Hb. unfold zput. pose proof (zlen_nonneg bs).
  assert (Ht : zlen (take (Z.to_nat i) l) = i) by (unfold zlen in *; rewrite length_take; lia).
  destruct (Z.lt_ge_cases j i).
  - rewrite zget_app_l by lia. rewrite decide_False by lia. rewrite !zget_spec.
    case_decide; [|done]. apply lookup_take_lt. lia.
  - rewrite zget_app_r, Ht by lia. case_decide.
    + by rewrite zget_app_l by lia.
    + rewrite zget_app_r by lia. rewrite !zget_spec, !decide_True by lia.
      rewrite lookup_drop. f_equal. lia.
Qed.

Lemma zslice_put_same i bs l :
  0 ≤ i → i + zlen bs ≤ zlen l → zslice i (zlen bs) (zput i bs l) = bs.
Proof.
  intros Hi Hb. pose proof (zlen_nonneg bs).
  assert (Hl : zlen (zslice i (zlen bs) (zput i bs l)) = zlen bs)
    by (apply zlen_zslice; try lia; rewrite zlen_zput; lia).
  apply zget_ext; [done|]. intros j Hj. rewrite Hl in Hj.
  rewrite zget_zslice, decide_True, zget_zput, decide_True by lia. f_equal. lia.
Qed.

(** Slices agree when the elements they are made of do. *)
Lemma zslice_ext i (k : Z) n l l' :
  0 ≤ i → 0 ≤ k → 0 ≤ n → i + n ≤ zlen l → k + n ≤ zlen l' →
  (∀ j, 0 ≤ j < n → zget l (i + j) = zget l' (k + j)) → zslice i n l = zslice k n l'.
Proof.
  intros. assert (Hl : zlen (zslice i n l) = n) by (apply zlen_zslice; lia).
  apply zget_ext; [by rewrite Hl, zlen_zslice by lia|].
  intros j Hj. rewrite Hl in Hj. rewrite !zget_zslice, !decide_True by lia. auto.
Qed.

Lemma zslice_put_disjoint i bs l (k : Z) n :
  0 ≤ i → i + zlen bs ≤ zlen l → 0 ≤ k → 0 ≤ n → k + n ≤ zlen l →
  (k + n ≤ i ∨ i + zlen bs ≤ k) → zslice k n (zput i bs l) = zslice k n l.
Proof.
  intros. apply zslice_ext; rewrite ?zlen_zput by lia; try lia.
  intros j Hj. rewrite zget_zput by lia. by rewrite decide_False by lia.
Qed.

Lemma zslice_zslice i n (k m : Z) l :
  0 ≤ i → 0 ≤ k → 0 ≤ m → k + m ≤ n → i + n ≤ zlen l →
  zslice k m (zslice i n l) = zslice (i + k) m l.
Proof.
  intros. apply zslice_ext; rewrite ?zlen_zslice by lia; try lia.
  intros j Hj. rewrite zget_zslice, decide_True by lia. f_equal. lia.
Qed.

Lemma zslice_app_l i n l k :
  0 ≤ i → 0 ≤ n → i + n ≤ zlen l → zslice i n (l ++ k) = zslice i n l.
Proof.
  intros. pose proof (zlen_nonneg k). apply zslice_ext; rewrite ?zlen_app; try lia.
  intros j Hj. apply zget_app_l. lia.
Qed.

Lemma zslice_app_r i n l k :
  zlen l ≤ i → 0 ≤ n → i + n ≤ zlen l + zlen k → zslice i n (l ++ k) = zslice (i - zlen l) n k.
Proof.
  intros. pose proof (zlen_nonneg l). apply zslice_ext; rewrite ?zlen_app; try lia.
  intros j Hj. rewrite zget_app_r by lia. f_equal. lia.
Qed.

Lemma zslice_all l : zslice 0 (zlen l) l = l.
Proof. unfold zslice. rewrite drop_0. apply take_ge. unfold zlen. lia. Qed.

Lemma Forall_zslice (P : A → Prop) i n l : Forall P l → Forall P (zslice i n l).
Proof. intros. by apply Forall_take, Forall_drop. Qed.

Lemma Forall_zput (P : A → Prop) i bs l : Forall P l → Forall P bs → Forall P (zput i bs l).
Proof. intros. apply Forall_app_2; [by apply Forall_take|]. apply Forall_app_2; [done|]. by apply Forall_drop. Qed.
End regions.

Lemma of_le_bytes_range bs : bytes bs → 0 ≤ of_le_bytes bs < 256 ^ zlen bs.
Proof.
  induction 1 as [|b bs Hb _ IH]; [done|]. rewrite zlen_cons.
  rewrite Z.pow_add_r by (pose proof (zlen_nonneg bs); lia). cbn [of_le_bytes].
  change (256 ^ 1) with 256. unfold is_u8 in Hb. lia.
Qed.

Lemma le_at_range n i l :
  bytes l → 0 ≤ i → 0 ≤ n → i + n ≤ zlen l → 0 ≤ le_at n i l < 256 ^ n.
Proof.
  intros Hl ???. unfold le_at. rewrite <- (zlen_zslice i n l) at 3 by lia.
  by apply of_le_bytes_range, Forall_zslice.
Qed.

Lemma zlen_le_bytes n x : zlen (le_bytes n x) = Z.of_nat n.
Proof. unfold zlen. by rewrite length_le_bytes. Qed.

(** Reading back an integer that was stored. *)
(** A word between other bytes. *)
Lemma le_at_word a x b :
  0 ≤ x < 2 ^ 64 → le_at 8 (zlen a) (a ++ le_bytes 8 x ++ b) = x.
Proof.
  intros Hx. unfold le_at.
  rewrite zslice_app_r; rewrite ?zlen_app, ?zlen_le_bytes; pose proof (zlen_nonneg b); try lia.
  rewrite Z.sub_diag, zslice_app_l by (rewrite ?zlen_le_bytes; lia).
  change 8 with (zlen (le_bytes 8 x)) at 1. rewrite zslice_all, of_le_bytes_le_bytes.
  apply Z.mod_small. change (256 ^ Z.of_nat 8) with (2 ^ 64). lia.
Qed.

Lemma le_at_put n i x l :
  0 ≤ i → i + Z.of_nat n ≤ zlen l → 0 ≤ x < 256 ^ Z.of_nat n →
  le_at (Z.of_nat n) i (zput i (le_bytes n x) l) = x.
Proof.
  intros. unfold le_at. rewrite <- (zlen_le_bytes n x) at 1.
  rewrite zslice_put_same by (rewrite ?zlen_le_bytes; lia).
  rewrite of_le_bytes_le_bytes. by apply Z.mod_small.
Qed.

(** A field between the other bytes of a region. *)
Lemma le_at_inside pos n (k : nat) kz off a x b l :
  0 ≤ pos → pos + n ≤ zlen l → zslice pos n l = a ++ le_bytes k x ++ b →
  kz = Z.of_nat k → off = zlen a → n = off + kz + zlen b → 0 ≤ x < 256 ^ kz →
  le_at kz (pos + off) l = x.
Proof.
  intros Hp Hl E -> -> Hn Hx. pose proof (zlen_nonneg a). pose proof (zlen_nonneg b).
  unfold le_at. rewrite <- (zslice_zslice pos n) by lia. rewrite E.
  rewrite zslice_app_r; rewrite ?zlen_app, ?zlen_le_bytes; try lia.
  rewrite Z.sub_diag, zslice_app_l by (rewrite ?zlen_le_bytes; lia).
  rewrite <- (zlen_le_bytes k x) at 1. rewrite zslice_all, of_le_bytes_le_bytes. by apply Z.mod_small.
Qed.
