(* ===== verification/Tap.v ===== *)
(** The capture crate's errors, results, timestamps and packets (pkttap's
    error.rs, packet.rs, stats.rs, timestamp.rs). A slice a packet borrows is
    modelled by the bytes it has while the borrow lasts; [Ring] shows that they
    do not change meanwhile. *)

From S2P Require Export Facts.

(** * Errors *)

(** [std::io::ErrorKind], as far as the code looks at it, and an [io::Error]
    with the text it prints. *)
Inductive ErrorKind := KPermissionDenied | KInterrupted | KWouldBlock | KBusy | KOther.

Record io_error := mk_io_error { kind : ErrorKind; io_text : string }.

#[export] Instance ErrorKind_eq_dec : EqDecision ErrorKind.
Proof. solve_decision. Defined.

(** The errors of the crate [pcap-file], and the texts they print. *)
Class PcapErrors := {
  PcapError : Type;
  pcap_text : PcapError → string;
}.

(** The crate with no errors of its own, for examples. *)
Definition no_pcap : PcapErrors := {| PcapError := Empty_set; pcap_text := λ e, match e with end |}.

Inductive TapError `{PcapErrors} :=
  | Io (e : io_error)
  | Filter (e : Error.Error)
  | Pcap (e : PcapError)
  | Platform (s : string)
  | PermissionDenied
  | WouldBlock.

(** A [Result], or the panic of the function that should have given it. *)
Inductive Result `{PcapErrors} (A : Type) :=
  | ROk (a : A)
  | RErr (e : TapError)
  | RPanic.
Arguments ROk {_ A} a.
Arguments RErr {_ A} e.
Arguments RPanic {_ A}.

#[export] Instance Result_ret `{PcapErrors} : MRet Result := λ A a, ROk a.
#[export] Instance Result_bind `{PcapErrors} : MBind Result := λ A B f r,
  match r with ROk a => f a | RErr e => RErr e | RPanic => RPanic end.

#[export] Instance Result_fmap `{PcapErrors} : FMap Result := λ A B f r,
  match r with ROk a => ROk (f a) | RErr e => RErr e | RPanic => RPanic end.

(** [impl From<io::Error>] *)
Definition from_io `{PcapErrors} (e : io_error) : TapError :=
  if decide (kind e = KPermissionDenied) then PermissionDenied else Io e.

(** [?] on a result of pktbaffle; its fuel never runs out. *)
Definition from_filter `{PcapErrors} {A} (o : outcome A) : Result A :=
  match o with
  | Ok a => ROk a
  | Err e => RErr (Filter e)
  | Panic | OutOfFuel => RPanic
  end.

(** [Error::source]: whether there is an underlying error. *)
Definition has_source `{PcapErrors} (e : TapError) : bool :=
  match e with Io _ | Filter _ => true | _ => false end.

(** * Time *)

Definition NANOS_PER_SEC : Z := 1000000000.

Record Duration := mk_duration { d_secs : Z; d_nanos : Z }.

(** A [SystemTime] on Unix: signed seconds since the epoch. *)
Record SystemTime := mk_time { tv_sec : Z; tv_nsec : Z }.

#[export] Instance Duration_eq_dec : EqDecision Duration.
Proof. solve_decision. Defined.
#[export] Instance SystemTime_eq_dec : EqDecision SystemTime.
Proof. solve_decision. Defined.

(** [Duration::new]: whole seconds carry over, or overflow. *)
Definition Duration_new `{PcapErrors} (secs nanos : Z) : Result Duration :=
  let s := secs + nanos / NANOS_PER_SEC in
  if s <? 2 ^ 64 then ROk (mk_duration s (nanos mod NANOS_PER_SEC)) else RPanic.

(** [UNIX_EPOCH + d] *)
Definition epoch_add `{PcapErrors} (d : Duration) : Result SystemTime :=
  if d_secs d <? 2 ^ 63 then ROk (mk_time (d_secs d) (d_nanos d)) else RPanic.

(** [t.duration_since(UNIX_EPOCH).unwrap_or_default()] *)
Definition since_epoch (t : SystemTime) : Duration :=
  if 0 <=? tv_sec t then mk_duration (tv_sec t) (tv_nsec t) else mk_duration 0 0.

Definition wf_time (t : SystemTime) : Prop :=
  - 2 ^ 63 ≤ tv_sec t < 2 ^ 63 ∧ 0 ≤ tv_nsec t < NANOS_PER_SEC.

(** * Packets *)

Record PacketRef := mk_packet_ref {
  pr_data : list Z;
  pr_timestamp : SystemTime;
  pr_orig_len : Z;
  pr_link_type : LinkType;
}.

Definition PacketRef_new `{PcapErrors} (data : list Z) (ts_sec ts_nsec orig_len : Z)
    (link_type : LinkType) : Result PacketRef :=
  d ← Duration_new ts_sec ts_nsec;
  timestamp ← epoch_add d;
  ROk (mk_packet_ref data timestamp orig_len link_type).

Definition ref_is_truncated (p : PacketRef) : bool := zlen (pr_data p) <? pr_orig_len p.

Record Packet := mk_packet {
  p_data : list Z;
  p_timestamp : SystemTime;
  p_orig_len : Z;
  p_link_type : LinkType;
}.

Definition to_owned (p : PacketRef) : Packet :=
  mk_packet (pr_data p) (pr_timestamp p) (pr_orig_len p) (pr_link_type p).

Definition as_ref (p : Packet) : PacketRef :=
  mk_packet_ref (p_data p) (p_timestamp p) (p_orig_len p) (p_link_type p).

Definition into_data (p : Packet) : list Z := p_data p.

Definition is_truncated (p : Packet) : bool := zlen (p_data p) <? p_orig_len p.

(** [&l[..len]] *)
Definition slice_to `{PcapErrors} (len : Z) (l : list Z) : Result (list Z) :=
  if len <=? zlen l then ROk (take (Z.to_nat len) l) else RPanic.

(** * Statistics and timestamp modes *)

Record CaptureStats := mk_stats { received : Z; dropped : Z; if_dropped : Z }.

Definition stats_default : CaptureStats := mk_stats 0 0 0.

Inductive TimestampMode := Software | Hardware.

Definition timestamp_mode_default : TimestampMode := Software.

(** * Laws *)

Section laws.
Context `{PcapErrors}.

(** A timestamp within 63 bits of seconds makes a packet. *)
Lemma PacketRef_new_ok data ts_sec ts_nsec orig_len link_type :
  0 ≤ ts_sec → 0 ≤ ts_nsec → ts_sec + ts_nsec / NANOS_PER_SEC < 2 ^ 63 →
  PacketRef_new data ts_sec ts_nsec orig_len link_type =
    ROk (mk_packet_ref data (mk_time (ts_sec + ts_nsec / NANOS_PER_SEC) (ts_nsec mod NANOS_PER_SEC))
           orig_len link_type).
Proof.
  intros ? ? Hs. unfold PacketRef_new, Duration_new, epoch_add.
  rewrite (proj2 (Z.ltb_lt _ (2 ^ 64))) by lia. unfold mbind, Result_bind. simpl.
  by rewrite (proj2 (Z.ltb_lt _ (2 ^ 63))) by lia.
Qed.

Lemma slice_to_all l : slice_to (zlen l) l = ROk l.
Proof. unfold slice_to, zlen. rewrite Z.leb_refl, Nat2Z.id. by rewrite take_ge by done. Qed.

Lemma to_owned_as_ref p : to_owned (as_ref p) = p.
Proof. by destruct p. Qed.

Lemma as_ref_to_owned p : as_ref (to_owned p) = p.
Proof. by destruct p. Qed.
End laws.
