(* ===== verification/Display.v ===== *)
(** The texts of classic instructions and programs (pktbaffle's bpf.rs) and of the
    errors of both crates (error.rs). How [{:?}] escapes a character depends on
    Unicode tables and is an argument. *)

From S2P Require Bpf.
From S2P Require Export LexerRoundtrip Tap.

(** * Padding *)

(** [{:<n}] *)
Definition pad_right (n : Z) (s : string) : string :=
  (s +:+ foldr (λ _ r, String " " r) EmptyString (replicate (Z.to_nat (n - slen s)) tt))%string.

(** [{:03}] *)
Definition pad_zeros (n : Z) (s : string) : string :=
  (foldr (λ _ r, String "0" r) EmptyString (replicate (Z.to_nat (n - slen s)) tt) +:+ s)%string.

(** * Instructions *)

Section insn.
Import Bpf.
Local Open Scope string_scope.

(** A mnemonic in its column, and an operand. *)
Definition column (mnem operand : string) : string := pad_right 8 mnem +:+ " " +:+ operand.

Definition imm (k : Z) : string := "#0x" +:+ hex k.

Definition fmt_ld (size mode k : Z) : string :=
  let mnem := (if size =? BPF_W then "ld" else if size =? BPF_H then "ldh"
               else if size =? BPF_B then "ldb" else "ld?")%Z in
  if (mode =? BPF_ABS)%Z then column mnem ("[" +:+ show_dec k +:+ "]")
  else if (mode =? BPF_IND)%Z then column mnem ("[x + " +:+ show_dec k +:+ "]")
  else if (mode =? BPF_MEM)%Z then column mnem ("M[" +:+ show_dec k +:+ "]")
  else if (mode =? BPF_LEN)%Z then column mnem "#pktlen"
  else if (mode =? BPF_IMM)%Z then column mnem (imm k)
  else column mnem ("?mode=0x" +:+ hex mode).

Definition fmt_ldx (size mode k : Z) : string :=
  if ((size =? BPF_B) && (mode =? BPF_MSH))%Z then column "ldxb" ("4*([" +:+ show_dec k +:+ "]&0xf)")
  else if (mode =? BPF_IMM)%Z then column "ldx" (imm k)
  else if (mode =? BPF_MEM)%Z then column "ldx" ("M[" +:+ show_dec k +:+ "]")
  else if (mode =? BPF_LEN)%Z then column "ldx" "#pktlen"
  else column "ldx" ("?mode=0x" +:+ hex mode).

Definition alu_mnem (op : Z) : string :=
  (if op =? BPF_ADD then "add" else if op =? BPF_SUB then "sub" else if op =? BPF_MUL then "mul"
   else if op =? BPF_DIV then "div" else if op =? BPF_OR then "or" else if op =? BPF_AND then "and"
   else if op =? BPF_LSH then "lsh" else if op =? BPF_RSH then "rsh" else if op =? BPF_XOR then "xor"
   else "alu?")%Z.

Definition fmt_alu (code k : Z) : string :=
  let op := (code .& 0xf0)%Z in
  if (op =? BPF_NEG)%Z then "neg"
  else if (code .& 0x08 =? BPF_X)%Z then column (alu_mnem op) "x"
  else column (alu_mnem op) (imm k).

Definition jmp_mnem (op : Z) : string :=
  (if op =? BPF_JEQ then "jeq" else if op =? BPF_JGT then "jgt" else if op =? BPF_JGE then "jge"
   else if op =? BPF_JSET then "jset" else "jmp?")%Z.

(** The target that is printed: absolute when the position is known. *)
Definition shown_target (pc : option Z) (offset : Z) : Z :=
  match pc with Some i => i + 1 + offset | None => offset end%Z.

Definition fmt_jmp (i : Insn) (pc : option Z) : string :=
  let code := i_code i in
  let op := (code .& 0xf0)%Z in
  if (op =? BPF_JA)%Z then column "ja" (show_dec (i_k i))
  else
    let operand := if (code .& 0x08 =? BPF_X)%Z then "x" else imm (i_k i) in
    pad_right 8 (jmp_mnem op) +:+ " " +:+ pad_right 16 operand
      +:+ " jt " +:+ pad_right 5 (show_dec (shown_target pc (i_jt i)))
      +:+ " jf " +:+ show_dec (shown_target pc (i_jf i)).

Definition fmt_insn (i : Insn) (pc : option Z) : string :=
  let code := i_code i in
  let k := i_k i in
  let class := (code .& 0x07)%Z in
  let size := (code .& 0x18)%Z in
  let mode := (code .& 0xe0)%Z in
  if (class =? BPF_LD)%Z then fmt_ld size mode k
  else if (class =? BPF_LDX)%Z then fmt_ldx size mode k
  else if (class =? BPF_ST)%Z then column "st" ("M[" +:+ show_dec k +:+ "]")
  else if (class =? BPF_STX)%Z then column "stx" ("M[" +:+ show_dec k +:+ "]")
  else if (class =? BPF_ALU)%Z then fmt_alu code k
  else if (class =? BPF_JMP)%Z then fmt_jmp i pc
  else if (class =? BPF_RET)%Z then
    if (code .& 0x10 =? 0)%Z then column "ret" (imm k) else column "ret" "a"
  else if (code .& 0xf8 =? 0x80)%Z then "txa" else "tax".

(** [Display for Insn] *)
Definition show_insn (i : Insn) : string := fmt_insn i None.

(** [Display for Program]: a line for each instruction. *)
Definition show_line (n : Z) (i : Insn) : string :=
  "(" +:+ pad_zeros 3 (show_dec n) +:+ ") " +:+ fmt_insn i (Some n) +:+ String (ascii_of_nat 10) EmptyString.

Fixpoint show_from (n : Z) (l : list Insn) : string :=
  match l with
  | [] => ""
  | i :: l' => show_line n i +:+ show_from (n + 1) l'
  end.

Definition show_program (p : Program) : string := show_from 0 (insns p).

Example display_samples :
  map show_insn [ldh_abs 12; ldb_abs 23; ldw_abs 0; ldx_msh 14; and_k 0xff; ja 3; jeq_k 0x800 1 14;
                 ret_k BPF_ACCEPT; ret_k BPF_DROP; tax; mk_insn (BPF_MISC .| BPF_TXA) 0 0 0;
                 mk_insn (BPF_ALU .| BPF_NEG) 0 0 0; ldb_ind 2; st 1] =
  ["ldh      [12]"; "ldb      [23]"; "ld       [0]"; "ldxb     4*([14]&0xf)"; "and      #0xff"; "ja       3";
   "jeq      #0x800           jt 1     jf 14"; "ret      #0xffffffff"; "ret      #0x0"; "tax"; "txa"; "neg";
   "ldb      [x + 2]"; "st       M[1]"].
Proof. vm_compute. reflexivity. Qed.

Example display_program_absolute_jump_targets :
  show_program (mk_program [ldh_abs 12; jeq_k 0x800 1 13]) =
  "(000) ldh      [12]
(001) jeq      #0x800           jt 3     jf 15
".
Proof. vm_compute. reflexivity. Qed.
End insn.

(** * Errors *)

Section errors.
Local Open Scope string_scope.
Context (debug_char : Z → string).

(** [Display for pktbaffle::Error] *)
Definition show_error (e : Error.Error) : string :=
  match e with
  | LexError offset ch =>
      "unexpected character " +:+ debug_char ch +:+ " at offset " +:+ show_dec offset
  | ParseError message => "parse error: " +:+ message
  | CodegenError message => "codegen error: " +:+ message
  end.

(** [Display for pkttap::Error] *)
Definition show_tap_error `{PcapErrors} (e : TapError) : string :=
  match e with
  | Io e => "I/O error: " +:+ io_text e
  | Filter e => "filter error: " +:+ show_error e
  | Pcap e => "pcap error: " +:+ pcap_text e
  | Platform s => "platform error: " +:+ s
  | PermissionDenied =>
      "permission denied — packet capture requires elevated privileges (root / CAP_NET_RAW)"
  | WouldBlock => "no packet available (non-blocking capture)"
  end.
End errors.

(** * A line for each instruction *)

Section lines.

(** A text on one line. *)
Definition one_line (s : string) : Prop := count_byte (ascii_of_nat 10) s = 0.

Lemma one_line_app s t : one_line s → one_line t → one_line (s +:+ t).
Proof. unfold one_line. rewrite count_byte_app. lia. Qed.

Lemma one_line_cons c s : c ≠ ascii_of_nat 10 → one_line s → one_line (String c s).
Proof. unfold one_line. cbn [count_byte]. intros Hc. by rewrite (proj2 (Ascii.eqb_neq _ _) Hc). Qed.

Lemma one_line_dec n : one_line (show_dec n).
Proof.
  unfold show_dec. assert (H : ∀ fuel n acc, one_line acc → one_line (dec_digits fuel n acc)).
  { intros fuel. induction fuel as [|fuel IH]; intros m acc Ha; cbn [dec_digits].
    all: assert (one_line (String (dec_digit (m mod 10)) acc)).
    1,3: apply one_line_cons; [|done]; intros E;
      pose proof (proj1 (dec_digit_spec (m mod 10) ltac:(apply Z.mod_pos_bound; lia))) as Hd; by rewrite E in Hd.
    - done.
    - case_match; [done|]. by apply IH. }
  by apply H.
Qed.

Lemma one_line_hex n : one_line (hex n).
Proof.
  unfold hex. assert (H : ∀ fuel width n acc, one_line acc → one_line (hex_digits fuel width n acc)).
  { intros fuel. induction fuel as [|fuel IH]; intros width m acc Ha; cbn [hex_digits]; [done|].
    assert (one_line (String (hex_digit (m mod 16)) acc)).
    { apply one_line_cons; [|done]. intros E.
      pose proof (proj1 (hex_digit_spec (m mod 16) ltac:(apply Z.mod_pos_bound; lia))) as Hd. by rewrite E in Hd. }
    repeat case_match; auto. }
  by apply H.
Qed.

Lemma one_line_repeat c n : c ≠ ascii_of_nat 10 →
  one_line (foldr (λ _ r, String c r) EmptyString (replicate n tt)).
Proof. intros Hc. induction n; [done|]. by apply one_line_cons. Qed.

Lemma one_line_pad n s : one_line s → one_line (pad_right n s) ∧ one_line (pad_zeros n s).
Proof. intros Hs. by split; apply one_line_app; try apply one_line_repeat. Qed.

Lemma one_line_pad_right n s : one_line s → one_line (pad_right n s).
Proof. intros. by apply one_line_pad. Qed.

Lemma one_line_column m s : one_line m → one_line s → one_line (column m s).
Proof. intros. apply one_line_app; [by apply one_line_pad|]. by apply one_line_app. Qed.

Lemma one_line_if (b : bool) s t : one_line s → one_line t → one_line (if b then s else t).
Proof. by destruct b. Qed.

Lemma fmt_insn_one_line i pc : one_line (fmt_insn i pc).
Proof.
  unfold fmt_insn, fmt_ld, fmt_ldx, fmt_alu, fmt_jmp, alu_mnem, jmp_mnem, imm.
  repeat lazymatch goal with
    | |- one_line (if _ then _ else _) => apply one_line_if
    | |- one_line (column _ _) => apply one_line_column
    | |- one_line (show_dec _) => apply one_line_dec
    | |- one_line (hex _) => apply one_line_hex
    | |- one_line (pad_right _ _) => apply one_line_pad_right
    | |- one_line (_ +:+ _) => apply one_line_app
    | |- _ => done
    end.
Qed.

(** The text of a program has a line for each of its instructions. *)
Lemma show_program_lines p : count_byte (ascii_of_nat 10) (show_program p) = Bpf.len p.
Proof.
  unfold show_program, Bpf.len. generalize 0. induction (Bpf.insns p) as [|i l IH]; intros n; [done|].
  cbn [show_from]. rewrite zlen_cons, count_byte_app, IH. unfold show_line. rewrite !count_byte_app.
  rewrite (proj2 (one_line_pad 3 _ (one_line_dec n))), (fmt_insn_one_line i (Some n)). reflexivity.
Qed.
End lines.
