(* ===== verification/Ring.v ===== *)
(** The memory-mapped capture ring (pkttap's ring.rs and live/linux_ring.rs):
    its geometry, the frame walk, and the hand-over of blocks between the
    kernel and the reader. The mapping is a vector of bytes that both sides
    write; a machine word in it is little-endian, as on the targets the crate
    runs on. An access outside the mapping would be undefined behaviour and is
    modelled as a panic. *)

From S2P Require Export Bytes Tap.

(** * Configuration (ring.rs) *)

Record RingConfig := mk_ring_config {
  rc_block_size : Z;
  rc_block_count : Z;
  rc_retire_timeout : Duration;
}.

Definition DEFAULT_BLOCK_SIZE : Z := 256 * 1024.
Definition DEFAULT_BLOCK_COUNT : Z := 16.
Definition DEFAULT_RETIRE_TIMEOUT : Duration := mk_duration 0 100000000.

Definition ring_config_new : RingConfig :=
  mk_ring_config DEFAULT_BLOCK_SIZE DEFAULT_BLOCK_COUNT DEFAULT_RETIRE_TIMEOUT.

Definition with_block_size (bytes : Z) (c : RingConfig) : RingConfig :=
  mk_ring_config bytes (rc_block_count c) (rc_retire_timeout c).
Definition with_block_count (n : Z) (c : RingConfig) : RingConfig :=
  mk_ring_config (rc_block_size c) n (rc_retire_timeout c).
Definition with_retire_timeout (d : Duration) (c : RingConfig) : RingConfig :=
  mk_ring_config (rc_block_size c) (rc_block_count c) d.

(** * Kernel ABI *)

Definition TPACKET_V3 : Z := 2.
Definition TP_STATUS_USER : Z := 1.
Definition TP_STATUS_KERNEL : Z := 0.
Definition TPACKET_ALIGNMENT : Z := 16.
Definition BLOCK_STATUS_OFFSET : Z := 8.

(** The sizes of [TpacketBlockDesc], [Tpacket3Hdr] and [sockaddr_ll]. *)
Definition DESC_SIZE : Z := 48.
Definition HDR_SIZE : Z := 48.
Definition SOCKADDR_LL_SIZE : Z := 20.

Definition usize_max : Z := 2 ^ 64 - 1.

(** [a.checked_add(b)] and [a.checked_mul(b)] on [usize] *)
Definition checked_add (a b : Z) : option Z := if a + b <=? usize_max then Some (a + b) else None.
Definition checked_mul (a b : Z) : option Z := if a * b <=? usize_max then Some (a * b) else None.
Definition saturating_add (a b : Z) : Z := Z.min (a + b) usize_max.

(** Plain arithmetic, which panics on overflow. *)
Definition or_panic `{PcapErrors} {A} (o : option A) : Result A :=
  match o with Some a => ROk a | None => RPanic end.

Definition ok_or `{PcapErrors} {A} (msg : string) (o : option A) : Result A :=
  match o with Some a => ROk a | None => RErr (Platform msg) end.

Definition tpacket_align `{PcapErrors} (n : Z) : Result Z :=
  m ← or_panic (checked_add n (TPACKET_ALIGNMENT - 1));
  ROk (Z.ldiff m (TPACKET_ALIGNMENT - 1)).

Definition tpacket3_hdrlen : Z := HDR_SIZE + SOCKADDR_LL_SIZE.

Record TpacketReq3 := mk_req {
  tp_block_size : Z;
  tp_block_nr : Z;
  tp_frame_size : Z;
  tp_frame_nr : Z;
  tp_retire_blk_tov : Z;
  tp_sizeof_priv : Z;
  tp_feature_req_word : Z;
}.

(** The fields of a block descriptor and of a frame header that are read. *)
Record TpacketBlockDesc := mk_desc {
  block_status_field : Z;
  num_pkts : Z;
  offset_to_first_pkt : Z;
}.

Record Tpacket3Hdr := mk_hdr {
  tp_next_offset : Z;
  tp_sec : Z;
  tp_nsec : Z;
  tp_snaplen : Z;
  tp_len : Z;
  tp_status : Z;
  tp_mac : Z;
  tp_net : Z;
}.

(** * Geometry *)

Record Geometry := mk_geometry {
  block_size : Z;
  block_count : Z;
  frame_size : Z;
  frame_count : Z;
  map_len : Z;
}.

Definition MIN_FRAME_SIZE : Z := 2048.

Definition div_ceil (n m : Z) : Z := (n + m - 1) / m.

Definition round_up `{PcapErrors} (n multiple : Z) : Result Z :=
  if negb (0 <? multiple) then RPanic
  else or_panic (checked_mul (div_ceil n multiple) multiple).

Definition fits_u32 (n : Z) : bool := n <=? u32_max.

Definition ring_geometry `{PcapErrors} (cfg : RingConfig) (snaplen page_size : Z) : Result Geometry :=
  if rc_block_count cfg =? 0 then RErr (Platform "ring block_count must be at least 1")
  else if rc_block_size cfg =? 0 then RErr (Platform "ring block_size must be non-zero")
  else
    aligned ← tpacket_align (saturating_add snaplen tpacket3_hdrlen);
    let frame_size := Z.max aligned MIN_FRAME_SIZE in
    block_size ← round_up (Z.max (rc_block_size cfg) frame_size) page_size;
    let frames_per_block := block_size / frame_size in
    frame_count ← ok_or "ring frame count overflows" (checked_mul frames_per_block (rc_block_count cfg));
    map_len ← ok_or "ring size overflows" (checked_mul block_size (rc_block_count cfg));
    if negb (fits_u32 block_size) || negb (fits_u32 (rc_block_count cfg)) || negb (fits_u32 frame_count) then
      RErr (Platform ("ring geometry too large: " ++ show_dec (rc_block_count cfg) ++ " blocks of "
                      ++ show_dec block_size ++ " bytes"))
    else ROk (mk_geometry block_size (rc_block_count cfg) frame_size frame_count map_len).

(** [Duration::as_millis] and [is_zero] *)
Definition as_millis (d : Duration) : Z := d_secs d * 1000 + d_nanos d / 1000000.
Definition is_zero (d : Duration) : bool := (d_secs d =? 0) && (d_nanos d =? 0).

Definition retire_tov_ms (cfg : RingConfig) : Z :=
  let ms := as_millis (rc_retire_timeout cfg) in
  if ms =? 0 then if is_zero (rc_retire_timeout cfg) then 0 else 1
  else Z.min ms u32_max.

(** * The frame walk *)

Record FrameMeta := mk_meta {
  m_offset : Z;
  m_len : Z;
  m_ts_sec : Z;
  m_ts_nsec : Z;
  m_orig_len : Z;
}.

Definition parse_block_desc (block : list Z) : option TpacketBlockDesc :=
  if zlen block <? DESC_SIZE then None
  else Some (mk_desc (le_at 4 BLOCK_STATUS_OFFSET block) (le_at 4 12 block) (le_at 4 16 block)).

(** The [read_unaligned] of a header, in bounds by the test in front of it. *)
Definition read_hdr (block : list Z) (offset : Z) : Tpacket3Hdr :=
  mk_hdr (le_at 4 offset block) (le_at 4 (offset + 4) block) (le_at 4 (offset + 8) block)
    (le_at 4 (offset + 12) block) (le_at 4 (offset + 16) block) (le_at 4 (offset + 20) block)
    (le_at 2 (offset + 24) block) (le_at 2 (offset + 26) block).

Definition parse_frame (block : list Z) (offset snaplen : Z) : option (FrameMeta * option Z) :=
  hdr_end ← checked_add offset HDR_SIZE;
  if zlen block <? hdr_end then None
  else
    let hdr := read_hdr block offset in
    data_start ← checked_add offset (tp_mac hdr);
    let stored := tp_snaplen hdr in
    data_end ← checked_add data_start stored;
    if zlen block <? data_end then None
    else
      next ← (if tp_next_offset hdr =? 0 then Some None
              else n ← checked_add offset (tp_next_offset hdr); Some (Some n));
      Some (mk_meta data_start (Z.min stored snaplen) (tp_sec hdr) (tp_nsec hdr) (tp_len hdr), next).

(** * The ring *)

Record Walk := mk_walk { w_offset : Z; w_remaining : Z }.

Record Ring := mk_ring {
  r_geom : Geometry;
  r_cur_block : Z;
  r_walk : option Walk;
  r_snaplen : Z;
  r_nonblocking : bool;
}.

Definition set_walk (w : option Walk) (r : Ring) : Ring :=
  mk_ring (r_geom r) (r_cur_block r) w (r_snaplen r) (r_nonblocking r).

Definition set_nonblocking (nb : bool) (r : Ring) : Ring :=
  mk_ring (r_geom r) (r_cur_block r) (r_walk r) (r_snaplen r) nb.

(** What the system calls of [open] answer: the version and ring options, and
    the mapping. *)
Record open_answers := mk_answers {
  a_version : option io_error;
  a_ring : option io_error;
  a_mmap : option io_error;
}.

Definition ring_request (cfg : RingConfig) (geom : Geometry) : TpacketReq3 :=
  mk_req (as_u32 (block_size geom)) (as_u32 (block_count geom)) (as_u32 (frame_size geom))
    (as_u32 (frame_count geom)) (retire_tov_ms cfg) 0 0.

Definition ring_open `{PcapErrors} (ans : open_answers) (cfg : RingConfig) (snaplen page_size : Z) :
    Result Ring :=
  match a_version ans with
  | Some e => RErr (Platform ("TPACKET_V3 ring capture is unavailable on this kernel (requires Linux 3.2+): "
                              ++ io_text e))
  | None =>
      geom ← ring_geometry cfg snaplen page_size;
      match a_ring ans with
      | Some e => RErr (Platform ("failed to allocate a " ++ show_dec (block_count geom) ++ "×"
                                  ++ show_dec (block_size geom) ++ " byte TPACKET_V3 ring: " ++ io_text e))
      | None =>
          match a_mmap ans with
          | Some e => RErr (from_io e)
          | None => ROk (mk_ring geom 0 None snaplen false)
          end
      end
  end.

(** The bytes of block [i], and its status word, in the mapping [m]. *)
Definition block `{PcapErrors} (r : Ring) (m : list Z) (i : Z) : Result (list Z) :=
  let bs := block_size (r_geom r) in
  if (0 <=? i * bs) && (i * bs + bs <=? zlen m) then ROk (zslice (i * bs) bs m) else RPanic.

Definition status_word `{PcapErrors} (r : Ring) (m : list Z) (i : Z) : Result Z :=
  if negb (i <? block_count (r_geom r)) then RPanic
  else
    let a := i * block_size (r_geom r) + BLOCK_STATUS_OFFSET in
    if (0 <=? a) && (a + 4 <=? zlen m) then ROk a else RPanic.

Definition block_status `{PcapErrors} (r : Ring) (m : list Z) (i : Z) : Result Z :=
  a ← status_word r m i; ROk (le_at 4 a m).

Definition release_block `{PcapErrors} (r : Ring) (m : list Z) : Result (Ring * list Z) :=
  a ← status_word r m (r_cur_block r);
  ROk (mk_ring (r_geom r) ((r_cur_block r + 1) mod block_count (r_geom r)) None (r_snaplen r)
         (r_nonblocking r),
       zput a (le_bytes 4 TP_STATUS_KERNEL) m).

(** What a call to [poll] answers; an interruption is no error. *)
Definition wait `{PcapErrors} (answer : option io_error) : Result unit :=
  match answer with
  | None => ROk tt
  | Some e => if decide (kind e = KInterrupted) then ROk tt else RErr (from_io e)
  end.

(** A turn of the loop of [next_frame]: it goes on, returns, or waits. *)
Inductive turn :=
  | Again (r : Ring) (m : list Z)
  | Return_ (x : option FrameMeta) (r : Ring) (m : list Z)
  | Wait.

Definition next_frame_turn `{PcapErrors} (r : Ring) (m : list Z) : Result turn :=
  match r_walk r with
  | None =>
      status ← block_status r m (r_cur_block r);
      if status .& TP_STATUS_USER =? 0 then
        if r_nonblocking r then ROk (Return_ None r m) else ROk Wait
      else
        b ← block r m (r_cur_block r);
        let '(offset, remaining) :=
          match parse_block_desc b with
          | Some desc => (offset_to_first_pkt desc, num_pkts desc)
          | None => (0, 0)
          end in
        ROk (Again (set_walk (Some (mk_walk offset remaining)) r) m)
  | Some walk =>
      if w_remaining walk =? 0 then
        '(r', m') ← release_block r m; ROk (Again r' m')
      else
        let block_start := r_cur_block r * block_size (r_geom r) in
        b ← block r m (r_cur_block r);
        match parse_frame b (w_offset walk) (r_snaplen r) with
        | None => '(r', m') ← release_block r m; ROk (Again r' m')
        | Some (meta, next) =>
            let w' :=
              match next with
              | Some offset =>
                  if 1 <? w_remaining walk then mk_walk offset (w_remaining walk - 1) else mk_walk 0 0
              | None => mk_walk 0 0
              end in
            ROk (Return_ (Some (mk_meta (block_start + m_offset meta) (m_len meta) (m_ts_sec meta)
                                  (m_ts_nsec meta) (m_orig_len meta)))
                   (set_walk (Some w') r) m)
        end
  end.

(** The loop. Each call to [poll] takes the next element of [polls]: its answer
    and the mapping as it is when the call returns. A wait that no element
    answers lasts for ever, [Blocked]. *)
Inductive next_result :=
  | Returned (x : option FrameMeta) (r : Ring) (m : list Z)
  | Blocked (r : Ring) (m : list Z).

Fixpoint next_frame `{PcapErrors} (n : nat) (polls : list (option io_error * list Z)) (r : Ring)
    (m : list Z) : option (Result next_result) :=
  match n with
  | O => None
  | S n' =>
      match next_frame_turn r m with
      | ROk (Again r' m') => next_frame n' polls r' m'
      | ROk (Return_ x r' m') => Some (ROk (Returned x r' m'))
      | ROk Wait =>
          match polls with
          | [] => Some (ROk (Blocked r m))
          | (answer, m') :: polls' =>
              match wait answer with
              | ROk tt => next_frame n' polls' r m'
              | RErr e => Some (RErr e)
              | RPanic => Some RPanic
              end
          end
      | RErr e => Some (RErr e)
      | RPanic => Some RPanic
      end
  end.

(** The packet [next_packet] makes of a frame: it borrows from the mapping. *)
Definition packet_at `{PcapErrors} (link_type : LinkType) (meta : FrameMeta) (m : list Z) :
    Result PacketRef :=
  if (0 <=? m_offset meta) && (m_offset meta + m_len meta <=? zlen m) then
    PacketRef_new (zslice (m_offset meta) (m_len meta) m) (m_ts_sec meta) (m_ts_nsec meta)
      (m_orig_len meta) link_type
  else RPanic.

Definition next_packet `{PcapErrors} (n : nat) (polls : list (option io_error * list Z))
    (link_type : LinkType) (r : Ring) (m : list Z) :
    option (Result (option PacketRef * next_result)) :=
  out ← next_frame n polls r m;
  Some (x ← out;
        match x with
        | Returned (Some meta) r' m' => p ← packet_at link_type meta m'; ROk (Some p, x)
        | _ => ROk (None, x)
        end).
