(* ===== verification/RingSound.v ===== *)
(** What the ring guarantees whatever the kernel writes into it: its geometry
    is one the kernel accepts, every access stays inside the mapping, a call
    returns, and the bytes of a packet do not change until the next call. *)

From S2P Require Export Ring.

(** * Geometry *)

(** What the kernel requires of a ring request, and the reader of the ring. *)
Record valid_geometry (cfg : RingConfig) (snaplen page_size : Z) (g : Geometry) : Prop := {
  vg_page : block_size g mod page_size = 0;
  vg_block : rc_block_size cfg ≤ block_size g < 2 ^ 32;
  vg_count : block_count g = rc_block_count cfg ∧ 0 < block_count g < 2 ^ 32;
  vg_align : frame_size g mod TPACKET_ALIGNMENT = 0;
  vg_frame : snaplen + tpacket3_hdrlen ≤ frame_size g ∧ MIN_FRAME_SIZE ≤ frame_size g ≤ block_size g;
  vg_frames : frame_count g = block_size g / frame_size g * block_count g ∧ 0 < frame_count g < 2 ^ 32;
  vg_map : map_len g = block_size g * block_count g ∧ map_len g < 2 ^ 64;
}.

Section geometry.
Context `{PcapErrors}.

Lemma tpacket_align_spec n :
  0 ≤ n < 2 ^ 60 → ∃ a, tpacket_align n = ROk a ∧ a mod 16 = 0 ∧ n ≤ a < n + 16.
Proof.
  intros Hn. unfold tpacket_align, checked_add, TPACKET_ALIGNMENT, usize_max.
  rewrite (proj2 (Z.leb_le _ _)) by lia. eexists. split; [done|].
  change (16 - 1) with (Z.ones 4). rewrite Z.ldiff_ones_r, Z.shiftl_mul_pow2, Z.shiftr_div_pow2 by lia.
  change (2 ^ 4) with 16. change (Z.ones 4) with 15. split; [by rewrite Z.mod_mul|].
  Z.div_mod_to_equations. lia.
Qed.

Lemma div_ceil_spec n m : 0 < m → 0 ≤ n → n ≤ div_ceil n m * m < n + m.
Proof. intros. unfold div_ceil. pose proof (Z.div_mod (n + m - 1) m). pose proof (Z.mod_pos_bound (n + m - 1) m). nia. Qed.

Lemma round_up_spec n m :
  0 < m → 0 ≤ n → n + m ≤ 2 ^ 64 →
  ∃ b, round_up n m = ROk b ∧ b mod m = 0 ∧ n ≤ b < n + m.
Proof.
  intros Hm Hn Hb. pose proof (div_ceil_spec n m Hm Hn). unfold round_up, checked_mul, usize_max.
  rewrite (proj2 (Z.ltb_lt _ _)), (proj2 (Z.leb_le _ _)) by lia. eexists. split; [done|].
  split; [by rewrite Z.mod_mul by lia|done].
Qed.

(** The range of a configuration whose block size can be rounded up. *)
Definition sane_config (cfg : RingConfig) (snaplen page_size : Z) : Prop :=
  0 ≤ rc_block_size cfg ∧ 0 ≤ rc_block_count cfg ∧ is_u32 snaplen ∧
  0 < page_size < 2 ^ 32 ∧ rc_block_size cfg + page_size ≤ 2 ^ 64.

Lemma ring_geometry_spec cfg snaplen page_size :
  sane_config cfg snaplen page_size →
  match ring_geometry cfg snaplen page_size with
  | ROk g => valid_geometry cfg snaplen page_size g
  | RErr _ => rc_block_count cfg = 0 ∨ rc_block_size cfg = 0 ∨
      2 ^ 32 ≤ (Z.max (rc_block_size cfg) (snaplen + 2048) + page_size) * rc_block_count cfg
  | RPanic => False
  end.
Proof.
  intros (Hs & Hc & Hl & Hp & Hb). unfold ring_geometry, is_u32 in *.
  destruct (Z.eqb_spec (rc_block_count cfg) 0); [auto|].
  destruct (Z.eqb_spec (rc_block_size cfg) 0); [auto|].
  destruct (tpacket_align_spec (saturating_add snaplen tpacket3_hdrlen)) as (a & Ea & Hal & Har).
  { unfold saturating_add, usize_max, tpacket3_hdrlen, HDR_SIZE, SOCKADDR_LL_SIZE. lia. }
  assert (Hsat : saturating_add snaplen tpacket3_hdrlen = snaplen + 68)
    by (unfold saturating_add, usize_max, tpacket3_hdrlen, HDR_SIZE, SOCKADDR_LL_SIZE; lia).
  rewrite Ea. rewrite Hsat in Har. unfold mbind, Result_bind.
  set (fs := Z.max a MIN_FRAME_SIZE).
  assert (Hfs : MIN_FRAME_SIZE ≤ fs ≤ snaplen + 2048 ∧ snaplen + 68 ≤ fs) by (unfold fs, MIN_FRAME_SIZE in *; lia).
  assert (Hfa : fs mod 16 = 0)
    by (unfold fs; destruct (Z.max_spec a MIN_FRAME_SIZE) as [[_ ->]|[_ ->]]; done).
  unfold MIN_FRAME_SIZE in Hfs.
  destruct (round_up_spec (Z.max (rc_block_size cfg) fs) page_size) as (b & Eb & Hbm & Hbr); try lia.
  rewrite Eb. set (c := rc_block_count cfg) in *.
  assert (Hq : 0 < b / fs ≤ b) by (split; [apply Z.div_str_pos; lia|apply Z.div_le_upper_bound; nia]).
  assert (Hbig : ∀ x, x ≤ b * c → 2 ^ 32 ≤ x →
    2 ^ 32 ≤ (Z.max (rc_block_size cfg) (snaplen + 2048) + page_size) * c).
  { intros x Hx ?. assert (b * c ≤ (Z.max (rc_block_size cfg) (snaplen + 2048) + page_size) * c)
      by (apply Z.mul_le_mono_nonneg_r; lia). lia. }
  assert (Hf : b / fs * c ≤ b * c) by (apply Z.mul_le_mono_nonneg_r; lia).
  assert (Hbc : b ≤ b * c ∧ c ≤ b * c ∧ 0 < b / fs * c) by nia.
  unfold checked_mul, usize_max, ok_or, fits_u32, u32_max.
  destruct (Z.leb_spec (b / fs * c) (2 ^ 64 - 1)); [|right; right; apply (Hbig (b / fs * c)); lia].
  destruct (Z.leb_spec (b * c) (2 ^ 64 - 1)); [|right; right; apply (Hbig (b * c)); lia].
  destruct (Z.leb_spec b (2 ^ 32 - 1)); [|right; right; apply (Hbig b); lia].
  destruct (Z.leb_spec c (2 ^ 32 - 1)); [|right; right; apply (Hbig c); lia].
  destruct (Z.leb_spec (b / fs * c) (2 ^ 32 - 1)); [|right; right; apply (Hbig (b / fs * c)); lia].
  simpl. split; unfold tpacket3_hdrlen, HDR_SIZE, SOCKADDR_LL_SIZE, MIN_FRAME_SIZE, TPACKET_ALIGNMENT; simpl; try lia.
Qed.

(** C20: for every configuration whose block size can be rounded up to a page, the
    geometry of a ring satisfies all that the kernel requires (page-aligned
    blocks, aligned frames that hold a captured packet with its header, a frame
    count that is exactly that of all blocks, every number within its field) or
    the configuration is rejected, which only happens for an empty ring or one
    too large for the kernel's fields; it never overflows. *)
Theorem ring_geometry_valid (cfg : RingConfig) (snaplen page_size : Z) :
  sane_config cfg snaplen page_size →
  match ring_geometry cfg snaplen page_size with
  | ROk g => valid_geometry cfg snaplen page_size g
  | RErr _ => rc_block_count cfg = 0 ∨ rc_block_size cfg = 0 ∨
      2 ^ 32 ≤ (Z.max (rc_block_size cfg) (snaplen + 2048) + page_size) * rc_block_count cfg
  | RPanic => False
  end.
Proof. apply ring_geometry_spec. Qed.

(** A block size within a page of the address space is not rejected as too
    large: rounding it up overflows first. *)
Theorem ring_geometry_overflow :
  ring_geometry (with_block_size (2 ^ 64 - 1) ring_config_new) 65535 4096 = RPanic.
Proof. vm_compute. reflexivity. Qed.
End geometry.

#[local] Existing Instance no_pcap.

Lemma ring_geometry_valid_witness :
  valid_geometry ring_config_new 65535 4096 (mk_geometry 262144 16 65616 48 4194304).
Proof.
  apply (ring_geometry_valid ring_config_new 65535 4096).
  unfold sane_config, is_u32. simpl. unfold DEFAULT_BLOCK_SIZE, DEFAULT_BLOCK_COUNT. lia.
Defined.

(** * Ownership of blocks *)

(** The kernel has handed block [i] over. *)
Definition handed (g : Geometry) (m : list Z) (i : Z) : bool :=
  negb (le_at 4 (i * block_size g + BLOCK_STATUS_OFFSET) m .& TP_STATUS_USER =? 0).

Definition block_bytes (g : Geometry) (m : list Z) (i : Z) : list Z :=
  zslice (i * block_size g) (block_size g) m.

Record sized (g : Geometry) (m : list Z) : Prop := {
  sz_block : MIN_FRAME_SIZE ≤ block_size g < 2 ^ 32;
  sz_count : 0 < block_count g;
  sz_map : zlen m = block_size g * block_count g;
  sz_bytes : bytes m;
}.

(** What the kernel may do while the reader is not looking: it writes nothing
    in a block it has handed over. *)
Definition kernel_writes (g : Geometry) (m m' : list Z) : Prop :=
  sized g m' ∧
  ∀ i, 0 ≤ i < block_count g → handed g m i = true → block_bytes g m' i = block_bytes g m i.

Record ring_ok (r : Ring) (m : list Z) : Prop := {
  rk_sized : sized (r_geom r) m;
  rk_cur : 0 ≤ r_cur_block r < block_count (r_geom r);
  rk_walk : ∀ w, r_walk r = Some w →
    handed (r_geom r) m (r_cur_block r) = true ∧ 0 ≤ w_offset w ∧ 0 ≤ w_remaining w;
  rk_snaplen : 0 ≤ r_snaplen r;
}.

Section blocks.
Context (g : Geometry) (m : list Z).
Hypothesis (Hg : sized g m).

Lemma block_range i :
  0 ≤ i < block_count g →
  0 ≤ i * block_size g ∧ i * block_size g + block_size g ≤ zlen m ∧ MIN_FRAME_SIZE ≤ block_size g.
Proof. destruct Hg as [? ? -> _]. unfold MIN_FRAME_SIZE in *. nia. Qed.

Lemma zlen_block_bytes i : 0 ≤ i < block_count g → zlen (block_bytes g m i) = block_size g.
Proof. intros Hi. pose proof (block_range i Hi). unfold MIN_FRAME_SIZE in *. apply zlen_zslice; lia. Qed.

(** The status word is one of the bytes of its block. *)
Lemma handed_block i :
  0 ≤ i < block_count g →
  handed g m i = negb (le_at 4 BLOCK_STATUS_OFFSET (block_bytes g m i) .& TP_STATUS_USER =? 0).
Proof.
  intros Hi. pose proof (block_range i Hi). unfold handed, le_at, block_bytes, MIN_FRAME_SIZE, BLOCK_STATUS_OFFSET in *.
  rewrite zslice_zslice by lia. done.
Qed.
End blocks.

Lemma handed_stable g m m' i :
  sized g m → kernel_writes g m m' → 0 ≤ i < block_count g → handed g m i = true → handed g m' i = true.
Proof.
  intros Hm [Hm' Hk] Hi Ht. rewrite handed_block by done. rewrite Hk by done. by rewrite <- handed_block.
Qed.

Lemma kernel_writes_trans g m1 m2 m3 :
  sized g m1 → kernel_writes g m1 m2 → kernel_writes g m2 m3 → kernel_writes g m1 m3.
Proof.
  intros Hm Hk1 Hk2. split; [by apply Hk2|]. intros i Hi Ht.
  rewrite (proj2 Hk2 i Hi) by exact (handed_stable g m1 m2 i Hm Hk1 Hi Ht). by apply Hk1.
Qed.

(** Distinct blocks do not overlap. *)
Lemma block_bytes_put g m i j o bs :
  sized g m → 0 ≤ i < block_count g → 0 ≤ j < block_count g → i ≠ j →
  0 ≤ o → o + zlen bs ≤ block_size g →
  block_bytes g (zput (i * block_size g + o) bs m) j = block_bytes g m j.
Proof.
  intros Hg Hi Hj Hij Ho Hb. pose proof (block_range g m Hg i Hi). pose proof (block_range g m Hg j Hj).
  pose proof (zlen_nonneg bs). unfold MIN_FRAME_SIZE, block_bytes in *.
  apply zslice_put_disjoint; try lia. nia.
Qed.

Lemma sized_put g m a bs :
  sized g m → 0 ≤ a → a + zlen bs ≤ zlen m → bytes bs → sized g (zput a bs m).
Proof.
  intros [? ? ? Hb] ???. split; [done|done|by rewrite zlen_zput|]. by apply Forall_zput.
Qed.

(** * One turn of the loop *)

Lemma length_filter_le {A} (P Q : A → Prop) `{∀ x, Decision (P x)} `{∀ x, Decision (Q x)} (l : list A) :
  (∀ x, x ∈ l → Q x → P x) → (length (filter Q l) ≤ length (filter P l))%nat.
Proof.
  intros Hl. induction l as [|x l IH]; [done|]. rewrite !filter_cons.
  assert (Q x → P x) by (apply Hl; set_solver).
  assert (length (filter Q l) ≤ length (filter P l))%nat by (apply IH; set_solver).
  repeat case_decide; simpl; try lia; tauto.
Qed.

Lemma length_filter_lt {A} (P Q : A → Prop) `{∀ x, Decision (P x)} `{∀ x, Decision (Q x)} (l : list A) a :
  (∀ x, x ∈ l → Q x → P x) → a ∈ l → P a → ¬ Q a → (length (filter Q l) < length (filter P l))%nat.
Proof.
  intros Hl Ha HP HQ. induction l as [|x l IH]; [by apply not_elem_of_nil in Ha|].
  assert (length (filter Q l) ≤ length (filter P l))%nat by (apply length_filter_le; set_solver).
  rewrite !filter_cons. assert (Q x → P x) by (apply Hl; set_solver).
  apply elem_of_cons in Ha as [->|Ha].
  - repeat case_decide; simpl; try lia; tauto.
  - assert (length (filter Q l) < length (filter P l))%nat by (apply IH; set_solver).
    repeat case_decide; simpl; try lia; tauto.
Qed.

(** The blocks in the reader's hands; taking a block and giving it back each
    bring the loop closer to the end of them. *)
Definition users (g : Geometry) (m : list Z) : nat :=
  length (filter (λ i, handed g m i = true) (seqZ 0 (block_count g))).

Definition todo (r : Ring) (m : list Z) : Z :=
  2 * Z.of_nat (users (r_geom r) m) + (if r_walk r then 0 else 1).

Lemma users_count g m : Z.of_nat (users g m) ≤ Z.max 0 (block_count g).
Proof.
  unfold users. pose proof (length_filter (λ i, handed g m i = true) (seqZ 0 (block_count g))) as Hl.
  rewrite length_seqZ in Hl. lia.
Qed.

(** What a turn leaves alone. *)
Definition same_ring (r r' : Ring) : Prop :=
  r_geom r' = r_geom r ∧ r_snaplen r' = r_snaplen r ∧ r_nonblocking r' = r_nonblocking r.

Section turns.
Context `{PcapErrors} (r : Ring) (m : list Z).
Hypothesis (Hr : ring_ok r m).

Lemma status_word_ok i :
  0 ≤ i < block_count (r_geom r) →
  status_word r m i = ROk (i * block_size (r_geom r) + BLOCK_STATUS_OFFSET).
Proof.
  intros Hi. pose proof (block_range _ _ (rk_sized _ _ Hr) i Hi).
  unfold status_word, MIN_FRAME_SIZE, BLOCK_STATUS_OFFSET in *.
  rewrite (proj2 (Z.ltb_lt _ _)), (proj2 (Z.leb_le _ _)), (proj2 (Z.leb_le _ _)) by lia. done.
Qed.

Lemma block_ok i :
  0 ≤ i < block_count (r_geom r) → block r m i = ROk (block_bytes (r_geom r) m i).
Proof.
  intros Hi. pose proof (block_range _ _ (rk_sized _ _ Hr) i Hi). unfold block.
  by rewrite (proj2 (Z.leb_le _ _)), (proj2 (Z.leb_le _ _)) by lia.
Qed.

(** Giving the current block back changes its status word only. *)
Lemma release_block_ok :
  ∃ m', release_block r m =
      ROk (mk_ring (r_geom r) ((r_cur_block r + 1) mod block_count (r_geom r)) None (r_snaplen r)
             (r_nonblocking r), m') ∧
    sized (r_geom r) m' ∧ handed (r_geom r) m' (r_cur_block r) = false ∧
    ∀ i, 0 ≤ i < block_count (r_geom r) → i ≠ r_cur_block r →
      block_bytes (r_geom r) m' i = block_bytes (r_geom r) m i.
Proof.
  destruct Hr as [Hs Hc _ _]. pose proof (block_range _ _ Hs _ Hc).
  unfold release_block. rewrite status_word_ok by done. eexists. split; [done|].
  unfold MIN_FRAME_SIZE, BLOCK_STATUS_OFFSET in *.
  split_and!.
  - apply sized_put; rewrite ?zlen_le_bytes; try lia; [done|]. apply le_bytes_range.
  - unfold handed, BLOCK_STATUS_OFFSET. change 4 with (Z.of_nat 4) at 1.
    rewrite le_at_put; [done|lia|lia|]. unfold TP_STATUS_KERNEL. lia.
  - intros i Hi Hne. by apply block_bytes_put; rewrite ?zlen_le_bytes; try lia.
Qed.

Lemma release_ring_ok m' :
  sized (r_geom r) m' →
  ring_ok (mk_ring (r_geom r) ((r_cur_block r + 1) mod block_count (r_geom r)) None (r_snaplen r)
             (r_nonblocking r)) m'.
Proof.
  intros Hs. destruct Hr as [_ ? _ ?]. split; simpl; [done| |done|done].
  apply Z.mod_pos_bound. lia.
Qed.
End turns.

(** The bytes a frame's metadata names lie in its block, behind a header. *)
Lemma parse_frame_bounds block offset snaplen meta next :
  bytes block → 0 ≤ offset → 0 ≤ snaplen →
  parse_frame block offset snaplen = Some (meta, next) →
  0 ≤ m_offset meta ∧ 0 ≤ m_len meta ≤ snaplen ∧ m_offset meta + m_len meta ≤ zlen block ∧
  0 ≤ m_ts_sec meta < 2 ^ 32 ∧ 0 ≤ m_ts_nsec meta < 2 ^ 32 ∧ 0 ≤ m_orig_len meta < 2 ^ 32 ∧
  ∀ n, next = Some n → offset < n.
Proof.
  intros Hb Ho Hs. unfold parse_frame, checked_add, HDR_SIZE.
  destruct (Z.leb_spec (offset + 48) usize_max); [|done]. simpl.
  destruct (Z.ltb_spec (zlen block) (offset + 48)); [done|].
  assert (∀ k, 0 ≤ k ≤ 44 → 0 ≤ le_at 4 (offset + k) block < 2 ^ 32) as Hle
    by (intros k ?; apply (le_at_range 4); [done|lia..]).
  pose proof (Hle 0) as Hnext. rewrite Z.add_0_r in Hnext.
  pose proof (Hle 4). pose proof (Hle 8). pose proof (Hle 12). pose proof (Hle 16). clear Hle.
  pose proof (le_at_range 2 (offset + 24) block Hb).
  destruct (Z.leb_spec (offset + le_at 2 (offset + 24) block) usize_max); [|done]. simpl.
  destruct (Z.leb_spec (offset + le_at 2 (offset + 24) block + le_at 4 (offset + 12) block) usize_max); [|done].
  simpl. destruct (Z.ltb_spec (zlen block) (offset + le_at 2 (offset + 24) block + le_at 4 (offset + 12) block)); [done|].
  destruct (Z.eqb_spec (le_at 4 offset block) 0); [|destruct (Z.leb_spec (offset + le_at 4 offset block) usize_max)];
    simpl; intros [= <- <-]; simpl; split_and!; try lia; intros ? [= <-]; lia.
Qed.

(** The frame's bytes lie in the block in the reader's hands. *)
Definition in_hand (r : Ring) (m : list Z) (meta : FrameMeta) : Prop :=
  handed (r_geom r) m (r_cur_block r) = true ∧
  r_cur_block r * block_size (r_geom r) ≤ m_offset meta ∧
  0 ≤ m_len meta ≤ r_snaplen r ∧
  m_offset meta + m_len meta ≤ r_cur_block r * block_size (r_geom r) + block_size (r_geom r) ∧
  0 ≤ m_ts_sec meta < 2 ^ 32 ∧ 0 ≤ m_ts_nsec meta < 2 ^ 32 ∧ 0 ≤ m_orig_len meta < 2 ^ 32.

Definition turn_ok `{PcapErrors} (r : Ring) (m : list Z) (t : Result turn) : Prop :=
  match t with
  | ROk (Again r' m') => ring_ok r' m' ∧ same_ring r r' ∧ todo r' m' < todo r m
  | ROk (Return_ (Some meta) r' m') =>
      m' = m ∧ ring_ok r' m ∧ same_ring r r' ∧ in_hand r' m meta
  | ROk (Return_ None r' m') =>
      m' = m ∧ r' = r ∧ r_nonblocking r = true ∧ handed (r_geom r) m (r_cur_block r) = false
  | ROk Wait =>
      r_nonblocking r = false ∧ r_walk r = None ∧ handed (r_geom r) m (r_cur_block r) = false
  | _ => False
  end.

Section turn.
Context `{PcapErrors} (r : Ring) (m : list Z).
Hypothesis (Hr : ring_ok r m).

Lemma release_turn_ok w :
  r_walk r = Some w → turn_ok r m ('(r', m') ← release_block r m; ROk (Again r' m')).
Proof.
  intros Hw. destruct (release_block_ok r m Hr) as (m' & -> & Hs & Hh & Ho). simpl.
  split_and!; [by apply release_ring_ok with (m := m)|done|].
  unfold todo. simpl. rewrite Hw. enough (users (r_geom r) m' < users (r_geom r) m)%nat by lia.
  pose proof (rk_cur _ _ Hr) as Hc. pose proof (rk_sized _ _ Hr) as Hm.
  apply length_filter_lt with (a := r_cur_block r).
  - intros i Hi Ht. apply elem_of_seqZ in Hi.
    destruct (decide (i = r_cur_block r)) as [->|Hne]; [congruence|].
    rewrite handed_block in Ht |- * by (done || lia). by rewrite <- Ho by lia.
  - apply elem_of_seqZ. lia.
  - by apply (rk_walk _ _ Hr w Hw).
  - congruence.
Qed.

Lemma next_frame_turn_ok : turn_ok r m (next_frame_turn r m).
Proof.
  pose proof Hr as [Hs Hc Hw Hl]. unfold next_frame_turn.
  destruct (r_walk r) as [w|] eqn:Ew.
  - destruct (Hw w eq_refl) as (Hh & Ho & Hn).
    destruct (Z.eqb_spec (w_remaining w) 0); [by apply release_turn_ok with w|].
    rewrite block_ok by done. unfold mbind at 1, Result_bind at 1.
    destruct (parse_frame _ _ _) as [[meta next]|] eqn:Ep; [|by apply release_turn_ok with w].
    apply parse_frame_bounds in Ep as (? & ? & Hend & ? & ? & ? & Hnext); [|apply Forall_zslice, Hs|done..].
    rewrite zlen_block_bytes in Hend by done. simpl. split_and!; try done; simpl.
    + destruct next as [nx|]; [|by split; simpl; [..|intros ? [= <-]|]].
      specialize (Hnext nx eq_refl).
      destruct (Z.ltb_spec 1 (w_remaining w)); split; simpl; try done; intros ? [= <-]; simpl; split_and!; done || lia.
    + unfold in_hand. simpl. split_and!; try done; lia.
  - unfold block_status. rewrite status_word_ok by done. unfold mbind, Result_bind.
    rewrite <- (negb_involutive (le_at 4 (_ + _) m .& TP_STATUS_USER =? 0)).
    fold (handed (r_geom r) m (r_cur_block r)).
    destruct (handed (r_geom r) m (r_cur_block r)) eqn:Eh; simpl.
    + rewrite block_ok by done. simpl.
      assert (Hz : zlen (block_bytes (r_geom r) m (r_cur_block r)) = block_size (r_geom r)) by by apply zlen_block_bytes.
      assert (Hb : bytes (block_bytes (r_geom r) m (r_cur_block r))) by apply Forall_zslice, Hs.
      pose proof (sz_block _ _ Hs) as Hbs. unfold parse_block_desc, MIN_FRAME_SIZE, DESC_SIZE in *.
      rewrite (proj2 (Z.ltb_ge _ _)) by lia. simpl.
      pose proof (le_at_range 4 12 _ Hb). pose proof (le_at_range 4 16 _ Hb).
      split_and!; [|done|unfold todo; simpl; rewrite Ew; lia].
      split; simpl; try done. intros ? [= <-]. simpl. split_and!; done || lia.
    + destruct (r_nonblocking r) eqn:En; simpl; split_and!; done.
Qed.
End turn.

(** * A call *)

Definition result_ok `{PcapErrors} (polls : list (option io_error * list Z)) (r : Ring)
    (x : Result next_result) : Prop :=
  match x with
  | ROk (Returned (Some meta) r' m') => ring_ok r' m' ∧ same_ring r r' ∧ in_hand r' m' meta
  | ROk (Returned None r' m') =>
      ring_ok r' m' ∧ same_ring r r' ∧ r_nonblocking r = true ∧
      handed (r_geom r') m' (r_cur_block r') = false
  | ROk (Blocked r' m') =>
      ring_ok r' m' ∧ same_ring r r' ∧ r_nonblocking r = false ∧
      handed (r_geom r') m' (r_cur_block r') = false
  | RErr e => ∃ err m', (Some err, m') ∈ polls ∧ kind err ≠ KInterrupted ∧ e = from_io err
  | RPanic => False
  end.

(** Turns enough for a call during which [poll] answers [polls]. *)
Definition turns (r : Ring) (polls : list (option io_error * list Z)) : Z :=
  (zlen polls + 1) * (2 * block_count (r_geom r) + 2).

Section call.
Context `{PcapErrors}.

Lemma result_ok_mono polls polls' r r' x :
  same_ring r r' → (∀ p, p ∈ polls' → p ∈ polls) → result_ok polls' r' x → result_ok polls r x.
Proof.
  intros (Hg & Hl & Hn) Hp. unfold result_ok, same_ring. rewrite Hg, Hl, Hn.
  destruct x as [[[meta|] ? ?|? ?]|e|]; try done. naive_solver.
Qed.

Lemma todo_le r m : ring_ok r m → 0 ≤ todo r m ≤ 2 * block_count (r_geom r) + 1.
Proof.
  intros [? ? _ _]. pose proof (users_count (r_geom r) m). unfold todo. destruct (r_walk r); lia.
Qed.

Lemma next_frame_ok polls : ∀ n r m,
  ring_ok r m → Forall (λ p, sized (r_geom r) p.2) polls →
  zlen polls * (2 * block_count (r_geom r) + 2) + todo r m < Z.of_nat n →
  ∃ x, next_frame n polls r m = Some x ∧ result_ok polls r x.
Proof.
  induction polls as [polls IHp] using (induction_ltof1 _ length). unfold ltof in IHp.
  intros n. induction n as [|n IH]; intros r m Hr Hp Hn.
  { pose proof (todo_le r m Hr). pose proof (zlen_nonneg polls). destruct Hr as [[] ? _ _]. nia. }
  pose proof (next_frame_turn_ok r m Hr) as Ht. cbn [next_frame]. unfold turn_ok in Ht.
  destruct (next_frame_turn r m) as [[r' m'|x r' m'|]|e|]; [| | |done|done].
  - destruct Ht as (Hr' & Hsame & Hlt). pose proof Hsame as (Hg & _).
    destruct (IH r' m') as (x & Ex & Hx); rewrite ?Hg; try done; [lia|].
    exists x. split; [done|]. by eapply result_ok_mono.
  - exists (ROk (Returned x r' m')). split; [done|]. destruct x as [meta|].
    + by destruct Ht as (-> & ? & ? & ?).
    + by destruct Ht as (-> & -> & ? & ?).
  - destruct Ht as (Hb & Hw & Hh). destruct polls as [|[answer m'] polls].
    { by exists (ROk (Blocked r m)). }
    apply Forall_cons in Hp as [Hm' Hp]. simpl in Hm'.
    assert (Hr' : ring_ok r m').
    { destruct Hr as [? ? _ ?]. split; [done..| |done]. by rewrite Hw. }
    assert (∃ x, next_frame n polls r m' = Some x ∧ result_ok polls r x) as (x & Ex & Hx).
    { apply IHp; try done; [simpl; lia|]. pose proof (todo_le r m' Hr'). pose proof (todo_le r m Hr).
      rewrite zlen_cons in Hn. destruct Hr as [[] ? _ _]. nia. }
    unfold wait. destruct answer as [err|]; [|exists x; split; [done|]].
    + case_decide as Hk; [exists x; split; [done|]|].
      * eapply result_ok_mono; [done| |done]. set_solver.
      * eexists. split; [done|]. exists err, m'. split; [set_solver|done].
    + eapply result_ok_mono; [done| |done]. set_solver.
Qed.

Lemma packet_at_ok r m meta link_type :
  ring_ok r m → in_hand r m meta →
  packet_at link_type meta m =
    ROk (mk_packet_ref (zslice (m_offset meta) (m_len meta) m)
           (mk_time (m_ts_sec meta + m_ts_nsec meta / NANOS_PER_SEC) (m_ts_nsec meta mod NANOS_PER_SEC))
           (m_orig_len meta) link_type).
Proof.
  intros [Hs Hc _ _] (_ & Hlo & Hlen & Hhi & ? & ? & _). pose proof (block_range _ _ Hs _ Hc).
  unfold packet_at. rewrite (proj2 (Z.leb_le _ _)), (proj2 (Z.leb_le _ _)) by lia. simpl.
  apply PacketRef_new_ok; [lia..|]. unfold NANOS_PER_SEC. Z.div_mod_to_equations. lia.
Qed.

(** The bytes in hand are the block's, which the kernel does not write. *)
Lemma in_hand_stable r m m' meta :
  ring_ok r m → in_hand r m meta → kernel_writes (r_geom r) m m' →
  zslice (m_offset meta) (m_len meta) m' = zslice (m_offset meta) (m_len meta) m.
Proof.
  intros [Hs Hc _ _] (Hh & Hlo & Hlen & Hhi & _) Hk. destruct Hk as [Hs' Hk].
  pose proof (block_range _ _ Hs _ Hc). pose proof (block_range _ _ Hs' _ Hc).
  unfold MIN_FRAME_SIZE in *. set (o := m_offset meta - r_cur_block r * block_size (r_geom r)).
  assert (∀ l, r_cur_block r * block_size (r_geom r) + block_size (r_geom r) ≤ zlen l →
    zslice (m_offset meta) (m_len meta) l = zslice o (m_len meta) (block_bytes (r_geom r) l (r_cur_block r)))
    as Hz.
  { intros l ?. unfold block_bytes. rewrite zslice_zslice by lia. f_equal. unfold o. lia. }
  rewrite !Hz by lia. by rewrite Hk.
Qed.
End call.
