(* ===== verification/RingFifo.v ===== *)
(** The ring as a queue: whatever the interleaving of the kernel's hand-overs
    with the turns of the reader, the packets read are those handed over, each
    once and in order; and while there is one, a call returns it. *)

From S2P Require Export RingSound.

(** * What the kernel lays out *)

Record Frame := mk_frame {
  f_sec : Z;
  f_nsec : Z;
  f_orig_len : Z;
  f_payload : list Z;
}.

(** A frame header at [off], and behind it the payload where the header says. *)
Record frame_at (block : list Z) (off : Z) (f : Frame) : Prop := {
  fa_off : 0 ≤ off;
  fa_hdr : off + HDR_SIZE ≤ zlen block;
  fa_sec : tp_sec (read_hdr block off) = f_sec f;
  fa_nsec : tp_nsec (read_hdr block off) = f_nsec f;
  fa_len : tp_len (read_hdr block off) = f_orig_len f;
  fa_snaplen : tp_snaplen (read_hdr block off) = zlen (f_payload f);
  fa_end : off + tp_mac (read_hdr block off) + zlen (f_payload f) ≤ zlen block;
  fa_payload : zslice (off + tp_mac (read_hdr block off)) (zlen (f_payload f)) block = f_payload f;
}.

(** Frames chained by their next-offsets, 0 in the last one. *)
Fixpoint chain (block : list Z) (off : Z) (fs : list Frame) : Prop :=
  match fs with
  | [] => True
  | f :: fs' =>
      frame_at block off f ∧
      match fs' with
      | [] => tp_next_offset (read_hdr block off) = 0
      | _ => tp_next_offset (read_hdr block off) ≠ 0 ∧
             chain block (off + tp_next_offset (read_hdr block off)) fs'
      end
  end.

(** A block with its status set to the user's, holding [fs]. *)
Record holds (block : list Z) (fs : list Frame) : Prop := {
  ho_status : le_at 4 BLOCK_STATUS_OFFSET block .& TP_STATUS_USER ≠ 0;
  ho_count : le_at 4 12 block = zlen fs;
  ho_chain : chain block (le_at 4 16 block) fs;
}.

(** The packet of a frame: its bytes up to the capture length. *)
Definition packet_of (snaplen : Z) (link_type : LinkType) (f : Frame) : PacketRef :=
  mk_packet_ref (zslice 0 (Z.min (zlen (f_payload f)) snaplen) (f_payload f))
    (mk_time (f_sec f + f_nsec f / NANOS_PER_SEC) (f_nsec f mod NANOS_PER_SEC))
    (f_orig_len f) link_type.

(** * The queue, and the system that implements it *)

Inductive event :=
  | Delivered (fs : list Frame)
  | Read (answer : option PacketRef)
  | Silent.

Inductive queue_step (packet : Frame → PacketRef) : list Frame → event → list Frame → Prop :=
  | queue_delivered q fs : queue_step packet q (Delivered fs) (q ++ fs)
  | queue_read f q : queue_step packet (f :: q) (Read (Some (packet f))) q
  | queue_empty : queue_step packet [] (Read None) []
  | queue_silent q : queue_step packet q Silent q.

(** The ring, the mapping, and the block that the kernel fills next. *)
Record system := mk_system { s_ring : Ring; s_mem : list Z; s_kernel : Z }.

(** The kernel hands over the block it is at: it writes nothing else. *)
Definition hands_over (g : Geometry) (i : Z) (fs : list Frame) (m m' : list Z) : Prop :=
  handed g m i = false ∧ sized g m' ∧ holds (block_bytes g m' i) fs ∧
  ∀ j, 0 ≤ j < block_count g → j ≠ i → block_bytes g m' j = block_bytes g m j.

Inductive sys_step `{PcapErrors} (link_type : LinkType) : system → event → system → Prop :=
  | sys_deliver r m k fs m' :
      hands_over (r_geom r) k fs m m' →
      sys_step link_type (mk_system r m k) (Delivered fs)
        (mk_system r m' ((k + 1) mod block_count (r_geom r)))
  | sys_turn r m k r' m' :
      next_frame_turn r m = ROk (Again r' m') →
      sys_step link_type (mk_system r m k) Silent (mk_system r' m' k)
  | sys_wait r m k :
      next_frame_turn r m = ROk Wait →
      sys_step link_type (mk_system r m k) Silent (mk_system r m k)
  | sys_packet r m k meta r' m' p :
      next_frame_turn r m = ROk (Return_ (Some meta) r' m') → packet_at link_type meta m' = ROk p →
      sys_step link_type (mk_system r m k) (Read (Some p)) (mk_system r' m' k)
  | sys_none r m k r' m' :
      next_frame_turn r m = ROk (Return_ None r' m') →
      sys_step link_type (mk_system r m k) (Read None) (mk_system r' m' k)
  | sys_nonblocking r m k nb :
      sys_step link_type (mk_system r m k) Silent (mk_system (set_nonblocking nb r) m k).

(** Runs of a labelled step relation. *)
Inductive run {S E} (step : S → E → S → Prop) : S → list E → S → Prop :=
  | run_nil s : run step s [] s
  | run_snoc s t s1 e s2 : run step s t s1 → step s1 e s2 → run step s (t ++ [e]) s2.

(** A ring that has just been opened, no block handed over yet. *)
Record fresh (s : system) : Prop := {
  fr_ok : ring_ok (s_ring s) (s_mem s);
  fr_walk : r_walk (s_ring s) = None;
  fr_kernel : s_kernel s = r_cur_block (s_ring s);
  fr_handed : ∀ i, 0 ≤ i < block_count (r_geom (s_ring s)) → handed (r_geom (s_ring s)) (s_mem s) i = false;
}.

(** * Reading a chain *)

Section frames.
Context (blk : list Z) (snaplen : Z).
Hypothesis (Hb : bytes blk) (Hlen : zlen blk < 2 ^ 32).

Definition next_of (off : Z) (fs : list Frame) : option Z :=
  match fs with [] => None | _ => Some (off + tp_next_offset (read_hdr blk off)) end.

Lemma parse_chain off f fs :
  chain blk off (f :: fs) →
  parse_frame blk off snaplen =
    Some (mk_meta (off + tp_mac (read_hdr blk off)) (Z.min (zlen (f_payload f)) snaplen)
            (f_sec f) (f_nsec f) (f_orig_len f), next_of off fs).
Proof.
  intros [Hf Hnext]. pose proof Hf as [Ho Hh Es En El Ep He _]. unfold parse_frame, checked_add, usize_max, HDR_SIZE in *.
  set (hdr := read_hdr blk off) in *.
  assert (0 ≤ tp_mac hdr < 256 ^ 2) by (apply le_at_range; [done|simpl; lia..]).
  assert (0 ≤ tp_next_offset hdr < 256 ^ 4) by (apply le_at_range; [done|lia..]).
  pose proof (zlen_nonneg (f_payload f)).
  rewrite (proj2 (Z.leb_le (off + 48) _)) by lia. cbn [mbind option_bind].
  rewrite (proj2 (Z.ltb_ge (zlen blk) (off + 48))) by lia.
  rewrite (proj2 (Z.leb_le (off + tp_mac hdr) _)) by lia. cbn [mbind option_bind]. rewrite Ep.
  rewrite (proj2 (Z.leb_le (off + tp_mac hdr + _) _)) by lia. cbn [mbind option_bind].
  rewrite (proj2 (Z.ltb_ge (zlen blk) _)) by lia. rewrite Es, En, El. unfold next_of. fold hdr.
  destruct fs as [|f' fs].
  - by rewrite Hnext.
  - destruct Hnext as [Hn _]. rewrite (proj2 (Z.eqb_neq _ _)) by done.
    by rewrite (proj2 (Z.leb_le (off + tp_next_offset hdr) _)) by lia.
Qed.

Lemma chain_rest off f fs n : chain blk off (f :: fs) → next_of off fs = Some n → chain blk n fs.
Proof. intros [_ H]. unfold next_of. destruct fs; [done|]. intros [= <-]. apply H. Qed.
End frames.

(** * The simulation *)

(** The block that is [j] behind the current one. *)
Definition nth_block (r : Ring) (j : Z) : Z := (r_cur_block r + j) mod block_count (r_geom r).

(** The state of the system when [q] has been handed over and not yet read:
    [pend] are the frames of the blocks in the reader's hands, and the walk is
    at those of the first block that are left. *)
Record pending (s : system) (pend : list (list Frame)) (q : list Frame) : Prop := {
  pe_ok : ring_ok (s_ring s) (s_mem s);
  pe_kernel : s_kernel s = nth_block (s_ring s) (zlen pend);
  pe_count : zlen pend ≤ block_count (r_geom (s_ring s));
  pe_blocks : ∀ j, 0 ≤ j < block_count (r_geom (s_ring s)) →
    match zget pend j with
    | Some fs => holds (block_bytes (r_geom (s_ring s)) (s_mem s) (nth_block (s_ring s) j)) fs
    | None => handed (r_geom (s_ring s)) (s_mem s) (nth_block (s_ring s) j) = false
    end;
  pe_walk : match r_walk (s_ring s) with
    | None => q = concat pend
    | Some w => ∃ fs todo rest, pend = fs :: rest ∧ q = todo ++ concat rest ∧
        w_remaining w = zlen todo ∧
        chain (block_bytes (r_geom (s_ring s)) (s_mem s) (r_cur_block (s_ring s))) (w_offset w) todo
    end;
}.

Section blocks.
Context (r : Ring) (m : list Z).
Hypothesis (Hr : ring_ok r m).

Lemma nth_block_range j : 0 ≤ nth_block r j < block_count (r_geom r).
Proof. apply Z.mod_pos_bound. destruct Hr. lia. Qed.

Lemma nth_block_0 : nth_block r 0 = r_cur_block r.
Proof. unfold nth_block. rewrite Z.add_0_r. apply Z.mod_small, Hr. Qed.

Lemma nth_block_inj j k :
  0 ≤ j < block_count (r_geom r) → 0 ≤ k < block_count (r_geom r) →
  nth_block r j = nth_block r k → j = k.
Proof.
  unfold nth_block. intros Hj Hk E. set (c := r_cur_block r) in *. set (n := block_count (r_geom r)) in *.
  pose proof (Z.div_mod (c + j) n). pose proof (Z.div_mod (c + k) n).
  assert ((c + j) / n = (c + k) / n) by nia. nia.
Qed.

Lemma holds_handed fs i :
  0 ≤ i < block_count (r_geom r) → holds (block_bytes (r_geom r) m i) fs → handed (r_geom r) m i = true.
Proof.
  intros Hi Hh. rewrite handed_block by (apply Hr || done). apply negb_true_iff, Z.eqb_neq, Hh.
Qed.
End blocks.

Lemma pending_handed s pend q j :
  pending s pend q → 0 ≤ j < block_count (r_geom (s_ring s)) →
  handed (r_geom (s_ring s)) (s_mem s) (nth_block (s_ring s) j) = bool_decide (j < zlen pend).
Proof.
  intros [Hr _ _ Hb _] Hj. specialize (Hb j Hj). destruct (zget pend j) as [fs|] eqn:E.
  - apply zget_Some_lt in E. rewrite bool_decide_true by lia.
    eapply holds_handed; [done| |done]. by eapply nth_block_range.
  - apply zget_None in E. rewrite bool_decide_false by lia. done.
Qed.

(** The current block is in hand exactly when some block is pending. *)
Lemma pending_current s pend q :
  pending s pend q →
  handed (r_geom (s_ring s)) (s_mem s) (r_cur_block (s_ring s)) = bool_decide (0 < zlen pend).
Proof.
  intros Hp. pose proof (pe_ok _ _ _ Hp) as Hr. rewrite <- (pending_handed s pend q 0 Hp) by (destruct Hr; lia).
  by rewrite (nth_block_0 _ _ Hr).
Qed.

Lemma pending_deliver r m k pend q fs m' :
  pending (mk_system r m k) pend q → hands_over (r_geom r) k fs m m' →
  pending (mk_system r m' ((k + 1) mod block_count (r_geom r))) (pend ++ [fs]) (q ++ fs).
Proof.
  intros Hp (Hk & Hs & Hh & Ho). pose proof Hp as [Hr Ek Hc Hb Hw]. simpl in *.
  pose proof (nth_block_range r m Hr (zlen pend)) as Hkr. rewrite <- Ek in Hkr.
  pose proof (zlen_nonneg pend) as Hz.
  assert (Hroom : zlen pend < block_count (r_geom r)).
  { destruct (decide (zlen pend = block_count (r_geom r))) as [E|]; [|lia]. exfalso.
    pose proof (pending_current _ _ _ Hp) as Hcur. simpl in Hcur.
    assert (k = r_cur_block r) as ->.
    { rewrite Ek. unfold nth_block. rewrite E, <- Z.add_mod_idemp_r, Z.mod_same, Z.add_0_r by lia.
      apply Z.mod_small, Hr. }
    rewrite Hk in Hcur. symmetry in Hcur. apply bool_decide_eq_false in Hcur. lia. }
  assert (Hsame : ∀ j, 0 ≤ j < block_count (r_geom r) → j ≠ zlen pend →
    block_bytes (r_geom r) m' (nth_block r j) = block_bytes (r_geom r) m (nth_block r j)).
  { intros j Hj Hne. apply Ho; [by eapply nth_block_range|]. rewrite Ek. intros E.
    apply Hne. by eapply nth_block_inj. }
  assert (Hhanded : ∀ j, 0 ≤ j < block_count (r_geom r) → j ≠ zlen pend →
    handed (r_geom r) m' (nth_block r j) = handed (r_geom r) m (nth_block r j)).
  { intros j Hj Hne. pose proof (nth_block_range r m Hr j). rewrite !handed_block by (apply Hr || done).
    by rewrite Hsame. }
  pose proof (nth_block_0 r m Hr) as H0.
  assert (Hpos : 0 < block_count (r_geom r)) by lia.
  assert (Hin : ∀ w, r_walk r = Some w → zlen pend ≠ 0).
  { intros w Ew. rewrite Ew in Hw. destruct Hw as (? & ? & rest & -> & _). rewrite zlen_cons.
    pose proof (zlen_nonneg rest). lia. }
  split; simpl.
  - destruct Hr as [_ ? Hwalk ?]. split; [done|done| |done]. intros w Ew.
    rewrite <- H0, Hhanded, H0 by (lia || (pose proof (Hin w Ew); lia)). by apply Hwalk.
  - rewrite zlen_app, Ek. unfold nth_block. rewrite Z.add_mod_idemp_l by lia. f_equal. rewrite zlen_cons, zlen_nil. lia.
  - rewrite zlen_app, zlen_cons, zlen_nil. lia.
  - intros j Hj. specialize (Hb j Hj). destruct (decide (j = zlen pend)) as [->|Hne].
    + rewrite zget_app_r, Z.sub_diag, zget_cons_0 by lia. by rewrite <- Ek.
    + destruct (decide (j < zlen pend)).
      * rewrite zget_app_l by lia. destruct (zget_lt_Some pend j) as [x E]; [lia|].
        rewrite E in Hb |- *. by rewrite Hsame.
      * rewrite zget_app_r by lia. rewrite (zget_oob [fs]) by (change (zlen [fs]) with 1; lia).
        rewrite zget_oob in Hb by lia. by rewrite Hhanded.
  - destruct (r_walk r) as [w|] eqn:Ew.
    + destruct Hw as (fs0 & todo & rest & -> & -> & Hn & Hch).
      exists fs0, todo, (rest ++ [fs]). split_and!; [done| |done|].
      * rewrite concat_app. simpl. by rewrite app_nil_r, app_assoc.
      * rewrite <- H0, Hsame, H0 by (lia || (pose proof (Hin w eq_refl); lia)). done.
    + subst q. rewrite concat_app. simpl. by rewrite app_nil_r.
Qed.

(** The reader has read the current block and gives it back. *)
Lemma pending_release r m k pend q w m' :
  pending (mk_system r m k) pend q → r_walk r = Some w → w_remaining w = 0 →
  let r' := mk_ring (r_geom r) ((r_cur_block r + 1) mod block_count (r_geom r)) None (r_snaplen r)
              (r_nonblocking r) in
  sized (r_geom r) m' → handed (r_geom r) m' (r_cur_block r) = false →
  (∀ i, 0 ≤ i < block_count (r_geom r) → i ≠ r_cur_block r →
     block_bytes (r_geom r) m' i = block_bytes (r_geom r) m i) →
  pending (mk_system r' m' k) (drop 1 pend) q.
Proof.
  intros [Hr Ek Hc Hb Hw] Ew Hz r' Hs Hcur Ho. simpl in *. rewrite Ew in Hw.
  destruct Hw as (fs & todo & rest & -> & -> & Hn & _).
  assert (todo = []) as -> by (destruct todo; [done|rewrite zlen_cons in Hn; pose proof (zlen_nonneg todo); lia]).
  change (drop 1 (fs :: rest)) with rest. rewrite zlen_cons in *. pose proof (zlen_nonneg rest) as Hrest.
  pose proof (nth_block_0 r m Hr) as H0.
  assert (Hnth : ∀ j, nth_block r' j = nth_block r (1 + j)).
  { intros j. unfold nth_block, r'. simpl. rewrite Z.add_mod_idemp_l by (destruct Hr; lia). f_equal. lia. }
  split; simpl; [by apply release_ring_ok with m|by rewrite Hnth|lia| |done].
  intros j Hj. rewrite Hnth. destruct (decide (j = block_count (r_geom r) - 1)) as [->|Hne].
  - rewrite zget_oob by lia. rewrite <- Hcur. f_equal. unfold nth_block.
    replace (r_cur_block r + _) with (r_cur_block r + 1 * block_count (r_geom r)) by lia.
    rewrite Z_mod_plus_full. apply Z.mod_small, Hr.
  - specialize (Hb (1 + j)). rewrite zget_cons_S in Hb by lia. replace (1 + j - 1) with j in Hb by lia.
    pose proof (nth_block_range r m Hr (1 + j)) as Hrange.
    assert (nth_block r (1 + j) ≠ r_cur_block r).
    { rewrite <- H0. intros E. apply nth_block_inj in E; lia. }
    specialize (Hb ltac:(lia)). destruct (zget rest j); [by rewrite Ho|].
    by rewrite handed_block, Ho, <- handed_block by (apply Hr || done).
Qed.

Section simulation.
Context `{PcapErrors} (link_type : LinkType).

(** What one turn does to the frames pending. *)
Definition turn_reads (r : Ring) (m : list Z) (k : Z) (q : list Frame) (t : Result turn) : Prop :=
  match t with
  | ROk (Again r' m') => ∃ pend', pending (mk_system r' m' k) pend' q
  | ROk (Return_ (Some meta) r' m') => m' = m ∧ ∃ f q' pend', q = f :: q' ∧
      packet_at link_type meta m = ROk (packet_of (r_snaplen r) link_type f) ∧
      pending (mk_system r' m k) pend' q'
  | ROk (Return_ None r' m') => m' = m ∧ r' = r ∧ q = []
  | ROk Wait => q = []
  | _ => False
  end.

Lemma packet_at_frame r m meta w f fs :
  ring_ok r m → r_walk r = Some w → in_hand r m meta →
  chain (block_bytes (r_geom r) m (r_cur_block r)) (w_offset w) (f :: fs) →
  meta = mk_meta (r_cur_block r * block_size (r_geom r) + (w_offset w +
             tp_mac (read_hdr (block_bytes (r_geom r) m (r_cur_block r)) (w_offset w))))
           (Z.min (zlen (f_payload f)) (r_snaplen r)) (f_sec f) (f_nsec f) (f_orig_len f) →
  packet_at link_type meta m = ROk (packet_of (r_snaplen r) link_type f).
Proof.
  intros Hr Ew Hin [Hf _] Emeta. rewrite (packet_at_ok r m meta) by done. subst meta.
  cbn [m_offset m_len m_ts_sec m_ts_nsec m_orig_len].
  f_equal. unfold packet_of. f_equal. pose proof Hf as [Ho _ _ _ _ _ He Hp].
  pose proof (block_range _ _ (rk_sized _ _ Hr) _ (rk_cur _ _ Hr)). pose proof (zlen_nonneg (f_payload f)).
  pose proof (rk_snaplen _ _ Hr).
  rewrite zlen_block_bytes in He by (apply Hr).
  set (hdr := read_hdr _ (w_offset w)) in *.
  assert (0 ≤ tp_mac hdr < 256 ^ 2).
  { destruct Hf as [_ Hh _ _ _ _ _ _]. rewrite zlen_block_bytes in Hh by (apply Hr). unfold HDR_SIZE in Hh.
    apply le_at_range; [apply Forall_zslice, Hr|lia..|]. rewrite zlen_block_bytes by (apply Hr). lia. }
  set (n := Z.min _ _). assert (0 ≤ n ≤ zlen (f_payload f)) by lia. clearbody n.
  rewrite <- Hp at 1. clearbody hdr. unfold block_bytes.
  rewrite zslice_zslice by (rewrite ?zlen_zslice; lia).
  rewrite zslice_zslice by lia. f_equal. lia.
Qed.

Lemma turn_pending r m k pend q :
  pending (mk_system r m k) pend q → turn_reads r m k q (next_frame_turn r m).
Proof.
  intros Hp. pose proof Hp as [Hr Ek Hc Hb Hw]. simpl in *.
  pose proof (next_frame_turn_ok r m Hr) as Ht. pose proof (pending_current _ _ _ Hp) as Hcur. simpl in Hcur.
  pose proof (rk_sized _ _ Hr) as Hs. pose proof (rk_cur _ _ Hr) as Hrange.
  set (blk := block_bytes (r_geom r) m (r_cur_block r)) in *.
  assert (Hbytes : bytes blk) by apply Forall_zslice, Hs.
  assert (Hlen : zlen blk = block_size (r_geom r)) by by apply zlen_block_bytes.
  pose proof (sz_block _ _ Hs) as Hbs.
  unfold next_frame_turn in *. destruct (r_walk r) as [w|] eqn:Ew.
  - destruct Hw as (fs & todo & rest & -> & -> & Hn & Hch).
    destruct (Z.eqb_spec (w_remaining w) 0) as [Hz|Hz].
    + destruct (release_block_ok r m Hr) as (m' & -> & Hs' & Hh' & Ho'). simpl.
      eexists. by eapply pending_release.
    + destruct todo as [|f todo]; [rewrite Hn in Hz; done|].
      rewrite block_ok in Ht |- * by done. cbn [mbind Result_bind] in Ht |- *. fold blk in Ht |- *.
      rewrite (parse_chain blk _ Hbytes ltac:(lia) _ _ _ Hch) in Ht |- *. cbn [turn_ok turn_reads] in Ht |- *.
      destruct Ht as (_ & Hr' & _ & Hin). split; [done|].
      exists f, (todo ++ concat rest), (fs :: rest). split; [done|]. split.
      { eapply (packet_at_frame r m _ w f todo Hr Ew); [|done|done]. exact Hin. }
      rewrite zlen_cons in Hn. split; simpl; try done.
      exists fs, todo, rest. split_and!; [done|done|..].
      * unfold next_of. destruct todo as [|f' todo]; [done|].
        rewrite zlen_cons in *. pose proof (zlen_nonneg todo). rewrite (proj2 (Z.ltb_lt _ _)) by lia. simpl. lia.
      * destruct todo as [|f' todo]; [done|]. pose proof (chain_rest blk _ _ _ _ Hch eq_refl) as Hrest.
        unfold next_of. rewrite zlen_cons in Hn. pose proof (zlen_nonneg todo).
        by rewrite (proj2 (Z.ltb_lt _ _)) by lia.
  - unfold block_status in *. rewrite status_word_ok in Ht |- * by done. cbn [mbind Result_bind] in Ht |- *.
    rewrite <- (negb_involutive (le_at 4 (_ + _) m .& TP_STATUS_USER =? 0)) in Ht |- *.
    fold (handed (r_geom r) m (r_cur_block r)) in Ht |- *. subst q.
    destruct (handed (r_geom r) m (r_cur_block r)) eqn:Eh; cbn [negb] in Ht |- *.
    + symmetry in Hcur. apply bool_decide_eq_true in Hcur.
      rewrite block_ok in Ht |- * by done. cbn [mbind Result_bind] in Ht |- *. fold blk in Ht |- *.
      assert (Ed : parse_block_desc blk =
        Some (mk_desc (le_at 4 BLOCK_STATUS_OFFSET blk) (le_at 4 12 blk) (le_at 4 16 blk))).
      { unfold parse_block_desc. unfold MIN_FRAME_SIZE in Hbs.
        by rewrite (proj2 (Z.ltb_ge _ _)) by (unfold DESC_SIZE; lia). }
      rewrite Ed in Ht |- *. cbn [turn_ok turn_reads] in Ht |- *.
      destruct Ht as (Hr' & _). exists pend. split; simpl; try done.
      destruct pend as [|fs pend]; [done|]. exists fs, fs, pend.
      specialize (Hb 0 ltac:(lia)). rewrite zget_cons_0, (nth_block_0 r m Hr) in Hb. by destruct Hb.
    + symmetry in Hcur. apply bool_decide_eq_false in Hcur.
      assert (pend = []) as -> by (destruct pend; [done|rewrite zlen_cons in Hcur; pose proof (zlen_nonneg pend); lia]).
      destruct (r_nonblocking r); simpl; done.
Qed.
End simulation.

(** * Refinement *)

(** The frames handed over and the packets read, in order. *)
Definition delivered (t : list event) : list Frame :=
  concat (map (λ e, match e with Delivered fs => fs | _ => [] end) t).

Definition packets_read (t : list event) : list PacketRef :=
  omap (λ e, match e with Read answer => answer | _ => None end) t.

Lemma queue_run packet t q :
  run (queue_step packet) [] t q → map packet (delivered t) = packets_read t ++ map packet q.
Proof.
  intros Hrun. remember [] as q0 eqn:E0. induction Hrun as [|q0 t q1 e q2 _ IH Hs]; [by subst|].
  unfold delivered, packets_read in *. rewrite map_app, concat_app, map_app, omap_app, (IH E0). simpl.
  destruct Hs; simpl; rewrite ?map_app, ?app_nil_r, <- ?app_assoc; done.
Qed.

Section refinement.
Context `{PcapErrors} (link_type : LinkType).

Lemma sys_step_queue s e s' pend q :
  sys_step link_type s e s' → pending s pend q →
  r_snaplen (s_ring s') = r_snaplen (s_ring s) ∧
  ∃ pend' q', pending s' pend' q' ∧ queue_step (packet_of (r_snaplen (s_ring s)) link_type) q e q'.
Proof.
  intros Hs Hp. destruct Hs as [r m k fs m' Hh|r m k r' m' Et|r m k Et|r m k meta r' m' p Et Ep|r m k r' m' Et|r m k nb];
    simpl; pose proof (pe_ok _ _ _ Hp) as Hr; simpl in Hr;
    pose proof (turn_pending link_type r m k pend q Hp) as Ht;
    pose proof (next_frame_turn_ok r m Hr) as Hok; try rewrite Et in Ht, Hok; simpl in Ht, Hok.
  - split; [done|]. eexists _, _. split; [by eapply pending_deliver|constructor].
  - destruct Ht as [pend' Hp']. destruct Hok as (_ & (_ & ? & _) & _). split; [done|].
    eexists _, _. split; [done|constructor].
  - split; [done|]. eexists _, _. split; [done|constructor].
  - destruct Ht as (-> & f & q' & pend' & -> & Ep' & Hp'). destruct Hok as (_ & _ & (_ & ? & _) & _).
    split; [done|]. rewrite Ep in Ep'. injection Ep' as ->. eexists _, _. split; [done|constructor].
  - destruct Ht as (-> & -> & ->). split; [done|]. eexists _, _. split; [done|constructor].
  - split; [done|]. exists pend, q. split; [|constructor].
    destruct Hp as [[? ? ? ?] ? ? ? ?]. by split; [split|..].
Qed.

Lemma fresh_pending s : fresh s → pending s [] [].
Proof.
  intros [Hr Hw Hk Hh]. split; try done.
  - rewrite Hk. symmetry. by eapply nth_block_0.
  - rewrite zlen_nil. destruct Hr. lia.
  - intros j Hj. rewrite zget_oob by (change (zlen []) with 0; lia). apply Hh. by eapply nth_block_range.
  - by rewrite Hw.
Qed.

Lemma run_queue s0 t s :
  fresh s0 → run (sys_step link_type) s0 t s →
  r_snaplen (s_ring s) = r_snaplen (s_ring s0) ∧
  ∃ pend q, pending s pend q ∧ run (queue_step (packet_of (r_snaplen (s_ring s0)) link_type)) [] t q.
Proof.
  intros Hf Hrun. induction Hrun as [s0|s0 t s1 e s2 _ IH Hs].
  - split; [done|]. exists [], []. split; [by apply fresh_pending|constructor].
  - destruct (IH Hf) as (Hl & pend & q & Hp & Hq).
    destruct (sys_step_queue _ _ _ _ _ Hs Hp) as (Hl' & pend' & q' & Hp' & Hq'). rewrite Hl in Hl', Hq'.
    split; [done|]. exists pend', q'. split; [done|]. by econstructor.
Qed.

(** With a packet pending, a call finds it without waiting. *)
Lemma next_frame_pending n : ∀ r m k pend f q,
  pending (mk_system r m k) pend (f :: q) → todo r m < Z.of_nat n →
  ∃ meta r' m', next_frame n [] r m = Some (ROk (Returned (Some meta) r' m')) ∧
    packet_at link_type meta m' = ROk (packet_of (r_snaplen r) link_type f).
Proof.
  induction n as [|n IH]; intros r m k pend f q Hp Hn.
  { pose proof (todo_le r m (pe_ok _ _ _ Hp)). lia. }
  pose proof (turn_pending link_type r m k pend _ Hp) as Ht.
  pose proof (next_frame_turn_ok r m (pe_ok _ _ _ Hp)) as Hok. cbn [next_frame].
  destruct (next_frame_turn r m) as [[r' m'|[meta|] r' m'|]|e|]; simpl in Ht, Hok; try done.
  - destruct Ht as [pend' Hp']. destruct Hok as (_ & (_ & Hl & _) & Hlt). rewrite <- Hl.
    eapply IH; [done|lia].
  - destruct Ht as (-> & f' & q' & pend' & [= <- <-] & Ep & _). by eexists _, _, _.
  - by destruct Ht as (_ & _ & ?).
Qed.

(** C11: for every interleaving of the kernel's hand-overs with the turns of the
    reader, the ring behaves as a queue: it answers with the packets of the
    frames handed over, each cut to the capture length, each once and in
    order, and with nothing only when all have been read. *)
Theorem ring_refines_queue (s0 s : system) (t : list event) :
  fresh s0 → run (sys_step link_type) s0 t s →
  ∃ q, run (queue_step (packet_of (r_snaplen (s_ring s0)) link_type)) [] t q ∧
    map (packet_of (r_snaplen (s_ring s0)) link_type) (delivered t) =
      packets_read t ++ map (packet_of (r_snaplen (s_ring s0)) link_type) q.
Proof.
  intros Hf Hrun. destruct (run_queue s0 t s Hf Hrun) as (_ & pend & q & _ & Hq).
  exists q. split; [done|]. by apply queue_run.
Qed.

(** C12: as long as fewer packets have been read than handed over, a call returns
    the next one, without waiting and within two turns a block. *)
Theorem ring_delivers (s0 s : system) (t : list event) (n : nat) :
  fresh s0 → run (sys_step link_type) s0 t s → zlen (packets_read t) < zlen (delivered t) →
  turns (s_ring s) [] ≤ Z.of_nat n →
  ∃ f meta r' m', zget (delivered t) (zlen (packets_read t)) = Some f ∧
    next_packet n [] link_type (s_ring s) (s_mem s) =
      Some (ROk (Some (packet_of (r_snaplen (s_ring s0)) link_type f), Returned (Some meta) r' m')).
Proof.
  intros Hf Hrun Hlt Hn. destruct (run_queue s0 t s Hf Hrun) as (Hl & pend & q & Hp & Hq).
  apply queue_run in Hq. set (packet := packet_of _ _) in *.
  destruct (zget_lt_Some (delivered t) (zlen (packets_read t))) as [f Ef];
    [pose proof (zlen_nonneg (packets_read t)); lia|].
  destruct q as [|f' q].
  { apply (f_equal zlen) in Hq. rewrite app_nil_r in Hq. unfold zlen in *. rewrite length_map in Hq. lia. }
  assert (packet f' = packet f) as Epf.
  { apply (f_equal (λ l, zget l (zlen (packets_read t)))) in Hq.
    rewrite zget_app_r, Z.sub_diag in Hq by lia. simpl in Hq. rewrite zget_cons_0 in Hq.
    rewrite zget_spec, decide_True, list_lookup_fmap in Hq by apply zlen_nonneg.
    rewrite zget_spec, decide_True in Ef by apply zlen_nonneg. rewrite Ef in Hq. simpl in Hq. congruence. }
  destruct s as [r m k]. simpl in *. pose proof (todo_le r m (pe_ok _ _ _ Hp)).
  destruct (next_frame_pending n r m k pend f' q Hp) as (meta & r' & m' & E & Ep);
    [unfold turns in Hn; change (zlen []) with 0 in Hn; lia|].
  exists f, meta, r', m'. split; [done|]. unfold next_packet. rewrite E. simpl.
  rewrite Ep. simpl. rewrite Hl. fold packet. by rewrite Epf.
Qed.
End refinement.
