(* ===== verification/RingLayout.v ===== *)
(** Blocks laid out as the kernel does it (the builder of the ring's tests): they
    hold the frames they are built from. The properties of the ring follow,
    with runs on such blocks as witnesses. *)

From S2P Require Export RingFifo.

(** * The layout *)

Definition hdr_bytes (h : Tpacket3Hdr) : list Z :=
  le_bytes 4 (tp_next_offset h) ++ le_bytes 4 (tp_sec h) ++ le_bytes 4 (tp_nsec h) ++
  le_bytes 4 (tp_snaplen h) ++ le_bytes 4 (tp_len h) ++ le_bytes 4 (tp_status h) ++
  le_bytes 2 (tp_mac h) ++ le_bytes 2 (tp_net h) ++ le_bytes 20 0.

Definition desc_bytes (status num_pkts offset_to_first_pkt blk_len : Z) : list Z :=
  le_bytes 4 TPACKET_V3 ++ le_bytes 4 0 ++ le_bytes 4 status ++ le_bytes 4 num_pkts ++
  le_bytes 4 offset_to_first_pkt ++ le_bytes 4 blk_len ++ le_bytes 8 1 ++ le_bytes 16 0.

(** The offset of each frame, and of what follows the last one. *)
Fixpoint frame_offsets `{PcapErrors} (pos : Z) (frames : list Frame) : Result (list Z * Z) :=
  match frames with
  | [] => ROk ([], pos)
  | f :: frames' =>
      pos' ← tpacket_align (pos + HDR_SIZE + zlen (f_payload f));
      '(offsets, end_) ← frame_offsets pos' frames';
      ROk (pos :: offsets, end_)
  end.

Definition frame_hdr (next : Z) (f : Frame) : Tpacket3Hdr :=
  mk_hdr next (f_sec f) (f_nsec f) (as_u32 (zlen (f_payload f))) (f_orig_len f) TP_STATUS_USER
    HDR_SIZE HDR_SIZE.

Fixpoint write_frames `{PcapErrors} (offsets : list Z) (frames : list Frame) (block : list Z) :
    Result (list Z) :=
  match offsets, frames with
  | at_ :: offsets', f :: frames' =>
      let next := match offsets' with at' :: _ => as_u32 (at' - at_) | [] => 0 end in
      if zlen block <? at_ + HDR_SIZE + zlen (f_payload f) then RPanic
      else write_frames offsets' frames'
             (zput (at_ + HDR_SIZE) (f_payload f) (zput at_ (hdr_bytes (frame_hdr next f)) block))
  | _, _ => ROk block
  end.

Definition build_block `{PcapErrors} (block_size status : Z) (frames : list Frame) : Result (list Z) :=
  let block := replicate (Z.to_nat block_size) 0 in
  '(offsets, pos) ← frame_offsets DESC_SIZE frames;
  block ← write_frames offsets frames block;
  if zlen block <? DESC_SIZE then RPanic
  else ROk (zput 0 (desc_bytes status (as_u32 (zlen frames)) DESC_SIZE (as_u32 pos)) block).

(** * It holds the frames *)

Definition wf_frame (f : Frame) : Prop :=
  is_u32 (f_sec f) ∧ is_u32 (f_nsec f) ∧ is_u32 (f_orig_len f) ∧ bytes (f_payload f).

(** A field of a byte string that was stored in it. *)
Lemma le_field (n : nat) k i x l :
  zslice i k l = le_bytes n x → 0 ≤ x < 256 ^ Z.of_nat n → le_at k i l = x.
Proof. intros E Hx. unfold le_at. rewrite E, of_le_bytes_le_bytes. by apply Z.mod_small. Qed.

(** A header read where its bytes are. *)
Lemma read_hdr_bytes blk off h :
  0 ≤ off → off + 48 ≤ zlen blk → zslice off 48 blk = hdr_bytes h →
  is_u32 (tp_next_offset h) → is_u32 (tp_sec h) → is_u32 (tp_nsec h) → is_u32 (tp_snaplen h) →
  is_u32 (tp_len h) → is_u32 (tp_status h) → is_u16 (tp_mac h) → is_u16 (tp_net h) →
  read_hdr blk off = h.
Proof.
  intros Ho Hl E. intros.
  assert (Hr : ∀ k n, 0 ≤ k → 0 ≤ n → k + n ≤ 48 → zslice (off + k) n blk = zslice k n (hdr_bytes h)).
  { intros. by rewrite <- E, zslice_zslice by lia. }
  pose proof (Hr 0) as Hfirst. rewrite Z.add_0_r in Hfirst.
  unfold read_hdr. destruct h as [f1 f2 f3 f4 f5 f6 f7 f8]. simpl in *.
  f_equal; first [eapply (le_field 4); [rewrite ?Hr, ?Hfirst by lia; reflexivity|assumption]
                 |eapply (le_field 2); [rewrite ?Hr, ?Hfirst by lia; reflexivity|assumption]].
Qed.

(** What is chained at or behind [lo] does not depend on the bytes in front of it. *)
Definition agree (lo : Z) (blk blk' : list Z) : Prop :=
  zlen blk' = zlen blk ∧ ∀ k n, lo ≤ k → 0 ≤ n → k + n ≤ zlen blk → zslice k n blk' = zslice k n blk.

Lemma read_hdr_agree lo blk blk' off :
  agree lo blk blk' → lo ≤ off → off + HDR_SIZE ≤ zlen blk → read_hdr blk' off = read_hdr blk off.
Proof.
  intros [_ Ha] Hlo Hh. unfold HDR_SIZE, read_hdr, le_at in *. by rewrite !Ha by lia.
Qed.

Lemma chain_agree lo blk blk' : ∀ fs off,
  bytes blk → agree lo blk blk' → lo ≤ off → chain blk off fs → chain blk' off fs.
Proof.
  intros fs. induction fs as [|f fs IH]; [done|]. intros off Hb Ha Hlo [Hf Hn]. pose proof Hf as [Ho Hh].
  assert (E : read_hdr blk' off = read_hdr blk off) by by eapply read_hdr_agree.
  assert (0 ≤ tp_mac (read_hdr blk off) < 256 ^ 2)
    by (apply le_at_range; [done|unfold HDR_SIZE in *; simpl; lia..]).
  assert (0 ≤ tp_next_offset (read_hdr blk off) < 256 ^ 4)
    by (apply le_at_range; [done|unfold HDR_SIZE in *; simpl; lia..]).
  pose proof (zlen_nonneg (f_payload f)). destruct Ha as [Hl Ha]. split.
  - split; rewrite ?E, ?Hl; try done. rewrite Ha by lia. done.
  - rewrite E. destruct fs as [|f' fs]; [done|]. destruct Hn as [Hne Hc]. split; [done|].
    apply IH; [done|split|lia|]; done.
Qed.

Lemma zlen_hdr_bytes h : zlen (hdr_bytes h) = HDR_SIZE.
Proof. done. Qed.

Lemma hdr_bytes_range h : bytes (hdr_bytes h).
Proof. unfold bytes, hdr_bytes. repeat apply Forall_app_2; apply le_bytes_range. Qed.

Section write.
Context `{PcapErrors}.

Lemma frame_offsets_head pos f fs offs e :
  frame_offsets pos (f :: fs) = ROk (offs, e) → ∃ offs', offs = pos :: offs'.
Proof.
  simpl. unfold mbind, Result_bind. destruct (tpacket_align _) as [p| |]; try done.
  destruct (frame_offsets p fs) as [[o e']| |]; try done. intros [= <- <-]. by eexists.
Qed.

Lemma write_frames_chain fs : ∀ pos offs e blk blk',
  Forall wf_frame fs → bytes blk → zlen blk < 2 ^ 32 → 0 ≤ pos →
  frame_offsets pos fs = ROk (offs, e) → write_frames offs fs blk = ROk blk' →
  chain blk' pos fs ∧ zlen blk' = zlen blk ∧ bytes blk' ∧
  ∀ k n, 0 ≤ k → 0 ≤ n → k + n ≤ pos → k + n ≤ zlen blk → zslice k n blk' = zslice k n blk.
Proof.
  induction fs as [|f fs IH]; intros pos offs e blk blk' Hw Hb Hlen Hpos Eo Ew.
  { simpl in *. injection Eo as <- <-. injection Ew as <-. done. }
  apply Forall_cons in Hw as [(Hsec & Hns & Hol & Hpl) Hw]. simpl in Eo. unfold mbind, Result_bind in Eo.
  destruct (tpacket_align _) as [pos'| |] eqn:Ea; try done.
  destruct (frame_offsets pos' fs) as [[offs' e']| |] eqn:Eo'; try done. injection Eo as <- <-.
  cbn [write_frames] in Ew. set (next := match offs' with [] => 0 | at' :: _ => as_u32 (at' - pos) end) in *.
  destruct (Z.ltb_spec (zlen blk) (pos + HDR_SIZE + zlen (f_payload f))) as [|Hfit]; [done|].
  pose proof (zlen_nonneg (f_payload f)) as Hpz. unfold HDR_SIZE in *.
  destruct (tpacket_align_spec (pos + 48 + zlen (f_payload f))) as (a & Ea' & _ & Ha); [lia|].
  rewrite Ea in Ea'. injection Ea' as <-.
  set (hdr := frame_hdr next f) in *.
  assert (Hhz : zlen (hdr_bytes hdr) = 48) by apply zlen_hdr_bytes.
  set (b1 := zput pos (hdr_bytes hdr) blk) in *.
  assert (Hb1 : zlen b1 = zlen blk) by (apply zlen_zput; rewrite ?Hhz; lia).
  set (b2 := zput (pos + 48) (f_payload f) b1) in *.
  assert (Hb2 : zlen b2 = zlen blk) by (unfold b2; rewrite zlen_zput; lia).
  destruct (IH pos' offs' e' b2 blk' Hw) as (Hch & Hl & Hb' & Hsame); [| |lia|done|done|].
  { apply Forall_zput; [|done]. apply Forall_zput; [done|]. apply hdr_bytes_range. }
  { lia. }
  assert (Hnext : next = match fs with [] => 0 | _ => pos' - pos end).
  { unfold next. destruct fs as [|f' fs]; [by simpl in Eo'; injection Eo' as <- <-|].
    destruct (frame_offsets_head _ _ _ _ _ Eo') as [o ->]. destruct Hch as [[_ Hh _ _ _ _ _ _] _].
    unfold HDR_SIZE in Hh. unfold as_u32. apply Z.mod_small. lia. }
  assert (Hhdr : zslice pos 48 blk' = hdr_bytes hdr).
  { rewrite Hsame by lia. unfold b2. rewrite zslice_put_disjoint by lia. rewrite <- Hhz at 1.
    apply zslice_put_same; lia. }
  assert (Hn32 : is_u32 next) by (rewrite Hnext; unfold is_u32; destruct fs as [|? ?]; [lia|];
    destruct Hch as [[_ Hh _ _ _ _ _ _] _]; unfold HDR_SIZE in Hh; lia).
  assert (Hrd : read_hdr blk' pos = hdr).
  { apply read_hdr_bytes; try done; try lia; unfold hdr; simpl; unfold is_u32, is_u16, TP_STATUS_USER, HDR_SIZE; try lia.
    apply Z.mod_pos_bound. lia. }
  split_and!; [|lia|done|].
  - split; [split|]; rewrite ?Hrd; simpl; unfold HDR_SIZE; try done; try lia.
    + unfold as_u32. apply Z.mod_small. lia.
    + rewrite Hsame by lia. apply zslice_put_same; lia.
    + rewrite Hnext. destruct fs; [done|]. split; [lia|]. by replace (pos + (pos' - pos)) with pos' by lia.
  - intros k n ????. rewrite Hsame by lia. unfold b2. rewrite zslice_put_disjoint by lia.
    apply zslice_put_disjoint; lia.
Qed.
End write.

Lemma build_block_spec `{PcapErrors} bs status fs blk :
  Forall wf_frame fs → 0 ≤ bs < 2 ^ 32 → is_u32 status → zlen fs < 2 ^ 32 →
  build_block bs status fs = ROk blk →
  zlen blk = bs ∧ bytes blk ∧ le_at 4 BLOCK_STATUS_OFFSET blk = status ∧
  (status .& TP_STATUS_USER ≠ 0 → holds blk fs).
Proof.
  intros Hw Hbs Hst Hfs. unfold build_block, mbind, Result_bind.
  destruct (frame_offsets DESC_SIZE fs) as [[offs e]| |] eqn:Eo; try done.
  set (b0 := replicate (Z.to_nat bs) 0). destruct (write_frames offs fs b0) as [b1| |] eqn:Ew; try done.
  assert (Hz : zlen b0 = bs) by (unfold zlen, b0; rewrite length_replicate; lia).
  destruct (write_frames_chain fs DESC_SIZE offs e b0 b1 Hw) as (Hch & Hl & Hb & _); [| |done|done|done|].
  { apply Forall_replicate. by vm_compute. }
  { lia. }
  destruct (Z.ltb_spec (zlen b1) DESC_SIZE) as [|Hd]; [done|]. intros [= <-]. unfold DESC_SIZE in *.
  set (desc := desc_bytes _ _ _ _). set (b2 := zput 0 desc b1).
  assert (Hdz : zlen desc = 48) by done.
  assert (Hdesc : zslice 0 48 b2 = desc) by (rewrite <- Hdz at 1; apply zslice_put_same; lia).
  assert (Hb2 : zlen b2 = bs) by (unfold b2; rewrite zlen_zput; lia).
  assert (Hf : ∀ k n, 0 ≤ k → 0 ≤ n → k + n ≤ 48 → zslice k n b2 = zslice k n desc).
  { intros. rewrite <- Hdesc. by rewrite zslice_zslice by lia. }
  assert (Hstat : le_at 4 BLOCK_STATUS_OFFSET b2 = status).
  { eapply (le_field 4); [|done]. unfold BLOCK_STATUS_OFFSET. rewrite Hf by lia. reflexivity. }
  pose proof (zlen_nonneg fs).
  assert (Hnum : le_at 4 12 b2 = zlen fs).
  { eapply (le_field 4); [|change (is_u32 (zlen fs)); unfold is_u32; lia]. rewrite Hf by lia.
    unfold desc. replace (as_u32 (zlen fs)) with (zlen fs) by (unfold as_u32; rewrite Z.mod_small; lia). reflexivity. }
  assert (Hfirst : le_at 4 16 b2 = 48).
  { eapply (le_field 4); [|by vm_compute]. rewrite Hf by lia. reflexivity. }
  split_and!; [done| |done|].
  - apply Forall_zput; [done|]. unfold desc, desc_bytes. repeat apply Forall_app_2; apply le_bytes_range.
  - intros Hu. split; [by rewrite Hstat|done|]. rewrite Hfirst. eapply (chain_agree 48 b1); [done| |lia|done].
    split; [unfold b2; rewrite zlen_zput; lia|]. intros k n ???. apply zslice_put_disjoint; lia.
Qed.

(** * Properties *)

Section properties.
Context `{PcapErrors} (link_type : LinkType).

(** C31: a block laid out as the kernel does it holds the frames it is built from:
    the reader's walk, from the descriptor along the chain of headers, finds
    each of them with its times, its length on the wire and its bytes. *)
Theorem build_block_holds (bs status : Z) (fs : list Frame) (blk : list Z) :
  Forall wf_frame fs → 0 ≤ bs < 2 ^ 32 → is_u32 status → zlen fs < 2 ^ 32 →
  status .& TP_STATUS_USER ≠ 0 → build_block bs status fs = ROk blk →
  zlen blk = bs ∧ holds blk fs.
Proof. intros ????? E. destruct (build_block_spec bs status fs blk) as (? & _ & _ & ?); auto. Qed.

(** C13: whatever bytes the kernel writes, malformed blocks included, a call to
    [next_packet] returns: within two turns a block and two more for each time
    it waits, without an access outside the mapping, and with an error only if
    [poll] gives one that is no interruption. A packet it returns is cut from
    the block in hand: its data are the bytes of the mapping at a place inside
    that block, no more than the snap length of them. Nothing is returned only
    when the next block has not been handed over. *)
Theorem next_packet_returns (r : Ring) (m : list Z) (polls : list (option io_error * list Z)) (n : nat) :
  ring_ok r m → Forall (λ p, sized (r_geom r) p.2) polls → turns r polls ≤ Z.of_nat n →
  ∃ out, next_packet n polls link_type r m = Some out ∧
    match out with
    | ROk (Some p, Returned (Some meta) r' m') =>
        ring_ok r' m' ∧ r_geom r' = r_geom r ∧ in_hand r' m' meta ∧
        packet_at link_type meta m' = ROk p ∧
        pr_data p = zslice (m_offset meta) (m_len meta) m' ∧ zlen (pr_data p) = m_len meta ∧
        m_len meta ≤ r_snaplen r ∧ pr_orig_len p = m_orig_len meta ∧ pr_link_type p = link_type
    | ROk (None, Returned None r' m') =>
        ring_ok r' m' ∧ r_nonblocking r = true ∧ handed (r_geom r') m' (r_cur_block r') = false
    | ROk (None, Blocked r' m') =>
        ring_ok r' m' ∧ r_nonblocking r = false ∧ handed (r_geom r') m' (r_cur_block r') = false
    | RErr e => ∃ err m', (Some err, m') ∈ polls ∧ kind err ≠ KInterrupted ∧ e = from_io err
    | _ => False
    end.
Proof.
  intros Hr Hp Hn. pose proof (todo_le r m Hr). unfold turns in Hn.
  destruct (next_frame_ok polls n r m Hr Hp) as (x & Ex & Hx); [lia|].
  unfold next_packet. rewrite Ex. unfold result_ok in Hx.
  destruct x as [[[meta|] r' m'|r' m']|e|]; simpl; eexists; (split; [done|]); try naive_solver.
  destruct Hx as (Hr' & (Hg & Hl & _) & Hin). rewrite (packet_at_ok r' m' meta) by done. simpl.
  pose proof Hin as (_ & Hlo & Hlen & Hhi & _).
  pose proof (block_range _ _ (rk_sized _ _ Hr') _ (rk_cur _ _ Hr')).
  split_and!; try done; [by apply (packet_at_ok r')| |lia]. rewrite zlen_zslice by lia. done.
Qed.

(** C19: a packet borrowed from the ring does not change until the next call,
    although the kernel goes on writing: it writes no block it has handed over,
    and the packet's block is given back by the next call at the earliest. *)
Theorem packet_stable (r r' : Ring) (m m' m'' : list Z) (polls : list (option io_error * list Z))
    (n : nat) (p : PacketRef) (meta : FrameMeta) :
  ring_ok r m → Forall (λ p, sized (r_geom r) p.2) polls → turns r polls ≤ Z.of_nat n →
  next_packet n polls link_type r m = Some (ROk (Some p, Returned (Some meta) r' m')) →
  kernel_writes (r_geom r) m' m'' → packet_at link_type meta m'' = ROk p ∧ ring_ok r' m''.
Proof.
  intros Hr Hp Hn E Hk. pose proof (todo_le r m Hr). unfold turns in Hn.
  destruct (next_frame_ok polls n r m Hr Hp) as (x & Ex & Hx); [lia|].
  unfold next_packet in E. rewrite Ex in E. unfold result_ok in Hx.
  destruct x as [[[mt|] r1 m1|r1 m1]|e|]; simpl in E; try done.
  destruct Hx as (Hr' & (Hg & _) & Hin).
  rewrite (packet_at_ok r1 m1 mt) in E by done. simpl in E. injection E as <- <- <- <-. rewrite <- Hg in Hk.
  pose proof Hr' as [Hs Hc Hw Hsn].
  assert (Hr'' : ring_ok r1 m'').
  { split; [apply Hk|done| |done]. intros w Ew. destruct (Hw w Ew) as (Hh & ? & ?).
    split_and!; try done. by eapply handed_stable. }
  split; [|done]. rewrite (packet_at_ok r1 m'' mt); [|done|].
  - by rewrite (in_hand_stable r1 m1).
  - destruct Hin as (Hh & ?). split; [|done]. by eapply handed_stable.
Qed.
End properties.

(** What [open] makes is a fresh ring, over the zeroed mapping of the kernel. *)
Lemma ring_open_fresh `{PcapErrors} ans cfg snaplen page_size r :
  sane_config cfg snaplen page_size → ring_open ans cfg snaplen page_size = ROk r →
  fresh (mk_system r (replicate (Z.to_nat (map_len (r_geom r))) 0) 0).
Proof.
  intros Hc. unfold ring_open, mbind, Result_bind. destruct (a_version ans); [done|].
  pose proof (ring_geometry_spec cfg snaplen page_size Hc) as Hg.
  destruct (ring_geometry cfg snaplen page_size) as [g| |]; [|done|done].
  destruct (a_ring ans); [done|]. destruct (a_mmap ans); [done|]. intros [= <-]. simpl.
  destruct Hg as [_ Hb [_ Hn] _ Hf _ [Hm _]]. destruct Hc as (_ & _ & Hs & _). unfold is_u32 in Hs.
  assert (MIN_FRAME_SIZE = 2048) as Hmin by done. set (m := replicate _ 0).
  assert (Hz : zlen m = block_size g * block_count g) by (unfold zlen, m; rewrite length_replicate, Hm; apply Z2Nat.id; apply Z.mul_nonneg_nonneg; lia).
  assert (Hsz : sized g m).
  { split; [lia|lia|done|]. apply Forall_replicate. by vm_compute. }
  split; simpl; [split; simpl; [done|lia|done|lia]|done|done|]. intros i Hi. pose proof (block_range g m Hsz i Hi) as Hr.
  unfold MIN_FRAME_SIZE in *. unfold handed. apply negb_false_iff, Z.eqb_eq.
  replace (le_at 4 _ m) with 0; [done|]. symmetry. apply (le_field 4); [|done].
  apply zget_ext; rewrite zlen_zslice by (unfold BLOCK_STATUS_OFFSET; lia); [done|].
  intros j Hj. rewrite zget_zslice, decide_True by (unfold BLOCK_STATUS_OFFSET; lia).
  destruct (zget_lt_Some m (i * block_size g + BLOCK_STATUS_OFFSET + j)) as [x Ex]; [unfold BLOCK_STATUS_OFFSET; lia|].
  rewrite Ex. assert (x = 0) as ->.
  { rewrite zget_spec in Ex. case_decide; [|done]. apply lookup_replicate in Ex. tauto. }
  assert (j = 0 ∨ j = 1 ∨ j = 2 ∨ j = 3) as [-> | [-> | [-> | ->]]] by lia; done.
Qed.

(** * Runs *)

#[local] Existing Instance no_pcap.

Definition sample_frames : list Frame :=
  [mk_frame 7 500 60 [0xaa; 0xbb; 0xcc]; mk_frame 8 0 1500 (replicate 100 1)].

Definition sample_block : list Z :=
  match build_block 2048 TP_STATUS_USER sample_frames with ROk b => b | _ => [] end.

(** Two blocks; frames are cut to 64 bytes. *)
Definition sample_ring : Ring := mk_ring (mk_geometry 2048 2 2048 2 4096) 0 None 64 true.

(** The mapping before and after the kernel hands over its first block. *)
Definition empty_mem : list Z := replicate 4096 0.
Definition sample_mem : list Z := zput 0 sample_block empty_mem.

Lemma sample_frames_wf : Forall wf_frame sample_frames.
Proof.
  unfold sample_frames. repeat (apply Forall_cons_2 || apply Forall_nil_2); split_and!; try by vm_compute.
  all: apply Forall_forall; intros x Hx; revert x Hx; apply Forall_forall.
  all: apply (bool_decide_unpack _); by vm_compute.
Qed.

Lemma build_block_holds_witness : zlen sample_block = 2048 ∧ holds sample_block sample_frames.
Proof.
  apply (build_block_holds 2048 TP_STATUS_USER).
  - apply sample_frames_wf.
  - lia.
  - by vm_compute.
  - by vm_compute.
  - by vm_compute.
  - vm_compute. reflexivity.
Defined.

Lemma sized_compute g m :
  (MIN_FRAME_SIZE <=? block_size g) && (block_size g <? 2 ^ 32) && (0 <? block_count g) &&
  (zlen m =? block_size g * block_count g) && forallb (λ b, (0 <=? b) && (b <? 2 ^ 8)) m = true →
  sized g m.
Proof.
  intros Hc. zbool. split; [done|done|done|]. apply Forall_forall. intros b Hb.
  apply (proj1 (forallb_forall _ m)) with (x := b) in H0; [|by apply list_elem_of_In]. zbool. split; done.
Qed.

Lemma sample_ring_ok m : sized (r_geom sample_ring) m → ring_ok sample_ring m.
Proof. intros Hs. by split. Qed.

(** The first frame of the block; its bytes are at 96, behind the descriptor and
    its own header. *)
Lemma next_packet_returns_witness :
  ∃ p meta r', next_packet 6 [] Ethernet sample_ring sample_mem =
      Some (ROk (Some p, Returned (Some meta) r' sample_mem)) ∧
    in_hand r' sample_mem meta ∧ pr_data p = zslice 96 3 sample_mem ∧ pr_data p = [0xaa; 0xbb; 0xcc].
Proof.
  destruct (next_packet_returns Ethernet sample_ring sample_mem [] 6) as (out & E & H).
  - apply sample_ring_ok, sized_compute. by vm_compute.
  - by apply Forall_nil.
  - by vm_compute.
  - assert (En : next_packet 6 [] Ethernet sample_ring sample_mem =
      Some (ROk (Some (mk_packet_ref [0xaa; 0xbb; 0xcc] (mk_time 7 500) 60 Ethernet),
        Returned (Some (mk_meta 96 3 7 500 60)) (set_walk (Some (mk_walk 112 1)) sample_ring) sample_mem)))
      by (vm_compute; reflexivity).
    rewrite En in E. injection E as <-. destruct H as (_ & _ & Hin & _ & Hd & _).
    do 3 eexists. split; [exact En|]. split; [exact Hin|]. by split.
Defined.

Lemma sample_block_spec : zlen sample_block = 2048 ∧ bytes sample_block ∧ holds sample_block sample_frames.
Proof.
  destruct (build_block_spec 2048 TP_STATUS_USER sample_frames sample_block) as (? & ? & _ & ?);
    [apply sample_frames_wf|lia|by vm_compute|by vm_compute|vm_compute; reflexivity|].
  split_and!; [done|done|]. auto.
Qed.

Lemma sample_mem_sized m : m = empty_mem ∨ m = sample_mem ∨ m = zput 2048 sample_block sample_mem →
  sized (r_geom sample_ring) m.
Proof. intros [->|[->| ->]]; apply sized_compute; vm_compute; reflexivity. Qed.

Lemma packet_stable_witness :
  packet_at Ethernet (mk_meta 96 3 7 500 60) (zput 2048 sample_block sample_mem) =
    ROk (mk_packet_ref [0xaa; 0xbb; 0xcc] (mk_time 7 500) 60 Ethernet).
Proof.
  apply (packet_stable Ethernet sample_ring (set_walk (Some (mk_walk 112 1)) sample_ring) sample_mem sample_mem
           (zput 2048 sample_block sample_mem) [] 6).
  - apply sample_ring_ok, sample_mem_sized. auto.
  - by apply Forall_nil.
  - by vm_compute.
  - vm_compute. reflexivity.
  - split; [apply sample_mem_sized; auto|]. intros i Hi Hh.
    assert (i = 0 ∨ i = 1) as [-> | ->] by (unfold sample_ring in Hi; simpl in Hi; lia).
    + vm_compute. reflexivity.
    + exfalso. revert Hh. by vm_compute.
Defined.

(** The kernel hands a block over, the reader takes it and reads a frame. *)
Definition sample_start : system := mk_system sample_ring empty_mem 0.

Definition sample_taken : Ring := set_walk (Some (mk_walk 48 2)) sample_ring.

Definition sample_end : system :=
  mk_system (set_walk (Some (mk_walk 112 1)) sample_ring) sample_mem 1.

Definition sample_trace : list event :=
  [Delivered sample_frames; Silent;
   Read (Some (mk_packet_ref [0xaa; 0xbb; 0xcc] (mk_time 7 500) 60 Ethernet))].

Lemma sample_fresh : fresh sample_start.
Proof.
  split; [apply sample_ring_ok, sample_mem_sized; auto|done|done|]. intros i Hi.
  assert (i = 0 ∨ i = 1) as [-> | ->] by (unfold sample_start, sample_ring in Hi; simpl in Hi; lia); by vm_compute.
Qed.

Lemma sample_run : run (sys_step Ethernet) sample_start sample_trace sample_end.
Proof.
  change sample_trace with ((([] ++ [Delivered sample_frames]) ++ [Silent]) ++
    [Read (Some (mk_packet_ref [0xaa; 0xbb; 0xcc] (mk_time 7 500) 60 Ethernet))]).
  apply run_snoc with (mk_system sample_taken sample_mem 1).
  - apply run_snoc with (mk_system sample_ring sample_mem 1).
    + eapply run_snoc; [constructor|]. apply sys_deliver. split; [by vm_compute|].
      split; [apply sample_mem_sized; auto|]. split.
      * replace (block_bytes _ _ _) with sample_block by (vm_compute; reflexivity). apply sample_block_spec.
      * intros j Hj Hne. assert (j = 1) as -> by (unfold sample_ring in Hj; simpl in Hj; lia).
        vm_compute. reflexivity.
    + apply sys_turn. vm_compute. reflexivity.
  - apply sys_packet with (mk_meta 96 3 7 500 60); vm_compute; reflexivity.
Qed.

Lemma ring_refines_queue_witness :
  ∃ q, run (queue_step (packet_of 64 Ethernet)) [] sample_trace q.
Proof.
  destruct (ring_refines_queue Ethernet sample_start sample_end sample_trace) as (q & Hq & _).
  - apply sample_fresh.
  - apply sample_run.
  - by exists q.
Defined.

Lemma ring_delivers_witness :
  ∃ f x, zget (delivered sample_trace) 1 = Some f ∧
    next_packet 6 [] Ethernet (s_ring sample_end) (s_mem sample_end) =
      Some (ROk (Some (packet_of 64 Ethernet f), x)).
Proof.
  destruct (ring_delivers Ethernet sample_start sample_end sample_trace 6) as (f & meta & r' & m' & Ef & E).
  - apply sample_fresh.
  - apply sample_run.
  - by vm_compute.
  - by vm_compute.
  - exists f, (Returned (Some meta) r' m'). split; [exact Ef|].
    change (r_snaplen (s_ring sample_start)) with 64 in E. exact E.
Defined.
