(* ===== verification/Sys.v ===== *)
(** System calls of the live capture back ends. A kernel is a function from the
    calls made so far and the next one to its answer; the code runs in a monad
    that threads the calls as a history, so that a property can speak of their
    order. An owned descriptor is closed when the code that holds it fails. *)

From S2P Require Export Ring.
From S2P Require Bpf.

(** * Calls and answers *)

(** The options the code sets on a socket. *)
Inductive sockopt :=
  | OptFilter (len : Z) (filter : list Bpf.Insn)
  | OptInt (level name value : Z)
  | OptPromiscuous (ifindex : Z).

(** A control message of [recvmsg]. *)
Record cmsg := mk_cmsg { cm_level : Z; cm_type : Z; cm_data : list Z }.

(** An entry of [getifaddrs]: the name, and the address family if there is an
    address. *)
Record ifaddr := mk_ifaddr { ia_name : string; ia_family : option Z }.

(** A device of the packet library of Windows, and the header it puts in front
    of a packet. Its calls are those of the library; the text of an error is what
    [pcap_geterr] or the error buffer says. *)
Record pcap_if := mk_pcap_if { pi_name : option string; pi_description : option string }.

Record PcapPkthdr := mk_pcap_pkthdr {
  ph_tv_sec : Z;
  ph_tv_usec : Z;
  ph_caplen : Z;
  ph_len : Z;
}.

Inductive syscall :=
  | Socket (family type_ protocol : Z)
  | SetOpt (fd : Z) (o : sockopt)
  | RingSetup (fd : Z)
  | Munmap
  | IfIndex (fd : Z) (name : string)
  | Bind (fd protocol ifindex : Z)
  | ReadFile (path : string)
  | OpenFile (path : string)
  | ReadContent (fd : Z)
  | GetStats (fd : Z)
  | GetFl (fd : Z)
  | SetFl (fd flags : Z)
  | Recvmsg (fd len : Z)
  | SendTo (fd : Z) (frame : list Z)
  | Now
  | Close (fd : Z)
  | OpenDevice (path : string)
  | Ioctl (fd request : Z)
  | IoctlName (fd request : Z) (name : list Z)
  | IoctlFilter (fd request len : Z) (filter : list Bpf.Insn)
  | ReadFd (fd len : Z)
  | WriteFd (fd : Z) (frame : list Z)
  | Getifaddrs
  | FindAllDevs
  | FreeAllDevs
  | PcapOpenLive (device : string) (snaplen : Z) (promiscuous : bool)
  | PcapClose (handle : Z)
  | PcapSetFilter (handle len : Z) (filter : list Bpf.Insn)
  | PcapDatalink (handle : Z)
  | PcapStats (handle : Z)
  | PcapSetNonblock (handle : Z) (nb : bool)
  | PcapNextEx (handle : Z)
  | PcapSendPacket (handle : Z) (frame : list Z) (len : Z).

(** What a call that succeeds returns. [ReadContent] stands for the reads of a
    buffered reader, which give the bytes of a file. [RingSetup] stands for the calls of
    [Ring::open]: their answers, the page size and the mapping. *)
Definition reply (c : syscall) : Type :=
  match c with
  | Socket _ _ _ | OpenFile _ | IfIndex _ _ | GetFl _ | SendTo _ _ | OpenDevice _ | Ioctl _ _ | WriteFd _ _ => Z
  | SetOpt _ _ | Munmap | Bind _ _ _ | SetFl _ _ | Close _ | IoctlName _ _ _ | IoctlFilter _ _ _ _ => unit
  | RingSetup _ => open_answers * Z * list Z
  | ReadFile _ => string
  | GetStats _ => Z * Z
  | Recvmsg _ _ => list Z * list cmsg
  | Now => SystemTime
  | ReadFd _ _ | ReadContent _ => list Z
  | Getifaddrs => list ifaddr
  | FindAllDevs => list pcap_if
  | PcapOpenLive _ _ _ | PcapDatalink _ => Z
  | FreeAllDevs | PcapClose _ | PcapSetFilter _ _ _ | PcapSetNonblock _ _ | PcapSendPacket _ _ _ => unit
  | PcapStats _ => Z * Z * Z
  | PcapNextEx _ => option (PcapPkthdr * list Z)
  end.

Record event := mk_event { ev_call : syscall; ev_ok : bool }.

(** The calls made so far, the last one first. *)
Definition history : Type := list event.

Definition Kernel : Type := history → ∀ c, io_error + reply c.

(** * The monad *)

Definition IO `{PcapErrors} (A : Type) : Type := history → Result A * history.

#[export] Instance IO_ret `{PcapErrors} : MRet IO := λ A a h, (ROk a, h).
#[export] Instance IO_bind `{PcapErrors} : MBind IO := λ A B f m h,
  match m h with
  | (ROk a, h) => f a h
  | (RErr e, h) => (RErr e, h)
  | (RPanic, h) => (RPanic, h)
  end.

Section sys.
Context `{PcapErrors} (K : Kernel).

(** A call, and whether it succeeded. *)
Definition sys (c : syscall) : IO (io_error + reply c) := λ h,
  let answer := K h c in
  (ROk answer, mk_event c (match answer with inl _ => false | inr _ => true end) :: h).

Definition throw {A} (e : TapError) : IO A := λ h, (RErr e, h).

(** [if rc < 0 { return Err(io_err()) }] *)
Definition call (c : syscall) : IO (reply c) :=
  a ← sys c;
  match a with inl e => throw (from_io e) | inr r => mret r end.

(** A result that makes no calls. *)
Definition lift {A} (r : Result A) : IO A := λ h, (r, h).

(** [m.unwrap_or(d)]; a panic is no error. *)
Definition or_default {A} (d : A) (m : IO A) : IO A := λ h,
  match m h with (RErr _, h) => (ROk d, h) | out => out end.

(** Code that drops a value when it does not return: [release] runs then. *)
Definition dropping {A} (release : IO unit) (m : IO A) : IO A := λ h,
  match m h with
  | (ROk a, h) => (ROk a, h)
  | (r, h) => (r, (release h).2)
  end.

(** The call that gives a descriptor back; its answer is ignored. *)
Definition discard (c : syscall) : IO unit := sys c;; mret tt.
End sys.
Arguments throw {_ A} e.
Arguments lift {_ A} r.
Arguments dropping {_ A} release m.
Arguments or_default {_ A} d m.

(** * Reasoning about the calls *)

Definition io_wp `{PcapErrors} {A} (m : IO A) (h : history) (Q : Result A → history → Prop) : Prop :=
  let '(r, h') := m h in Q r h'.

Section wp.
Context `{PcapErrors} (K : Kernel).

Lemma io_wp_mono {A} (m : IO A) h (P Q : Result A → history → Prop) :
  io_wp m h P → (∀ r h', P r h' → Q r h') → io_wp m h Q.
Proof. unfold io_wp. destruct (m h). auto. Qed.

Lemma io_wp_ret {A} (a : A) h Q : Q (ROk a) h → io_wp (mret a) h Q.
Proof. done. Qed.

Lemma io_wp_bind {A B} (m : IO A) (f : A → IO B) h Q :
  io_wp m h (λ r h', match r with
                     | ROk a => io_wp (f a) h' Q
                     | RErr e => Q (RErr e) h'
                     | RPanic => Q RPanic h'
                     end) → io_wp (m ≫= f) h Q.
Proof. unfold io_wp, mbind, IO_bind. by destruct (m h) as [[a|e|] h']. Qed.

Lemma io_wp_call c h (Q : Result (reply c) → history → Prop) :
  (∀ r, K h c = inr r → Q (ROk r) (mk_event c true :: h)) →
  (∀ e, K h c = inl e → Q (RErr (from_io e)) (mk_event c false :: h)) →
  io_wp (call K c) h Q.
Proof.
  unfold io_wp, call, sys, mbind, IO_bind. destruct (K h c) as [e|r] eqn:E; simpl; auto.
Qed.

Lemma io_wp_dropping {A} c (m : IO A) h Q :
  io_wp m h (λ r h', match r with
                     | ROk a => Q (ROk a) h'
                     | r => ∀ b, Q r (mk_event c b :: h')
                     end) → io_wp (dropping (discard K c) m) h Q.
Proof. unfold io_wp, dropping. destruct (m h) as [[a|e|] h']; simpl; auto. Qed.

Lemma io_wp_dropping_none {A} (m : IO A) h Q : io_wp m h Q → io_wp (dropping (mret tt) m) h Q.
Proof. unfold io_wp, dropping. by destruct (m h) as [[a|e|] h']. Qed.

Lemma io_wp_lift {A} (r : Result A) h (Q : Result A → history → Prop) : Q r h → io_wp (lift r) h Q.
Proof. done. Qed.

Lemma io_wp_throw {A} e h (Q : Result A → history → Prop) : Q (RErr e) h → io_wp (throw e) h Q.
Proof. done. Qed.
End wp.

(** One step of a run. *)
Ltac io_call :=
  match goal with
  | |- io_wp (call ?K ?c) ?h ?Q => apply (io_wp_call K c h Q)
  end.

(** [l] up to the tail [h]. *)
Ltac calls_since l h :=
  match l with
  | h => constr:(@nil event)
  | ?e :: ?l' => let p := calls_since l' h in constr:(e :: p)
  end.

(** A run that has come to its end: its calls. *)
Ltac io_end :=
  match goal with
  | |- ∃ new, ?l = new ++ ?h ∧ _ =>
      let p := calls_since l h in exists p; split; [reflexivity|]
  end.
