(* ===== verification/Codegen.v ===== *)
(** The emitter of the classic BPF compiler (codegen.rs): its state, patch
    resolution and one definition per primitive. *)

From S2P Require Export Bpf Facts.

(** * Patches *)

Inductive Patch :=
  | Jt (idx : Z)
  | Jf (idx : Z)
  | Ja (idx : Z).

#[export] Instance Patch_eq_dec : EqDecision Patch.
Proof. solve_decision. Defined.

Record Patches := mk_patches {
  success : list Patch;
  failure : list Patch;
}.

Definition patches_default : Patches := mk_patches [] [].

(** [concat]: the shorter list is appended to the longer. *)
Definition concat {A} (a b : list A) : list A :=
  if (length a <? length b)%nat then b ++ a else a ++ b.

(** * Compiler state *)

(** [struct Codegen]. [x_writes] is a [u64] counter of pushed instructions,
    which no vector can be long enough to overflow. *)
Record Codegen := mk_codegen {
  cg_insns : list Insn;
  cg_link : LinkType;
  cg_facts : Facts;
  cg_x_writes : Z;
  cg_vlan_depth : Z;
}.

Definition set_insns (l : list Insn) (s : Codegen) : Codegen :=
  mk_codegen l (cg_link s) (cg_facts s) (cg_x_writes s) (cg_vlan_depth s).
Definition set_facts (f : Facts) (s : Codegen) : Codegen :=
  mk_codegen (cg_insns s) (cg_link s) f (cg_x_writes s) (cg_vlan_depth s).
Definition set_depth (d : Z) (s : Codegen) : Codegen :=
  mk_codegen (cg_insns s) (cg_link s) (cg_facts s) (cg_x_writes s) d.

Definition set_ethertype (o : option Z) (f : Facts) : Facts :=
  mk_facts o (f_ip4_proto f) (f_ip6_nh f) (f_ports_ready f).
Definition set_ip4_proto (o : option Z) (f : Facts) : Facts :=
  mk_facts (f_ethertype f) o (f_ip6_nh f) (f_ports_ready f).
Definition set_ip6_nh (o : option Z) (f : Facts) : Facts :=
  mk_facts (f_ethertype f) (f_ip4_proto f) o (f_ports_ready f).
Definition set_ports_ready (o : option L4Set) (f : Facts) : Facts :=
  mk_facts (f_ethertype f) (f_ip4_proto f) (f_ip6_nh f) o.

Definition CG : Type → Type := M Codegen.

Definition cg_new (link : LinkType) : Codegen :=
  mk_codegen [] link
    (mk_facts (if decide (link = RawIp) then Some 0x0800 else None) None None None) 0 0.

Definition put_facts (f : Facts) : CG unit := modify (set_facts f).

(** [u32] addition and multiplication, which panic on overflow. *)
Definition u32_add (a b : Z) : CG Z := if a + b <? 2 ^ 32 then mret (a + b) else panic.
Definition u32_mul (a b : Z) : CG Z := if a * b <? 2 ^ 32 then mret (a * b) else panic.

Definition net_offset : CG Z :=
  link ← gets cg_link;
  d ← gets cg_vlan_depth;
  bump ← u32_mul d 4;
  u32_add (link_net_offset link) bump.

Definition ether_proto_offset : CG (option Z) :=
  link ← gets cg_link;
  match link_ether_proto_offset link with
  | None => mret None
  | Some o =>
      d ← gets cg_vlan_depth;
      bump ← u32_mul d 4;
      off ← u32_add o bump;
      mret (Some off)
  end.

Definition writes_x (insn : Insn) : bool :=
  (i_code insn .& 0x07 =? BPF_LDX) || (i_code insn =? (BPF_MISC .| BPF_TAX)).

Definition push (insn : Insn) : CG Z := λ s,
  let wx := writes_x insn in
  Ok (zlen (cg_insns s),
      mk_codegen (cg_insns s ++ [insn]) (cg_link s)
        (if wx then set_ports_ready None (cg_facts s) else cg_facts s)
        (if wx then cg_x_writes s + 1 else cg_x_writes s)
        (cg_vlan_depth s)).

Definition here : CG Z := gets (λ s, zlen (cg_insns s)).

Definition offset (from to : Z) : CG Z :=
  if negb (from <? to) then panic
  else
    let diff := to - from - 1 in
    if 255 <? diff then
      fail (CodegenError "filter expression is too complex: BPF jump offset exceeds 255 instructions")
    else mret diff.

(** [self.insns[i].field = v] *)
Definition update_insn (i : Z) (f : Insn → Insn) : CG unit := λ s,
  match zget (cg_insns s) i with
  | Some insn => Ok (tt, set_insns (zset i (f insn) (cg_insns s)) s)
  | None => Panic
  end.

Definition resolve (patch : Patch) (target_idx : Z) : CG unit :=
  match patch with
  | Jt i => off ← offset i target_idx; update_insn i (set_jt off)
  | Jf i => off ← offset i target_idx; update_insn i (set_jf off)
  | Ja i => off ← offset i target_idx; update_insn i (set_k off)
  end.

Definition resolve_all (patches : list Patch) (target_idx : Z) : CG unit :=
  forM patches (λ p, resolve p target_idx).

(** [Patches { success: vec![], failure }] *)
Definition fails (failure : list Patch) : Patches := mk_patches [] failure.

(** * Checks *)

Definition check_halfword (off expected : Z) : CG Patches :=
  push (ldh_abs off);;
  idx ← push (jeq_k expected 0 0xff);
  mret (fails [Jf idx]).

Definition check_byte (off expected : Z) : CG Patches :=
  push (ldb_abs off);;
  idx ← push (jeq_k expected 0 0xff);
  mret (fails [Jf idx]).

Definition check_word (off expected : Z) : CG Patches :=
  push (ldw_abs off);;
  idx ← push (jeq_k expected 0 0xff);
  mret (fails [Jf idx]).

(** [if fact.is_none() { fact = Some(v) }] *)
Definition record_fact (fact : option Z) (v : Z) : option Z :=
  match fact with None => Some v | Some _ => fact end.

Definition emit_ethertype (et : Z) : CG Patches :=
  off ← ether_proto_offset;
  match off with
  | Some off =>
      f ← gets cg_facts;
      if decide (f_ethertype f = Some et) then mret patches_default
      else
        p ← check_halfword off et;
        f ← gets cg_facts;
        put_facts (set_ethertype (record_fact (f_ethertype f) et) f);;
        mret p
  | None =>
      if et =? 0x0800 then mret patches_default
      else fail (CodegenError
        ("ethertype 0x" +:+ hex4 et +:+ " cannot be matched on RawIp captures")%string)
  end.

Definition ip4_guard : CG Patches := emit_ethertype 0x0800.

Definition emit_ip4_l4 (proto_num : Z) : CG Patches :=
  p ← ip4_guard;
  f ← gets cg_facts;
  if decide (f_ip4_proto f = Some proto_num) then mret p
  else
    base ← net_offset;
    off ← u32_add base 9;
    q ← check_byte off proto_num;
    f ← gets cg_facts;
    put_facts (set_ip4_proto (record_fact (f_ip4_proto f) proto_num) f);;
    mret (mk_patches (success p ++ success q) (failure p ++ failure q)).

Definition emit_ip6_l4 (next_hdr : Z) : CG Patches :=
  p ← emit_ethertype 0x86dd;
  f ← gets cg_facts;
  if decide (f_ip6_nh f = Some next_hdr) then mret p
  else
    base ← net_offset;
    off ← u32_add base 6;
    q ← check_byte off next_hdr;
    f ← gets cg_facts;
    put_facts (set_ip6_nh (record_fact (f_ip6_nh f) next_hdr) f);;
    mret (mk_patches (success p) (failure p ++ failure q)).

Definition emit_proto (proto : Proto) : CG Patches :=
  match proto with
  | Ip => emit_ethertype 0x0800
  | Ip6 => emit_ethertype 0x86dd
  | Arp => emit_ethertype 0x0806
  | Rarp => emit_ethertype 0x8035
  | Tcp => emit_ip4_l4 6
  | Udp => emit_ip4_l4 17
  | Icmp => emit_ip4_l4 1
  | Igmp => emit_ip4_l4 2
  | Sctp => emit_ip4_l4 132
  | Icmp6 => emit_ip6_l4 58
  | Num n => emit_ip4_l4 n
  | Ip6Proto n => emit_ip6_l4 n
  end.

(** * Addresses *)

Definition check_addr4 (k src_off dst_off : Z) (dir : Dir) : CG Patches :=
  match dir with
  | Src =>
      push (ldw_abs src_off);;
      i ← push (jeq_k k 0 0xff);
      mret (fails [Jf i])
  | Dst =>
      push (ldw_abs dst_off);;
      i ← push (jeq_k k 0 0xff);
      mret (fails [Jf i])
  | SrcAndDst =>
      push (ldw_abs src_off);;
      i1 ← push (jeq_k k 0 0xff);
      push (ldw_abs dst_off);;
      i2 ← push (jeq_k k 0 0xff);
      mret (fails [Jf i1; Jf i2])
  | SrcOrDst =>
      push (ldw_abs src_off);;
      i_src ← push (jeq_k k 0xff 0);
      push (ldw_abs dst_off);;
      i_dst ← push (jeq_k k 0 0xff);
      mret (mk_patches [Jt i_src] [Jf i_dst])
  end.

Definition emit_host4 (addr : Z) (dir : Dir) : CG Patches :=
  p ← ip4_guard;
  base ← net_offset;
  src_off ← u32_add base 12;
  dst_off ← u32_add base 16;
  q ← check_addr4 addr src_off dst_off dir;
  mret (mk_patches (success p ++ success q) (failure p ++ failure q)).

(** The four ways a closure [check] that appends to a list of failures is run
    on the source and destination fields; [a] is tested before [b]. For
    [SrcOrDst] the failures of [a] lead to [b], and its success over [b]. *)
Definition check_either (check : Z → CG (list Patch)) (a b : Z) : CG Patches :=
  src_fails ← check a;
  ja_idx ← push (ja 0);
  dst_start ← here;
  resolve_all src_fails dst_start;;
  dst_fails ← check b;
  mret (mk_patches [Ja ja_idx] dst_fails).

Definition check_dir (check : Z → CG (list Patch)) (src_off dst_off : Z) (dir : Dir) :
    CG Patches :=
  match dir with
  | Src => l ← check src_off; mret (fails l)
  | Dst => l ← check dst_off; mret (fails l)
  | SrcAndDst => l1 ← check src_off; l2 ← check dst_off; mret (fails (l1 ++ l2))
  | SrcOrDst => check_either check src_off dst_off
  end.

(** [p] with the patches of [q] appended. *)
Definition extend (p q : Patches) : Patches :=
  mk_patches (success p ++ success q) (failure p ++ failure q).

Fixpoint check_ip6_addr (i : Z) (segs : list Z) (off : Z) : CG (list Patch) :=
  match segs with
  | [] => mret []
  | seg :: segs' =>
      o ← u32_add off (i * 2);
      push (ldh_abs o);;
      idx ← push (jeq_k seg 0 0xff);
      l ← check_ip6_addr (i + 1) segs' off;
      mret (Jf idx :: l)
  end.

Definition emit_host6 (segs : list Z) (dir : Dir) : CG Patches :=
  p ← emit_ethertype 0x86dd;
  base ← net_offset;
  src_off ← u32_add base 8;
  dst_off ← u32_add base 24;
  q ← check_dir (check_ip6_addr 0 segs) src_off dst_off dir;
  mret (extend p q).

Definition emit_host (addr : IpAddr) (dir : Dir) : CG Patches :=
  match addr with
  | V4 a => emit_host4 a dir
  | V6 segs => emit_host6 segs dir
  end.

Definition check_net4 (mask masked : Z) (off : Z) : CG (list Patch) :=
  push (ldw_abs off);;
  push (and_k mask);;
  idx ← push (jeq_k masked 0 0xff);
  mret [Jf idx].

Definition emit_net (net : IpNet) (dir : Dir) : CG Patches :=
  p ← ip4_guard;
  base ← net_offset;
  src_off ← u32_add base 12;
  dst_off ← u32_add base 16;
  let mask := net_mask net in
  let masked := net_addr net .& mask in
  match dir with
  | Src | Dst | SrcAndDst =>
      q ← check_dir (check_net4 mask masked) src_off dst_off dir;
      mret (extend p q)
  | SrcOrDst =>
      push (ldw_abs src_off);;
      push (and_k mask);;
      i_src ← push (jeq_k masked 0xff 0);
      push (ldw_abs dst_off);;
      push (and_k mask);;
      i_dst ← push (jeq_k masked 0 0xff);
      mret (extend p (mk_patches [Jt i_src] [Jf i_dst]))
  end.

Fixpoint check_net6 (i : Z) (segs : list Z) (prefix_len addr_off : Z) : CG (list Patch) :=
  match segs with
  | [] => mret []
  | seg :: segs' =>
      let start_bit := i * 16 in
      if prefix_len <=? start_bit then mret []
      else
        let end_bit := start_bit + 16 in
        off ← u32_add addr_off (i * 2);
        push (ldh_abs off);;
        idx ←
          (if end_bit <=? prefix_len then push (jeq_k seg 0 0xff)
           else
             let bits := prefix_len - start_bit in
             let mask := Z.shiftl 0xffff (16 - bits) .& 0xffff in
             let expected := seg .& mask in
             push (and_k mask);;
             push (jeq_k expected 0 0xff));
        l ← check_net6 (i + 1) segs' prefix_len addr_off;
        mret (Jf idx :: l)
  end.

Definition emit_net6 (net : Ipv6Net) (dir : Dir) : CG Patches :=
  p ← emit_ethertype 0x86dd;
  base ← net_offset;
  src_off ← u32_add base 8;
  dst_off ← u32_add base 24;
  q ← check_dir (check_net6 0 (net6_segments net) (net6_prefix_len net)) src_off dst_off dir;
  mret (extend p q).

(** * Ports *)

Definition emit_l4_set_check (want : L4Set) : CG (list Patch) :=
  match want with
  | One n =>
      i ← push (jeq_k n 0 0xff);
      mret [Jf i]
  | TcpOrUdp =>
      i_tcp ← push (jeq_k 6 0xff 0);
      i_udp ← push (jeq_k 17 0 0xff);
      after ← here;
      resolve (Jt i_tcp) after;;
      mret [Jf i_udp]
  end.

(** Record that a prologue admitting [established] has passed; an exact
    protocol is recorded with [set_l4] unless one is known ([l4]). *)
Definition establish (l4 : Facts → option Z) (set_l4 : option Z → Facts → Facts)
    (established : L4Set) : CG unit :=
  f ← gets cg_facts;
  put_facts
    (set_ports_ready (Some established)
       (match established with
        | One n => set_l4 (record_fact (l4 f) n) f
        | TcpOrUdp => f
        end)).

(** The [known_v4] branch. The three branches each start with the offsets that
    the code computes in front of them; an offset that is not used is there for
    its overflow. *)
Definition port_prereqs_v4 (want : L4Set) : CG Patches :=
  net_off ← net_offset;
  ip4_proto_off ← u32_add net_off 9;
  ip4_frag_off ← u32_add net_off 6;
  f ← gets cg_facts;
  r ←
    (if decide (f_ports_ready f ≠ None) then
       push (ldb_abs ip4_proto_off);;
       l ← emit_l4_set_check want;
       mret (want, l)
     else
       r ←
         (match f_ip4_proto f with
          | Some n =>
              if l4_contains want n then mret (One n, [])
              else push (ldb_abs ip4_proto_off);; l ← emit_l4_set_check want; mret (want, l)
          | None =>
              push (ldb_abs ip4_proto_off);; l ← emit_l4_set_check want; mret (want, l)
          end);
       push (ldh_abs ip4_frag_off);;
       i_frag ← push (jset_k 0x1fff 0xff 0);
       push (ldx_msh net_off);;
       mret (r.1, r.2 ++ [Jt i_frag]));
  establish f_ip4_proto set_ip4_proto r.1;;
  mret (fails r.2).

(** The [known_v6] branch. *)
Definition port_prereqs_v6 (want : L4Set) : CG Patches :=
  net_off ← net_offset;
  _ ← u32_add net_off 9;
  ip6_nh_off ← u32_add net_off 6;
  f ← gets cg_facts;
  r ←
    (if decide (f_ports_ready f ≠ None) then
       push (ldb_abs ip6_nh_off);;
       l ← emit_l4_set_check want;
       mret (want, l)
     else
       r ←
         (match f_ip6_nh f with
          | Some n =>
              if l4_contains want n then mret (One n, [])
              else push (ldb_abs ip6_nh_off);; l ← emit_l4_set_check want; mret (want, l)
          | None =>
              push (ldb_abs ip6_nh_off);; l ← emit_l4_set_check want; mret (want, l)
          end);
       push (ldx_imm 40);;
       mret r);
  establish f_ip6_nh set_ip6_nh r.1;;
  mret (fails r.2).

(** The dual-path branch. *)
Definition port_prereqs_dual (want : L4Set) : CG Patches :=
  net_off ← net_offset;
  ip4_proto_off ← u32_add net_off 9;
  ip4_frag_off ← u32_add net_off 6;
  ip6_nh_off ← u32_add net_off 6;
  o ← ether_proto_offset;
  ether_off ← expect o;
  push (ldh_abs ether_off);;
  i_is_ip6 ← push (jeq_k 0x86dd 0xff 0);
  i_is_ip4 ← push (jeq_k 0x0800 0 0xff);
  push (ldb_abs ip4_proto_off);;
  l4 ← emit_l4_set_check want;
  push (ldh_abs ip4_frag_off);;
  i_frag ← push (jset_k 0x1fff 0xff 0);
  push (ldx_msh net_off);;
  ja_skip_ip6 ← push (ja 0);
  ip6_start ← here;
  resolve (Jt i_is_ip6) ip6_start;;
  push (ldb_abs ip6_nh_off);;
  l6 ← emit_l4_set_check want;
  push (ldx_imm 40);;
  port_check_start ← here;
  resolve (Ja ja_skip_ip6) port_check_start;;
  f ← gets cg_facts;
  put_facts (set_ports_ready (Some want) f);;
  mret (fails (Jf i_is_ip4 :: l4 ++ Jt i_frag :: l6)).

Definition ports_elidable (want : L4Set) (f : Facts) : bool :=
  match f_ports_ready f with Some have => subset_of have want | None => false end.

Definition emit_port_prereqs_set (want : L4Set) : CG Patches :=
  f ← gets cg_facts;
  if ports_elidable want f then mret patches_default
  else if decide (f_ethertype f = Some 0x0800) then port_prereqs_v4 want
  else if decide (f_ethertype f = Some 0x86dd) then port_prereqs_v6 want
  else port_prereqs_dual want.

(** A [Result] that does not touch the state. *)
Definition lift {A} (o : outcome A) : CG A := λ s, (λ a, (a, s)) <$> o.

Definition emit_port_prereqs (proto : option Proto) : CG Patches :=
  want ← lift (l4set_for proto);
  emit_port_prereqs_set want.

Definition emit_port (port : Z) (dir : Dir) (proto : option Proto) : CG Patches :=
  p ← emit_port_prereqs proto;
  base ← net_offset;
  let src_port_off := base in
  dst_port_off ← u32_add base 2;
  let k := port in
  match dir with
  | Src =>
      push (ldh_ind src_port_off);;
      i ← push (jeq_k k 0 0xff);
      mret (extend p (fails [Jf i]))
  | Dst =>
      push (ldh_ind dst_port_off);;
      i ← push (jeq_k k 0 0xff);
      mret (extend p (fails [Jf i]))
  | SrcAndDst =>
      push (ldh_ind src_port_off);;
      i1 ← push (jeq_k k 0 0xff);
      push (ldh_ind dst_port_off);;
      i2 ← push (jeq_k k 0 0xff);
      mret (extend p (fails [Jf i1; Jf i2]))
  | SrcOrDst =>
      push (ldh_ind src_port_off);;
      i_src ← push (jeq_k k 0xff 0);
      push (ldh_ind dst_port_off);;
      i_dst ← push (jeq_k k 0 0xff);
      mret (extend p (mk_patches [Jt i_src] [Jf i_dst]))
  end.

Definition check_range (lo hi : Z) (off : Z) : CG (list Patch) :=
  push (ldh_ind off);;
  i_lo ← push (jge_k lo 0 0xff);
  i_hi ← push (jgt_k hi 0xff 0);
  mret [Jf i_lo; Jt i_hi].

Definition emit_portrange (lo hi : Z) (dir : Dir) (proto : option Proto) : CG Patches :=
  p ← emit_port_prereqs proto;
  base ← net_offset;
  let src_port_off := base in
  dst_port_off ← u32_add base 2;
  q ← check_dir (check_range lo hi) src_port_off dst_port_off dir;
  mret (extend p q).

(** * Link layer *)

Definition check_mac (addr : MacAddr) (off : Z) : CG (list Patch) :=
  let o i := nth i (mac_octets addr) 0 in
  let word := o 0%nat * 2 ^ 24 + o 1%nat * 2 ^ 16 + o 2%nat * 2 ^ 8 + o 3%nat in
  push (ldw_abs off);;
  i1 ← push (jeq_k word 0 0xff);
  let half := o 4%nat * 2 ^ 8 + o 5%nat in
  push (ldh_abs (off + 4));;
  i2 ← push (jeq_k half 0 0xff);
  mret [Jf i1; Jf i2].

Definition emit_ether_host (addr : MacAddr) (dir : Dir) : CG Patches :=
  link ← gets cg_link;
  if decide (link = RawIp) then
    fail (CodegenError "ether host cannot be used with RawIp link type")
  else
    match dir with
    | Src => l ← check_mac addr 6; mret (fails l)
    | Dst => l ← check_mac addr 0; mret (fails l)
    | SrcAndDst => l1 ← check_mac addr 0; l2 ← check_mac addr 6; mret (fails (l1 ++ l2))
    | SrcOrDst => check_either (check_mac addr) 0 6
    end.

Definition emit_ether_multicast : CG Patches :=
  link ← gets cg_link;
  if decide (link = RawIp) then
    fail (CodegenError "ether multicast cannot be used with RawIp link type")
  else
    push (ldb_abs 0);;
    idx ← push (jset_k 0x01 0 0xff);
    mret (fails [Jf idx]).

Definition emit_ip_broadcast : CG Patches :=
  p ← ip4_guard;
  base ← net_offset;
  dst_off ← u32_add base 16;
  q ← check_word dst_off 0xffffffff;
  mret (mk_patches (success p) (failure p ++ failure q)).

Definition emit_ip_multicast : CG Patches :=
  p ← ip4_guard;
  base ← net_offset;
  dst_off ← u32_add base 16;
  push (ldw_abs dst_off);;
  push (and_k 0xf0000000);;
  idx ← push (jeq_k 0xe0000000 0 0xff);
  mret (mk_patches (success p) (failure p ++ [Jf idx])).

Definition emit_ip6_multicast : CG Patches :=
  p ← emit_ethertype 0x86dd;
  base ← net_offset;
  dst_off ← u32_add base 24;
  q ← check_byte dst_off 0xff;
  mret (mk_patches (success p) (failure p ++ failure q)).

Definition emit_vlan (id : option Z) : CG Patches :=
  p ← emit_ethertype 0x8100;
  match id with
  | None => mret p
  | Some vid =>
      o ← ether_proto_offset;
      tci_off ← u32_add (unwrap_or 14 o) 2;
      push (ldh_abs tci_off);;
      push (and_k 0x0fff);;
      idx ← push (jeq_k vid 0 0xff);
      mret (mk_patches (success p) (failure p ++ [Jf idx]))
  end.

Definition emit_mpls (label : option Z) : CG Patches :=
  o ← ether_proto_offset;
  match o with
  | Some off =>
      push (ldh_abs off);;
      i_unicast ← push (jeq_k 0x8847 0xff 0);
      i_mcast ← push (jeq_k 0x8848 0 0xff);
      let p := mk_patches [Jt i_unicast] [Jf i_mcast] in
      match label with
      | None => mret p
      | Some lbl =>
          lse_off ← u32_add off 2;
          push (ldw_abs lse_off);;
          push (rsh_k 12);;
          idx ← push (jeq_k lbl 0 0xff);
          mret (mk_patches (success p) (failure p ++ [Jf idx]))
      end
  | None => fail (CodegenError "mpls cannot be matched on RawIp captures")
  end.

Definition emit_pppoe_session (session_id : option Z) : CG Patches :=
  p ← emit_ethertype 0x8864;
  match session_id with
  | None => mret p
  | Some id =>
      o ← ether_proto_offset;
      sid_off ← u32_add (unwrap_or 12 o) 4;
      push (ldh_abs sid_off);;
      idx ← push (jeq_k id 0 0xff);
      mret (mk_patches (success p) (failure p ++ [Jf idx]))
  end.

(** * Comparisons and raw byte access *)

Inductive PatchField := FieldJt | FieldJf.

Definition field_patch (fld : PatchField) (idx : Z) : Patch :=
  match fld with FieldJt => Jt idx | FieldJf => Jf idx end.

Definition cmp_insn (op : CmpOp) (value : Z) : Insn * PatchField :=
  match op with
  | Eq_ => (jeq_k value 0 0xff, FieldJf)
  | Ne => (jeq_k value 0xff 0, FieldJt)
  | Gt_ => (jgt_k value 0 0xff, FieldJf)
  | Ge => (jge_k value 0 0xff, FieldJf)
  | Lt_ => (jge_k value 0xff 0, FieldJt)
  | Le => (jgt_k value 0xff 0, FieldJt)
  | BitAnd => (jset_k value 0 0xff, FieldJf)
  end.

Definition emit_cmp (op : CmpOp) (value : Z) : CG Patches :=
  let '(insn, fail_field) := cmp_insn op value in
  idx ← push insn;
  mret (fails [field_patch fail_field idx]).

Definition cmp_x_insn (op : CmpOp) : Insn * PatchField :=
  match op with
  | Eq_ => (jeq_x 0 0xff, FieldJf)
  | Ne => (jeq_x 0xff 0, FieldJt)
  | Lt_ => (jgt_x 0 0xff, FieldJf)
  | Le => (jge_x 0 0xff, FieldJf)
  | Gt_ => (jge_x 0xff 0, FieldJt)
  | Ge => (jgt_x 0xff 0, FieldJt)
  | BitAnd => (jset_x 0 0xff, FieldJf)
  end.

Definition emit_cmp_x (op : CmpOp) : CG Patches :=
  let '(insn, fail_field) := cmp_x_insn op in
  idx ← push insn;
  mret (fails [field_patch fail_field idx]).

Definition emit_len (op : CmpOp) (value : Z) : CG Patches :=
  push (mk_insn (BPF_LD .| BPF_LEN) 0 0 0);;
  emit_cmp op value.

Definition load_insn (off : Z) (sz : AccessSize) (indirect : bool) : Insn :=
  match sz, indirect with
  | Byte, false => ldb_abs off
  | Half, false => ldh_abs off
  | Word, false => ldw_abs off
  | Byte, true => ldb_ind off
  | Half, true => ldh_ind off
  | Word, true => ldw_ind off
  end.

Definition load_sized (off : Z) (sz : AccessSize) (indirect : bool) : CG unit :=
  push (load_insn off sz indirect);; mret tt.

Definition layer_offset (layer : Layer) (off : Z) : CG Z :=
  match layer with
  | Raw => mret off
  | Net | Trans => base ← net_offset; u32_add base off
  end.

(** The instruction of one ALU step, or the error it raises. *)
Definition alu_insn (aop : ArithOp) (operand : Z) : outcome Insn :=
  match aop with
  | And_ => Ok (and_k operand)
  | Or_ => Ok (or_k operand)
  | Xor => Ok (xor_k operand)
  | Add => Ok (add_k operand)
  | Sub => Ok (sub_k operand)
  | Mul => Ok (mul_k operand)
  | Div =>
      if operand =? 0 then Err (CodegenError "division by zero in byte-access expression")
      else Ok (div_k operand)
  | Mod =>
      Err (CodegenError "modulo (%) is not supported in classic BPF byte-access expressions")
  | Shl => Ok (lsh_k operand)
  | Shr => Ok (rsh_k operand)
  end.

Definition emit_alu_ops (ops : list (ArithOp * Z)) : CG unit :=
  forM ops (λ '(aop, operand), insn ← lift (alu_insn aop operand); push insn;; mret tt).

Definition emit_byte_access_const (ba : ByteAccess) (value : Z) : CG Patches :=
  link ← gets cg_link;
  (match ba_layer ba with
   | Raw =>
       if decide (link = RawIp) then
         fail (CodegenError "raw link-layer byte access cannot be used with RawIp link type")
       else load_sized (as_u32 (ba_offset ba)) (ba_size ba) false
   | Net =>
       base ← net_offset;
       off ← u32_add base (as_u32 (ba_offset ba));
       load_sized off (ba_size ba) false
   | Trans =>
       base ← net_offset;
       push (ldx_msh base);;
       off ← u32_add base (as_u32 (ba_offset ba));
       load_sized off (ba_size ba) true
   end);;
  emit_alu_ops (ba_alu_ops ba);;
  emit_cmp (ba_op ba) value.

Definition is_trans (l : Layer) : bool := match l with Trans => true | _ => false end.

Definition emit_byte_access_load (ba : ByteAccess) (rhs : ByteLoad) : CG Patches :=
  net ← net_offset;
  let lhs_trans := is_trans (ba_layer ba) in
  let rhs_trans := is_trans (bl_layer rhs) in
  (if lhs_trans || rhs_trans then
     (if lhs_trans then
        push (ldx_msh net);;
        off ← u32_add net (as_u32 (ba_offset ba));
        load_sized off (ba_size ba) true
      else
        off ← layer_offset (ba_layer ba) (as_u32 (ba_offset ba));
        load_sized off (ba_size ba) false);;
     emit_alu_ops (ba_alu_ops ba);;
     push (st 0);;
     (if rhs_trans then
        (if negb lhs_trans then push (ldx_msh net);; mret tt else mret tt);;
        off ← u32_add net (as_u32 (bl_offset rhs));
        load_sized off (bl_size rhs) true
      else
        off ← layer_offset (bl_layer rhs) (as_u32 (bl_offset rhs));
        load_sized off (bl_size rhs) false);;
     push (ldx_mem 0);;
     mret tt
   else
     lhs_off ← layer_offset (ba_layer ba) (as_u32 (ba_offset ba));
     load_sized lhs_off (ba_size ba) false;;
     emit_alu_ops (ba_alu_ops ba);;
     push tax;;
     rhs_off ← layer_offset (bl_layer rhs) (as_u32 (bl_offset rhs));
     load_sized rhs_off (bl_size rhs) false);;
  emit_cmp_x (ba_op ba).

Definition emit_byte_access (ba : ByteAccess) : CG Patches :=
  match ba_rhs ba with
  | Const value => emit_byte_access_const ba value
  | Load_ rhs_load => emit_byte_access_load ba rhs_load
  end.

(** * Primitives *)

Definition emit_primitive (prim : Primitive) : CG Patches :=
  match prim with
  | PProto p => emit_proto p
  | PHost addr dir => emit_host addr dir
  | PNet net dir => emit_net net dir
  | PNet6 net dir => emit_net6 net dir
  | PPort port dir proto => emit_port port dir proto
  | PPortRange lo hi dir proto => emit_portrange lo hi dir proto
  | PEtherHost addr dir => emit_ether_host addr dir
  | PEtherProto et => emit_ethertype et
  | PEtherMulticast => emit_ether_multicast
  | PIpBroadcast => emit_ip_broadcast
  | PIpMulticast => emit_ip_multicast
  | PIp6Multicast => emit_ip6_multicast
  | PVlan id => emit_vlan id
  | PMpls label => emit_mpls label
  | PPppoeDiscovery => emit_ethertype 0x8863
  | PPppoeSession session_id => emit_pppoe_session session_id
  | PIpProtoChain n => emit_ip4_l4 n
  | PIp6ProtoChain n => emit_ip6_l4 n
  | PLen op value => emit_len op value
  | PInbound | POutbound =>
      fail (CodegenError "inbound/outbound direction cannot be expressed in standard BPF")
  | PByteAccess ba => emit_byte_access ba
  end.

(** The elements of [concat], whichever list it extends. *)
Lemma elem_of_concat {A} (x : A) l1 l2 : x ∈ concat l1 l2 ↔ x ∈ l1 ++ l2.
Proof. unfold concat. case_match; rewrite !elem_of_app; tauto. Qed.
