(* ===== verification/Compile.v ===== *)
(** [emit_expr], the work-stack walk over the expression, and [compile]
    (codegen.rs); the walk is shown to be the recursive emission. *)

From S2P Require Export Optimizer Codegen.

(** * The work stack *)

(** [enum Work]; an expression comes with its node (see [Facts.node]). *)
Inductive Work :=
  | WEmit (id : node) (e : Expr)
  | AndRight (id : node) (e_right : Expr)
  | AndDone (left_failure : list Patch) (vlan_bump : bool)
  | OrRight (id : node) (e_right : Expr) (hoist_failure : list Patch)
      (branch_facts : Facts) (x_writes_before : Z)
  | OrDone (left_success : list Patch) (ja_idx : Z) (left_facts : Facts)
      (hoist_failure : list Patch)
  | NotDone (entry_facts : Facts) (x_writes_before : Z).

(** The local variables of [emit_expr]. *)
Record walk := mk_walk {
  w_work : list Work;
  w_done : list (Patches * bool);
  w_guards : GuardMemo;
}.

Definition is_vlan (p : Primitive) : bool :=
  match p with PVlan _ => true | _ => false end.

(** Emit one hoisted guard, if it is required. *)
Definition hoist {A} (o : option A) (emit : A → CG Patches) : CG (list Patch) :=
  match o with
  | Some a => p ← emit a; mret (failure p)
  | None => mret []
  end.

(** The guards [common] in front of an OR. *)
Definition emit_hoisted (common : GuardSet) : CG (list Patch) :=
  link ← gets cg_link;
  l1 ← hoist (match link_ether_proto_offset link with
              | Some _ => g_ethertype common | None => None end) emit_ethertype;
  l2 ← hoist (g_ip4_proto common) emit_ip4_l4;
  l3 ← hoist (g_ip6_nh common) emit_ip6_l4;
  l4 ← hoist (g_port_prereqs common) emit_port_prereqs_set;
  mret (l1 ++ l2 ++ l3 ++ l4).

Definition emit_or_hoist (id : node) (e_left e_right : Expr) (memo : GuardMemo) :
    CG (list Patch * GuardMemo) :=
  '(gl, memo1) ← lift (required_guards (child_l id) e_left memo);
  '(gr, memo2) ← lift (required_guards (child_r id) e_right memo1);
  l ← emit_hoisted (guards_intersect gl gr);
  mret (l, memo2).

(** [self.vlan_depth += 1] and [-= 1] *)
Definition vlan_enter (bump : bool) : CG unit :=
  if bump then d ← gets cg_vlan_depth; d' ← u32_add d 1; modify (set_depth d') else mret tt.

Definition vlan_leave (bump : bool) : CG unit :=
  if bump then
    d ← gets cg_vlan_depth;
    if 0 <? d then modify (set_depth (d - 1)) else panic
  else mret tt.

(** Forget the transport offset when X was written since [x_writes_before]. *)
Definition restore_facts (f : Facts) (x_writes_before : Z) : CG unit :=
  x ← gets cg_x_writes;
  put_facts (if x =? x_writes_before then f else set_ports_ready None f).

(** The operators, between and after their operands. *)
Definition and_right (left_p : Patches) (vlan_bump : bool) : CG unit :=
  right_start ← here;
  resolve_all (success left_p) right_start;;
  vlan_enter vlan_bump.

Definition and_done (left_failure : list Patch) (vlan_bump : bool) (right_p : Patches) :
    CG (Patches * bool) :=
  vlan_leave vlan_bump;;
  mret (mk_patches (success right_p) (concat left_failure (failure right_p)), vlan_bump).

Definition or_right (left_p : Patches) (branch_facts : Facts) (x_writes_before : Z) :
    CG (Z * Facts) :=
  left_facts ← gets cg_facts;
  restore_facts branch_facts x_writes_before;;
  ja_idx ← push (ja 0);
  right_start ← here;
  resolve_all (failure left_p) right_start;;
  mret (ja_idx, left_facts).

Definition or_done (left_success : list Patch) (ja_idx : Z) (left_facts : Facts)
    (hoist_failure : list Patch) (right_p : Patches) : CG (Patches * bool) :=
  f ← gets cg_facts;
  put_facts (facts_meet left_facts f);;
  mret (mk_patches (concat (left_success ++ [Ja ja_idx]) (success right_p))
          (concat (failure right_p) hoist_failure), false).

Definition not_done (entry_facts : Facts) (x_writes_before : Z) (inner_p : Patches) :
    CG (Patches * bool) :=
  restore_facts entry_facts x_writes_before;;
  ja_idx ← push (ja 0);
  not_succ_start ← here;
  resolve_all (failure inner_p) not_succ_start;;
  mret (mk_patches [] (success inner_p ++ [Ja ja_idx]), false).

(** One turn of [while let Some(step) = work.pop()]; [w] is what is left after
    the pop. The top of a stack is the head of its list. *)
Definition walk_step (step : Work) (w : walk) : CG walk :=
  let work := w_work w in
  let guards := w_guards w in
  match step, w_done w with
  | WEmit _ (Prim p), dn =>
      let leading_vlan := is_vlan p in
      p ← emit_primitive p;
      mret (mk_walk work ((p, leading_vlan) :: dn) guards)
  | WEmit id (And e_left e_right), dn =>
      mret (mk_walk (WEmit (child_l id) e_left :: AndRight (child_r id) e_right :: work) dn guards)
  | WEmit id (Or e_left e_right), dn =>
      '(hoist_failure, guards') ← emit_or_hoist id e_left e_right guards;
      branch_facts ← gets cg_facts;
      x ← gets cg_x_writes;
      mret (mk_walk (WEmit (child_l id) e_left
                     :: OrRight (child_r id) e_right hoist_failure branch_facts x :: work)
              dn guards')
  | WEmit id (Not inner), dn =>
      f ← gets cg_facts;
      x ← gets cg_x_writes;
      mret (mk_walk (WEmit (child_l id) inner :: NotDone f x :: work) dn guards)
  | AndRight id e_right, (left_p, vlan_bump) :: dn =>
      and_right left_p vlan_bump;;
      mret (mk_walk (WEmit id e_right :: AndDone (failure left_p) vlan_bump :: work) dn guards)
  | AndDone left_failure vlan_bump, (right_p, _) :: dn =>
      r ← and_done left_failure vlan_bump right_p;
      mret (mk_walk work (r :: dn) guards)
  | OrRight id e_right hoist_failure branch_facts x, (left_p, _) :: dn =>
      '(ja_idx, left_facts) ← or_right left_p branch_facts x;
      mret (mk_walk (WEmit id e_right
                     :: OrDone (success left_p) ja_idx left_facts hoist_failure :: work) dn guards)
  | OrDone left_success ja_idx left_facts hoist_failure, (right_p, _) :: dn =>
      r ← or_done left_success ja_idx left_facts hoist_failure right_p;
      mret (mk_walk work (r :: dn) guards)
  | NotDone entry_facts x, (inner_p, _) :: dn =>
      r ← not_done entry_facts x inner_p;
      mret (mk_walk work (r :: dn) guards)
  | _, [] => panic
  end.

Fixpoint walk_loop (n : nat) (w : walk) : CG Patches :=
  match n with
  | O => λ _, OutOfFuel
  | S n' =>
      match w_work w with
      | [] =>
          match w_done w with (p, _) :: _ => mret p | [] => panic end
      | step :: work =>
          w' ← walk_step step (mk_walk work (w_done w) (w_guards w));
          walk_loop n' w'
      end
  end.

(** Three turns per node are enough. *)
Definition walk_fuel (e : Expr) : nat := S (3 * size e).

Definition emit_expr (e : Expr) : CG Patches :=
  walk_loop (walk_fuel e) (mk_walk [WEmit [] e] [] ∅).

(** * [compile] *)

(** Everything up to [optimize]. *)
Definition compile_unoptimized (e : Expr) (link : LinkType) : outcome (list Insn) :=
  '(_, s) ←
    (patches ← emit_expr e;
     accept_idx ← here;
     push (ret_k BPF_ACCEPT);;
     drop_idx ← here;
     push (ret_k BPF_DROP);;
     resolve_all (success patches) accept_idx;;
     resolve_all (failure patches) drop_idx) (cg_new link);
  Ok (cg_insns s).

Definition compile (e : Expr) (link : LinkType) : outcome Program :=
  insns ← compile_unoptimized e link;
  Ok (mk_program (optimize insns)).

(** * The recursive emission *)

Fixpoint emit_rec (e : Expr) : CG (Patches * bool) :=
  match e with
  | Prim p => q ← emit_primitive p; mret (q, is_vlan p)
  | And e_left e_right =>
      '(left_p, vlan_bump) ← emit_rec e_left;
      and_right left_p vlan_bump;;
      '(right_p, _) ← emit_rec e_right;
      and_done (failure left_p) vlan_bump right_p
  | Or e_left e_right =>
      hoist_failure ← emit_hoisted (guards_intersect (guards_of e_left) (guards_of e_right));
      branch_facts ← gets cg_facts;
      x ← gets cg_x_writes;
      '(left_p, _) ← emit_rec e_left;
      '(ja_idx, left_facts) ← or_right left_p branch_facts x;
      '(right_p, _) ← emit_rec e_right;
      or_done (success left_p) ja_idx left_facts hoist_failure right_p
  | Not inner =>
      f ← gets cg_facts;
      x ← gets cg_x_writes;
      '(inner_p, _) ← emit_rec inner;
      not_done f x inner_p
  end.

(** * The walk is the recursion *)

Lemma walk_loop_step n step work dn guards s :
  walk_loop (S n) (mk_walk (step :: work) dn guards) s =
  (walk_step step (mk_walk work dn guards) ≫= walk_loop n) s.
Proof. done. Qed.

Lemma bind_ext {A B} (m : CG A) (k1 k2 : A → CG B) s :
  (∀ a s', k1 a s' = k2 a s') → (m ≫= k1) s = (m ≫= k2) s.
Proof. unfold mbind, M_bind. intros H. destruct (m s) as [[a s']| | |]; auto. Qed.

Lemma bind_bind {A B C} (m : CG A) (f : A → CG B) (g : B → CG C) s :
  ((m ≫= f) ≫= g) s = (m ≫= λ a, f a ≫= g) s.
Proof. unfold mbind, M_bind. by destruct (m s) as [[a s']| | |]. Qed.

Lemma ret_bind {A B} (a : A) (k : A → CG B) s : (mret a ≫= k) s = k a s.
Proof. done. Qed.

Lemma lift_Ok_bind {A B} (a : A) (k : A → CG B) s : (lift (Ok a) ≫= k) s = k a s.
Proof. done. Qed.

(** Emitting [e] in a walk: a bounded number of turns, then its result is on
    [done]. *)
Definition walk_goes (root e : Expr) : Prop :=
  ∀ id guards,
    subexpr root id = Some e → memo_ok root guards →
    ∃ k guards', (k ≤ 3 * size e)%nat ∧ memo_ok root guards' ∧
      ∀ n work dn s, walk_loop (k + n) (mk_walk (WEmit id e :: work) dn guards) s =
        (emit_rec e ≫= λ r, walk_loop n (mk_walk work (r :: dn) guards')) s.

(** Normalise a chain of binds to the right, one bind deep on each side. *)
Ltac binds := rewrite ?bind_bind; try (apply bind_ext; intros); rewrite ?bind_bind, ?ret_bind.

Lemma walk_goes_prim root p : walk_goes root (Prim p).
Proof.
  intros id guards He Hm. exists 1%nat, guards.
  split_and!; [simpl; lia|done|]. intros n work dn s. simpl (1 + n)%nat.
  rewrite walk_loop_step. simpl walk_step. simpl emit_rec. by do 2 binds.
Qed.

Lemma walk_goes_and root l r :
  walk_goes root l → walk_goes root r → walk_goes root (And l r).
Proof.
  intros IHl IHr id guards He Hm.
  destruct (IHl (child_l id) guards) as (kl & gl & Hkl & Hgl & El);
    [by unfold child_l; rewrite subexpr_app, He|done|].
  destruct (IHr (child_r id) gl) as (kr & gr & Hkr & Hgr & Er);
    [by unfold child_r; rewrite subexpr_app, He|done|].
  exists (S (kl + S (kr + 1)))%nat, gr. split_and!; [simpl; lia|done|].
  intros n work dn s. rewrite Nat.add_succ_l, walk_loop_step. simpl walk_step.
  rewrite ret_bind, <- Nat.add_assoc, El. simpl emit_rec. binds. destruct a as [lp b].
  rewrite Nat.add_succ_l, walk_loop_step. simpl walk_step. binds.
  rewrite <- Nat.add_assoc, Er. binds. destruct a0 as [rp b'].
  simpl (1 + n)%nat. rewrite walk_loop_step. simpl walk_step. by binds.
Qed.

Lemma walk_goes_not root x : walk_goes root x → walk_goes root (Not x).
Proof.
  intros IH id guards He Hm.
  destruct (IH (child_l id) guards) as (kx & gx & Hkx & Hgx & Ex);
    [by unfold child_l; rewrite subexpr_app, He|done|].
  exists (S (kx + 1))%nat, gx. split_and!; [simpl; lia|done|].
  intros n work dn s. rewrite Nat.add_succ_l, walk_loop_step. simpl walk_step. simpl emit_rec.
  do 2 binds. rewrite <- Nat.add_assoc, Ex. binds. destruct a1 as [xp b].
  simpl (1 + n)%nat. rewrite walk_loop_step. simpl walk_step. by binds.
Qed.

Lemma walk_goes_or root l r :
  walk_goes root l → walk_goes root r → walk_goes root (Or l r).
Proof.
  intros IHl IHr id guards He Hm.
  assert (Hl : subexpr root (child_l id) = Some l)
    by (unfold child_l; by rewrite subexpr_app, He).
  assert (Hr : subexpr root (child_r id) = Some r)
    by (unfold child_r; by rewrite subexpr_app, He).
  destruct (required_guards_of root _ _ _ Hl Hm) as (m1 & E1 & Hm1).
  destruct (required_guards_of root _ _ _ Hr Hm1) as (m2 & E2 & Hm2).
  destruct (IHl (child_l id) m2) as (kl & gl & Hkl & Hgl & El); [done..|].
  destruct (IHr (child_r id) gl) as (kr & gr & Hkr & Hgr & Er); [done..|].
  exists (S (kl + S (kr + 1)))%nat, gr. split_and!; [simpl; lia|done|].
  intros n work dn s. rewrite Nat.add_succ_l, walk_loop_step. simpl walk_step.
  unfold emit_or_hoist. rewrite E1. simpl emit_rec.
  rewrite !bind_bind, lift_Ok_bind, E2, bind_bind, lift_Ok_bind.
  binds. do 2 binds.
  rewrite <- Nat.add_assoc, El. binds. destruct a2 as [lp b].
  rewrite Nat.add_succ_l, walk_loop_step. simpl walk_step. binds. destruct a2 as [ja lf].
  rewrite ret_bind, <- Nat.add_assoc, Er. binds. destruct a2 as [rp b'].
  simpl (1 + n)%nat. rewrite walk_loop_step. simpl walk_step. by binds.
Qed.

Lemma walk_goes_all root e : walk_goes root e.
Proof.
  induction e; auto using walk_goes_prim, walk_goes_and, walk_goes_or, walk_goes_not.
Qed.

Lemma emit_expr_emit_rec e s : emit_expr e s = ('(p, _) ← emit_rec e; mret p) s.
Proof.
  unfold emit_expr, walk_fuel.
  destruct (walk_goes_all e e [] ∅) as (k & g & Hk & Hg & E); [done|apply memo_ok_empty|].
  replace (S (3 * size e))%nat with (k + S (3 * size e - k))%nat by lia.
  rewrite E. apply bind_ext. by intros [p b] s'.
Qed.

(** C22: the iterative emission with its explicit work stack and memoised guard
    sets terminates within three turns per node, never pops an empty stack, and
    emits exactly what the recursive definition emits. *)
Theorem emit_expr_recursive (e : Expr) (s : Codegen) :
  emit_expr e s = (emit_rec e ≫= λ '(p, _), mret p) s.
Proof. apply emit_expr_emit_rec. Qed.
