(* ===== verification/Ebpf.v ===== *)
(** Extended BPF instructions and programs (ebpf.rs): the opcode constants, the
    instruction constructors, the packing of the register byte and the
    little-endian encoding. The file repeats names of [Bpf] for the other
    instruction set and is used qualified. *)

From S2P Require Export Prelude.

(** * Opcode constants *)

Definition BPF_LD : Z := 0x00.
Definition BPF_LDX : Z := 0x01.
Definition BPF_ST : Z := 0x02.
Definition BPF_STX : Z := 0x03.
Definition BPF_ALU : Z := 0x04.
Definition BPF_JMP : Z := 0x05.
Definition BPF_JMP32 : Z := 0x06.
Definition BPF_ALU64 : Z := 0x07.
Definition BPF_W : Z := 0x00.
Definition BPF_H : Z := 0x08.
Definition BPF_B : Z := 0x10.
Definition BPF_DW : Z := 0x18.
Definition BPF_MEM : Z := 0x60.
Definition BPF_K : Z := 0x00.
Definition BPF_X : Z := 0x08.
Definition BPF_ADD : Z := 0x00.
Definition BPF_SUB : Z := 0x10.
Definition BPF_MUL : Z := 0x20.
Definition BPF_DIV : Z := 0x30.
Definition BPF_OR : Z := 0x40.
Definition BPF_AND : Z := 0x50.
Definition BPF_LSH : Z := 0x60.
Definition BPF_RSH : Z := 0x70.
Definition BPF_XOR : Z := 0xa0.
Definition BPF_MOV : Z := 0xb0.
Definition BPF_END : Z := 0xd0.
Definition BPF_TO_LE : Z := 0x00.
Definition BPF_TO_BE : Z := 0x08.
Definition BPF_JA : Z := 0x00.
Definition BPF_JEQ : Z := 0x10.
Definition BPF_JGT : Z := 0x20.
Definition BPF_JGE : Z := 0x30.
Definition BPF_JSET : Z := 0x40.
Definition BPF_JNE : Z := 0x50.
Definition BPF_JLT : Z := 0xa0.
Definition BPF_JLE : Z := 0xb0.
Definition BPF_EXIT : Z := 0x90.
Definition R0 : Z := 0.
Definition R1 : Z := 1.
Definition R2 : Z := 2.
Definition R3 : Z := 3.
Definition R4 : Z := 4.
Definition R5 : Z := 5.
Definition R6 : Z := 6.
Definition R10 : Z := 10.
Definition XDP_DROP : Z := 1.
Definition XDP_PASS : Z := 2.

(** * Instructions *)

(** [struct Insn]: [u8], [u8], [i16], [i32]. *)
Record Insn := mk_insn {
  code : Z;
  regs : Z;
  off : Z;
  imm : Z;
}.

#[export] Instance Insn_eq_dec : EqDecision Insn.
Proof. solve_decision. Defined.

Definition is_i16 (x : Z) : Prop := - 2 ^ 15 ≤ x < 2 ^ 15.
Definition is_i32 (x : Z) : Prop := - 2 ^ 31 ≤ x < 2 ^ 31.

#[export] Instance is_i16_dec x : Decision (is_i16 x).
Proof. unfold is_i16. apply _. Defined.
#[export] Instance is_i32_dec x : Decision (is_i32 x).
Proof. unfold is_i32. apply _. Defined.

Definition wf_insn (i : Insn) : Prop :=
  is_u8 (code i) ∧ is_u8 (regs i) ∧ is_i16 (off i) ∧ is_i32 (imm i).

#[export] Instance wf_insn_dec i : Decision (wf_insn i).
Proof. unfold wf_insn. apply _. Defined.

(** A [u8] shifted left by four loses its high nibble. *)
Definition new (c d s o i : Z) : Insn :=
  mk_insn c ((d .& 0xf) .| as_u8 (Z.shiftl (s .& 0xf) 4)) o i.

Definition dst (i : Insn) : Z := regs i .& 0xf.
Definition src (i : Insn) : Z := Z.shiftr (regs i) 4 .& 0xf.

Definition mov64_reg (d s : Z) : Insn := new (BPF_ALU64 .| BPF_MOV .| BPF_X) d s 0 0.
Definition mov64_imm (d i : Z) : Insn := new (BPF_ALU64 .| BPF_MOV .| BPF_K) d 0 0 i.
Definition add64_reg (d s : Z) : Insn := new (BPF_ALU64 .| BPF_ADD .| BPF_X) d s 0 0.
Definition add64_imm (d i : Z) : Insn := new (BPF_ALU64 .| BPF_ADD .| BPF_K) d 0 0 i.
Definition and32_imm (d i : Z) : Insn := new (BPF_ALU .| BPF_AND .| BPF_K) d 0 0 i.
Definition or32_imm (d i : Z) : Insn := new (BPF_ALU .| BPF_OR .| BPF_K) d 0 0 i.
Definition xor32_imm (d i : Z) : Insn := new (BPF_ALU .| BPF_XOR .| BPF_K) d 0 0 i.
Definition add32_imm (d i : Z) : Insn := new (BPF_ALU .| BPF_ADD .| BPF_K) d 0 0 i.
Definition sub32_imm (d i : Z) : Insn := new (BPF_ALU .| BPF_SUB .| BPF_K) d 0 0 i.
Definition mul32_imm (d i : Z) : Insn := new (BPF_ALU .| BPF_MUL .| BPF_K) d 0 0 i.
Definition div32_imm (d i : Z) : Insn := new (BPF_ALU .| BPF_DIV .| BPF_K) d 0 0 i.
Definition rsh32_imm (d i : Z) : Insn := new (BPF_ALU .| BPF_RSH .| BPF_K) d 0 0 i.
Definition lsh32_imm (d i : Z) : Insn := new (BPF_ALU .| BPF_LSH .| BPF_K) d 0 0 i.
Definition be16 (d : Z) : Insn := new (BPF_ALU .| BPF_END .| BPF_TO_BE) d 0 0 16.
Definition be32 (d : Z) : Insn := new (BPF_ALU .| BPF_END .| BPF_TO_BE) d 0 0 32.
Definition ldx_b (d s o : Z) : Insn := new (BPF_LDX .| BPF_MEM .| BPF_B) d s o 0.
Definition ldx_h (d s o : Z) : Insn := new (BPF_LDX .| BPF_MEM .| BPF_H) d s o 0.
Definition ldx_w (d s o : Z) : Insn := new (BPF_LDX .| BPF_MEM .| BPF_W) d s o 0.
Definition ja (o : Z) : Insn := new (BPF_JMP .| BPF_JA) 0 0 o 0.
Definition jeq_imm (d i o : Z) : Insn := new (BPF_JMP .| BPF_JEQ .| BPF_K) d 0 o i.
Definition jne_imm (d i o : Z) : Insn := new (BPF_JMP .| BPF_JNE .| BPF_K) d 0 o i.
Definition jgt_imm (d i o : Z) : Insn := new (BPF_JMP .| BPF_JGT .| BPF_K) d 0 o i.
Definition jge_imm (d i o : Z) : Insn := new (BPF_JMP .| BPF_JGE .| BPF_K) d 0 o i.
Definition jlt_imm (d i o : Z) : Insn := new (BPF_JMP .| BPF_JLT .| BPF_K) d 0 o i.
Definition jle_imm (d i o : Z) : Insn := new (BPF_JMP .| BPF_JLE .| BPF_K) d 0 o i.
Definition jset_imm (d i o : Z) : Insn := new (BPF_JMP .| BPF_JSET .| BPF_K) d 0 o i.
Definition jgt_reg (d s o : Z) : Insn := new (BPF_JMP .| BPF_JGT .| BPF_X) d s o 0.
Definition exit : Insn := new (BPF_JMP .| BPF_EXIT) 0 0 0 0.

(** * Encoding *)

Definition insn_to_le_bytes (i : Insn) : list Z :=
  [code i; regs i] ++ le_bytes 2 (off i) ++ le_bytes 4 (imm i).

Record Program := mk_program { insns : list Insn }.

Definition instructions (p : Program) : list Insn := insns p.
Definition len (p : Program) : Z := zlen (insns p).
Definition is_empty (p : Program) : bool :=
  match insns p with [] => true | _ => false end.
Definition to_le_bytes (p : Program) : list Z := insns p ≫= insn_to_le_bytes.

(** * Reading the encoding back *)

(** The two's-complement reading of an unsigned [w]-bit integer. *)
Definition signed (w x : Z) : Z := if x <? 2 ^ (w - 1) then x else x - 2 ^ w.

(** The kernel's reading of an array of [struct bpf_insn]. *)
Fixpoint decode (n : nat) (bs : list Z) : option (list Insn) :=
  match n, bs with
  | O, [] => Some []
  | S n', c :: r :: o0 :: o1 :: i0 :: i1 :: i2 :: i3 :: bs' =>
      rest ← decode n' bs';
      Some (mk_insn c r (signed 16 (of_le_bytes [o0; o1]))
              (signed 32 (of_le_bytes [i0; i1; i2; i3])) :: rest)
  | _, _ => None
  end.

Lemma signed_mod w x : 0 < w → - 2 ^ (w - 1) ≤ x < 2 ^ (w - 1) → signed w (x mod 2 ^ w) = x.
Proof.
  intros Hw Hx. assert (2 ^ w = 2 * 2 ^ (w - 1)) as E
    by (rewrite <- Z.pow_succ_r by lia; f_equal; lia).
  unfold signed. destruct (Z.lt_ge_cases x 0).
  - replace (x mod 2 ^ w) with (x + 2 ^ w)
      by (rewrite <- (Z.mod_add x 1) by lia; rewrite Z.mod_small; lia).
    rewrite (proj2 (Z.ltb_ge _ _)) by lia. lia.
  - rewrite Z.mod_small by lia. by rewrite (proj2 (Z.ltb_lt _ _)) by lia.
Qed.

Lemma ebpf_decode_insn_app i rest n :
  wf_insn i →
  decode (S n) (insn_to_le_bytes i ++ rest) = (r ← decode n rest; Some (i :: r)).
Proof.
  intros (_ & _ & Ho & Hi).
  transitivity (r ← decode n rest;
    Some (mk_insn (code i) (regs i) (signed 16 (of_le_bytes (le_bytes 2 (off i))))
            (signed 32 (of_le_bytes (le_bytes 4 (imm i)))) :: r)); [done|].
  rewrite !of_le_bytes_le_bytes.
  change (256 ^ Z.of_nat 2) with (2 ^ 16). change (256 ^ Z.of_nat 4) with (2 ^ 32).
  rewrite !signed_mod by (unfold is_i16, is_i32 in *; lia). by destruct i.
Qed.

Lemma zlen_insn_to_le_bytes i : zlen (insn_to_le_bytes i) = 8.
Proof. done. Qed.

(** C35: encoding an eBPF program and reading it back as the kernel does gives
    the program, signed fields included, in eight bytes per instruction. *)
Theorem ebpf_decode_to_le_bytes (p : Program) :
  Forall wf_insn (insns p) →
  decode (length (insns p)) (to_le_bytes p) = Some (insns p) ∧
  zlen (to_le_bytes p) = 8 * len p.
Proof.
  destruct p as [l]. unfold to_le_bytes, len. simpl. intros Hwf.
  induction Hwf as [|i l Hi Hl (IH1 & IH2)]; [done|]. rewrite bind_cons. split.
  - simpl length. rewrite ebpf_decode_insn_app, IH1 by done. done.
  - rewrite zlen_app, zlen_cons, IH2, zlen_insn_to_le_bytes. lia.
Qed.

Lemma ebpf_decode_to_le_bytes_witness :
  decode 2 (to_le_bytes (mk_program [mov64_imm R0 XDP_PASS; exit])) =
    Some [mov64_imm R0 XDP_PASS; exit].
Proof.
  apply (ebpf_decode_to_le_bytes (mk_program [mov64_imm R0 XDP_PASS; exit])).
  apply (bool_decide_unpack _). by vm_compute.
Defined.

(** The register byte keeps both register numbers apart, and is a byte. *)
Theorem new_registers (c d s o i : Z) :
  0 ≤ d < 16 → 0 ≤ s < 16 →
  dst (new c d s o i) = d ∧ src (new c d s o i) = s ∧ is_u8 (regs (new c d s o i)).
Proof.
  intros Hd Hs. unfold dst, src, new. simpl.
  assert (Hall : Forall (λ d, Forall (λ s,
    ((d .& 0xf) .| as_u8 (Z.shiftl (s .& 0xf) 4)) .& 0xf = d ∧
    Z.shiftr ((d .& 0xf) .| as_u8 (Z.shiftl (s .& 0xf) 4)) 4 .& 0xf = s ∧
    is_u8 ((d .& 0xf) .| as_u8 (Z.shiftl (s .& 0xf) 4))) (seqZ 0 16)) (seqZ 0 16))
    by (apply (bool_decide_unpack _); vm_compute; done).
  rewrite Forall_forall in Hall. specialize (Hall d). rewrite elem_of_seqZ in Hall.
  specialize (Hall ltac:(lia)). rewrite Forall_forall in Hall.
  apply Hall. apply elem_of_seqZ. lia.
Qed.

Lemma new_registers_witness : dst (new 0 10 6 0 0) = 10 ∧ src (new 0 10 6 0 0) = 6.
Proof. destruct (new_registers 0 10 6 0 0) as (? & ? & _); [lia|lia|]. done. Defined.
