(* ===== verification/EbpfVm.v ===== *)
(** The reference interpreter of extended BPF programs that the repository
    tests the compiler with (tests/common/ebpf_interp.rs): registers that must
    be written before they are read, loads confined to the context and the
    packet, faults as values. *)

From S2P Require Export Ebpf.

Definition BPF_NEG : Z := 0x80.
Definition BPF_MOD : Z := 0x90.
Definition BPF_ARSH : Z := 0xc0.
Definition BPF_JSGT : Z := 0x60.
Definition BPF_JSGE : Z := 0x70.
Definition BPF_JSLT : Z := 0xc0.
Definition BPF_JSLE : Z := 0xd0.

Definition ALU_OPS : list Z :=
  [BPF_ADD; BPF_SUB; BPF_MUL; BPF_DIV; BPF_OR; BPF_AND; BPF_LSH; BPF_RSH; BPF_NEG; BPF_MOD;
   BPF_XOR; BPF_MOV; BPF_ARSH; BPF_END].
Definition COND_OPS : list Z :=
  [BPF_JEQ; BPF_JNE; BPF_JGT; BPF_JGE; BPF_JLT; BPF_JLE; BPF_JSET; BPF_JSGT; BPF_JSGE; BPF_JSLT;
   BPF_JSLE].

(** * Memory *)

Definition CTX_BASE : Z := 0x20000000.
Definition PKT_BASE : Z := 0x10000002.
Definition STEP_LIMIT : nat := Z.to_nat (Z.shiftl 1 16).

Inductive Endian := Little | Big.

#[export] Instance Endian_eq_dec : EqDecision Endian.
Proof. solve_decision. Defined.

(** [fold(0, |v, &b| (v << 8) | b as u64)] on at most eight bytes. *)
Definition be_value (bytes : list Z) : Z := foldl (λ v b, Z.shiftl v 8 .| b) 0 bytes.

Definition read (e : Endian) (bytes : list Z) : Z :=
  match e with
  | Little => be_value (reverse bytes)
  | Big => be_value bytes
  end.

Inductive Verdict := Match | NoMatch.

Inductive Fault :=
  | UnknownOpcode (pc c : Z)
  | BadRegister (pc : Z)
  | WriteToR10 (pc : Z)
  | UninitRegister (pc reg : Z)
  | OutOfBounds (pc addr size : Z)
  | BadCtxAccess (pc addr size : Z)
  | JumpOutOfRange (pc : Z)
  | PcOutOfRange (pc : Z)
  | DivByZero (pc : Z)
  | BadShift (pc : Z)
  | BadEndWidth (pc imm : Z)
  | BadReturn (r0 : Z)
  | StepLimit.

(** [Result<A, Fault>] *)
Definition R (A : Type) : Type := A + Fault.

#[export] Instance R_ret : MRet R := λ A a, inl a.
#[export] Instance R_bind : MBind R := λ A B f r,
  match r with inl a => f a | inr e => inr e end.

Definition fault {A} (e : Fault) : R A := inr e.

(** * Registers *)

Record Regs := mk_regs {
  rv : list Z;
  rinit : list bool;
}.

Definition u64_max : Z := 2 ^ 64 - 1.
Definition as_u64 (x : Z) : Z := x mod 2 ^ 64.

(** [self.v[r]] and [self.init[r]] for a register number the caller checked. *)
Definition rd (regs : Regs) (r pc : Z) : R Z :=
  match zget (rinit regs) r, zget (rv regs) r with
  | Some true, Some v => mret v
  | _, _ => fault (UninitRegister pc r)
  end.

Definition wr (regs : Regs) (r val pc : Z) : R Regs :=
  if r =? R10 then fault (WriteToR10 pc)
  else mret (mk_regs (zset r val (rv regs)) (zset r true (rinit regs))).

(** R1 holds the context, R10 is readable. *)
Definition regs_entry : Regs :=
  mk_regs (zset R1 CTX_BASE (replicate 11 0)) (zset R10 true (zset R1 true (replicate 11 false))).

(** The context in the byte order of the host. *)
Definition host_bytes (host : Endian) (n : nat) (x : Z) : list Z :=
  match host with Little => le_bytes n x | Big => reverse (le_bytes n x) end.

Definition ctx_of (host : Endian) (pkt : list Z) : list Z :=
  host_bytes host 4 (as_u32 PKT_BASE) ++ host_bytes host 4 (as_u32 (PKT_BASE + zlen pkt)).

Definition slice (l : list Z) (a b : Z) : list Z := take (Z.to_nat (b - a)) (drop (Z.to_nat a) l).

Definition load (ctx pkt : list Z) (addr size pc : Z) : R (list Z) :=
  if (CTX_BASE <=? addr) && (addr <? CTX_BASE + 8) then
    let off := addr - CTX_BASE in
    if negb (size =? 4) || negb (off .& 3 =? 0) then fault (BadCtxAccess pc addr size)
    else mret (slice ctx off (off + 4))
  else if PKT_BASE <=? addr then
    let off := addr - PKT_BASE in
    if (off + size <? 2 ^ 64) && (off + size <=? zlen pkt) then mret (slice pkt off (off + size))
    else fault (OutOfBounds pc addr size)
  else fault (OutOfBounds pc addr size).

(** * Instructions *)

(** [swap_bytes] of the low [n] bytes of [v]. *)
Definition swap_bytes (n : nat) (v : Z) : Z := be_value (le_bytes n v).

Definition exec_end (host : Endian) (insn : Insn) (v pc : Z) : R Z :=
  let dir := code insn .& 0x08 in
  let swap := ((dir =? BPF_TO_BE) && bool_decide (host = Little)) ||
              ((dir =? BPF_TO_LE) && bool_decide (host = Big)) in
  if imm insn =? 16 then mret (if swap then swap_bytes 2 v else as_u16 v)
  else if imm insn =? 32 then mret (if swap then swap_bytes 4 v else as_u32 v)
  else if imm insn =? 64 then mret (if swap then swap_bytes 8 v else v)
  else fault (BadEndWidth pc (imm insn)).

Definition shift_ok (width s pc : Z) : R Z :=
  if s <? width then mret s else fault (BadShift pc).

(** The operation on operands cut to the width; the result is cut after it. *)
Definition alu_op (op width d s pc c : Z) : R Z :=
  if op =? BPF_ADD then mret (as_u64 (d + s))
  else if op =? BPF_SUB then mret (as_u64 (d - s))
  else if op =? BPF_MUL then mret (as_u64 (d * s))
  else if ((op =? BPF_DIV) || (op =? BPF_MOD)) && (s =? 0) then fault (DivByZero pc)
  else if op =? BPF_DIV then mret (d / s)
  else if op =? BPF_MOD then mret (d mod s)
  else if op =? BPF_OR then mret (d .| s)
  else if op =? BPF_AND then mret (d .& s)
  else if op =? BPF_XOR then mret (Z.lxor d s)
  else if op =? BPF_LSH then n ← shift_ok width s pc; mret (as_u64 (Z.shiftl d n))
  else if op =? BPF_RSH then n ← shift_ok width s pc; mret (Z.shiftr d n)
  else if op =? BPF_ARSH then
    n ← shift_ok width s pc; mret (Z.shiftr (signed width d) n mod 2 ^ width)
  else if op =? BPF_NEG then mret (as_u64 (- d))
  else if op =? BPF_MOV then mret s
  else fault (UnknownOpcode pc c).

Definition exec_alu (regs : Regs) (insn : Insn) (is64 : bool) (op pc : Z) : R Z :=
  s ← (if negb (code insn .& BPF_X =? 0) then rd regs (src insn) pc
       else if is64 then mret (as_u64 (imm insn))
       else mret (as_u32 (imm insn)));
  d ← (if op =? BPF_MOV then mret 0 else rd regs (dst insn) pc);
  let width := if is64 then 64 else 32 in
  let mask := if is64 then u64_max else u32_max in
  r ← alu_op op width (d .& mask) (s .& mask) pc (code insn);
  mret (r .& mask).

Definition jump_taken (op a b sa sb : Z) : bool :=
  if op =? BPF_JEQ then a =? b
  else if op =? BPF_JNE then negb (a =? b)
  else if op =? BPF_JGT then b <? a
  else if op =? BPF_JGE then b <=? a
  else if op =? BPF_JLT then a <? b
  else if op =? BPF_JLE then a <=? b
  else if op =? BPF_JSET then negb (a .& b =? 0)
  else if op =? BPF_JSGT then sb <? sa
  else if op =? BPF_JSGE then sb <=? sa
  else if op =? BPF_JSLT then sa <? sb
  else sa <=? sb.

Definition exec_cond (regs : Regs) (insn : Insn) (is32 : bool) (op pc : Z) : R bool :=
  a ← rd regs (dst insn) pc;
  b ← (if negb (code insn .& BPF_X =? 0) then rd regs (src insn) pc
       else mret (as_u64 (imm insn)));
  let w := if is32 then 32 else 64 in
  let a' := a mod 2 ^ w in
  let b' := b mod 2 ^ w in
  mret (jump_taken op a' b' (signed w a') (signed w b')).

(** [target], for a program of [len] instructions *)
Definition target (len : Z) (insn : Insn) (pc : Z) : R Z :=
  let t := pc + 1 + off insn in
  if (t <? 0) || (len <=? t) then fault (JumpOutOfRange pc) else mret t.

(** How one turn of the loop ends: with the registers and the next [pc], or at
    [exit] with R0. *)
Definition exec_ldx (ctx pkt : list Z) (host : Endian) (regs : Regs) (insn : Insn) (pc : Z) :
    R Regs :=
  let unknown := UnknownOpcode pc (code insn) in
  if negb (code insn .& 0xe0 =? BPF_MEM) then fault unknown
  else
    let sz := code insn .& 0x18 in
    size ← (if sz =? BPF_B then mret 1
            else if sz =? BPF_H then mret 2
            else if sz =? BPF_W then mret 4
            else if sz =? BPF_DW then mret 8
            else fault unknown);
    base ← rd regs (src insn) pc;
    bytes ← load ctx pkt (as_u64 (base + off insn)) size pc;
    wr regs (dst insn) (read host bytes) pc.

Definition exec_insn (prog : list Insn) (ctx pkt : list Z) (host : Endian) (regs : Regs)
    (insn : Insn) (pc : Z) : R ((Regs * Z) + Z) :=
  let next (regs' : Regs) : R ((Regs * Z) + Z) := mret (inl (regs', pc + 1)) in
  let jump : R ((Regs * Z) + Z) := t ← target (zlen prog) insn pc; mret (inl (regs, t)) in
  let unknown := UnknownOpcode pc (code insn) in
  let class := code insn .& 0x07 in
  let op := code insn .& 0xf0 in
  if (10 <? dst insn) || (10 <? src insn) then fault (BadRegister pc)
  else if class =? BPF_LDX then regs' ← exec_ldx ctx pkt host regs insn pc; next regs'
  else if (class =? BPF_ALU) || (class =? BPF_ALU64) then
    let is64 := class =? BPF_ALU64 in
    if negb (bool_decide (op ∈ ALU_OPS)) then fault unknown
    else if op =? BPF_END then
      if is64 : bool then fault unknown
      else
        v ← rd regs (dst insn) pc;
        out ← exec_end host insn v pc;
        regs' ← wr regs (dst insn) out pc;
        next regs'
    else
      r ← exec_alu regs insn is64 op pc;
      regs' ← wr regs (dst insn) r pc;
      next regs'
  else if (class =? BPF_JMP) || (class =? BPF_JMP32) then
    let is32 := class =? BPF_JMP32 in
    if negb (bool_decide (op ∈ COND_OPS) ||
             (negb is32 && ((op =? BPF_JA) || (op =? BPF_EXIT)))) then fault unknown
    else if negb is32 && (op =? BPF_EXIT) then r0 ← rd regs 0 pc; mret (inr r0)
    else if negb is32 && (op =? BPF_JA) then jump
    else
      taken ← exec_cond regs insn is32 op pc;
      if taken : bool then jump else next regs
  else fault unknown.

Fixpoint exec_loop (n : nat) (prog : list Insn) (ctx pkt : list Z) (host : Endian) (regs : Regs)
    (pc : Z) : R Z :=
  match n with
  | O => fault StepLimit
  | S n' =>
      match zget prog pc with
      | None => fault (PcOutOfRange pc)
      | Some insn =>
          r ← exec_insn prog ctx pkt host regs insn pc;
          match r with
          | inl (regs', pc') => exec_loop n' prog ctx pkt host regs' pc'
          | inr r0 => mret r0
          end
      end
  end.

Definition exec (prog : list Insn) (pkt : list Z) (host : Endian) : R Z :=
  exec_loop STEP_LIMIT prog (ctx_of host pkt) pkt host regs_entry 0.

Definition run_ebpf (prog : list Insn) (pkt : list Z) (host : Endian) : R Verdict :=
  r0 ← exec prog pkt host;
  if r0 =? XDP_PASS then mret Match
  else if r0 =? XDP_DROP then mret NoMatch
  else fault (BadReturn r0).
