(* ===== verification/EbpfCodegen.v ===== *)
(** The extended BPF compiler (ebpf_codegen.rs): its state, patch resolution,
    one definition per primitive, the work-stack walk and [compile]. The file
    repeats names of [Codegen] and [Compile] for the other target and is used
    qualified. *)

From S2P Require Codegen.
From S2P Require Export Ebpf.
From S2P Require Export Facts.

(** * Patches and state *)

(** A slot whose [off] field is to be filled in. *)
Definition Patch : Type := Z.

Record Patches := mk_patches {
  success : list Patch;
  failure : list Patch;
}.

Definition patches_default : Patches := mk_patches [] [].

(** [Patches { success: vec![], failure }], and a patch list extended. *)
Definition fails (failure : list Patch) : Patches := mk_patches [] failure.
Definition extend (p q : Patches) : Patches :=
  mk_patches (success p ++ success q) (failure p ++ failure q).

Record Codegen := mk_codegen {
  eg_insns : list Insn;
  eg_link : LinkType;
}.

Definition set_insns (l : list Insn) (s : Codegen) : Codegen := mk_codegen l (eg_link s).

Definition EG : Type → Type := M Codegen.

Definition eg_new (link : LinkType) : Codegen := mk_codegen [] link.

Definition push (insn : Insn) : EG Z := λ s,
  Ok (zlen (eg_insns s), set_insns (eg_insns s ++ [insn]) s).

Definition here : EG Z := gets (λ s, zlen (eg_insns s)).

Definition set_off (o : Z) (i : Insn) : Insn := mk_insn (Ebpf.code i) (regs i) o (imm i).

Definition i16_max : Z := 2 ^ 15 - 1.

Definition resolve (from target_idx : Z) : EG unit :=
  if negb (from <? target_idx) then panic
  else
    let diff := target_idx - from - 1 in
    if i16_max <? diff then
      fail (CodegenError "filter expression is too complex: eBPF jump offset overflow")
    else λ s,
      match zget (eg_insns s) from with
      | Some insn => Ok (tt, set_insns (zset from (set_off diff insn) (eg_insns s)) s)
      | None => Panic
      end.

Definition resolve_all (patches : list Patch) (target_idx : Z) : EG unit :=
  forM patches (λ p, resolve p target_idx).

(** [x as i16] and [x as i32] *)
Definition as_i16 (x : Z) : Z := signed 16 (x mod 2 ^ 16).
Definition as_i32 (x : Z) : Z := signed 32 (x mod 2 ^ 32).

(** [u32] and [i32] addition, which panic on overflow. *)
Definition u32_add (a b : Z) : EG Z := if a + b <? 2 ^ 32 then mret (a + b) else panic.
Definition i32_add (a b : Z) : EG Z :=
  if (- 2 ^ 31 <=? a + b) && (a + b <? 2 ^ 31) then mret (a + b) else panic.

Definition net_offset : EG Z := gets (λ s, link_net_offset (eg_link s)).
Definition ether_proto_offset : EG (option Z) := gets (λ s, link_ether_proto_offset (eg_link s)).

Definition emit_prologue : EG unit :=
  push (ldx_w R2 R1 0);;
  push (ldx_w R3 R1 4);;
  mret tt.

(** * Loads *)

Definition push_ldx_h_be (dst src off : Z) : EG unit :=
  push (ldx_h dst src off);; push (be16 dst);; mret tt.

Definition push_ldx_w_be (dst src off : Z) : EG unit :=
  push (ldx_w dst src off);; push (be32 dst);; mret tt.

(** The bounds check in front of a load of [size] bytes. *)
Definition check_bounds (offset size : Z) : EG Patch :=
  push (mov64_reg R5 R2);;
  end_off ← u32_add offset size;
  push (add64_imm R5 (as_i32 end_off));;
  push (jgt_reg R5 R3 0).

Definition emit_load_byte (offset : Z) : EG Patch :=
  bc ← check_bounds offset 1;
  push (ldx_b R4 R2 (as_i16 offset));;
  mret bc.

Definition emit_load_half (offset : Z) : EG Patch :=
  bc ← check_bounds offset 2;
  push_ldx_h_be R4 R2 (as_i16 offset);;
  mret bc.

Definition emit_load_word (offset : Z) : EG Patch :=
  bc ← check_bounds offset 4;
  push_ldx_w_be R4 R2 (as_i16 offset);;
  mret bc.

(** * Checks *)

Definition check_half (offset expected : Z) : EG Patches :=
  bc ← emit_load_half offset;
  cmp ← push (jne_imm R4 (as_i32 expected) 0);
  mret (fails [bc; cmp]).

Definition check_byte (offset expected : Z) : EG Patches :=
  bc ← emit_load_byte offset;
  cmp ← push (jne_imm R4 (as_i32 expected) 0);
  mret (fails [bc; cmp]).

Definition check_word (offset expected : Z) : EG Patches :=
  bc ← emit_load_word offset;
  cmp ← push (jne_imm R4 (as_i32 expected) 0);
  mret (fails [bc; cmp]).

Definition emit_ethertype (et : Z) : EG Patches :=
  off ← ether_proto_offset;
  match off with
  | Some off => check_half off et
  | None =>
      if et =? 0x0800 then mret patches_default
      else fail (CodegenError
        ("ethertype 0x" +:+ hex4 et +:+ " cannot be matched on RawIp captures")%string)
  end.

Definition ip4_guard : EG Patches := emit_ethertype 0x0800.

(** A byte behind the network header. *)
Definition check_net_byte (offset expected : Z) : EG Patches :=
  base ← net_offset;
  off ← u32_add base offset;
  check_byte off expected.

Definition emit_ip4_l4 (proto_num : Z) : EG Patches :=
  p ← ip4_guard;
  q ← check_net_byte 9 proto_num;
  mret (mk_patches (success p) (failure p ++ failure q)).

Definition emit_ip6_l4 (next_hdr : Z) : EG Patches :=
  p ← emit_ethertype 0x86dd;
  q ← check_net_byte 6 next_hdr;
  mret (mk_patches (success p) (failure p ++ failure q)).

Definition emit_dual_l4 (proto_num : Z) : EG Patches :=
  ether_off ← ether_proto_offset;
  match ether_off with
  | None => emit_ip4_l4 proto_num
  | Some ether_off =>
      net_off ← net_offset;
      bc_et ← emit_load_half ether_off;
      jmp_to_ipv4 ← push (jeq_imm R4 0x0800 0);
      not_ipv6 ← push (jne_imm R4 0x86dd 0);
      off6 ← u32_add net_off 6;
      q6 ← check_byte off6 proto_num;
      ja ← push (ja 0);
      ipv4_start ← here;
      resolve jmp_to_ipv4 ipv4_start;;
      off4 ← u32_add net_off 9;
      q4 ← check_byte off4 proto_num;
      after ← here;
      resolve ja after;;
      mret (fails ([bc_et; not_ipv6] ++ failure q6 ++ failure q4))
  end.

Definition emit_proto (proto : Proto) : EG Patches :=
  match proto with
  | Ip => emit_ethertype 0x0800
  | Ip6 => emit_ethertype 0x86dd
  | Arp => emit_ethertype 0x0806
  | Rarp => emit_ethertype 0x8035
  | Tcp => emit_dual_l4 6
  | Udp => emit_dual_l4 17
  | Sctp => emit_dual_l4 132
  | Icmp => emit_ip4_l4 1
  | Igmp => emit_ip4_l4 2
  | Icmp6 => emit_ip6_l4 58
  | Num n => emit_ip4_l4 n
  | Ip6Proto n => emit_ip6_l4 n
  end.

(** * Addresses *)

Definition check_addr4 (k src_off dst_off : Z) (dir : Dir) : EG Patches :=
  match dir with
  | Src =>
      bc ← emit_load_word src_off;
      cmp ← push (jne_imm R4 k 0);
      mret (fails [bc; cmp])
  | Dst =>
      bc ← emit_load_word dst_off;
      cmp ← push (jne_imm R4 k 0);
      mret (fails [bc; cmp])
  | SrcAndDst =>
      bc1 ← emit_load_word src_off;
      cmp1 ← push (jne_imm R4 k 0);
      bc2 ← emit_load_word dst_off;
      cmp2 ← push (jne_imm R4 k 0);
      mret (fails [bc1; cmp1; bc2; cmp2])
  | SrcOrDst =>
      bc1 ← emit_load_word src_off;
      eq_src ← push (jeq_imm R4 k 0);
      bc2 ← emit_load_word dst_off;
      cmp2 ← push (jne_imm R4 k 0);
      mret (mk_patches [eq_src] [bc1; bc2; cmp2])
  end.

Definition emit_host4 (addr : Z) (dir : Dir) : EG Patches :=
  p ← ip4_guard;
  base ← net_offset;
  src_off ← u32_add base 12;
  dst_off ← u32_add base 16;
  q ← check_addr4 (as_i32 addr) src_off dst_off dir;
  mret (extend p q).

(** The closures [check] append to a list of failures; for [SrcOrDst] the
    failures of the check at [a] lead to the check at [b], and a [ja] behind it
    over that one. *)
Definition check_either (check : Z → EG (list Patch)) (a b : Z) : EG Patches :=
  src_fails ← check a;
  ja_idx ← push (ja 0);
  dst_start ← here;
  resolve_all src_fails dst_start;;
  dst_fails ← check b;
  mret (mk_patches [ja_idx] dst_fails).

Definition check_dir (check : Z → EG (list Patch)) (src_off dst_off : Z) (dir : Dir) :
    EG Patches :=
  match dir with
  | Src => l ← check src_off; mret (fails l)
  | Dst => l ← check dst_off; mret (fails l)
  | SrcAndDst => l1 ← check src_off; l2 ← check dst_off; mret (fails (l1 ++ l2))
  | SrcOrDst => check_either check src_off dst_off
  end.

Fixpoint check_ip6 (i : Z) (segs : list Z) (off : Z) : EG (list Patch) :=
  match segs with
  | [] => mret []
  | seg :: segs' =>
      o ← u32_add off (i * 2);
      bc ← emit_load_half o;
      cmp ← push (jne_imm R4 seg 0);
      l ← check_ip6 (i + 1) segs' off;
      mret (bc :: cmp :: l)
  end.

Definition emit_host6 (segs : list Z) (dir : Dir) : EG Patches :=
  p ← emit_ethertype 0x86dd;
  base ← net_offset;
  src_off ← u32_add base 8;
  dst_off ← u32_add base 24;
  q ← check_dir (check_ip6 0 segs) src_off dst_off dir;
  mret (extend p q).

Definition emit_host (addr : IpAddr) (dir : Dir) : EG Patches :=
  match addr with
  | V4 a => emit_host4 a dir
  | V6 segs => emit_host6 segs dir
  end.

Definition check_net4 (mask masked : Z) (off : Z) : EG (list Patch) :=
  bc ← emit_load_word off;
  push (and32_imm R4 mask);;
  cmp ← push (jne_imm R4 masked 0);
  mret [bc; cmp].

Definition emit_net (net : IpNet) (dir : Dir) : EG Patches :=
  p ← ip4_guard;
  base ← net_offset;
  src_off ← u32_add base 12;
  dst_off ← u32_add base 16;
  let mask := as_i32 (net_mask net) in
  let masked := as_i32 (net_addr net .& net_mask net) in
  match dir with
  | Src | Dst | SrcAndDst =>
      q ← check_dir (check_net4 mask masked) src_off dst_off dir;
      mret (extend p q)
  | SrcOrDst =>
      bc ← emit_load_word src_off;
      push (and32_imm R4 mask);;
      eq_src ← push (jeq_imm R4 masked 0);
      bc2 ← emit_load_word dst_off;
      push (and32_imm R4 mask);;
      cmp2 ← push (jne_imm R4 masked 0);
      mret (extend p (mk_patches [eq_src] [bc; bc2; cmp2]))
  end.

Fixpoint check_net6 (i : Z) (segs : list Z) (prefix_len addr_off : Z) : EG (list Patch) :=
  match segs with
  | [] => mret []
  | seg :: segs' =>
      let start_bit := i * 16 in
      if prefix_len <=? start_bit then mret []
      else
        let end_bit := start_bit + 16 in
        off ← u32_add addr_off (i * 2);
        bc ← emit_load_half off;
        cmp ←
          (if end_bit <=? prefix_len then push (jne_imm R4 seg 0)
           else
             let bits := prefix_len - start_bit in
             let mask := Z.shiftl 0xffff (16 - bits) .& 0xffff in
             let expected := seg .& mask in
             push (and32_imm R4 mask);;
             push (jne_imm R4 expected 0));
        l ← check_net6 (i + 1) segs' prefix_len addr_off;
        mret (bc :: cmp :: l)
  end.

Definition emit_net6 (net : Ipv6Net) (dir : Dir) : EG Patches :=
  p ← emit_ethertype 0x86dd;
  base ← net_offset;
  src_off ← u32_add base 8;
  dst_off ← u32_add base 24;
  q ← check_dir (check_net6 0 (net6_segments net) (net6_prefix_len net)) src_off dst_off dir;
  mret (extend p q).

(** * Ports *)

Definition emit_l4_proto_check (proto_off : Z) (proto : option Proto) : EG (list Patch) :=
  match proto with
  | Some Tcp => q ← check_byte proto_off 6; mret (failure q)
  | Some Udp => q ← check_byte proto_off 17; mret (failure q)
  | Some Sctp => q ← check_byte proto_off 132; mret (failure q)
  | None =>
      bc ← emit_load_byte proto_off;
      eq_tcp ← push (jeq_imm R4 6 0);
      cmp_udp ← push (jne_imm R4 17 0);
      after_udp ← here;
      resolve eq_tcp after_udp;;
      mret [bc; cmp_udp]
  | Some pr =>
      fail (CodegenError ("port filter with proto " +:+ debug_proto pr +:+ " is not supported")%string)
  end.

(** [r6 = r2 + net_off + 4 * IHL] and the bounds check of the byte it reads. *)
Definition emit_ihl (net_off : Z) : EG Patch :=
  bc_ihl ← emit_load_byte net_off;
  push (and32_imm R4 0x0f);;
  push (lsh32_imm R4 2);;
  push (mov64_reg R6 R2);;
  push (add64_imm R6 (as_i32 net_off));;
  push (add64_reg R6 R4);;
  mret bc_ihl.

(** Room for [n] bytes behind [r6]. *)
Definition check_trans_bounds (n : Z) : EG Patch :=
  push (mov64_reg R5 R6);;
  push (add64_imm R5 n);;
  push (jgt_reg R5 R3 0).

Definition emit_port_prereqs_ipv4_only (proto : option Proto) : EG Patches :=
  p ← ip4_guard;
  net_off ← net_offset;
  proto_off ← u32_add net_off 9;
  l ← emit_l4_proto_check proto_off proto;
  bc_ihl ← emit_ihl net_off;
  bc_trans ← check_trans_bounds 4;
  mret (mk_patches (success p) (failure p ++ l ++ [bc_ihl; bc_trans])).

Definition emit_port_prereqs (proto : option Proto) : EG Patches :=
  ether_off ← ether_proto_offset;
  match ether_off with
  | None => emit_port_prereqs_ipv4_only proto
  | Some ether_off =>
      net_off ← net_offset;
      bc_et ← emit_load_half ether_off;
      jmp_to_ipv4 ← push (jeq_imm R4 0x0800 0);
      not_ipv6 ← push (jne_imm R4 0x86dd 0);
      off6 ← u32_add net_off 6;
      l6 ← emit_l4_proto_check off6 proto;
      push (mov64_reg R6 R2);;
      trans6 ← u32_add net_off 40;
      push (add64_imm R6 (as_i32 trans6));;
      bc_v6 ← check_trans_bounds 4;
      ja_skip_v4 ← push (ja 0);
      ipv4_start ← here;
      resolve jmp_to_ipv4 ipv4_start;;
      off4 ← u32_add net_off 9;
      l4 ← emit_l4_proto_check off4 proto;
      bc_ihl ← emit_ihl net_off;
      bc_v4 ← check_trans_bounds 4;
      port_check_start ← here;
      resolve ja_skip_v4 port_check_start;;
      mret (fails ([bc_et; not_ipv6] ++ l6 ++ [bc_v6] ++ l4 ++ [bc_ihl; bc_v4]))
  end.

Definition emit_port (port : Z) (dir : Dir) (proto : option Proto) : EG Patches :=
  p ← emit_port_prereqs proto;
  let k := port in
  match dir with
  | Src =>
      push_ldx_h_be R4 R6 0;;
      cmp ← push (jne_imm R4 k 0);
      mret (extend p (fails [cmp]))
  | Dst =>
      push_ldx_h_be R4 R6 2;;
      cmp ← push (jne_imm R4 k 0);
      mret (extend p (fails [cmp]))
  | SrcAndDst =>
      push_ldx_h_be R4 R6 0;;
      cmp1 ← push (jne_imm R4 k 0);
      push_ldx_h_be R4 R6 2;;
      cmp2 ← push (jne_imm R4 k 0);
      mret (extend p (fails [cmp1; cmp2]))
  | SrcOrDst =>
      push_ldx_h_be R4 R6 0;;
      eq_src ← push (jeq_imm R4 k 0);
      push_ldx_h_be R4 R6 2;;
      cmp_dst ← push (jne_imm R4 k 0);
      mret (extend p (mk_patches [eq_src] [cmp_dst]))
  end.

Definition check_range (lo hi : Z) (off : Z) : EG (list Patch) :=
  push_ldx_h_be R4 R6 off;;
  i_lo ← push (jlt_imm R4 lo 0);
  i_hi ← push (jgt_imm R4 hi 0);
  mret [i_lo; i_hi].

Definition emit_portrange (lo hi : Z) (dir : Dir) (proto : option Proto) : EG Patches :=
  p ← emit_port_prereqs proto;
  q ← check_dir (check_range lo hi) 0 2 dir;
  mret (extend p q).

(** * Link-layer addresses *)

(** [u32::from_be_bytes] *)
Definition u32_from_be_bytes (l : list Z) : Z := foldl (λ a o, a * 256 + o) 0 l.

Definition check_mac (word half : Z) (offset : Z) : EG (list Patch) :=
  bc1 ← emit_load_word offset;
  cmp1 ← push (jne_imm R4 word 0);
  off ← u32_add offset 4;
  bc2 ← emit_load_half off;
  cmp2 ← push (jne_imm R4 half 0);
  mret [bc1; cmp1; bc2; cmp2].

(** The six octets of an address, as the array is. *)
Definition emit_ether_host (addr : MacAddr) (dir : Dir) : EG Patches :=
  link ← gets eg_link;
  if decide (link = RawIp) then
    fail (CodegenError "ether host cannot be used with RawIp link type")
  else
    let word := as_i32 (u32_from_be_bytes (take 4 (mac_octets addr))) in
    let half := as_i32 (u32_from_be_bytes (drop 4 (mac_octets addr))) in
    let check_mac := check_mac word half in
    match dir with
    | Src => l ← check_mac 6; mret (fails l)
    | Dst => l ← check_mac 0; mret (fails l)
    | SrcAndDst => l1 ← check_mac 0; l2 ← check_mac 6; mret (fails (l1 ++ l2))
    | SrcOrDst => check_either check_mac 0 6
    end.

Definition emit_ether_multicast : EG Patches :=
  link ← gets eg_link;
  if decide (link = RawIp) then
    fail (CodegenError "ether multicast cannot be used with RawIp link type")
  else
    bc ← emit_load_byte 0;
    cmp ← push (jset_imm R4 0x01 0);
    ja_fail ← push (ja 0);
    after ← here;
    resolve cmp after;;
    mret (fails [bc; ja_fail]).

Definition emit_ip_broadcast : EG Patches :=
  p ← ip4_guard;
  base ← net_offset;
  dst_off ← u32_add base 16;
  q ← check_word dst_off 0xffffffff;
  mret (mk_patches (success p) (failure p ++ failure q)).

Definition emit_ip_multicast : EG Patches :=
  p ← ip4_guard;
  base ← net_offset;
  dst_off ← u32_add base 16;
  bc ← emit_load_word dst_off;
  push (and32_imm R4 (as_i32 0xf0000000));;
  cmp ← push (jne_imm R4 (as_i32 0xe0000000) 0);
  mret (extend p (fails [bc; cmp])).

Definition emit_ip6_multicast : EG Patches :=
  p ← emit_ethertype 0x86dd;
  base ← net_offset;
  dst_off ← u32_add base 24;
  q ← check_byte dst_off 0xff;
  mret (mk_patches (success p) (failure p ++ failure q)).

(** * Tags and tunnels *)

Definition emit_vlan (id : option Z) : EG Patches :=
  p ← emit_ethertype 0x8100;
  match id with
  | None => mret p
  | Some vid =>
      o ← ether_proto_offset;
      tci_off ← u32_add (unwrap_or 14 o) 2;
      bc ← emit_load_half tci_off;
      push (and32_imm R4 0x0fff);;
      cmp ← push (jne_imm R4 vid 0);
      mret (extend p (fails [bc; cmp]))
  end.

Definition emit_mpls (label : option Z) : EG Patches :=
  o ← ether_proto_offset;
  match o with
  | None => fail (CodegenError "mpls cannot be matched on RawIp captures")
  | Some off =>
      bc ← emit_load_half off;
      eq_uni ← push (jeq_imm R4 0x8847 0);
      cmp_mc ← push (jne_imm R4 0x8848 0);
      after_et ← here;
      resolve eq_uni after_et;;
      let p := fails [bc; cmp_mc] in
      match label with
      | None => mret p
      | Some lbl =>
          lse_off ← u32_add off 2;
          bc2 ← emit_load_word lse_off;
          push (rsh32_imm R4 12);;
          cmp2 ← push (jne_imm R4 (as_i32 lbl) 0);
          mret (extend p (fails [bc2; cmp2]))
      end
  end.

Definition emit_pppoe_session (session_id : option Z) : EG Patches :=
  p ← emit_ethertype 0x8864;
  match session_id with
  | None => mret p
  | Some id =>
      o ← ether_proto_offset;
      sid_off ← u32_add (unwrap_or 12 o) 4;
      bc ← emit_load_half sid_off;
      cmp ← push (jne_imm R4 id 0);
      mret (extend p (fails [bc; cmp]))
  end.

(** * Lengths and byte accesses *)

Definition emit_cmp (op : CmpOp) (value : Z) : EG Patches :=
  let v := as_i32 value in
  let one (i : Insn) : EG Patches := idx ← push i; mret (fails [idx]) in
  match op with
  | Eq_ => one (jne_imm R4 v 0)
  | Ne => one (jeq_imm R4 v 0)
  | Gt_ => one (jle_imm R4 v 0)
  | Ge => one (jlt_imm R4 v 0)
  | Lt_ => one (jge_imm R4 v 0)
  | Le => one (jgt_imm R4 v 0)
  | BitAnd =>
      jset ← push (jset_imm R4 v 0);
      ja_fail ← push (ja 0);
      after ← here;
      resolve jset after;;
      mret (fails [ja_fail])
  end.

Definition emit_len (op : CmpOp) (value : Z) : EG Patches :=
  push (mov64_reg R4 R3);;
  push (new (BPF_ALU64 .| BPF_SUB .| BPF_X) R4 R2 0 0);;
  emit_cmp op value.

Definition ebpf_alu32 (op : ArithOp) (dst imm : Z) : EG Insn :=
  match op with
  | And_ => mret (and32_imm dst imm)
  | Or_ => mret (or32_imm dst imm)
  | Xor => mret (xor32_imm dst imm)
  | Add => mret (add32_imm dst imm)
  | Sub => mret (sub32_imm dst imm)
  | Mul => mret (mul32_imm dst imm)
  | Div =>
      if imm =? 0 then fail (CodegenError "division by zero in byte-access expression")
      else mret (div32_imm dst imm)
  | Mod => fail (CodegenError "modulo (%) is not supported in eBPF byte-access expressions")
  | Shl => mret (lsh32_imm dst imm)
  | Shr => mret (rsh32_imm dst imm)
  end.

(** [for &(aop, operand) in &ba.alu_ops] *)
Definition emit_alu_ops (ops : list (ArithOp * Z)) : EG unit :=
  forM ops (λ '(aop, operand), i ← ebpf_alu32 aop R4 (as_i32 operand); push i;; mret tt).

Definition size_bytes (s : AccessSize) : Z :=
  match s with Byte => 1 | Half => 2 | Word => 4 end.

Definition emit_trans_byte_access (ba : ByteAccess) (value : Z) : EG Patches :=
  net_off ← net_offset;
  bc_ihl ← emit_ihl net_off;
  end_off ← i32_add (ba_offset ba) (size_bytes (ba_size ba));
  bc_trans ← check_trans_bounds end_off;
  (match ba_size ba with
   | Byte => push (ldx_b R4 R6 (as_i16 (ba_offset ba)));; mret tt
   | Half => push_ldx_h_be R4 R6 (as_i16 (ba_offset ba))
   | Word => push_ldx_w_be R4 R6 (as_i16 (ba_offset ba))
   end);;
  emit_alu_ops (ba_alu_ops ba);;
  p ← emit_cmp (ba_op ba) value;
  mret (mk_patches (success p) (failure p ++ [bc_ihl; bc_trans])).

Definition emit_load_size (size : AccessSize) (off : Z) : EG Patch :=
  match size with
  | Byte => emit_load_byte off
  | Half => emit_load_half off
  | Word => emit_load_word off
  end.

(** [base_off + ba.offset as u32] *)
Definition emit_fixed_byte_access (ba : ByteAccess) (value base_off : Z) : EG Patches :=
  off ← u32_add base_off (as_u32 (ba_offset ba));
  bc ← emit_load_size (ba_size ba) off;
  emit_alu_ops (ba_alu_ops ba);;
  p ← emit_cmp (ba_op ba) value;
  mret (mk_patches (success p) (bc :: failure p)).

Definition emit_byte_access (ba : ByteAccess) : EG Patches :=
  match ba_rhs ba with
  | Load_ _ =>
      fail (CodegenError
        "expr-vs-expr byte-access comparison is not yet supported for eBPF targets")
  | Const value =>
      match ba_layer ba with
      | Raw => emit_fixed_byte_access ba value 0
      | Net => base_off ← net_offset; emit_fixed_byte_access ba value base_off
      | Trans => emit_trans_byte_access ba value
      end
  end.

Definition emit_primitive (prim : Primitive) : EG Patches :=
  match prim with
  | PProto p => emit_proto p
  | PHost addr dir => emit_host addr dir
  | PNet net dir => emit_net net dir
  | PNet6 net dir => emit_net6 net dir
  | PPort port dir proto => emit_port port dir proto
  | PPortRange lo hi dir proto => emit_portrange lo hi dir proto
  | PEtherHost addr dir => emit_ether_host addr dir
  | PEtherProto et => emit_ethertype et
  | PEtherMulticast => emit_ether_multicast
  | PIpBroadcast => emit_ip_broadcast
  | PIpMulticast => emit_ip_multicast
  | PIp6Multicast => emit_ip6_multicast
  | PVlan id => emit_vlan id
  | PMpls label => emit_mpls label
  | PPppoeDiscovery => emit_ethertype 0x8863
  | PPppoeSession session_id => emit_pppoe_session session_id
  | PIpProtoChain n => emit_ip4_l4 n
  | PIp6ProtoChain n => emit_ip6_l4 n
  | PLen op value => emit_len op value
  | PByteAccess ba => emit_byte_access ba
  | PInbound | POutbound =>
      fail (CodegenError "inbound/outbound direction cannot be expressed in eBPF")
  end.

(** * The work stack *)

Inductive Work :=
  | WEmit (e : Expr)
  | AndRight (e_right : Expr)
  | AndDone (left_failure : list Patch)
  | OrRight (e_right : Expr)
  | OrDone (left_success : list Patch) (ja_idx : Z)
  | NotDone.

(** The operators, between and after their operands. *)
Definition and_right (left_p : Patches) : EG unit :=
  right_start ← here; resolve_all (success left_p) right_start.

Definition and_done (left_failure : list Patch) (right_p : Patches) : Patches :=
  mk_patches (success right_p) (Codegen.concat left_failure (failure right_p)).

Definition or_right (left_p : Patches) : EG Z :=
  ja_idx ← push (ja 0);
  right_start ← here;
  resolve_all (failure left_p) right_start;;
  mret ja_idx.

Definition or_done (left_success : list Patch) (ja_idx : Z) (right_p : Patches) : Patches :=
  mk_patches (Codegen.concat (left_success ++ [ja_idx]) (success right_p)) (failure right_p).

Definition not_done (inner_p : Patches) : EG Patches :=
  ja_idx ← push (ja 0);
  not_succ_start ← here;
  resolve_all (failure inner_p) not_succ_start;;
  mret (mk_patches [] (success inner_p ++ [ja_idx])).

(** One turn of [while let Some(step) = work.pop()]: the work left and the
    results done. The top of a stack is the head of its list. *)
Definition walk_step (step : Work) (work : list Work) (dn : list Patches) :
    EG (list Work * list Patches) :=
  match step, dn with
  | WEmit (Prim p), _ => q ← emit_primitive p; mret (work, q :: dn)
  | WEmit (And e_left e_right), _ => mret (WEmit e_left :: AndRight e_right :: work, dn)
  | WEmit (Or e_left e_right), _ => mret (WEmit e_left :: OrRight e_right :: work, dn)
  | WEmit (Not inner), _ => mret (WEmit inner :: NotDone :: work, dn)
  | AndRight e_right, left_p :: dn' =>
      and_right left_p;; mret (WEmit e_right :: AndDone (failure left_p) :: work, dn')
  | AndDone left_failure, right_p :: dn' => mret (work, and_done left_failure right_p :: dn')
  | OrRight e_right, left_p :: dn' =>
      ja_idx ← or_right left_p;
      mret (WEmit e_right :: OrDone (success left_p) ja_idx :: work, dn')
  | OrDone left_success ja_idx, right_p :: dn' =>
      mret (work, or_done left_success ja_idx right_p :: dn')
  | NotDone, inner_p :: dn' => q ← not_done inner_p; mret (work, q :: dn')
  | _, [] => panic
  end.

Fixpoint walk_loop (n : nat) (work : list Work) (dn : list Patches) : EG Patches :=
  match n with
  | O => λ _, OutOfFuel
  | S n' =>
      match work with
      | [] => match dn with p :: _ => mret p | [] => panic end
      | step :: work' => '(work'', dn') ← walk_step step work' dn; walk_loop n' work'' dn'
      end
  end.

(** Three turns per node are enough. *)
Definition walk_fuel (e : Expr) : nat := S (3 * size e).

Definition emit_expr (e : Expr) : EG Patches := walk_loop (walk_fuel e) [WEmit e] [].

Definition compile (e : Expr) (link : LinkType) : outcome Program :=
  '(_, s) ←
    (emit_prologue;;
     patches ← emit_expr e;
     accept_idx ← here;
     push (mov64_imm R0 XDP_PASS);;
     push exit;;
     drop_idx ← here;
     push (mov64_imm R0 XDP_DROP);;
     push exit;;
     resolve_all (success patches) accept_idx;;
     resolve_all (failure patches) drop_idx) (eg_new link);
  Ok (mk_program (eg_insns s)).
