(* ===== verification/Sem.v ===== *)
(** The reference semantics of filter expressions: which packets an expression
    denotes, stated on the bytes of the packet and independently of any code. *)

From S2P Require Export Facts.

(** * Packet fields

    The network-order integer at an offset; a byte beyond the end reads 0. *)

Definition b8 (pkt : list Z) (o : Z) : Z := unwrap_or 0 (zget pkt o).
Definition h16 (pkt : list Z) (o : Z) : Z := b8 pkt o * 256 + b8 pkt (o + 1).
Definition w32 (pkt : list Z) (o : Z) : Z := h16 pkt o * 65536 + h16 pkt (o + 2).

(** * Operators *)

Definition cmp_sem (op : CmpOp) (a b : Z) : bool :=
  match op with
  | Eq_ => a =? b
  | Ne => negb (a =? b)
  | Lt_ => a <? b
  | Le => a <=? b
  | Gt_ => b <? a
  | Ge => b <=? a
  | BitAnd => negb (a .& b =? 0)
  end.

(** 32-bit arithmetic; shift counts are taken modulo 32. *)
Definition arith_sem (aop : ArithOp) (a k : Z) : Z :=
  match aop with
  | Add => as_u32 (a + k)
  | Sub => as_u32 (a - k)
  | Mul => as_u32 (a * k)
  | Div => a / k
  | Mod => a mod k
  | And_ => a .& k
  | Or_ => a .| k
  | Xor => Z.lxor a k
  | Shl => as_u32 (Z.shiftl a (k mod 32))
  | Shr => Z.shiftr a (k mod 32)
  end.

Definition alu_sem (ops : list (ArithOp * Z)) (a : Z) : Z :=
  foldl (λ acc '(aop, k), arith_sem aop acc k) a ops.

Definition dir_sem (dir : Dir) (src dst : bool) : bool :=
  match dir with
  | Src => src
  | Dst => dst
  | SrcAndDst => src && dst
  | SrcOrDst => src || dst
  end.

(** Does [f i x] hold of every element [x], at its index from [i] on? *)
Fixpoint all_from (f : Z → Z → bool) (i : Z) (l : list Z) : bool :=
  match l with
  | [] => true
  | x :: l' => f i x && all_from f (i + 1) l'
  end.

(** Does the AND chain begin with a VLAN check? *)
Fixpoint leads_with_vlan (e : Expr) : bool :=
  match e with
  | Prim (PVlan _) => true
  | And l _ => leads_with_vlan l
  | _ => false
  end.

Section sem.
Context (link : LinkType) (pkt : list Z).

(** [d] counts the VLAN tags in front of the current layer. *)
Implicit Types (d : Z).

Definition net_at d : Z := link_net_offset link + 4 * d.

Definition ethertype_is d (et : Z) : bool :=
  match link_ether_proto_offset link with
  | Some o => h16 pkt (o + 4 * d) =? et
  | None => et =? 0x0800
  end.

(** An offset behind the protocol field. *)
Definition behind_ethertype d (k : Z) : Z :=
  unwrap_or 0 (link_ether_proto_offset link) + 4 * d + k.

Definition is_ip4 d : bool := ethertype_is d 0x0800.
Definition is_ip6 d : bool := ethertype_is d 0x86dd.
Definition ip4_l4_is d (n : Z) : bool := is_ip4 d && (b8 pkt (net_at d + 9) =? n).
Definition ip6_l4_is d (n : Z) : bool := is_ip6 d && (b8 pkt (net_at d + 6) =? n).

Definition proto_sem d (p : Proto) : bool :=
  match p with
  | Ip => is_ip4 d
  | Ip6 => is_ip6 d
  | Arp => ethertype_is d 0x0806
  | Rarp => ethertype_is d 0x8035
  | Tcp => ip4_l4_is d 6
  | Udp => ip4_l4_is d 17
  | Icmp => ip4_l4_is d 1
  | Igmp => ip4_l4_is d 2
  | Sctp => ip4_l4_is d 132
  | Icmp6 => ip6_l4_is d 58
  | Num n => ip4_l4_is d n
  | Ip6Proto n => ip6_l4_is d n
  end.

Definition ip6_addr_at (o : Z) (segs : list Z) : bool :=
  all_from (λ i seg, h16 pkt (o + 2 * i) =? seg) 0 segs.

(** The number of bits of segment [i] that a prefix covers. *)
Definition prefix_bits (prefix_len i : Z) : Z := Z.max 0 (Z.min 16 (prefix_len - 16 * i)).

Definition ip6_prefix_at (o : Z) (segs : list Z) (prefix_len : Z) : bool :=
  all_from (λ i seg,
    let n := 16 - prefix_bits prefix_len i in
    Z.shiftr (h16 pkt (o + 2 * i)) n =? Z.shiftr seg n) 0 segs.

Definition mac_at (o : Z) (a : MacAddr) : bool :=
  all_from (λ i x, b8 pkt (o + i) =? x) 0 (mac_octets a).

(** The packet has a transport header of a protocol in [set]: an unfragmented
    (or first-fragment) IPv4 packet, or an IPv6 packet. *)
Definition has_ports d (set : L4Set) : bool :=
  (is_ip4 d && l4_contains set (b8 pkt (net_at d + 9))
   && (h16 pkt (net_at d + 6) mod 2 ^ 13 =? 0))
  || (is_ip6 d && l4_contains set (b8 pkt (net_at d + 6))).

(** Length of the IPv4 header, from its IHL nibble. *)
Definition ip4_header_len d : Z := 4 * (b8 pkt (net_at d) mod 16).

Definition ports_at d : Z := net_at d + (if is_ip6 d then 40 else ip4_header_len d).

Definition ports_sem d (dir : Dir) (proto : option Proto) (test : Z → bool) : bool :=
  match outcome_ok (l4set_for proto) with
  | Some set =>
      has_ports d set
      && dir_sem dir (test (h16 pkt (ports_at d))) (test (h16 pkt (ports_at d + 2)))
  | None => false
  end.

Definition load_sem (sz : AccessSize) (o : Z) : Z :=
  match sz with
  | Byte => b8 pkt o
  | Half => h16 pkt o
  | Word => w32 pkt o
  end.

(** Byte access to the transport layer assumes an IPv4 header. *)
Definition layer_at d (layer : Layer) : Z :=
  match layer with
  | Raw => 0
  | Net => net_at d
  | Trans => net_at d + ip4_header_len d
  end.

Definition byte_access_sem d (ba : ByteAccess) : bool :=
  let lhs := alu_sem (ba_alu_ops ba)
               (load_sem (ba_size ba) (layer_at d (ba_layer ba) + ba_offset ba)) in
  let rhs := match ba_rhs ba with
             | Const v => v
             | Load_ l => load_sem (bl_size l) (layer_at d (bl_layer l) + bl_offset l)
             end in
  cmp_sem (ba_op ba) lhs rhs.

Definition prim_sem d (p : Primitive) : bool :=
  match p with
  | PProto p => proto_sem d p
  | PHost (V4 a) dir =>
      is_ip4 d
      && dir_sem dir (w32 pkt (net_at d + 12) =? a) (w32 pkt (net_at d + 16) =? a)
  | PHost (V6 segs) dir =>
      is_ip6 d
      && dir_sem dir (ip6_addr_at (net_at d + 8) segs) (ip6_addr_at (net_at d + 24) segs)
  | PNet n dir =>
      let test o := w32 pkt o .& net_mask n =? net_addr n .& net_mask n in
      is_ip4 d && dir_sem dir (test (net_at d + 12)) (test (net_at d + 16))
  | PNet6 n dir =>
      let test o := ip6_prefix_at o (net6_segments n) (net6_prefix_len n) in
      is_ip6 d && dir_sem dir (test (net_at d + 8)) (test (net_at d + 24))
  | PPort port dir proto => ports_sem d dir proto (λ p, p =? port)
  | PPortRange lo hi dir proto => ports_sem d dir proto (λ p, (lo <=? p) && (p <=? hi))
  | PEtherHost a dir => dir_sem dir (mac_at 6 a) (mac_at 0 a)
  | PEtherProto et => ethertype_is d et
  | PEtherMulticast => Z.odd (b8 pkt 0)
  | PIpBroadcast => is_ip4 d && (w32 pkt (net_at d + 16) =? 0xffffffff)
  | PIpMulticast => is_ip4 d && (Z.shiftr (w32 pkt (net_at d + 16)) 28 =? 0xe)
  | PIp6Multicast => is_ip6 d && (b8 pkt (net_at d + 24) =? 0xff)
  | PVlan None => ethertype_is d 0x8100
  | PVlan (Some id) =>
      ethertype_is d 0x8100 && (h16 pkt (behind_ethertype d 2) mod 2 ^ 12 =? id)
  | PMpls label =>
      (ethertype_is d 0x8847 || ethertype_is d 0x8848)
      && match label with
         | Some l => Z.shiftr (w32 pkt (behind_ethertype d 2)) 12 =? l
         | None => true
         end
  | PPppoeDiscovery => ethertype_is d 0x8863
  | PPppoeSession None => ethertype_is d 0x8864
  | PPppoeSession (Some id) =>
      ethertype_is d 0x8864 && (h16 pkt (behind_ethertype d 4) =? id)
  | PIpProtoChain n => ip4_l4_is d n
  | PIp6ProtoChain n => ip6_l4_is d n
  | PLen op v => cmp_sem op (as_u32 (zlen pkt)) v
  | PInbound | POutbound => false
  | PByteAccess ba => byte_access_sem d ba
  end.

Fixpoint sem d (e : Expr) : bool :=
  match e with
  | Prim p => prim_sem d p
  | Not x => negb (sem d x)
  | Or l r => sem d l || sem d r
  | And l r => sem d l && sem (if leads_with_vlan l then d + 1 else d) r
  end.

(** * What facts and guards say of the packet *)

(** A recorded ethertype is the current one; behind a VLAN tag the record may
    also be the tag's own ethertype. *)
Record facts_true d (f : Facts) : Prop := {
  ft_ethertype et :
    f_ethertype f = Some et → ethertype_is d et = true ∨ d ≠ 0 ∧ et = 0x8100;
  ft_ip4_proto n : f_ip4_proto f = Some n → (b8 pkt (net_at d + 9) =? n) = true;
  ft_ip6_nh n : f_ip6_nh f = Some n → (b8 pkt (net_at d + 6) =? n) = true;
  ft_ports set : f_ports_ready f = Some set → has_ports d set = true;
}.

(** When the facts claim it, [x] is the transport offset, relative to the
    network header. *)
Definition ports_ready d (f : Facts) (x : Z) : Prop :=
  f_ports_ready f ≠ None → net_at d + x = ports_at d.

Definition holds {A} (test : A → bool) (o : option A) : bool :=
  match o with Some a => test a | None => true end.

Definition guards_hold d (g : GuardSet) : bool :=
  holds (ethertype_is d) (g_ethertype g) && holds (ip4_l4_is d) (g_ip4_proto g)
  && holds (ip6_l4_is d) (g_ip6_nh g) && holds (has_ports d) (g_port_prereqs g).

Lemma holds_or_else {A} (test : A → bool) x y :
  holds test x = true → holds test y = true → holds test (or_else x y) = true.
Proof. by destruct x. Qed.

Lemma holds_both {A} `{EqDecision A} (test : A → bool) x y :
  holds test x = true ∨ holds test y = true → holds test (both x y) = true.
Proof. destruct x, y; simpl; try done. case_decide as Heq; [|done]. subst. by intros [?|?]. Qed.

Lemma guards_hold_spec d g :
  guards_hold d g = true ↔
  holds (ethertype_is d) (g_ethertype g) = true ∧ holds (ip4_l4_is d) (g_ip4_proto g) = true ∧
  holds (ip6_l4_is d) (g_ip6_nh g) = true ∧ holds (has_ports d) (g_port_prereqs g) = true.
Proof. unfold guards_hold. rewrite !andb_true_iff. tauto. Qed.

Lemma guards_hold_union d g h :
  guards_hold d g = true → guards_hold d h = true → guards_hold d (guards_union g h) = true.
Proof.
  rewrite !guards_hold_spec. intros (?&?&?&?) (?&?&?&?).
  split_and!; by apply holds_or_else.
Qed.

Lemma guards_hold_intersect d g h :
  guards_hold d g = true ∨ guards_hold d h = true →
  guards_hold d (guards_intersect g h) = true.
Proof.
  rewrite !guards_hold_spec. intros Hor. split_and!; apply holds_both; tauto.
Qed.

Lemma guards_eth_hold d et :
  ethertype_is d et = true → guards_hold d (guards_eth et) = true.
Proof. unfold guards_hold, guards_eth. simpl. by intros ->. Qed.

Lemma guards_ip4_hold d n :
  ip4_l4_is d n = true → guards_hold d (guards_ip4 n) = true.
Proof.
  unfold guards_hold, guards_ip4. simpl. intros H. rewrite H. unfold ip4_l4_is, is_ip4 in H.
  apply andb_true_iff in H as [-> _]. done.
Qed.

Lemma guards_ip6_hold d n :
  ip6_l4_is d n = true → guards_hold d (guards_ip6 n) = true.
Proof.
  unfold guards_hold, guards_ip6. simpl. intros H. rewrite H. unfold ip6_l4_is, is_ip6 in H.
  apply andb_true_iff in H as [-> _]. done.
Qed.

Lemma guards_ports_hold d dir proto test :
  ports_sem d dir proto test = true →
  guards_hold d (mk_guards None None None (outcome_ok (l4set_for proto))) = true.
Proof.
  unfold ports_sem, guards_hold. destruct (outcome_ok _) as [set|]; [|done].
  intros [H _]%andb_true_iff. simpl. by rewrite H.
Qed.

Lemma primitive_guards_hold d p :
  prim_sem d p = true → guards_hold d (primitive_guards p) = true.
Proof.
  destruct p as [[]| | | | |[]| | | | | | |[]| | |[]| | | | | |];
    cbn [prim_sem proto_sem primitive_guards proto_guards]; cbv zeta; intros Hs;
    first
      [ exact eq_refl
      | by apply guards_ip4_hold
      | by apply guards_ip6_hold
      | by eapply guards_ports_hold
      | by apply guards_eth_hold
      | apply andb_true_iff in Hs as [Hs _]; by apply guards_eth_hold ].
Qed.
End sem.

(** No AND chain of [e] begins with a VLAN check. *)
Fixpoint no_vlan_lead (e : Expr) : bool :=
  match e with
  | Prim _ => true
  | Not x => no_vlan_lead x
  | Or l r => no_vlan_lead l && no_vlan_lead r
  | And l r => negb (leads_with_vlan l) && no_vlan_lead l && no_vlan_lead r
  end.

Lemma guards_of_sound link pkt d e :
  no_vlan_lead e = true → sem link pkt d e = true →
  guards_hold link pkt d (guards_of e) = true.
Proof.
  induction e as [l IHl r IHr|l IHl r IHr|x _|p]; simpl; intros Hv Hs.
  - zbool. rewrite H1 in H0. apply guards_hold_union; auto.
  - zbool. apply orb_true_iff in Hs. apply guards_hold_intersect. naive_solver.
  - done.
  - by apply primitive_guards_hold.
Qed.

(** C23: in an OR with no AND chain that begins with a VLAN check, the guards both
    arms require hold of every packet the OR accepts, so that emitting them in
    front of the arms does not change what it means. *)
Theorem required_guards_sound (link : LinkType) (pkt : list Z) (d : Z) (l r : Expr) :
  no_vlan_lead (Or l r) = true →
  sem link pkt d (Or l r) =
  guards_hold link pkt d (guards_intersect (guards_of l) (guards_of r)) && sem link pkt d (Or l r).
Proof.
  intros Hv. destruct (sem link pkt d (Or l r)) eqn:E; [|by rewrite andb_false_r].
  rewrite andb_true_r. symmetry. apply (guards_of_sound link pkt d (Or l r) Hv E).
Qed.

(** [tcp or tcp port 80], whose arms share the IPv4 and the TCP guard: a TCP
    packet passes the guards and is accepted; a UDP packet is held up by them. *)
Lemma required_guards_sound_witness :
  let l := Prim (PProto Tcp) in
  let r := And (Prim (PProto Tcp)) (Prim (PPort 80 SrcOrDst (Some Tcp))) in
  let g := guards_intersect (guards_of l) (guards_of r) in
  let frame proto := replicate 12 0 ++ [8; 0; 0x45] ++ replicate 8 0 ++ [proto] ++ replicate 14 0 in
  g = guards_ip4 6 ∧
  (sem Ethernet (frame 6) 0 (Or l r) = true ∧ guards_hold Ethernet (frame 6) 0 g = true) ∧
  (guards_hold Ethernet (frame 17) 0 g = false ∧ sem Ethernet (frame 17) 0 (Or l r) = false).
Proof.
  intros l r g frame. split; [by vm_compute|].
  pose proof (required_guards_sound Ethernet (frame 6) 0 l r eq_refl) as H6.
  pose proof (required_guards_sound Ethernet (frame 17) 0 l r eq_refl) as H17.
  assert (S6 : sem Ethernet (frame 6) 0 (Or l r) = true) by by vm_compute.
  assert (G17 : guards_hold Ethernet (frame 17) 0 g = false) by by vm_compute.
  fold g in H6, H17. rewrite S6 in H6. rewrite G17 in H17. symmetry in H6.
  apply andb_true_iff in H6 as [H6 _]. by split_and!.
Defined.
