(* ===== verification/Needs.v ===== *)
(** How much of a packet deciding an expression takes: the number of bytes that
    must be there, evaluated like the expression itself, from left to right. *)

From S2P Require Export Sem.

(** The bytes of one access. *)
Definition size_bytes (sz : AccessSize) : Z :=
  match sz with Byte => 1 | Half => 2 | Word => 4 end.

Section needs.
Context (link : LinkType) (pkt : list Z).

(** [n] bytes of the network header, looked at behind a test of the ethertype. *)
Definition header_needs d (guarded : bool) (n : Z) : Z :=
  net_at link d + if guarded then n else 0.

(** The fields in front of the ports: the protocol, and in IPv4 the fragment
    offset and the length of the header. *)
Definition protocol_needs d : Z :=
  net_at link d + if is_ip4 link pkt d then 10 else if is_ip6 link pkt d then 7 else 0.

Definition ports_needs d (proto : option Proto) : Z :=
  match outcome_ok (l4set_for proto) with
  | Some set =>
      if has_ports link pkt d set then Z.max (protocol_needs d) (ports_at link pkt d + 4)
      else protocol_needs d
  | None => protocol_needs d
  end.

Definition access_needs d (layer : Layer) (off : Z) (sz : AccessSize) : Z :=
  let past := layer_at link pkt d layer + off + size_bytes sz in
  match layer with Trans => Z.max (net_at link d + 1) past | Raw | Net => past end.

Definition proto_needs d (p : Proto) : Z :=
  match p with
  | Ip | Ip6 | Arp | Rarp => net_at link d
  | Icmp6 | Ip6Proto _ => header_needs d (is_ip6 link pkt d) 7
  | Tcp | Udp | Icmp | Igmp | Sctp | Num _ => header_needs d (is_ip4 link pkt d) 10
  end.

Definition prim_needs d (p : Primitive) : Z :=
  match p with
  | PProto p => proto_needs d p
  | PHost (V4 _) _ | PNet _ _ | PIpBroadcast | PIpMulticast =>
      header_needs d (is_ip4 link pkt d) 20
  | PHost (V6 _) _ | PNet6 _ _ => header_needs d (is_ip6 link pkt d) 40
  | PIp6Multicast => header_needs d (is_ip6 link pkt d) 25
  | PPort _ _ proto | PPortRange _ _ _ proto => ports_needs d proto
  | PEtherHost _ _ => 12
  | PEtherMulticast => 1
  | PEtherProto _ | PVlan None | PMpls None | PPppoeDiscovery | PPppoeSession None => net_at link d
  | PVlan (Some _) => header_needs d (ethertype_is link pkt d 0x8100) 2
  | PMpls (Some _) => net_at link d + 4
  | PPppoeSession (Some _) => header_needs d (ethertype_is link pkt d 0x8864) 4
  | PIpProtoChain _ => header_needs d (is_ip4 link pkt d) 10
  | PIp6ProtoChain _ => header_needs d (is_ip6 link pkt d) 7
  | PLen _ _ | PInbound | POutbound => 0
  | PByteAccess ba =>
      Z.max (access_needs d (ba_layer ba) (ba_offset ba) (ba_size ba))
        match ba_rhs ba with
        | Const _ => 0
        | Load_ l => access_needs d (bl_layer l) (bl_offset l) (bl_size l)
        end
  end.

(** What both arms of an OR require is looked at first. *)
Definition asked {A} (o : option A) (n : Z) : Z := match o with Some _ => n | None => 0 end.

Definition guards_needs d (g : GuardSet) : Z :=
  Z.max (asked (g_ethertype g) (net_at link d))
    (Z.max (asked (g_ip4_proto g) (header_needs d (is_ip4 link pkt d) 10))
      (Z.max (asked (g_ip6_nh g) (header_needs d (is_ip6 link pkt d) 7))
        (asked (g_port_prereqs g) (protocol_needs d)))).

(** The right operand is looked at when the left one does not settle it. *)
Fixpoint needs d (e : Expr) : Z :=
  match e with
  | Prim p => prim_needs d p
  | Not x => needs d x
  | And l r =>
      if sem link pkt d l
      then Z.max (needs d l) (needs (if leads_with_vlan l then d + 1 else d) r)
      else needs d l
  | Or l r =>
      Z.max (guards_needs d (guards_intersect (guards_of l) (guards_of r)))
        (if sem link pkt d l then needs d l else Z.max (needs d l) (needs d r))
  end.
End needs.
