(* ===== verification/Fields.v ===== *)
(** Arithmetic of packet fields: their ranges, and comparisons under a mask as
    both compilers emit them. *)

From S2P Require Export Sem.

(** * Ranges of packet fields *)

Section ranges.
Context (pkt : list Z).
Hypothesis Hpkt : Forall is_u8 pkt.

Lemma b8_range o : is_u8 (b8 pkt o).
Proof.
  unfold b8. destruct (zget pkt o) as [v|] eqn:E; simpl; [|unfold is_u8; lia].
  by eapply Forall_zget.
Qed.

Lemma h16_range o : is_u16 (h16 pkt o).
Proof. pose proof (b8_range o). pose proof (b8_range (o + 1)). unfold h16. ulia. Qed.

Lemma w32_range o : is_u32 (w32 pkt o).
Proof. pose proof (h16_range o). pose proof (h16_range (o + 2)). unfold w32. ulia. Qed.
End ranges.

(** Comparing under a mask of high bits is comparing the high bits. *)
Lemma mask_high w n m x y :
  0 ≤ n ≤ w → m = Z.shiftl (Z.ones (w - n)) n → 0 ≤ x < 2 ^ w → 0 ≤ y < 2 ^ w →
  (x .& m =? y .& m) = (Z.shiftr x n =? Z.shiftr y n).
Proof.
  intros Hn -> Hx Hy.
  assert (Hand : ∀ z, 0 ≤ z < 2 ^ w →
    z .& Z.shiftl (Z.ones (w - n)) n = Z.shiftl (Z.shiftr z n) n).
  { intros z Hz. apply Z.bits_inj'. intros i Hi.
    rewrite Z.land_spec. destruct (Z.lt_ge_cases i n).
    - rewrite !Z.shiftl_spec, !(Z.testbit_neg_r _ (i - n)) by lia. apply andb_false_r.
    - rewrite !Z.shiftl_spec, Z.shiftr_spec by lia. replace (i - n + n) with i by lia.
      destruct (Z.lt_ge_cases i w).
      + rewrite Z.ones_spec_low by lia. apply andb_true_r.
      + rewrite Z.ones_spec_high by lia. rewrite andb_false_r.
        destruct (Z.eq_dec z 0) as [->|]; [by rewrite Z.bits_0|].
        rewrite Z.bits_above_log2; [done|lia|]. apply Z.log2_lt_pow2; [lia|].
        pose proof (Z.pow_le_mono_r 2 w i). lia. }
  rewrite !Hand by done. apply eq_true_iff_eq. rewrite !Z.eqb_eq. split; [|by intros ->].
  intros He. apply (f_equal (λ z, Z.shiftr z n)) in He.
  by rewrite !Z.shiftr_shiftl_l, Z.sub_diag, !Z.shiftl_0_r in He by lia.
Qed.

(** * Masks *)

Lemma land_ones_mod a n m : 0 ≤ n → m = Z.ones n → a .& m = a mod 2 ^ n.
Proof. intros ? ->. by apply Z.land_ones. Qed.

Lemma land_nibble a : a .& 0xf = a mod 16.
Proof. by apply (land_ones_mod a 4). Qed.

Lemma land_31 a : a .& 31 = a mod 32.
Proof. by apply (land_ones_mod a 5). Qed.

(** The segments of an IPv6 network prefix. *)
Lemma prefix_bits_zero len i : len ≤ 16 * i → prefix_bits len i = 0.
Proof. unfold prefix_bits. lia. Qed.

Definition net6_mask (bits : Z) : Z := Z.shiftl 0xffff (16 - bits) .& 0xffff.

Lemma net6_mask_spec bits :
  0 ≤ bits ≤ 16 → net6_mask bits = Z.shiftl (Z.ones bits) (16 - bits).
Proof.
  intros Hb. assert (Hall : Forall (λ b, net6_mask b = Z.shiftl (Z.ones b) (16 - b)) (seqZ 0 17))
    by (apply (bool_decide_unpack _); vm_compute; done).
  rewrite Forall_forall in Hall. apply Hall. apply elem_of_seqZ. lia.
Qed.

Lemma net6_mask_u16 bits : 0 ≤ bits ≤ 16 → is_u16 (net6_mask bits).
Proof.
  intros Hb. assert (Hall : Forall (λ b, is_u16 (net6_mask b)) (seqZ 0 17))
    by (apply (bool_decide_unpack _); vm_compute; done).
  rewrite Forall_forall in Hall. apply Hall. apply elem_of_seqZ. lia.
Qed.

Lemma net6_mask_range bits : 0 ≤ bits ≤ 16 → is_u32 (net6_mask bits).
Proof. intros Hb. pose proof (net6_mask_u16 bits Hb). unfold is_u16, is_u32 in *. lia. Qed.

(** One segment, wholly or partly covered. *)
Lemma net6_segment len i x seg :
  0 ≤ i → is_u16 x → is_u16 seg → 16 * i < len →
  (Z.shiftr x (16 - prefix_bits len i) =? Z.shiftr seg (16 - prefix_bits len i)) =
  if i * 16 + 16 <=? len then x =? seg
  else x .& net6_mask (len - i * 16) =? seg .& net6_mask (len - i * 16).
Proof.
  intros Hi Hx Hseg Hlt. unfold prefix_bits. destruct (Z.leb_spec (i * 16 + 16) len).
  - replace (16 - _) with 0 by lia. by rewrite !Z.shiftr_0_r.
  - replace (Z.max 0 _) with (len - i * 16) by lia. symmetry.
    rewrite net6_mask_spec by lia. apply (mask_high 16); [lia| |ulia..].
    f_equal. f_equal. lia.
Qed.
