(* ===== verification/EbpfSem.v ===== *)
(** What an extended BPF program decides, on every packet: each look at the
    packet is true only if its bytes are there, and a 64-bit comparison sees an
    immediate sign-extended. [esem_agree], in [Targets], relates it to the
    reference semantics. *)

From S2P Require Import EbpfCodegen.
From S2P Require Export Fields.

(** The 64-bit value of a jump's immediate, from the [u32] the code holds. *)
Definition imm_of (k : Z) : Z := as_i32 k mod 2 ^ 64.

Section esem.
Context (link : LinkType) (pkt : list Z).

(** The packet has [n] bytes at [o]. *)
Definition has (o n : Z) : bool := o + n <=? zlen pkt.

Definition byte_is (o v : Z) : bool := has o 1 && (b8 pkt o =? v).
Definition half_is (o v : Z) : bool := has o 2 && (h16 pkt o =? v).
Definition word_is (o k : Z) : bool := has o 4 && (w32 pkt o =? imm_of k).

Definition net : Z := link_net_offset link.

Definition et_is (et : Z) : bool :=
  match link_ether_proto_offset link with
  | Some o => half_is o et
  | None => et =? 0x0800
  end.

Definition v4 : bool := et_is 0x0800.
Definition v6 : bool := et_is 0x86dd.
Definition v4_l4 (n : Z) : bool := v4 && byte_is (net + 9) n.
Definition v6_l4 (n : Z) : bool := v6 && byte_is (net + 6) n.

(** Either family; a raw IP capture is taken for IPv4. *)
Definition dual_l4 (n : Z) : bool := v4_l4 n || v6_l4 n.

Definition proto_esem (p : Proto) : bool :=
  match p with
  | Ip => v4
  | Ip6 => v6
  | Arp => et_is 0x0806
  | Rarp => et_is 0x8035
  | Tcp => dual_l4 6
  | Udp => dual_l4 17
  | Sctp => dual_l4 132
  | Icmp => v4_l4 1
  | Igmp => v4_l4 2
  | Icmp6 => v6_l4 58
  | Num n => v4_l4 n
  | Ip6Proto n => v6_l4 n
  end.

Definition addr6_is (segs : list Z) (o : Z) : bool := all_from (λ i seg, half_is (o + i * 2) seg) 0 segs.

Definition net4_is (n : IpNet) (o : Z) : bool :=
  has o 4 && (w32 pkt o .& net_mask n =? imm_of (net_addr n .& net_mask n)).

(** A segment that the prefix does not reach is not looked at. *)
Definition prefix_seg (prefix_len o i seg : Z) : bool :=
  if prefix_len <=? i * 16 then true
  else
    has (o + i * 2) 2 &&
    (let n := 16 - prefix_bits prefix_len i in Z.shiftr (h16 pkt (o + i * 2)) n =? Z.shiftr seg n).

Definition net6_is (n : Ipv6Net) (o : Z) : bool :=
  all_from (prefix_seg (net6_prefix_len n) o) 0 (net6_segments n).

Definition l4_proto_is (o : Z) (proto : option Proto) : bool :=
  match proto with
  | Some Tcp => byte_is o 6
  | Some Udp => byte_is o 17
  | Some Sctp => byte_is o 132
  | None => byte_is o 6 || byte_is o 17
  | Some _ => false
  end.

(** The transport header's offset, and whether there are ports at it. *)
Definition trans4 : Z := net + 4 * (b8 pkt net mod 16).
Definition trans_at : Z := if v4 then trans4 else net + 40.
Definition has_trans (proto : option Proto) : bool :=
  if v4 then l4_proto_is (net + 9) proto && has net 1 && has trans4 4
  else v6 && l4_proto_is (net + 6) proto && has (net + 40) 4.

Definition ports_esem (dir : Dir) (proto : option Proto) (test : Z → bool) : bool :=
  has_trans proto && dir_sem dir (test (h16 pkt trans_at)) (test (h16 pkt (trans_at + 2))).

Definition mac_is (a : MacAddr) (o : Z) : bool :=
  word_is o (u32_from_be_bytes (take 4 (mac_octets a)))
  && half_is (o + 4) (u32_from_be_bytes (drop 4 (mac_octets a))).

Definition behind (d o : Z) : Z := unwrap_or d (link_ether_proto_offset link) + o.

(** A comparison of 64-bit values; the arithmetic in front of it has 32 bits. *)
Definition cmp_esem (op : CmpOp) (a k : Z) : bool := cmp_sem op a (imm_of k).

Definition size_of (s : AccessSize) : Z := size_bytes s.

Definition access_esem (ba : ByteAccess) (o value : Z) : bool :=
  has o (size_of (ba_size ba)) &&
  cmp_esem (ba_op ba) (alu_sem (ba_alu_ops ba) (load_sem pkt (ba_size ba) o)) value.

Definition byte_access_esem (ba : ByteAccess) : bool :=
  match ba_rhs ba with
  | Load_ _ => false
  | Const value =>
      match ba_layer ba with
      | Raw => access_esem ba (ba_offset ba) value
      | Net => access_esem ba (net + ba_offset ba) value
      | Trans => has net 1 && access_esem ba (trans4 + ba_offset ba) value
      end
  end.

Definition prim_esem (p : Primitive) : bool :=
  match p with
  | PProto p => proto_esem p
  | PHost (V4 a) dir => v4 && dir_sem dir (word_is (net + 12) a) (word_is (net + 16) a)
  | PHost (V6 segs) dir => v6 && dir_sem dir (addr6_is segs (net + 8)) (addr6_is segs (net + 24))
  | PNet n dir => v4 && dir_sem dir (net4_is n (net + 12)) (net4_is n (net + 16))
  | PNet6 n dir => v6 && dir_sem dir (net6_is n (net + 8)) (net6_is n (net + 24))
  | PPort port dir proto => ports_esem dir proto (λ p, p =? port)
  | PPortRange lo hi dir proto => ports_esem dir proto (λ p, (lo <=? p) && (p <=? hi))
  | PEtherHost a dir => dir_sem dir (mac_is a 6) (mac_is a 0)
  | PEtherProto et => et_is et
  | PEtherMulticast => has 0 1 && Z.odd (b8 pkt 0)
  | PIpBroadcast => v4 && word_is (net + 16) 0xffffffff
  | PIpMulticast =>
      v4 && has (net + 16) 4 && (w32 pkt (net + 16) .& 0xf0000000 =? imm_of 0xe0000000)
  | PIp6Multicast => v6 && byte_is (net + 24) 0xff
  | PVlan None => et_is 0x8100
  | PVlan (Some id) =>
      et_is 0x8100 && has (behind 14 2) 2 && (h16 pkt (behind 14 2) mod 2 ^ 12 =? id)
  | PMpls label =>
      (et_is 0x8847 || et_is 0x8848)
      && match label with
         | Some l => has (behind 0 2) 4 && (Z.shiftr (w32 pkt (behind 0 2)) 12 =? imm_of l)
         | None => true
         end
  | PPppoeDiscovery => et_is 0x8863
  | PPppoeSession None => et_is 0x8864
  | PPppoeSession (Some id) => et_is 0x8864 && half_is (behind 12 4) id
  | PIpProtoChain n => v4_l4 n
  | PIp6ProtoChain n => v6_l4 n
  | PLen op v => cmp_esem op (zlen pkt) v
  | PInbound | POutbound => false
  | PByteAccess ba => byte_access_esem ba
  end.

Fixpoint esem (e : Expr) : bool :=
  match e with
  | Prim p => prim_esem p
  | Not x => negb (esem x)
  | Or l r => esem l || esem r
  | And l r => esem l && esem r
  end.
End esem.

(** Byte accesses the compiler gets right: offsets that an [i16] holds, and
    shifts a 32-bit register allows. *)
Definition fit_access (ba : ByteAccess) : bool :=
  (ba_offset ba <? 2 ^ 14) &&
  forallb (λ '(op, k), match op with Shl | Shr => k <? 32 | _ => true end) (ba_alu_ops ba).

Fixpoint fit (e : Expr) : bool :=
  match e with
  | Prim (PByteAccess ba) => fit_access ba
  | Prim _ => true
  | Not x => fit x
  | And l r | Or l r => fit l && fit r
  end.
