(* ===== verification/EbpfLogic.v ===== *)
(** A program logic for extended BPF code in place: what each instruction the
    compiler uses does to the registers, and runs from one instruction to
    another. A loaded program never faults on what the rules cover. *)

From S2P Require Import EbpfCodegen.
From S2P Require Export EbpfVm EbpfSem.

(** * Registers *)

(** The value of a register that has been written. *)
Definition rval (regs : Regs) (r : Z) : option Z :=
  match zget (rinit regs) r, zget (rv regs) r with Some true, Some v => Some v | _, _ => None end.

Definition wf_regs (regs : Regs) : Prop := zlen (rv regs) = 11 ∧ zlen (rinit regs) = 11.

(** [regs] with [r] set to [v]. *)
Definition rset (r v : Z) (regs : Regs) : Regs :=
  mk_regs (zset r v (rv regs)) (zset r true (rinit regs)).

Lemma rd_rval regs r pc v : rval regs r = Some v → rd regs r pc = inl v.
Proof. unfold rd, rval. by repeat case_match; intros [= ->]. Qed.

Lemma wr_rset regs r v pc : r ≠ 10 → wr regs r v pc = inl (rset r v regs).
Proof. intros Hr. unfold wr. by rewrite (proj2 (Z.eqb_neq r R10)) by done. Qed.

Lemma wf_rset r v regs : wf_regs regs → wf_regs (rset r v regs).
Proof. unfold wf_regs, rset. simpl. by rewrite !zlen_zset. Qed.

Lemma rval_rset_eq r v regs : wf_regs regs → 0 ≤ r < 11 → rval (rset r v regs) r = Some v.
Proof. intros [H1 H2] Hr. unfold rval, rset. simpl. by rewrite !zget_zset_eq by lia. Qed.

Lemma rval_rset_ne r r' v regs : r ≠ r' → rval (rset r v regs) r' = rval regs r'.
Proof. intros Hr. unfold rval, rset. simpl. by rewrite !zget_zset_ne. Qed.

(** * The machine with the program and the packet fixed *)

Section machine.
Context (P : list Insn) (pkt : list Z) (host : Endian).

Definition data_end : Z := PKT_BASE + zlen pkt.

(** The prologue's registers, which nothing else writes. *)
Record inv (regs : Regs) : Prop := {
  inv_wf : wf_regs regs;
  inv_data : rval regs R2 = Some PKT_BASE;
  inv_end : rval regs R3 = Some data_end;
}.

(** The run of at most as many turns as the distance it goes forward. *)
Definition reach (regs : Regs) (pc : Z) (Q : Regs → Z → Prop) : Prop :=
  ∃ n regs' pc', Q regs' pc' ∧ Z.of_nat n ≤ pc' - pc ∧
    ∀ k, exec_loop (n + k) P (ctx_of host pkt) pkt host regs pc =
         exec_loop k P (ctx_of host pkt) pkt host regs' pc'.

Lemma ereach_here regs pc (Q : Regs → Z → Prop) : Q regs pc → reach regs pc Q.
Proof. intros HQ. exists O, regs, pc. split; [done|]. split; [lia|done]. Qed.

Lemma ereach_bind regs pc (Q S : Regs → Z → Prop) :
  reach regs pc Q → (∀ regs' pc', Q regs' pc' → reach regs' pc' S) → reach regs pc S.
Proof.
  intros (n1 & r1 & p1 & H1 & Hn1 & E1) H2. destruct (H2 r1 p1 H1) as (n2 & r2 & p2 & HS & Hn2 & E2).
  exists (n1 + n2)%nat, r2, p2. split; [done|]. split; [lia|]. intros k.
  by rewrite <- Nat.add_assoc, E1, E2.
Qed.

Lemma ereach_mono regs pc (Q S : Regs → Z → Prop) :
  reach regs pc Q → (∀ regs' pc', Q regs' pc' → S regs' pc') → reach regs pc S.
Proof. intros H HQ. eapply ereach_bind; [done|]. eauto using ereach_here. Qed.

(** One instruction. *)
Lemma reach_insn regs pc i regs' pc' (Q : Regs → Z → Prop) :
  zget P pc = Some i → exec_insn P (ctx_of host pkt) pkt host regs i pc = inl (inl (regs', pc')) →
  pc < pc' → reach regs' pc' Q → reach regs pc Q.
Proof.
  intros Hg He Hlt (n & r & p & HQ & Hn & E). exists (S n), r, p. split; [done|]. split; [lia|].
  intros k. rewrite <- E. cbn [Nat.add exec_loop]. rewrite Hg, He. done.
Qed.
End machine.

(** * Arithmetic instructions *)

Lemma land_u64_max v : 0 ≤ v < 2 ^ 64 → v .& u64_max = v.
Proof. intros. unfold u64_max. change (2 ^ 64 - 1) with (Z.ones 64). rewrite Z.land_ones by lia. by apply Z.mod_small. Qed.

Lemma land_u32_max v : v .& u32_max = as_u32 v.
Proof. unfold u32_max, as_u32. change (2 ^ 32 - 1) with (Z.ones 32). by rewrite Z.land_ones by lia. Qed.

Definition is_u64 (x : Z) : Prop := 0 ≤ x < 2 ^ 64.

Lemma dst_new c d s o i : 0 ≤ d < 16 → 0 ≤ s < 16 → dst (new c d s o i) = d.
Proof. intros. by apply new_registers. Qed.

Lemma src_new c d s o i : 0 ≤ d < 16 → 0 ≤ s < 16 → src (new c d s o i) = s.
Proof. intros. by apply new_registers. Qed.

(** A register of the code, other than the frame pointer. *)
Definition gpr (r : Z) : Prop := 0 ≤ r < 10.

(** Decide a fact about a constant opcode. *)
Ltac opcode := first [done | by vm_compute | apply (bool_decide_unpack _); by vm_compute].

(** Evaluate the tests of a constant opcode. *)
Ltac opcode_tests :=
  repeat match goal with
  | |- context [?a =? ?b] =>
      let v := eval vm_compute in (a =? b) in
      first [constr_eq v true|constr_eq v false]; change (a =? b) with v
  end; cbn [negb orb andb].

Section insns.
Context (P : list Insn) (ctx pkt : list Z) (host : Endian) (regs : Regs) (pc : Z).
Abbreviation exec_insn := (exec_insn P ctx pkt host regs).
Implicit Types (c d s o i v : Z).

(** The turn of an arithmetic instruction, from its opcode. *)
Lemma exec_insn_alu (is64 : bool) op c d s o i :
  c .& 0x07 = (if is64 then BPF_ALU64 else BPF_ALU) → c .& 0xf0 = op → op ∈ ALU_OPS → op ≠ BPF_END →
  gpr d → gpr s →
  exec_insn (new c d s o i) pc =
    (r ← exec_alu regs (new c d s o i) is64 op pc; inl (inl (rset d r regs, pc + 1))).
Proof.
  unfold gpr. intros Hc Hop Hin Hend Hd Hs. unfold EbpfVm.exec_insn.
  rewrite dst_new, src_new by lia. change (Ebpf.code (new c d s o i)) with c. rewrite Hc, Hop.
  rewrite (proj2 (Z.ltb_ge 10 d)), (proj2 (Z.ltb_ge 10 s)) by lia. cbn [orb].
  rewrite bool_decide_true, (proj2 (Z.eqb_neq op BPF_END)) by done.
  destruct is64; cbn -[exec_alu wr]; unfold mbind, R_bind; destruct (exec_alu _ _ _ _ _); try done;
    by rewrite wr_rset by lia.
Qed.

Lemma exec_alu_k (is64 : bool) op c d o i v :
  c .& BPF_X = 0 → gpr d → op = BPF_MOV ∨ rval regs d = Some v →
  exec_alu regs (new c d 0 o i) is64 op pc =
    (let mask := if is64 then u64_max else u32_max in
     r ← alu_op op (if is64 then 64 else 32) ((if op =? BPF_MOV then 0 else v) .& mask)
           ((if is64 then as_u64 i else as_u32 i) .& mask) pc c;
     inl (r .& mask)).
Proof.
  unfold gpr. intros Hx Hd Hv. unfold exec_alu. rewrite dst_new by lia.
  change (Ebpf.code (new c d 0 o i)) with c. change (imm (new c d 0 o i)) with i. rewrite Hx.
  destruct (Z.eqb_spec op BPF_MOV) as [->|Hm]; [by destruct is64|].
  destruct Hv as [?|Hv]; [done|]. apply (rd_rval _ _ pc) in Hv. rewrite Hv. by destruct is64.
Qed.

Lemma exec_alu_x (is64 : bool) op c d s o i v w :
  c .& BPF_X ≠ 0 → gpr d → gpr s → op = BPF_MOV ∨ rval regs d = Some v → rval regs s = Some w →
  exec_alu regs (new c d s o i) is64 op pc =
    (let mask := if is64 then u64_max else u32_max in
     r ← alu_op op (if is64 then 64 else 32) ((if op =? BPF_MOV then 0 else v) .& mask) (w .& mask) pc c;
     inl (r .& mask)).
Proof.
  unfold gpr. intros Hx Hd Hs Hv Hw. unfold exec_alu. rewrite dst_new, src_new by lia.
  change (Ebpf.code (new c d s o i)) with c. rewrite (proj2 (Z.eqb_neq (c .& BPF_X) 0)) by done.
  apply (rd_rval _ _ pc) in Hw. rewrite Hw.
  destruct (Z.eqb_spec op BPF_MOV) as [->|Hm]; [by destruct is64|].
  destruct Hv as [?|Hv]; [done|]. apply (rd_rval _ _ pc) in Hv. rewrite Hv. by destruct is64.
Qed.

Lemma exec_mov64_reg d s w :
  gpr d → gpr s → rval regs s = Some w → is_u64 w →
  exec_insn (mov64_reg d s) pc = inl (inl (rset d w regs, pc + 1)).
Proof.
  intros Hd Hs Hw Hu. unfold mov64_reg. rewrite (exec_insn_alu true BPF_MOV) by opcode.
  rewrite (exec_alu_x true BPF_MOV _ _ _ _ _ 0 w); [|opcode|done|done|by left|done].
  cbn -[Z.land].
  by rewrite !(land_u64_max w) by done.
Qed.

(** A sum or difference that stays in range. *)
Lemma exec_add64_imm d k v :
  gpr d → rval regs d = Some v → 0 ≤ v → 0 ≤ k → v + k < 2 ^ 64 →
  exec_insn (add64_imm d k) pc = inl (inl (rset d (v + k) regs, pc + 1)).
Proof.
  intros Hd Hv ???. unfold add64_imm. rewrite (exec_insn_alu true BPF_ADD) by opcode.
  rewrite (exec_alu_k true BPF_ADD _ _ _ _ v); [|opcode|done|by right]. cbn -[Z.land as_u64].
  unfold as_u64. rewrite (Z.mod_small k), !(land_u64_max v), !(land_u64_max k) by lia.
  rewrite Z.mod_small, land_u64_max by lia. done.
Qed.

Lemma exec_add64_reg d s v w :
  gpr d → gpr s → rval regs d = Some v → rval regs s = Some w → 0 ≤ v → 0 ≤ w → v + w < 2 ^ 64 →
  exec_insn (add64_reg d s) pc = inl (inl (rset d (v + w) regs, pc + 1)).
Proof.
  intros Hd Hs Hv Hw ???. unfold add64_reg. rewrite (exec_insn_alu true BPF_ADD) by opcode.
  rewrite (exec_alu_x true BPF_ADD _ _ _ _ _ v w); [|opcode|done|done|by right|done]. cbn -[Z.land as_u64].
  unfold as_u64. rewrite !(land_u64_max v), !(land_u64_max w) by lia.
  rewrite Z.mod_small, land_u64_max by lia. done.
Qed.

Lemma exec_sub64_reg d s v w :
  gpr d → gpr s → rval regs d = Some v → rval regs s = Some w → 0 ≤ w ≤ v → v < 2 ^ 64 →
  exec_insn (new (BPF_ALU64 .| BPF_SUB .| BPF_X) d s 0 0) pc = inl (inl (rset d (v - w) regs, pc + 1)).
Proof.
  intros Hd Hs Hv Hw ??. rewrite (exec_insn_alu true BPF_SUB) by opcode.
  rewrite (exec_alu_x true BPF_SUB _ _ _ _ _ v w); [|opcode|done|done|by right|done]. cbn -[Z.land as_u64].
  unfold as_u64. rewrite !(land_u64_max v), !(land_u64_max w) by lia.
  rewrite Z.mod_small, land_u64_max by lia. done.
Qed.

(** The 32-bit operations with an immediate. *)
Lemma exec_alu32 op d k v r :
  op ∈ [BPF_AND; BPF_OR; BPF_XOR; BPF_ADD; BPF_SUB; BPF_MUL; BPF_DIV; BPF_LSH; BPF_RSH] →
  gpr d → rval regs d = Some v → is_u32 v →
  alu_op op 32 v (as_u32 k) pc (BPF_ALU .| op .| BPF_K) = inl r →
  exec_insn (new (BPF_ALU .| op .| BPF_K) d 0 0 k) pc = inl (inl (rset d (as_u32 r) regs, pc + 1)).
Proof.
  intros Hop Hd Hv Hu Hr.
  assert (Hc : (BPF_ALU .| op .| BPF_K) .& 7 = BPF_ALU ∧ (BPF_ALU .| op .| BPF_K) .& 0xf0 = op ∧
    op ∈ ALU_OPS ∧ op ≠ BPF_END ∧ (BPF_ALU .| op .| BPF_K) .& BPF_X = 0 ∧ (op =? BPF_MOV) = false).
  { repeat (apply elem_of_cons in Hop as [->|Hop]; [by opcode|]). by apply not_elem_of_nil in Hop. }
  destruct Hc as (H1 & H2 & H3 & H4 & H5 & H6).
  rewrite (exec_insn_alu false op) by done.
  rewrite (exec_alu_k false op _ _ _ _ v) by (done || by right). rewrite H6. cbv zeta.
  rewrite !land_u32_max. unfold is_u32, as_u32 in *.
  rewrite (Z.mod_small v), (Z.mod_mod k) by lia. rewrite Hr. cbn -[Z.land]. by rewrite land_u32_max.
Qed.
End insns.

Lemma as_i32_u32 k : is_u32 k → as_u32 (as_i32 k) = k.
Proof.
  unfold is_u32, as_u32, as_i32, signed. intros. rewrite (Z.mod_small k) by lia.
  destruct (Z.ltb_spec k (2 ^ (32 - 1))); [by apply Z.mod_small|].
  rewrite <- (Z.mod_add _ 1) by lia. rewrite Z.mod_small by lia. lia.
Qed.

Lemma as_i32_small k : 0 ≤ k < 2 ^ 31 → as_i32 k = k.
Proof.
  unfold as_i32, signed. intros. rewrite (Z.mod_small k) by lia.
  by rewrite (proj2 (Z.ltb_lt k (2 ^ (32 - 1)))) by (simpl; lia).
Qed.

Lemma as_i16_small k : 0 ≤ k < 2 ^ 15 → as_i16 k = k.
Proof.
  unfold as_i16, signed. intros. rewrite (Z.mod_small k) by lia.
  by rewrite (proj2 (Z.ltb_lt k (2 ^ (16 - 1)))) by (simpl; lia).
Qed.

Lemma imm_of_small k : 0 ≤ k < 2 ^ 31 → imm_of k = k.
Proof. intros. unfold imm_of. rewrite as_i32_small by lia. apply Z.mod_small. lia. Qed.

(** Bitwise operations keep 32 bits. *)
Lemma u32_lor a b : is_u32 a → is_u32 b → is_u32 (a .| b).
Proof.
  unfold is_u32. intros Ha Hb. assert (a .| b = (a .| b) .& Z.ones 32) as E.
  { rewrite Z.land_lor_distr_l, !Z.land_ones, !Z.mod_small by lia. done. }
  rewrite E, Z.land_ones by lia. apply Z.mod_pos_bound. lia.
Qed.

Lemma u32_lxor a b : is_u32 a → is_u32 b → is_u32 (Z.lxor a b).
Proof.
  unfold is_u32. intros Ha Hb. assert (Z.lxor a b = Z.lxor a b .& Z.ones 32) as E.
  { apply Z.bits_inj'. intros n Hn. rewrite Z.land_spec, Z.lxor_spec.
    destruct (Z.lt_ge_cases n 32).
    - rewrite Z.ones_spec_low by lia. by rewrite andb_true_r.
    - rewrite Z.ones_spec_high by lia. rewrite andb_false_r.
      rewrite <- (Z.mod_small a (2 ^ 32)), <- (Z.mod_small b (2 ^ 32)) by lia.
      by rewrite !Z.mod_pow2_bits_high by lia. }
  rewrite E, Z.land_ones by lia. apply Z.mod_pos_bound. lia.
Qed.

Lemma u32_land a b : is_u32 a → 0 ≤ b → is_u32 (a .& b).
Proof. intros. by apply (land_range 32). Qed.

(** An operation the compiler emits, and that the machine can do. *)
Definition fit_op (op : ArithOp) (k : Z) : bool :=
  match op with Shl | Shr => k <? 32 | Mod => false | Div => negb (k =? 0) | _ => true end.

Lemma arith_u32 op a k : is_u32 a → is_u32 k → is_u32 (arith_sem op a k).
Proof.
  intros Ha Hk. pose proof Ha as Ha'. pose proof Hk as Hk'. unfold is_u32 in Ha', Hk'.
  destruct op; simpl; try (apply Z.mod_pos_bound; lia).
  - unfold is_u32. destruct (Z.eq_dec k 0) as [->|]; [by rewrite Zdiv_0_r|].
    split; [apply Z.div_pos; lia|]. apply Z.div_lt_upper_bound; nia.
  - unfold is_u32. destruct (Z.eq_dec k 0) as [->|]; [by rewrite Zmod_0_r|].
    pose proof (Z.mod_pos_bound a k). lia.
  - apply u32_land; lia || done.
  - by apply u32_lor.
  - by apply u32_lxor.
  - pose proof (Z.mod_pos_bound k 32). unfold is_u32. rewrite Z.shiftr_div_pow2 by lia.
    split; [apply Z.div_pos; lia|]. apply Z.div_lt_upper_bound; [lia|]. pose proof (Z.pow_pos_nonneg 2 (k mod 32)). nia.
Qed.

Section more.
Context (P : list Insn) (ctx pkt : list Z) (host : Endian) (regs : Regs) (pc : Z).
Abbreviation exec_insn := (exec_insn P ctx pkt host regs).

Lemma ebpf_alu32_exec op d k v s i s' :
  ebpf_alu32 op d (as_i32 k) s = Ok (i, s') → gpr d → rval regs d = Some v → is_u32 v → is_u32 k →
  fit_op op k = true →
  exec_insn i pc = inl (inl (rset d (arith_sem op v k) regs, pc + 1)).
Proof.
  intros Hi Hd Hv Hu Hk Hf. pose proof (as_i32_u32 k Hk) as Ek.
  assert (Hgen : ∀ o r, o ∈ [BPF_AND; BPF_OR; BPF_XOR; BPF_ADD; BPF_SUB; BPF_MUL; BPF_DIV; BPF_LSH; BPF_RSH] →
    alu_op o 32 v k pc (BPF_ALU .| o .| BPF_K) = inl r → as_u32 r = arith_sem op v k →
    exec_insn (new (BPF_ALU .| o .| BPF_K) d 0 0 (as_i32 k)) pc =
      inl (inl (rset d (arith_sem op v k) regs, pc + 1))).
  { intros o r Ho Hr Er. rewrite <- Er. eapply exec_alu32; [done..|]. by rewrite Ek. }
  assert (Hm : ∀ x, as_u32 (as_u64 x) = as_u32 x).
  { intros x. unfold as_u32, as_u64. change (2 ^ 64) with (2 ^ 32 * 2 ^ 32).
    rewrite Z.rem_mul_r by lia. rewrite <- Z.add_mod_idemp_r, Z.mul_comm, Z.mod_mul, Z.add_0_r by lia. apply Z.mod_mod. lia. }
  pose proof (arith_u32 op v k Hu Hk) as Hres. unfold is_u32 in *.
  destruct op; simpl in Hi; unfold mret, M_ret in Hi; simplify_eq.
  - eapply (Hgen BPF_ADD); [opcode|done|apply Hm].
  - eapply (Hgen BPF_SUB); [opcode|done|apply Hm].
  - eapply (Hgen BPF_MUL); [opcode|done|apply Hm].
  - destruct (as_i32 k =? 0); [done|]. simplify_eq. simpl in Hf.
    eapply (Hgen BPF_DIV); [opcode| |by apply Z.mod_small]. cbn. apply negb_true_iff in Hf. by rewrite Hf.
  - eapply (Hgen BPF_AND); [opcode|done|by apply Z.mod_small].
  - eapply (Hgen BPF_OR); [opcode|done|by apply Z.mod_small].
  - eapply (Hgen BPF_XOR); [opcode|done|by apply Z.mod_small].
  - simpl in Hf. zbool. eapply (Hgen BPF_LSH); [opcode| |].
    + cbn. unfold shift_ok. by rewrite (proj2 (Z.ltb_lt k 32)).
    + rewrite Hm. simpl. by rewrite Z.mod_small by lia.
  - simpl in Hf. zbool. simpl in Hres. rewrite Z.mod_small in Hres by lia.
    eapply (Hgen BPF_RSH); [opcode| |].
    + cbn. unfold shift_ok. by rewrite (proj2 (Z.ltb_lt k 32)).
    + simpl. rewrite (Z.mod_small k) by lia. by apply Z.mod_small.
Qed.
End more.

(** * Loads *)

Lemma shiftl8_lor v b : 0 ≤ v → is_u8 b → Z.shiftl v 8 .| b = v * 256 + b.
Proof.
  unfold is_u8. intros Hv Hb. pose proof (Z.add_lor_land (Z.shiftl v 8) b) as E.
  assert (Z.shiftl v 8 .& b = 0) as E0.
  { apply Z.bits_inj'. intros n Hn. rewrite Z.land_spec, Z.bits_0. destruct (Z.lt_ge_cases n 8).
    - by rewrite Z.shiftl_spec_low by lia.
    - rewrite <- (Z.mod_small b (2 ^ 8)) by lia. rewrite Z.mod_pow2_bits_high by lia. apply andb_false_r. }
  rewrite E0, Z.shiftl_mul_pow2 in E by lia. rewrite Z.shiftl_mul_pow2 by lia. lia.
Qed.

Lemma be_value_snoc l b : Forall is_u8 l → is_u8 b → be_value (l ++ [b]) = be_value l * 256 + b ∧ 0 ≤ be_value l.
Proof.
  revert b. induction l as [|x l IH] using rev_ind; intros b Hl Hb.
  - split; [|done]. change (be_value ([] ++ [b])) with (Z.shiftl 0 8 .| b). by apply shiftl8_lor.
  - apply Forall_app in Hl as [Hl Hx]. apply Forall_inv in Hx. destruct (IH x Hl Hx) as [E H0].
    assert (0 ≤ be_value (l ++ [x])) by (rewrite E; unfold is_u8 in *; lia). split; [|done].
    unfold be_value at 1. rewrite foldl_app. by apply shiftl8_lor.
Qed.

Lemma be_value_2 a b : is_u8 a → is_u8 b → be_value [a; b] = a * 256 + b.
Proof.
  intros. destruct (be_value_snoc [a] b) as [E _]; [by auto|done|].
  destruct (be_value_snoc [] a) as [E' _]; [by auto|done|]. simpl app in *. rewrite E, E'.
  change (be_value []) with 0. lia.
Qed.

Lemma be_value_4 a b c d :
  is_u8 a → is_u8 b → is_u8 c → is_u8 d → be_value [a; b; c; d] = ((a * 256 + b) * 256 + c) * 256 + d.
Proof.
  intros. destruct (be_value_snoc [a; b; c] d) as [E _]; [by auto|done|].
  destruct (be_value_snoc [a; b] c) as [E' _]; [by auto|done|].
  simpl app in *. rewrite E, E', be_value_2 by done. done.
Qed.

Lemma le_bytes_cons n b v : is_u8 b → le_bytes (S n) (b + 256 * v) = b :: le_bytes n v.
Proof.
  intros Hb. unfold is_u8 in Hb. simpl. f_equal; [|f_equal]; Z.div_mod_to_equations; lia.
Qed.

(** Reading in the order of the host, then turning to network order. *)
Lemma exec_end_16 host d a b pc :
  is_u8 a → is_u8 b → exec_end host (be16 d) (read host [a; b]) pc = inl (a * 256 + b).
Proof.
  intros Ha Hb. destruct host; unfold exec_end, mret, R_ret; cbn -[swap_bytes as_u16 Z.land be_value Z.mul Z.add].
  - change (reverse [a; b]) with [b; a]. rewrite be_value_2 by done. unfold swap_bytes.
    replace (b * 256 + a) with (a + 256 * (b + 256 * 0)) by lia. rewrite !le_bytes_cons by done.
    change (le_bytes 0 0) with (@nil Z). by rewrite be_value_2.
  - rewrite be_value_2 by done. unfold as_u16, is_u8 in *. by rewrite Z.mod_small by lia.
Qed.

Lemma exec_end_32 host r a b c d pc :
  is_u8 a → is_u8 b → is_u8 c → is_u8 d →
  exec_end host (be32 r) (read host [a; b; c; d]) pc = inl ((a * 256 + b) * 65536 + (c * 256 + d)).
Proof.
  intros Ha Hb Hc Hd. destruct host; unfold exec_end, mret, R_ret; cbn -[swap_bytes as_u32 Z.land be_value Z.mul Z.add].
  - match goal with |- context [if ?b then _ else _] => change b with true end. cbv iota.
    change (reverse [a; b; c; d]) with [d; c; b; a]. rewrite be_value_4 by done. unfold swap_bytes.
    replace (((d * 256 + c) * 256 + b) * 256 + a) with (a + 256 * (b + 256 * (c + 256 * (d + 256 * 0)))) by lia.
    rewrite !le_bytes_cons by done. change (le_bytes 0 0) with (@nil Z). rewrite be_value_4 by done. f_equal. lia.
  - match goal with |- context [if ?b then _ else _] => change b with false end. cbv iota.
    rewrite be_value_4 by done. unfold as_u32, is_u8 in *. rewrite Z.mod_small by lia. f_equal. lia.
Qed.

Lemma drop_b8 pkt o : 0 ≤ o < zlen pkt → drop (Z.to_nat o) pkt = b8 pkt o :: drop (Z.to_nat (o + 1)) pkt.
Proof.
  intros Ho. destruct (zget_lt_Some pkt o Ho) as [x E]. unfold b8. rewrite E. simpl.
  rewrite zget_spec, decide_True in E by lia. rewrite (drop_S _ _ _ E). do 2 f_equal. lia.
Qed.

Section loads.
Context (P : list Insn) (pkt : list Z) (host : Endian) (regs : Regs) (pc : Z).
Hypothesis (Hpkt : Forall is_u8 pkt) (Hsmall : zlen pkt < 2 ^ 27).
Abbreviation exec_insn := (exec_insn P (ctx_of host pkt) pkt host).

Lemma slice_1 o : 0 ≤ o → o + 1 ≤ zlen pkt → slice pkt o (o + 1) = [b8 pkt o].
Proof. intros. unfold slice. replace (o + 1 - o) with 1 by lia. by rewrite drop_b8 by lia. Qed.

Lemma slice_2 o : 0 ≤ o → o + 2 ≤ zlen pkt → slice pkt o (o + 2) = [b8 pkt o; b8 pkt (o + 1)].
Proof. intros. unfold slice. replace (o + 2 - o) with 2 by lia. by rewrite !drop_b8 by lia. Qed.

Lemma slice_4 o :
  0 ≤ o → o + 4 ≤ zlen pkt →
  slice pkt o (o + 4) = [b8 pkt o; b8 pkt (o + 1); b8 pkt (o + 1 + 1); b8 pkt (o + 1 + 1 + 1)].
Proof. intros. unfold slice. replace (o + 4 - o) with 4 by lia. by rewrite !drop_b8 by lia. Qed.

Lemma load_pkt o size :
  0 ≤ o → 0 ≤ size → o + size ≤ zlen pkt → 0 < size →
  load (ctx_of host pkt) pkt (PKT_BASE + o) size pc = inl (slice pkt o (o + size)).
Proof.
  intros. unfold load, CTX_BASE, PKT_BASE.
  rewrite (proj2 (Z.leb_gt 0x20000000 _)) by lia. cbn [andb].
  rewrite (proj2 (Z.leb_le 0x10000002 _)) by lia.
  replace (0x10000002 + o - 0x10000002) with o by lia.
  by rewrite (proj2 (Z.ltb_lt _ _)), (proj2 (Z.leb_le _ _)) by lia.
Qed.

(** A load from a register that points into the packet. *)
Lemma exec_ldx_pkt sz size s b o off :
  (sz, size) ∈ [(BPF_B, 1); (BPF_H, 2); (BPF_W, 4)] → gpr s →
  rval regs s = Some (PKT_BASE + b) → 0 ≤ b + off → o = b + off → o + size ≤ zlen pkt →
  exec_insn regs (new (BPF_LDX .| BPF_MEM .| sz) R4 s off 0) pc =
    inl (inl (rset R4 (read host (slice pkt o (o + size))) regs, pc + 1)).
Proof.
  intros Hsz Hs Hv Hb -> Hend. apply (rd_rval _ _ pc) in Hv. unfold gpr in Hs.
  assert (Hc : (BPF_LDX .| BPF_MEM .| sz) .& 7 = BPF_LDX ∧ (BPF_LDX .| BPF_MEM .| sz) .& 0xe0 = BPF_MEM ∧
    (BPF_LDX .| BPF_MEM .| sz) .& 0x18 = sz ∧ 0 < size ∧
    (if sz =? BPF_B then inl 1 else if sz =? BPF_H then inl 2 else if sz =? BPF_W then inl 4
     else inr (UnknownOpcode pc (BPF_LDX .| BPF_MEM .| sz))) = (inl size : R Z)).
  { repeat (apply elem_of_cons in Hsz as [Hsz|Hsz]; [injection Hsz as -> ->; by opcode|]).
    by apply not_elem_of_nil in Hsz. }
  destruct Hc as (H1 & H2 & H3 & H4 & H5).
  unfold EbpfVm.exec_insn. rewrite dst_new, src_new by (unfold R4; lia).
  change (Ebpf.code (new ?c _ _ _ _)) with c. rewrite H1.
  rewrite (proj2 (Z.ltb_ge 10 s)) by lia. cbn [orb R4 Z.ltb Z.compare Pos.compare Pos.compare_cont].
  rewrite Z.eqb_refl. unfold exec_ldx. rewrite dst_new, src_new by (unfold R4; lia).
  change (Ebpf.code (new ?c _ _ _ _)) with c. change (Ebpf.off (new _ _ _ ?o _)) with o.
  rewrite H2, H3, Z.eqb_refl. cbn [negb].
  destruct (sz =? BPF_B), (sz =? BPF_H), (sz =? BPF_W); try done; injection H5 as <-;
    unfold mbind, R_bind, mret, R_ret; rewrite Hv; unfold as_u64, PKT_BASE;
    rewrite (Z.mod_small (268435458 + b + off)) by lia;
    replace (268435458 + b + off) with (PKT_BASE + (b + off)) by (unfold PKT_BASE; lia);
    rewrite load_pkt by lia; by rewrite wr_rset.
Qed.
End loads.

(** What a load leaves in R4: the bytes in the order of the host. *)
Section fields.
Context (P : list Insn) (pkt : list Z) (host : Endian) (regs : Regs) (pc : Z).
Hypothesis (Hpkt : Forall is_u8 pkt) (Hsmall : zlen pkt < 2 ^ 27).
Abbreviation exec_insn := (exec_insn P (ctx_of host pkt) pkt host).

(** The three sizes, at the offset [off] from a register at [b] of the packet. *)
Lemma exec_ldx_b s b off :
  gpr s → rval regs s = Some (PKT_BASE + b) → 0 ≤ b + off → b + off + 1 ≤ zlen pkt →
  exec_insn regs (ldx_b R4 s off) pc = inl (inl (rset R4 (b8 pkt (b + off)) regs, pc + 1)).
Proof.
  intros. unfold ldx_b. rewrite (exec_ldx_pkt _ _ _ _ _ Hsmall BPF_B 1 s b (b + off)) by (done || set_solver).
  rewrite slice_1 by lia. pose proof (b8_range pkt Hpkt (b + off)).
  assert (E : ∀ x, is_u8 x → be_value [x] = x) by (intros; by apply (be_value_snoc [] x); auto).
  destruct host; simpl read; [change (reverse [?x]) with [x]|]; by rewrite E by done.
Qed.

Lemma exec_ldx_h s b off :
  gpr s → rval regs s = Some (PKT_BASE + b) → 0 ≤ b + off → b + off + 2 ≤ zlen pkt →
  exec_insn regs (ldx_h R4 s off) pc =
    inl (inl (rset R4 (read host [b8 pkt (b + off); b8 pkt (b + off + 1)]) regs, pc + 1)).
Proof.
  intros. unfold ldx_h. rewrite (exec_ldx_pkt _ _ _ _ _ Hsmall BPF_H 2 s b (b + off)) by (done || set_solver).
  by rewrite slice_2 by lia.
Qed.

Lemma exec_ldx_w s b off :
  gpr s → rval regs s = Some (PKT_BASE + b) → 0 ≤ b + off → b + off + 4 ≤ zlen pkt →
  exec_insn regs (ldx_w R4 s off) pc =
    inl (inl (rset R4 (read host [b8 pkt (b + off); b8 pkt (b + off + 1); b8 pkt (b + off + 1 + 1);
                                  b8 pkt (b + off + 1 + 1 + 1)]) regs, pc + 1)).
Proof.
  intros. unfold ldx_w. rewrite (exec_ldx_pkt _ _ _ _ _ Hsmall BPF_W 4 s b (b + off)) by (done || set_solver).
  by rewrite slice_4 by lia.
Qed.

Lemma exec_insn_end i v out :
  (i = be16 R4 ∨ i = be32 R4) → rval regs R4 = Some v → exec_end host i v pc = inl out →
  exec_insn regs i pc = inl (inl (rset R4 out regs, pc + 1)).
Proof.
  intros Hi Hv Ho. apply (rd_rval _ _ pc) in Hv. unfold EbpfVm.exec_insn.
  assert (Hd : Ebpf.dst i = R4 ∧ Ebpf.src i = 0 ∧ Ebpf.code i .& 7 = BPF_ALU ∧
    Ebpf.code i .& 0xf0 = BPF_END) by (by destruct Hi as [-> | ->]; vm_compute).
  destruct Hd as (-> & -> & -> & ->). rewrite bool_decide_true by opcode.
  change ((10 <? R4) || (10 <? 0)) with false. change (BPF_END =? BPF_END) with true.
  change (BPF_ALU =? BPF_LDX) with false. change (BPF_ALU =? BPF_ALU) with true.
  change (BPF_ALU =? BPF_ALU64) with false. cbn [orb negb]. unfold mbind, R_bind, mret, R_ret.
  rewrite Hv, Ho. by rewrite wr_rset.
Qed.

Lemma exec_be16 o :
  rval regs R4 = Some (read host [b8 pkt o; b8 pkt (o + 1)]) →
  exec_insn regs (be16 R4) pc = inl (inl (rset R4 (h16 pkt o) regs, pc + 1)).
Proof.
  intros H. eapply (exec_insn_end (be16 R4) _ (h16 pkt o)); [by left|done|].
  by rewrite exec_end_16 by by apply b8_range.
Qed.

Lemma exec_be32 o :
  rval regs R4 = Some (read host [b8 pkt o; b8 pkt (o + 1); b8 pkt (o + 1 + 1); b8 pkt (o + 1 + 1 + 1)]) →
  exec_insn regs (be32 R4) pc = inl (inl (rset R4 (w32 pkt o) regs, pc + 1)).
Proof.
  intros H. eapply (exec_insn_end (be32 R4) _ (w32 pkt o)); [by right|done|].
  rewrite exec_end_32 by by apply b8_range. unfold w32, h16.
  by replace (o + 1 + 1) with (o + 2) by lia.
Qed.

End fields.

(** * Jumps *)

(** The unsigned tests. *)
Definition jtest (op a b : Z) : bool := jump_taken op a b 0 0.

Definition UNSIGNED : list Z := [BPF_JEQ; BPF_JNE; BPF_JGT; BPF_JGE; BPF_JLT; BPF_JLE; BPF_JSET].

Lemma jump_taken_unsigned op a b sa sb : op ∈ UNSIGNED → jump_taken op a b sa sb = jtest op a b.
Proof.
  intros Hop. repeat (apply elem_of_cons in Hop as [->|Hop]; [done|]). by apply not_elem_of_nil in Hop.
Qed.

Section jumps.
Context (P : list Insn) (ctx pkt : list Z) (host : Endian) (regs : Regs) (pc : Z).
Abbreviation exec_insn := (exec_insn P ctx pkt host regs).

(** The code a jump goes to lies inside the program. *)
Definition inside (o : Z) : Prop := 0 ≤ pc + 1 + o < zlen P.

Lemma target_inside c d s o i : inside o → target (zlen P) (new c d s o i) pc = inl (pc + 1 + o).
Proof.
  intros [? ?]. unfold target. change (Ebpf.off (new c d s o i)) with o.
  by rewrite (proj2 (Z.ltb_ge _ _)), (proj2 (Z.leb_gt _ _)) by lia.
Qed.

Lemma exec_jump c op d s o i v w :
  c .& 7 = BPF_JMP → c .& 0xf0 = op → op ∈ UNSIGNED → gpr d → gpr s → inside o →
  rval regs d = Some v → is_u64 v → is_u64 w →
  (if negb (c .& BPF_X =? 0) then rd regs s pc else mret (as_u64 i)) = inl w →
  exec_insn (new c d s o i) pc =
    inl (inl (regs, if jtest op v w then pc + 1 + o else pc + 1)).
Proof.
  unfold gpr, is_u64. intros Hc Hop Hin Hd Hs Ho Hv Hv64 Hw64 Hw. unfold EbpfVm.exec_insn.
  rewrite dst_new, src_new by lia. change (Ebpf.code (new c d s o i)) with c. rewrite Hc, Hop.
  rewrite (proj2 (Z.ltb_ge 10 d)), (proj2 (Z.ltb_ge 10 s)) by lia.
  assert (H : bool_decide (op ∈ COND_OPS) = true ∧ (op =? BPF_EXIT) = false ∧ (op =? BPF_JA) = false).
  { clear -Hin. repeat (apply elem_of_cons in Hin as [->|Hin]; [by vm_compute|]). by apply not_elem_of_nil in Hin. }
  destruct H as (-> & -> & ->). cbn -[exec_cond target].
  unfold exec_cond. rewrite dst_new, src_new by lia.
  change (Ebpf.code (new c d s o i)) with c. change (Ebpf.imm (new c d s o i)) with i.
  apply (rd_rval _ _ pc) in Hv. rewrite Hv. unfold mbind, R_bind. rewrite Hw.
  unfold mret, R_ret. rewrite jump_taken_unsigned by done. rewrite !Z.mod_small by lia.
  destruct (jtest op v w); [|done]. by rewrite target_inside.
Qed.

Lemma exec_jump_imm op d o i v :
  op ∈ UNSIGNED → gpr d → inside o → rval regs d = Some v → is_u64 v →
  exec_insn (new (BPF_JMP .| op .| BPF_K) d 0 o i) pc =
    inl (inl (regs, if jtest op v (as_u64 i) then pc + 1 + o else pc + 1)).
Proof.
  intros Hin ????.
  assert (Hc : (BPF_JMP .| op .| BPF_K) .& 7 = BPF_JMP ∧ (BPF_JMP .| op .| BPF_K) .& 0xf0 = op ∧
    ((BPF_JMP .| op .| BPF_K) .& BPF_X =? 0) = true).
  { clear -Hin. repeat (apply elem_of_cons in Hin as [->|Hin]; [by vm_compute|]). by apply not_elem_of_nil in Hin. }
  destruct Hc as (Hc1 & Hc2 & Hc3). eapply exec_jump; [done..| |by rewrite Hc3].
  unfold is_u64, as_u64. apply Z.mod_pos_bound. lia.
Qed.

Lemma exec_jgt_reg d s o v w :
  gpr d → gpr s → inside o → rval regs d = Some v → rval regs s = Some w → is_u64 v → is_u64 w →
  exec_insn (jgt_reg d s o) pc = inl (inl (regs, if w <? v then pc + 1 + o else pc + 1)).
Proof.
  intros. unfold jgt_reg. erewrite (exec_jump _ BPF_JGT); [done|opcode|opcode|opcode|try done..].
  by apply rd_rval.
Qed.

Lemma exec_ja o : inside o → exec_insn (ja o) pc = inl (inl (regs, pc + 1 + o)).
Proof.
  intros Ho. unfold ja, EbpfVm.exec_insn. rewrite dst_new, src_new by lia.
  change (Ebpf.code (new ?c _ _ _ _)) with c. cbn -[target].
  rewrite target_inside by done. done.
Qed.
End jumps.

(** * The prologue and the exits *)

Lemma be_value_reverse_le n x :
  be_value (reverse (le_bytes n x)) = x mod 256 ^ Z.of_nat n.
Proof.
  rewrite <- of_le_bytes_le_bytes. pose proof (le_bytes_range n x) as Hr. revert Hr.
  generalize (le_bytes n x). induction l as [|b l IH]; intros Hr; [done|].
  apply Forall_cons in Hr as [Hb Hl]. rewrite reverse_cons.
  destruct (be_value_snoc (reverse l) b) as [E _]; [by apply Forall_reverse|done|].
  rewrite E, IH by done. simpl. lia.
Qed.

Lemma read_host_bytes host x : read host (host_bytes host 4 x) = as_u32 x.
Proof. destruct host; exact (be_value_reverse_le 4 x). Qed.

Section ends.
Context (P : list Insn) (pkt : list Z) (host : Endian).
Hypothesis (Hsmall : zlen pkt < 2 ^ 27).
Abbreviation exec_insn := (exec_insn P (ctx_of host pkt) pkt host).
Abbreviation exec_loop := (exec_loop).

Lemma exec_ctx_load d o x regs pc :
  gpr d → (o = 0 ∧ x = PKT_BASE ∨ o = 4 ∧ x = PKT_BASE + zlen pkt) → rval regs R1 = Some CTX_BASE →
  exec_insn regs (ldx_w d R1 o) pc = inl (inl (rset d x regs, pc + 1)).
Proof.
  intros Hd Ho Hv. pose proof (zlen_nonneg pkt). apply (rd_rval _ _ pc) in Hv. unfold gpr in Hd.
  assert (Hld : ∃ bs, load (ctx_of host pkt) pkt (as_u64 (CTX_BASE + o)) 4 pc = inl bs ∧ read host bs = x).
  { assert (E : ∀ y, length (host_bytes host 4 y) = 4%nat)
      by (intros; unfold host_bytes; by destruct host; rewrite ?length_reverse, length_le_bytes).
    destruct Ho as [[-> ->]|[-> ->]]; eexists; (split; [done|]); unfold slice, ctx_of;
      match goal with |- context [take ?n (drop ?m _)] =>
        let n' := eval vm_compute in n in let m' := eval vm_compute in m in change n with n'; change m with m' end.
    - rewrite drop_0, take_app_length' by done. rewrite read_host_bytes. by vm_compute.
    - rewrite drop_app_length' by done. rewrite take_ge by (rewrite E; lia). rewrite read_host_bytes.
      unfold as_u32, PKT_BASE. by rewrite Z.mod_mod, Z.mod_small by lia. }
  destruct Hld as (bs & Hbs & <-). unfold ldx_w, EbpfVm.exec_insn.
  rewrite dst_new, src_new by (unfold R1; lia). change (Ebpf.code (new ?c _ _ _ _)) with c.
  rewrite (proj2 (Z.ltb_ge 10 d)) by lia. cbn -[exec_ldx]. unfold exec_ldx.
  rewrite dst_new, src_new by (unfold R1; lia). change (Ebpf.off (new _ _ _ ?o _)) with o.
  opcode_tests. cbn -[load as_u64]. opcode_tests. unfold mbind, R_bind, mret, R_ret.
  rewrite Hv, Hbs. by rewrite wr_rset by lia.
Qed.

(** The prologue leaves the bounds of the packet in R2 and R3. *)
Lemma reach_prologue :
  zget P 0 = Some (ldx_w R2 R1 0) → zget P 1 = Some (ldx_w R3 R1 4) →
  reach P pkt host regs_entry 0 (λ regs pc, pc = 2 ∧ inv pkt regs).
Proof.
  intros H0 H1. eapply (reach_insn _ _ _ _ 0); [done|apply exec_ctx_load; [done|left; split; reflexivity|by vm_compute]|lia|].
  eapply (reach_insn _ _ _ _ 1); [done|apply exec_ctx_load; [done|right; split; reflexivity|by vm_compute]|lia|].
  apply ereach_here. split; [done|].
  assert (W : wf_regs (rset 2 PKT_BASE regs_entry)) by (apply wf_rset; by vm_compute).
  split; [by apply wf_rset| |by rewrite rval_rset_eq; [|apply wf_rset|by vm_compute]].
  rewrite rval_rset_ne by done. by rewrite rval_rset_eq; [|by vm_compute|by vm_compute].
Qed.

Lemma exec_exit regs pc : exec_insn regs exit pc = (r0 ← rd regs 0 pc; mret (inr r0)).
Proof. reflexivity. Qed.

(** An epilogue stub returns its constant. *)
Lemma exec_stub regs pc k n :
  is_u64 k → zget P pc = Some (mov64_imm R0 k) → zget P (pc + 1) = Some exit → wf_regs regs →
  EbpfVm.exec_loop (S (S n)) P (ctx_of host pkt) pkt host regs pc = inl k.
Proof.
  intros Hk H0 H1 Hw. cbn [EbpfVm.exec_loop]. rewrite H0. unfold mov64_imm at 1.
  rewrite (exec_insn_alu _ _ _ _ _ _ true BPF_MOV) by opcode.
  rewrite (exec_alu_k _ _ true BPF_MOV _ _ _ _ 0); [|opcode|done|by left]. cbn -[Z.land as_u64 EbpfVm.exec_insn].
  unfold as_u64. rewrite Z.mod_small by exact Hk. rewrite !(land_u64_max k) by exact Hk.
  rewrite H1, exec_exit. by rewrite (rd_rval _ _ _ k) by by apply rval_rset_eq.
Qed.
End ends.
