(* ===== verification/EbpfEmit.v ===== *)
(** What an emitting function of the eBPF compiler promises. The final program
    is fixed: code is placed in it up to the jumps still open, whose slots
    already hold their final offsets, and a segment says where a run through the
    code it spans ends. The rules follow the ways the compiler puts code together. *)

From S2P Require Import EbpfCodegen.
From S2P Require Export EbpfLogic.

(** * Resolving jumps *)

(** The slots [ps] now lead to [t]. *)
Record resolved (ps : list Patch) (t : Z) (s s' : Codegen) : Prop := {
  rs_len : zlen (eg_insns s') = zlen (eg_insns s);
  rs_link : eg_link s' = eg_link s;
  rs_code i insn : zget (eg_insns s) i = Some insn →
    zget (eg_insns s') i = Some (if bool_decide (i ∈ ps) then set_off (t - i - 1) insn else insn);
}.

Lemma resolved_nil t s : resolved [] t s s.
Proof. by split. Qed.

Lemma wp_eg_resolve_all ps t s (Q : unit → Codegen → Prop) :
  (∀ p, p ∈ ps → 0 ≤ p < zlen (eg_insns s) ∧ p < t) → (∀ s', resolved ps t s s' → Q tt s') →
  wp (resolve_all ps t) s Q.
Proof.
  revert s Q. induction ps as [|p ps IH]; intros s Q Hr HQ; [apply HQ, resolved_nil|].
  unfold resolve_all. cbn [forM]. apply wp_bind. unfold resolve.
  destruct (Hr p) as [Hp Ht]; [by left|]. rewrite (proj2 (Z.ltb_lt p t)) by done. cbn [negb].
  destruct (i16_max <? _); [apply wp_fail|].
  destruct (zget_lt_Some _ _ Hp) as [i0 E0]. unfold wp at 1. rewrite E0. apply IH.
  - intros q Hq. simpl. rewrite zlen_zset. apply Hr. by right.
  - intros s' [Hl Hk Hc]. apply HQ. simpl in *. rewrite zlen_zset in Hl. split; [done..|].
    intros i insn E. destruct (decide (i = p)) as [->|Hne].
    + rewrite (Hc p (set_off (t - p - 1) i0)) by (by rewrite zget_zset_eq).
      simplify_eq. rewrite (bool_decide_true (p ∈ p :: ps)) by by left. by case_bool_decide.
    + rewrite (Hc i insn) by (by rewrite zget_zset_ne).
      rewrite (bool_decide_ext (i ∈ p :: ps) (i ∈ ps)); [done|]. rewrite elem_of_cons. naive_solver.
Qed.

Lemma wp_eg_resolve p t s (Q : unit → Codegen → Prop) :
  0 ≤ p < zlen (eg_insns s) → p < t → (∀ s', resolved [p] t s s' → Q tt s') → wp (resolve p t) s Q.
Proof.
  intros Hp Ht HQ. pose proof (wp_eg_resolve_all [p] t s Q) as H.
  unfold resolve_all in H. cbn [forM] in H. unfold wp, mbind, Error.M_bind in *.
  assert (Hps : ∀ q, q ∈ [p] → 0 ≤ q < zlen (eg_insns s) ∧ q < t) by (intros q ->%list_elem_of_singleton; done).
  specialize (H Hps HQ). by destruct (resolve p t s) as [[[] ?]| | |].
Qed.

Lemma wp_eg_u32_add a b s (Q : Z → Codegen → Prop) : a + b < 2 ^ 32 → Q (a + b) s → wp (u32_add a b) s Q.
Proof. intros H HQ. unfold u32_add. by rewrite (proj2 (Z.ltb_lt _ _)). Qed.

(** * Code in the final program *)

Section emit.
Context (P : list Insn) (pkt : list Z) (host : Endian) (link : LinkType).
Abbreviation len s := (zlen (eg_insns s)).
Abbreviation assertion := (Regs → Prop).

(** Where the jump in a slot leads. *)
Definition tgt (p : Patch) : Z := p + 1 + match zget P p with Some i => off i | None => 0 end.

(** The code is in the program, but for the offsets in the slots [O]. *)
Definition agrees (s : Codegen) (O : list Patch) : Prop :=
  ∀ i insn, zget (eg_insns s) i = Some insn →
    ∃ o, zget P i = Some (set_off o insn) ∧ (i ∉ O → o = off insn).

Record placed (s : Codegen) (O : list Patch) : Prop := {
  pl_len : len s < zlen P;
  pl_code : agrees s O;
  pl_open p : p ∈ O → p < tgt p < zlen P;
}.

Definition below (O : list Patch) (s : Codegen) : Prop := ∀ p, p ∈ O → 0 ≤ p < len s.

(** The slots that matter to [s] are those below its end. *)
Lemma placed_shrink s O O' :
  (∀ p, p ∈ O → p ∈ O') → (∀ p, p ∈ O' → p ∈ O ∨ len s ≤ p) → placed s O' → placed s O.
Proof.
  intros Hin Hout [Hl Hc Ho]. split; [done| |auto]. intros i insn E.
  destruct (Hc i insn E) as (o & Eo & Hi). exists o. split; [done|]. intros Hn. apply Hi.
  intros Hi'. apply zget_Some_lt in E. destruct (Hout i Hi'); [done|lia].
Qed.

Lemma placed_equiv s O O' : (∀ p, p ∈ O ↔ p ∈ O') → placed s O → placed s O'.
Proof. intros H. apply placed_shrink; naive_solver. Qed.

Definition pushed (i : Insn) (s : Codegen) : Codegen := set_insns (eg_insns s ++ [i]) s.

Lemma len_pushed i s : len (pushed i s) = len s + 1.
Proof. simpl. by rewrite zlen_app. Qed.

(** Placing one more instruction. *)
Lemma placed_pushed i s O :
  placed (pushed i s) O → (∀ p, p ∈ O → p ≤ len s) →
  placed s (filter (λ p, p < len s) O) ∧
  ∃ o, zget P (len s) = Some (set_off o i) ∧ (len s ∉ O → o = off i).
Proof.
  intros [Hl Hc Ho] Hb. rewrite len_pushed in Hl. split.
  - apply (placed_shrink _ _ O).
    + intros p Hp%list_elem_of_filter. apply Hp.
    + intros p Hp. rewrite list_elem_of_filter. destruct (decide (p < len s)); [by left|right; lia].
    + split; [lia| |done]. intros j insn E. apply Hc. pose proof (zget_Some_lt _ _ _ E).
      simpl. by rewrite zget_app_l by lia.
  - apply Hc. simpl. by rewrite zget_app_r, Z.sub_diag, zget_cons_0 by done.
Qed.

Lemma set_off_off i : set_off (off i) i = i.
Proof. by destruct i. Qed.

(** Before they were resolved the slots [ps] were open, and they lead to [t]. *)
Lemma agrees_resolved ps t s s' O :
  resolved ps t s s' → agrees s' O → (∀ p, p ∈ ps → p ∉ O ∧ 0 ≤ p < len s) →
  agrees s (O ++ ps) ∧ ∀ p, p ∈ ps → tgt p = t.
Proof.
  intros [Hl Hk Hr] Hc Hps. split.
  - intros i insn E. destruct (Hc _ _ (Hr i insn E)) as (o & Eo & Hi). case_bool_decide as Hin.
    + exists o. split; [done|]. intros []. by apply elem_of_app; right.
    + exists o. split; [done|]. intros Hn. apply Hi. by intros ?; apply Hn, elem_of_app; left.
  - intros p Hp. destruct (Hps p Hp) as [HnO Hlt]. destruct (zget_lt_Some _ _ Hlt) as [insn E].
    destruct (Hc _ _ (Hr p insn E)) as (o & Eo & Hi). rewrite bool_decide_true in Eo, Hi by done.
    unfold tgt. rewrite Eo. simpl. rewrite (Hi HnO). simpl. lia.
Qed.

Lemma placed_resolved ps t s s' O :
  resolved ps t s s' → placed s' O → (∀ p, p ∈ ps → p ∉ O ∧ 0 ≤ p < len s ∧ p < t) → t ≤ len s →
  placed s (O ++ ps) ∧ ∀ p, p ∈ ps → tgt p = t.
Proof.
  intros Hr [Hl Hc Ho] Hps Ht. destruct (agrees_resolved ps t s s' O Hr Hc) as [Ha Htgt]; [naive_solver|].
  rewrite (rs_len _ _ _ _ Hr) in Hl. split; [|done]. split; [done|done|].
  intros p [Hp|Hp]%elem_of_app; [auto|]. rewrite (Htgt p Hp). split; [by apply Hps|lia].
Qed.

(** * Segments *)

(** Where a run that decides [b] ends: behind the segment or at the target of a
    success slot with [J], or at the target of a failure slot with [K]. *)
Definition lands (s' : Codegen) (q : Patches) (b : bool) (J K : assertion) (regs : Regs) (pc : Z) : Prop :=
  if b then J regs ∧ (pc = len s' ∨ ∃ p, p ∈ success q ∧ pc = tgt p)
  else K regs ∧ ∃ p, p ∈ failure q ∧ pc = tgt p.

(** The code from [s] to [s'], in front of which the slots [O] are open and in
    which those of [q] are, decides [b] when run with [I]. *)
Record seg (O : list Patch) (s s' : Codegen) (q : Patches) (b : bool) (I J K : assertion) : Prop := {
  sg_grow : len s ≤ len s';
  sg_link : eg_link s' = eg_link s;
  sg_range p : p ∈ success q ∨ p ∈ failure q → len s ≤ p < len s';
  sg_apart p : p ∈ success q → p ∈ failure q → False;
  sg_placed : placed s' (O ++ success q ++ failure q) → placed s O;
  sg_run : placed s' (O ++ success q ++ failure q) → ∀ regs, I regs →
    reach P pkt host regs (len s) (lands s' q b J K);
}.

Lemma eseg_skip O s I : seg O s s patches_default true I I I.
Proof.
  split; simpl; [lia|done| | |by rewrite app_nil_r|].
  { by intros p [?%not_elem_of_nil|?%not_elem_of_nil]. }
  { by intros p ?%not_elem_of_nil. }
  intros _ regs HI. apply ereach_here. split; [done|by left].
Qed.

Lemma lands_mono s' q q' b (J J' K K' : assertion) regs pc :
  (b = true → ∀ r, J r → J' r) → (b = false → ∀ r, K r → K' r) →
  (∀ p, p ∈ success q → p ∈ success q') → (∀ p, p ∈ failure q → p ∈ failure q') →
  lands s' q b J K regs pc → lands s' q' b J' K' regs pc.
Proof. unfold lands. destruct b; naive_solver. Qed.

Lemma eseg_mono O s s' q q' b b' (I I' J J' K K' : assertion) :
  seg O s s' q b I J K → b' = b → (∀ r, I' r → I r) →
  (b = true → ∀ r, J r → J' r) → (b = false → ∀ r, K r → K' r) →
  (∀ p, p ∈ success q ↔ p ∈ success q') → (∀ p, p ∈ failure q ↔ p ∈ failure q') →
  seg O s s' q' b' I' J' K'.
Proof.
  intros [Hg Hl Hr Ha Hp Hrun] -> HI HJ HK HS HF.
  assert (He : placed s' (O ++ success q' ++ failure q') → placed s' (O ++ success q ++ failure q)).
  { apply placed_equiv. intros p. rewrite !elem_of_app, HS, HF. done. }
  split; [done|done|naive_solver|naive_solver|auto|].
  intros H regs Hregs. eapply ereach_mono; [by apply Hrun; auto|].
  intros r pc. apply lands_mono; [done|done| |]; naive_solver.
Qed.

(** One after the other; the left has no success slots. *)
Lemma seg_seq O s s1 s2 F1 q b1 b2 (I J L K : assertion) :
  seg O s s1 (fails F1) b1 I J K → seg (O ++ F1) s1 s2 q b2 J L K →
  seg O s s2 (mk_patches (success q) (F1 ++ failure q)) (b1 && b2) I L K.
Proof.
  intros [Hg1 Hl1 Hr1 Ha1 Hp1 Hrun1] [Hg2 Hl2 Hr2 Ha2 Hp2 Hrun2]. simpl in *.
  assert (He : placed s2 (O ++ success q ++ F1 ++ failure q) → placed s2 ((O ++ F1) ++ success q ++ failure q)).
  { apply placed_equiv. intros p. rewrite !elem_of_app. tauto. }
  split; simpl; [lia|congruence| | |auto|].
  - intros p. rewrite elem_of_app. intros [?|[?|?]].
    + assert (len s1 ≤ p < len s2) by auto. lia.
    + assert (len s ≤ p < len s1) by auto. lia.
    + assert (len s1 ≤ p < len s2) by auto. lia.
  - intros p HpS. rewrite elem_of_app. intros [?|?]; [|by eapply Ha2].
    assert (len s ≤ p < len s1) by auto. assert (len s1 ≤ p < len s2) by auto. lia.
  - intros H regs Hregs. apply He in H. eapply ereach_bind; [by apply Hrun1; auto|].
    intros r pc Hl. unfold lands in Hl. destruct b1; simpl in *.
    + destruct Hl as [HJ [->|(p & ?%not_elem_of_nil & _)]]; [|done].
      eapply ereach_mono; [by apply Hrun2|]. intros r' pc'. apply lands_mono; simpl; try done.
      intros p ?. apply elem_of_app. by right.
    + apply ereach_here. destruct Hl as [HK (p & Hp & ->)]. split; [done|].
      exists p. split; [|done]. apply elem_of_app. by left.
Qed.

(** The left failing goes on to the right; the left's exits are successes. *)
Lemma eseg_or O s s1 s2 S1 q b1 b2 (I J1 J K : assertion) :
  seg O s s1 (fails S1) (negb b1) I J1 J → seg (O ++ S1) s1 s2 q b2 J1 J K →
  seg O s s2 (mk_patches (S1 ++ success q) (failure q)) (b1 || b2) I J K.
Proof.
  intros [Hg1 Hl1 Hr1 Ha1 Hp1 Hrun1] [Hg2 Hl2 Hr2 Ha2 Hp2 Hrun2]. simpl in *.
  assert (He : placed s2 (O ++ (S1 ++ success q) ++ failure q) → placed s2 ((O ++ S1) ++ success q ++ failure q)).
  { apply placed_equiv. intros p. rewrite !elem_of_app. tauto. }
  split; simpl; [lia|congruence| | |auto|].
  - intros p. rewrite elem_of_app. intros [[?|?]|?].
    + assert (len s ≤ p < len s1) by auto. lia.
    + assert (len s1 ≤ p < len s2) by auto. lia.
    + assert (len s1 ≤ p < len s2) by auto. lia.
  - intros p. rewrite elem_of_app. intros [?|?] HF; [|by eapply Ha2].
    assert (len s ≤ p < len s1) by auto. assert (len s1 ≤ p < len s2) by auto. lia.
  - intros H regs Hregs. apply He in H. eapply ereach_bind; [by apply Hrun1; auto|].
    intros r pc Hl. unfold lands in Hl. destruct b1; simpl in *.
    + apply ereach_here. destruct Hl as [HK (p & Hp & ->)]. split; [done|]. right.
      exists p. split; [|done]. apply elem_of_app. by left.
    + destruct Hl as [HJ [->|(p & ?%not_elem_of_nil & _)]]; [|done].
      eapply ereach_mono; [by apply Hrun2|]. intros r' pc'. apply lands_mono; simpl; try done.
      intros p ?. apply elem_of_app. by right.
Qed.

(** Success slots resolved to the end of the segment. *)
Lemma seg_land O s s1 s2 S F b (I J K : assertion) :
  below O s → seg O s s1 (mk_patches S F) b I J K → resolved S (len s1) s1 s2 →
  seg O s s2 (fails F) b I J K.
Proof.
  intros HO [Hg Hl Hr Ha Hp Hrun] Hres. pose proof Hres as [Hlen Hlk _]. simpl in *.
  assert (He : placed s2 (O ++ F) → placed s1 (O ++ S ++ F) ∧ ∀ p, p ∈ S → tgt p = len s1).
  { intros H. destruct (placed_resolved S (len s1) s1 s2 (O ++ F) Hres H) as [H1 Ht]; [|lia|].
    - intros p HpS. assert (len s ≤ p < len s1) by auto. pose proof (zlen_nonneg (eg_insns s)).
      split; [|lia]. intros [Hin|?]%elem_of_app; [|by eapply Ha]. pose proof (HO p Hin). lia.
    - split; [|done]. eapply placed_equiv; [|exact H1]. intros p. rewrite !elem_of_app. tauto. }
  split; simpl; [lia|congruence| | | |].
  - intros p [?%not_elem_of_nil|?]; [done|]. rewrite Hlen. auto.
  - by intros p ?%not_elem_of_nil.
  - intros H. apply Hp. by apply He.
  - intros H regs Hregs. destruct (He H) as [H1 Ht]. eapply ereach_mono; [by apply Hrun|].
    unfold lands. simpl. rewrite Hlen. destruct b; [|done]. intros r pc [HJ [->|(p & HpS & ->)]]; (split; [done|]); left; auto.
Qed.

(** A jump behind the segment, over which its failures go on. *)
Lemma seg_flip O s s1 s2 S F b (I J K : assertion) :
  below O s → seg O s s1 (mk_patches S F) b I J K → resolved F (len s1 + 1) (pushed (ja 0) s1) s2 →
  seg O s s2 (fails (S ++ [len s1])) (negb b) I K J.
Proof.
  intros HO [Hg Hl Hr Ha Hp Hrun] Hres. pose proof Hres as [Hlen Hlk _]. rewrite len_pushed in Hlen. simpl in *.
  pose proof (zlen_nonneg (eg_insns s)).
  assert (He : placed s2 (O ++ S ++ [len s1]) →
    placed s1 (O ++ S ++ F) ∧ (∀ p, p ∈ F → tgt p = len s1 + 1) ∧
    ∃ o, zget P (len s1) = Some (ja o) ∧ len s1 + 1 + o = tgt (len s1) ∧ inside P (len s1) o ∧ 0 ≤ o).
  { intros H0. destruct (placed_resolved F (len s1 + 1) (pushed (ja 0) s1) s2 _ Hres H0) as [H1 Ht].
    - intros p HpF. rewrite len_pushed. assert (len s ≤ p < len s1) by auto. split; [|lia].
      rewrite !elem_of_app, list_elem_of_singleton. intros [Hin|[?|?]]; [|by eapply Ha|lia].
      pose proof (HO p Hin). lia.
    - rewrite len_pushed. lia.
    - destruct (placed_pushed (ja 0) s1 _ H1) as [H2 (o & Eo & _)].
      { intros p. rewrite !elem_of_app, list_elem_of_singleton. intros [[Hin|[HpS| ->]]|HpF]; [|assert (len s ≤ p < len s1) by auto; lia|lia|assert (len s ≤ p < len s1) by auto; lia].
        pose proof (HO p Hin). lia. }
      split_and!; [|done|].
      + eapply placed_equiv; [|exact H2]. intros p.
        rewrite list_elem_of_filter, !elem_of_app, list_elem_of_singleton. split; [|intros Hq; split; [|naive_solver]].
        * intros [? [[?|[?|?]]|?]]; [auto..|lia|auto].
        * destruct Hq as [Hin|[HpS|HpF]]; [pose proof (HO p Hin); lia|assert (len s ≤ p < len s1) by auto; lia..].
      + exists o. assert (Et : tgt (len s1) = len s1 + 1 + o) by (unfold tgt; by rewrite Eo).
        destruct (pl_open _ _ H0 (len s1)) as [Hlt Hltp].
        { rewrite !elem_of_app, list_elem_of_singleton. auto. }
        rewrite Et in Hlt, Hltp. unfold inside. split_and!; [done|done|lia|lia|lia]. }
  split; simpl; [lia|congruence| | | |].
  - intros p [?%not_elem_of_nil|Hin]; [done|]. rewrite Hlen.
    apply elem_of_app in Hin as [?| ->%list_elem_of_singleton]; [|lia]. assert (len s ≤ p < len s1) by auto. lia.
  - by intros p ?%not_elem_of_nil.
  - intros H0. apply Hp. by apply He.
  - intros H0 regs Hregs. destruct (He H0) as (H1 & Ht & o & Eo & Etgt & Hin & Ho).
    eapply ereach_bind; [by apply Hrun|]. unfold lands. simpl. rewrite Hlen. destruct b; simpl; intros r pc.
    + intros [HJ [->|(p & HpS & ->)]].
      * eapply reach_insn; [done|by apply exec_ja|lia|]. apply ereach_here. split; [done|].
        exists (len s1). split; [|lia]. apply elem_of_app; right. by left.
      * apply ereach_here. split; [done|]. exists p. split; [|done]. by apply elem_of_app; left.
    + intros [HK (p & HpF & ->)]. apply ereach_here. split; [done|]. left. auto.
Qed.

(** * Single instructions *)

Lemma seg_push_op O s i (I J K : assertion) :
  below O s →
  (∀ regs pc, I regs → ∃ regs', J regs' ∧
    exec_insn P (ctx_of host pkt) pkt host regs i pc = inl (inl (regs', pc + 1))) →
  seg O s (pushed i s) patches_default true I J K.
Proof.
  intros HO Hi. assert (He : placed (pushed i s) (O ++ [] ++ []) → placed s O ∧ zget P (len s) = Some i).
  { simpl. rewrite app_nil_r. intros H. destruct (placed_pushed i s O H) as [H1 (o & Eo & Hn)].
    { intros p Hp. pose proof (HO p Hp). lia. }
    split.
    - eapply placed_equiv; [|exact H1]. intros p. rewrite list_elem_of_filter.
      split; [naive_solver|]. intros Hp. pose proof (HO p Hp). split; [lia|done].
    - rewrite Eo, Hn; [by rewrite set_off_off|]. intros Hp. pose proof (HO _ Hp). lia. }
  split; [rewrite len_pushed; lia|done| | | |].
  - by intros p [?%not_elem_of_nil|?%not_elem_of_nil].
  - by intros p ?%not_elem_of_nil.
  - intros H. by apply He.
  - intros H regs HI. destruct (He H) as [_ E]. destruct (Hi regs (len s) HI) as (regs' & HJ & Ex).
    eapply reach_insn; [done|done|lia|]. apply ereach_here. split; [done|]. left. by rewrite len_pushed.
Qed.

(** A conditional jump, taken when [b] fails. *)
Lemma seg_push_jump O s i (b : bool) (I J K : assertion) :
  below O s →
  (∀ regs pc o, I regs → inside P pc o → (if b then J regs else K regs) ∧
    exec_insn P (ctx_of host pkt) pkt host regs (set_off o i) pc =
      inl (inl (regs, if b then pc + 1 else pc + 1 + o))) →
  seg O s (pushed i s) (fails [len s]) b I J K.
Proof.
  intros HO Hi. pose proof (zlen_nonneg (eg_insns s)).
  assert (He : placed (pushed i s) (O ++ [] ++ [len s]) → placed s O ∧
    ∃ o, zget P (len s) = Some (set_off o i) ∧ len s + 1 + o = tgt (len s) ∧ inside P (len s) o ∧ 0 ≤ o).
  { simpl. intros H0. destruct (placed_pushed i s _ H0) as [H1 (o & Eo & _)].
    { intros p [Hp| ->%list_elem_of_singleton]%elem_of_app; [pose proof (HO p Hp); lia|lia]. }
    split.
    - eapply placed_equiv; [|exact H1]. intros p. rewrite list_elem_of_filter, elem_of_app, list_elem_of_singleton.
      split; [intros [? [?|?]]; [done|lia]|]. intros Hp. pose proof (HO p Hp). split; [lia|auto].
    - exists o. assert (Et : tgt (len s) = len s + 1 + o) by (unfold tgt; by rewrite Eo).
      destruct (pl_open _ _ H0 (len s)) as [Hlt Hltp]; [apply elem_of_app; right; by left|].
      rewrite Et in Hlt, Hltp. unfold inside. split_and!; [done|done|lia|lia|lia]. }
  split; [rewrite len_pushed; lia|done| | | |].
  - intros p [?%not_elem_of_nil|Hp%list_elem_of_singleton]; [done|]. rewrite len_pushed, Hp. lia.
  - by intros p ?%not_elem_of_nil.
  - intros H0. by apply He.
  - intros H0 regs HI. destruct (He H0) as (_ & o & Eo & Et & Hin & Ho).
    destruct (Hi regs (len s) o HI Hin) as [Hb Ex].
    eapply reach_insn; [done|done|destruct b; lia|]. apply ereach_here. unfold lands.
    rewrite len_pushed. simpl. destruct b; (split; [done|]); [by left|]. exists (len s). split; [by left|lia].
Qed.

(** Two branches: the jump [j] over the first and its [ja], and the [ja] over
    the second. *)
Lemma seg_branch O s s0 s1 s2 s3 s4 j F1 F2 (c b1 b2 : bool)
    (I J1 J2 L1 L2 K : assertion) :
  below O s → seg O s s0 (fails [j]) (negb c) I J1 J2 →
  seg (O ++ [j]) s0 s1 (fails F1) b1 J1 L1 K →
  resolved [j] (len s1 + 1) (pushed (ja 0) s1) s2 →
  seg (O ++ F1 ++ [len s1]) s2 s3 (fails F2) b2 J2 L2 K →
  resolved [len s1] (len s3) s3 s4 →
  seg O s s4 (fails (F1 ++ F2)) (if c then b2 else b1) I (if c then L2 else L1) K.
Proof.
  intros HO [Hg0 Hl0 Hr0 _ Hp0 Hrun0] [Hg1 Hl1 Hr1 _ Hp1 Hrun1] Hres2 [Hg3 Hl3 Hr3 _ Hp3 Hrun3] Hres4.
  pose proof Hres2 as [Hlen2 Hlk2 _]. pose proof Hres4 as [Hlen4 Hlk4 _]. rewrite len_pushed in Hlen2. simpl in *.
  pose proof (zlen_nonneg (eg_insns s)).
  assert (Hj : len s ≤ j < len s0) by (apply Hr0; right; by left).
  assert (HF1 : ∀ p, p ∈ F1 → len s0 ≤ p < len s1) by auto.
  assert (HF2 : ∀ p, p ∈ F2 → len s1 + 1 ≤ p < len s3) by (intros; rewrite <- Hlen2; auto).
  assert (HO' : ∀ p, p ∈ O → 0 ≤ p < len s) by done.
  (* every slot is placed, at every stage *)
  assert (He : placed s4 (O ++ F1 ++ F2) →
    placed s3 ((O ++ F1 ++ [len s1]) ++ F2) ∧ tgt (len s1) = len s3 ∧
    placed s1 ((O ++ [j]) ++ F1) ∧ tgt j = len s1 + 1 ∧
    ∃ o, zget P (len s1) = Some (ja o) ∧ len s1 + 1 + o = tgt (len s1) ∧ inside P (len s1) o ∧ 0 ≤ o).
  { intros H4. destruct (placed_resolved [len s1] (len s3) s3 s4 _ Hres4 H4) as [H3 Ht3]; [|lia|].
    { intros p ->%list_elem_of_singleton. split; [|lia].
      rewrite !elem_of_app. intros [Hin|[Hin|Hin]]; [apply HO' in Hin|apply HF1 in Hin|apply HF2 in Hin]; lia. }
    assert (H3' : placed s3 ((O ++ F1 ++ [len s1]) ++ F2)).
    { eapply placed_equiv; [|exact H3]. intros p. rewrite !elem_of_app. tauto. }
    pose proof (Hp3 H3') as H2.
    destruct (placed_resolved [j] (len s1 + 1) (pushed (ja 0) s1) s2 _ Hres2 H2) as [H1 Ht1].
    { intros p ->%list_elem_of_singleton. rewrite len_pushed. split; [|lia].
      rewrite !elem_of_app, list_elem_of_singleton. intros [Hin|[Hin|Hin]]; [apply HO' in Hin|apply HF1 in Hin|]; lia. }
    { rewrite len_pushed. lia. }
    destruct (placed_pushed (ja 0) s1 _ H1) as [H1' (o & Eo & _)].
    { intros p. rewrite !elem_of_app, !list_elem_of_singleton.
      intros [[Hin|[Hin| ->]]| ->]; [apply HO' in Hin|apply HF1 in Hin| |]; lia. }
    split_and!; [done|by apply Ht3; left| |by apply Ht1; left|].
    - eapply placed_equiv; [|exact H1']. intros p.
      rewrite list_elem_of_filter, !elem_of_app, !list_elem_of_singleton.
      split; [intros [? [[?|[?|?]]|?]]; [auto..|lia|auto]|].
      intros [[Hin| ->]|Hin]; (split; [|auto]); [apply HO' in Hin|idtac|apply HF1 in Hin]; lia.
    - exists o. assert (Et : tgt (len s1) = len s1 + 1 + o) by (unfold tgt; by rewrite Eo).
      destruct (pl_open _ _ H3' (len s1)) as [Hlt Hltp].
      { rewrite !elem_of_app, list_elem_of_singleton. auto. }
      rewrite Et in Hlt, Hltp. unfold inside. split_and!; [done|done|lia|lia|lia]. }
  assert (He1 : placed s1 ((O ++ [j]) ++ F1) → placed s0 (O ++ [j])) by done.
  split; simpl; [lia|congruence| | | |].
  - intros p [?%not_elem_of_nil|[Hin|Hin]%elem_of_app]; [done|apply HF1 in Hin|apply HF2 in Hin]; lia.
  - by intros p ?%not_elem_of_nil.
  - intros H4. apply Hp0. apply Hp1. by apply He.
  - intros H4 regs Hregs. destruct (He H4) as (H3 & Ht3 & H1 & Ht1 & o & Eo & Eto & Hin & Ho).
    eapply ereach_bind; [by apply Hrun0; [apply Hp1|]|]. unfold lands. simpl.
    intros r pc. destruct c; simpl.
    + intros [HJ (p & ->%list_elem_of_singleton & ->)]. rewrite Ht1, <- Hlen2.
      eapply ereach_mono; [by apply Hrun3|]. unfold lands. simpl. rewrite Hlen4. intros r' pc'. destruct b2.
      * intros [? [?|(p & ?%not_elem_of_nil & _)]]; [auto|done].
      * intros [? (p & ? & ->)]. split; [done|]. exists p. split; [|done]. by apply elem_of_app; right.
    + intros [HJ [->|(p & ?%not_elem_of_nil & _)]]; [|done].
      eapply ereach_bind; [by apply Hrun1|]. unfold lands. simpl. rewrite Hlen4. intros r' pc'. destruct b1.
      * intros [HL [->|(p & ?%not_elem_of_nil & _)]]; [|done].
        eapply reach_insn; [done|by apply exec_ja|lia|]. apply ereach_here. split; [done|]. left. lia.
      * intros [HK (p & Hp & ->)]. apply ereach_here. split; [done|]. exists p. split; [|done]. by apply elem_of_app; left.
Qed.
End emit.
