(* ===== verification/EbpfRules.v ===== *)
(** Rules for the functions every primitive of the eBPF compiler is made of:
    sequencing, register moves, bounds-checked loads and comparisons. *)

From S2P Require Import EbpfCodegen.
From S2P Require Export EbpfEmit.

(** * Assertions on registers *)

(** [A] does not depend on the scratch registers R4 and R5, and has the
    prologue's invariant. *)
Class Ambient (pkt : list Z) (A : Regs → Prop) : Prop := {
  amb_inv regs : A regs → inv pkt regs;
  amb_rset r v regs : A regs → r = R4 ∨ r = R5 → A (rset r v regs);
}.

Lemma inv_rset pkt r v regs : inv pkt regs → r ≠ R2 → r ≠ R3 → inv pkt (rset r v regs).
Proof.
  intros [Hw H2 H3] ??. split; [by apply wf_rset| |]; by rewrite rval_rset_ne by done.
Qed.

(** [A], and the register [r] holds [v]. *)
Definition holding (r v : Z) (A : Regs → Prop) (regs : Regs) : Prop := A regs ∧ rval regs r = Some v.

#[export] Instance inv_ambient pkt : Ambient pkt (inv pkt).
Proof. split; [done|]. intros r v regs H [-> | ->]; by apply inv_rset. Qed.

#[export] Instance holding_R6_ambient pkt v A `{!Ambient pkt A} : Ambient pkt (holding R6 v A).
Proof.
  split; [intros regs [H _]; by apply amb_inv|].
  intros r w regs [HA Hv] Hr. split; [by apply amb_rset|].
  rewrite rval_rset_ne; [done|]. by destruct Hr as [-> | ->].
Qed.

Lemma ambient_wf pkt A regs : Ambient pkt A → A regs → wf_regs regs.
Proof. intros ? H. by eapply inv_wf, amb_inv. Qed.

Lemma holding_rset pkt r v A regs :
  Ambient pkt A → A regs → r = R4 ∨ r = R5 → holding r v A (rset r v regs).
Proof.
  intros ? HA Hr. split; [by apply amb_rset|]. rewrite rval_rset_eq; [done|by eapply ambient_wf|].
  by destruct Hr as [-> | ->].
Qed.

Lemma holding_again pkt r v w A regs :
  Ambient pkt A → holding r w A regs → r = R4 ∨ r = R5 → holding r v A (rset r v regs).
Proof. intros ? [HA _]. by apply holding_rset with pkt. Qed.

(** * Triples of emitting functions *)

Section rules.
Context (P : list Insn) (pkt : list Z) (host : Endian) (link : LinkType).
Abbreviation len s := (zlen (eg_insns s)).
Abbreviation assertion := (Regs → Prop).
Abbreviation seg := (seg P pkt host).
Abbreviation exec_insn := (exec_insn P (ctx_of host pkt) pkt host).
Implicit Types (I J K L A : assertion) (O F : list Patch) (s : Codegen).

(** [m] appends code that decides [b]; [op] says which slots its result leaves
    open. [checks]: none of them is a success. *)
Definition emits {R} (op : R → Patches) (m : EG R) (b : bool) I J K : Prop :=
  ∀ O s, below O s → eg_link s = link → wp m s (λ a s', seg O s s' (op a) b I J K).

Definition checks {R} (op : R → Patches) (m : EG R) (b : bool) I J K : Prop :=
  ∀ O s, below O s → eg_link s = link →
    wp m s (λ a s', success (op a) = [] ∧ seg O s s' (op a) b I J K).

(** The results of emitting functions: no slot, one failure, several. *)
Definition op_none {R} (_ : R) : Patches := patches_default.
Definition op_slot (p : Patch) : Patches := fails [p].
Definition op_slots (l : list Patch) : Patches := fails l.
Definition op_id (q : Patches) : Patches := q.

Lemma checks_emits {R} (op : R → Patches) m b I J K : checks op m b I J K → emits op m b I J K.
Proof. intros H O s HO Hl. eapply wp_mono; [by apply H|]. by intros a s' [_ ?]. Qed.

Lemma emits_mono {R} (op : R → Patches) m b b' I I' J J' K K' :
  emits op m b I J K → b' = b → (∀ r, I' r → I r) → (∀ r, J r → J' r) → (∀ r, K r → K' r) →
  emits op m b' I' J' K'.
Proof.
  intros H Hb HI HJ HK O s HO Hl. eapply wp_mono; [by apply H|]. intros a s' Hs.
  eapply eseg_mono; [exact Hs|done|done|auto|auto|done|done].
Qed.

Lemma checks_mono {R} (op : R → Patches) m b b' I I' J J' K K' :
  checks op m b I J K → b' = b → (∀ r, I' r → I r) → (∀ r, J r → J' r) → (∀ r, K r → K' r) →
  checks op m b' I' J' K'.
Proof.
  intros H Hb HI HJ HK O s HO Hl. eapply wp_mono; [by apply H|]. intros a s' [? Hs]. split; [done|].
  eapply eseg_mono; [exact Hs|done|done|auto|auto|done|done].
Qed.

(** Emission under way: from [s0] to [s], with the failures [F]. *)
Record run O s0 s F (b : bool) I J K : Prop := {
  run_below : below O s0;
  run_link0 : eg_link s0 = link;
  run_seg : seg O s0 s (fails F) b I J K;
}.

Lemma run_start O s I K : below O s → eg_link s = link → run O s s [] true I I K.
Proof. intros HO Hl. split; [done|done|]. eapply eseg_mono; [apply eseg_skip|done..]. Qed.

Lemma run_link O s0 s F b I J K : run O s0 s F b I J K → eg_link s = link.
Proof. intros [_ Hl H]. by rewrite (sg_link _ _ _ _ _ _ _ _ _ _ _ H). Qed.

Lemma run_weaken O s0 s F b I J J' K : run O s0 s F b I J K → (∀ r, J r → J' r) → run O s0 s F b I J' K.
Proof. intros [HO Hl H] HJ. split; [done|done|]. by eapply eseg_mono; [exact H|..]. Qed.

Lemma run_nest O s0 s F b I J K : run O s0 s F b I J K → below (O ++ F) s.
Proof.
  intros [HO _ H] p [Hp|Hp]%elem_of_app; pose proof (sg_grow _ _ _ _ _ _ _ _ _ _ _ H).
  - specialize (HO p Hp). lia.
  - pose proof (zlen_nonneg (eg_insns s0)).
    assert (len s0 ≤ p < len s); [|lia]. eapply sg_range; [exact H|]. by right.
Qed.

Lemma checks_start {R} (op : R → Patches) m b I J K :
  (∀ O s, run O s s [] true I I K → wp m s (λ a s', success (op a) = [] ∧ seg O s s' (op a) b I J K)) →
  checks op m b I J K.
Proof. intros H O s HO Hl. by apply H, run_start. Qed.

Lemma emits_start {R} (op : R → Patches) m b I J K :
  (∀ O s, run O s s [] true I I K → wp m s (λ a s', seg O s s' (op a) b I J K)) →
  emits op m b I J K.
Proof. intros H O s HO Hl. by apply H, run_start. Qed.

(** The last operation, and the others. *)
Lemma wp_last {R} (op : R → Patches) (m : EG R) O s0 s F b0 b I0 I J K (Q : R → Codegen → Prop) :
  run O s0 s F b0 I0 I K → emits op m b I J K →
  (∀ a s', seg O s0 s' (mk_patches (success (op a)) (F ++ failure (op a))) (b0 && b) I0 J K → Q a s') →
  wp m s Q.
Proof.
  intros Hr Hm HQ. eapply wp_mono; [apply (Hm (O ++ F) s); [by eapply run_nest|by eapply run_link]|].
  intros a s' Hs. apply HQ. eapply seg_seq; [apply Hr|exact Hs].
Qed.

Lemma wp_step {R B} (op : R → Patches) (m : EG R) (k : R → EG B) O s0 s F b0 b I0 I J K Q :
  run O s0 s F b0 I0 I K → checks op m b I J K →
  (∀ a s', run O s0 s' (F ++ failure (op a)) (b0 && b) I0 J K → success (op a) = [] → wp (k a) s' Q) →
  wp (m ≫= k) s Q.
Proof.
  intros Hr Hm HQ. apply wp_bind.
  eapply wp_mono; [apply (Hm (O ++ F) s); [by eapply run_nest|by eapply run_link]|].
  intros a s' [E Hs]. apply HQ; [|done]. destruct Hr as [HO Hl Hr]. split; [done|done|].
  pose proof (seg_seq _ _ _ _ _ _ _ _ _ _ _ _ _ _ _ Hr Hs) as H. by rewrite E in H.
Qed.

Lemma wp_assoc {T B C} (m : EG T) (f : T → EG B) (g : B → EG C) s Q :
  wp (x ← m; f x ≫= g) s Q → wp ((m ≫= f) ≫= g) s Q.
Proof. unfold wp, mbind, Error.M_bind. by destruct (m s) as [[]| | |]. Qed.

Lemma wp_eg_net_offset {B} O s0 s F b I J K (k : Z → EG B) Q :
  run O s0 s F b I J K → wp (k (link_net_offset link)) s Q → wp (net_offset ≫= k) s Q.
Proof. intros Hr H. apply wp_bind, wp_gets. by rewrite (run_link _ _ _ _ _ _ _ _ Hr). Qed.

Lemma wp_eg_ether_offset {B} O s0 s F b I J K (k : option Z → EG B) Q :
  run O s0 s F b I J K → wp (k (link_ether_proto_offset link)) s Q → wp (ether_proto_offset ≫= k) s Q.
Proof. intros Hr H. apply wp_bind, wp_gets. by rewrite (run_link _ _ _ _ _ _ _ _ Hr). Qed.

Lemma wp_add {B} a b s (k : Z → EG B) Q : a + b < 2 ^ 32 → wp (k (a + b)) s Q → wp (u32_add a b ≫= k) s Q.
Proof. intros. by apply wp_bind, wp_eg_u32_add. Qed.

(** * Instructions *)

Lemma push_pushed i s (Q : Z → Codegen → Prop) : Q (len s) (pushed i s) → wp (push i) s Q.
Proof. done. Qed.

Lemma checks_push i I J K :
  (∀ regs pc, I regs → ∃ regs', J regs' ∧ exec_insn regs i pc = inl (inl (regs', pc + 1))) →
  checks op_none (push i) true I J K.
Proof. intros H O s HO _. apply push_pushed. split; [done|]. by apply seg_push_op. Qed.

(** An unsigned comparison of R4 with an immediate; the jump is a failure. *)
Lemma checks_jump op o i v b A :
  op ∈ UNSIGNED → b = negb (jtest op v (as_u64 i)) → is_u64 v →
  checks op_slot (push (new (BPF_JMP .| op .| BPF_K) R4 0 o i)) b (holding R4 v A) (holding R4 v A) (holding R4 v A).
Proof.
  intros Hop -> Hv O s HO _. apply push_pushed. split; [done|]. apply seg_push_jump; [done|].
  intros regs pc o' [HA Hr] Hin. split; [by destruct (negb _)|].
  change (set_off o' (new ?c ?d ?s o ?i)) with (new c d s o' i).
  rewrite (exec_jump_imm _ _ _ _ _ _ op R4 o' i v) by done. by destruct (jtest _ _ _).
Qed.

Lemma checks_jgt_end v A `{!Ambient pkt A} :
  is_u64 v → zlen pkt < 2 ^ 27 →
  checks op_slot (push (jgt_reg R5 R3 0)) (v <=? data_end pkt) (holding R5 v A) A A.
Proof.
  intros Hv Hs O s HO _. apply push_pushed. split; [done|]. apply seg_push_jump; [done|].
  intros regs pc o [HA Hr] Hin. split; [by destruct (_ <=? _)|].
  change (set_off o (jgt_reg R5 R3 0)) with (jgt_reg R5 R3 o).
  pose proof (zlen_nonneg pkt). pose proof (inv_end _ _ (amb_inv regs HA)) as H3.
  rewrite (exec_jgt_reg _ _ _ _ _ _ R5 R3 o v (data_end pkt)); [|done..|].
  - rewrite Z.ltb_antisym. by destruct (v <=? _).
  - unfold is_u64, data_end, PKT_BASE. lia.
Qed.
End rules.

(** [A], where the test [c] is true. *)
Definition given (c : bool) (A : Regs → Prop) (regs : Regs) : Prop := c = true ∧ A regs.

(** Emission under way: start it, do the next operation, or the last one. *)
Ltac estart :=
  first [apply checks_start|apply emits_start]; let O := fresh "O" in let s := fresh "s" in let H := fresh "Hrun" in intros O s H.

Ltac estep :=
  lazymatch goal with
  | H : run _ _ _ _ _ _ _ _ _ _ _ _ |- wp (_ ≫= _) _ _ =>
      eapply wp_step; [exact H| |clear H; intros ? ? H ?]
  end.

Ltac elast :=
  lazymatch goal with
  | H : run _ _ _ _ _ _ _ _ _ _ _ _ |- wp _ _ _ =>
      eapply wp_last; [exact H| |clear H; intros ? ? H]
  end.

(** What R4 holds does not matter any more. *)
Ltac erelease :=
  lazymatch goal with
  | H : run _ _ _ _ _ _ _ _ _ _ (holding _ _ ?A) _ |- _ =>
      apply (run_weaken _ _ _ _ _ _ _ _ _ _ _ A) in H; [|by intros ? [? _]]
  end.

(** Close with the result of what is under way. *)
Ltac ebool := rewrite ?andb_true_l, ?andb_true_r, ?andb_assoc; try done.

Ltac eseg H :=
  lazymatch goal with
  | |- _ ∧ _ => split; [try done|eseg H]
  | |- _ => eapply eseg_mono; [exact H|ebool|try done|try done|try done|try done|try done]
  end.

Ltac eret :=
  lazymatch goal with
  | H : run _ _ _ _ _ _ _ _ _ _ _ _ |- wp (mret _) _ _ => apply wp_ret; apply run_seg in H; eseg H
  end.

Section loads.
Context (P : list Insn) (pkt : list Z) (host : Endian) (link : LinkType).
Context (Hpkt : Forall is_u8 pkt) (Hsmall : zlen pkt < 2 ^ 27).
Abbreviation checks := (checks P pkt host link).
Abbreviation emits := (emits P pkt host link).
Abbreviation has := (has pkt).
Context (A : Regs → Prop) `{!Ambient pkt A}.

Lemma checks_given {R} (op : R → Patches) m b (I J K : Regs → Prop) :
  checks op m b I J K → checks op m b I (given b J) K.
Proof.
  intros H O s HO Hl. eapply wp_mono; [by apply H|]. intros a s' [? Hs]. split; [done|].
  eapply eseg_mono; [exact Hs|done..|done|done|done].
Qed.

(** The state of emission is the one hypothesis [run]. *)
Lemma checks_check_bounds o n :
  0 ≤ o → 0 < n → o + n < 2 ^ 31 → checks op_slot (check_bounds o n) (has o n) A (given (has o n) A) A.
Proof.
  intros Ho Hn Hlt. apply checks_given. estart. unfold check_bounds. estep.
  { apply (checks_push _ _ _ _ _ A (holding R5 PKT_BASE A)). intros regs pc HA. eexists. split.
    - by apply (holding_rset pkt); [done..|right].
    - apply exec_mov64_reg; [done..|by apply amb_inv|done]. }
  apply wp_add; [lia|]. estep.
  { apply (checks_push _ _ _ _ _ _ (holding R5 (PKT_BASE + (o + n)) A)). intros regs pc [HA Hv]. eexists. split.
    - by apply (holding_rset pkt); [done..|right].
    - rewrite as_i32_small by lia. apply exec_add64_imm; try done; unfold PKT_BASE; lia. }
  elast.
  { apply checks_emits, checks_jgt_end; [done| |done]. unfold is_u64, PKT_BASE. lia. }
  eseg Hrun. unfold EbpfSem.has, data_end. simpl. apply Bool.eq_iff_eq_true. rewrite !Z.leb_le. lia.
Qed.

(** Loads through a register [s] that points [b] bytes into the packet. *)
Section at_register.
Context (s b : Z) (Hs : gpr s) (Hb : ∀ regs, A regs → rval regs s = Some (PKT_BASE + b)).

Lemma checks_ldx_b off K :
  0 ≤ b + off →
  checks op_none (push (ldx_b R4 s off)) true (given (has (b + off) 1) A) (holding R4 (b8 pkt (b + off)) A) K.
Proof.
  intros Ho. apply checks_push. intros regs pc [Hh HA]. unfold EbpfSem.has in Hh. zbool. eexists. split.
  - by apply (holding_rset pkt); [done..|left].
  - apply exec_ldx_b; auto.
Qed.

Lemma checks_ldx_h off K :
  0 ≤ b + off →
  checks op_none (push_ldx_h_be R4 s off) true (given (has (b + off) 2) A) (holding R4 (h16 pkt (b + off)) A) K.
Proof.
  intros Ho. estart. unfold push_ldx_h_be. estep.
  { apply (checks_push _ _ _ _ _ _ (holding R4 (read host [b8 pkt (b + off); b8 pkt (b + off + 1)]) A)).
    intros regs pc [Hh HA]. unfold EbpfSem.has in Hh. zbool. eexists. split.
    - by apply (holding_rset pkt); [done..|left].
    - apply exec_ldx_h; auto. }
  estep.
  { apply (checks_push _ _ _ _ _ _ (holding R4 (h16 pkt (b + off)) A)). intros regs pc [HA Hv]. eexists. split.
    - by apply (holding_rset pkt); [done..|left].
    - by apply exec_be16. }
  eret.
Qed.

Lemma checks_ldx_w off K :
  0 ≤ b + off →
  checks op_none (push_ldx_w_be R4 s off) true (given (has (b + off) 4) A) (holding R4 (w32 pkt (b + off)) A) K.
Proof.
  intros Ho. estart. unfold push_ldx_w_be. estep.
  { apply (checks_push _ _ _ _ _ _ (holding R4 (read host [b8 pkt (b + off); b8 pkt (b + off + 1);
      b8 pkt (b + off + 1 + 1); b8 pkt (b + off + 1 + 1 + 1)]) A)).
    intros regs pc [Hh HA]. unfold EbpfSem.has in Hh. zbool. eexists. split.
    - by apply (holding_rset pkt); [done..|left].
    - apply exec_ldx_w; auto. }
  estep.
  { apply (checks_push _ _ _ _ _ _ (holding R4 (w32 pkt (b + off)) A)). intros regs pc [HA Hv]. eexists. split.
    - by apply (holding_rset pkt); [done..|left].
    - by apply exec_be32. }
  eret.
Qed.
End at_register.

Lemma gpr_R2 : gpr R2.
Proof. done. Qed.

Lemma amb_R2 regs : A regs → rval regs R2 = Some (PKT_BASE + 0).
Proof. intros H. by apply amb_inv, inv_data in H. Qed.

(** Loads at a constant offset, small enough for an [i16]. *)
Lemma checks_load_byte o :
  0 ≤ o < 2 ^ 15 → checks op_slot (emit_load_byte o) (has o 1) A (holding R4 (b8 pkt o) A) A.
Proof.
  intros Ho. estart. unfold emit_load_byte. estep; [apply checks_check_bounds; lia|].
  rewrite as_i16_small by lia. estep; [apply (checks_ldx_b R2 0 gpr_R2 amb_R2); lia|]. eret.
Qed.

Lemma checks_load_half o :
  0 ≤ o < 2 ^ 15 → checks op_slot (emit_load_half o) (has o 2) A (holding R4 (h16 pkt o) A) A.
Proof.
  intros Ho. estart. unfold emit_load_half. estep; [apply checks_check_bounds; lia|].
  rewrite as_i16_small by lia. estep; [apply (checks_ldx_h R2 0 gpr_R2 amb_R2); lia|]. eret.
Qed.

Lemma checks_load_word o :
  0 ≤ o < 2 ^ 15 → checks op_slot (emit_load_word o) (has o 4) A (holding R4 (w32 pkt o) A) A.
Proof.
  intros Ho. estart. unfold emit_load_word. estep; [apply checks_check_bounds; lia|].
  rewrite as_i16_small by lia. estep; [apply (checks_ldx_w R2 0 gpr_R2 amb_R2); lia|]. eret.
Qed.
End loads.

(** * Branches *)

Section branches.
Context (P : list Insn) (pkt : list Z) (host : Endian) (link : LinkType).
Abbreviation len s := (zlen (eg_insns s)).
Abbreviation run := (run P pkt host link).
Abbreviation seg := (seg P pkt host).
Context (A : Regs → Prop).

(** The first jump of two alternatives, taken when R4 is [i]. *)
Lemma wp_jump_if {B} O s0 s F b0 I0 i v K (k : Z → EG B) Q :
  run O s0 s F b0 I0 (holding R4 v A) K → is_u64 v →
  (∀ sj, seg (O ++ F) s sj (fails [len s]) (negb (v =? as_u64 i)) (holding R4 v A) (holding R4 v A) A →
    run ((O ++ F) ++ [len s]) sj sj [] true (holding R4 v A) (holding R4 v A) K →
    wp (k (len s)) sj Q) →
  wp (j ← push (jeq_imm R4 i 0); k j) s Q.
Proof.
  intros Hr Hv HQ. pose proof (run_nest _ _ _ _ _ _ _ _ _ _ _ _ Hr) as HO.
  pose proof (run_link _ _ _ _ _ _ _ _ _ _ _ _ Hr) as Hl.
  assert (Hop : BPF_JEQ ∈ UNSIGNED) by set_solver.
  pose proof (checks_jump P pkt host link BPF_JEQ 0 i v _ A Hop eq_refl Hv (O ++ F) s HO Hl) as [_ Hs].
  assert (Hs' : seg (O ++ F) s (pushed (jeq_imm R4 i 0) s) (fails [len s]) (negb (v =? as_u64 i))
    (holding R4 v A) (holding R4 v A) A).
  { eapply eseg_mono; [exact Hs|done..| |done|done]. by intros _ r [? _]. }
  apply (HQ (pushed (jeq_imm R4 i 0) s) Hs'). apply run_start; [|done].
  pose proof (zlen_nonneg (eg_insns s)). intros p [Hp| ->%list_elem_of_singleton]%elem_of_app; rewrite len_pushed; [|lia].
  specialize (HO p Hp). lia.
Qed.

(** From the first alternative to the second. *)
Lemma wp_jump_over {B} O s sj s1 F1 c b1 I J L (k : Z → EG B) Q :
  below O s → seg O s sj (fails [len s]) c I J A → run (O ++ [len s]) sj s1 F1 b1 J L A →
  (∀ s2, resolved [len s] (len s1 + 1) (pushed (ja 0) s1) s2 →
    run (O ++ F1 ++ [len s1]) s2 s2 [] true A A A → wp (k (len s1)) s2 Q) →
  wp (ja_idx ← push (ja 0); start ← here; resolve (len s) start;; k ja_idx) s1 Q.
Proof.
  intros HO Hj Hr HQ. pose proof (zlen_nonneg (eg_insns s)).
  pose proof (sg_grow _ _ _ _ _ _ _ _ _ _ _ Hj) as Hg. destruct Hr as [HO1 Hl1 Hr].
  pose proof (sg_grow _ _ _ _ _ _ _ _ _ _ _ Hr) as Hg1.
  assert (Hjr : len s ≤ len s < len sj) by (apply (sg_range _ _ _ _ _ _ _ _ _ _ _ Hj); right; by left).
  change (wp (resolve (len s) (len (pushed (ja 0) s1));; k (len s1)) (pushed (ja 0) s1) Q).
  rewrite len_pushed. apply wp_bind, wp_eg_resolve; [rewrite len_pushed; lia|lia|].
  intros s2 Hres. apply (HQ s2 Hres). apply run_start.
  - pose proof (rs_len _ _ _ _ Hres) as E. rewrite len_pushed in E.
    intros p Hp. rewrite E. apply elem_of_app in Hp as [Hp|[Hp| ->%list_elem_of_singleton]%elem_of_app]; [| |lia].
    + specialize (HO p Hp). lia.
    + assert (len sj ≤ p < len s1) by (apply (sg_range _ _ _ _ _ _ _ _ _ _ _ Hr); by right). lia.
  - rewrite (rs_link _ _ _ _ Hres). simpl. by rewrite (sg_link _ _ _ _ _ _ _ _ _ _ _ Hr).
Qed.

(** Behind both. *)
Lemma wp_join {B} O s0 s F b0 I0 sj s1 F1 s2 s3 F2 c b1 b2 I J L1 L2 (k : EG B) Q :
  run O s0 s F b0 I0 I A → seg (O ++ F) s sj (fails [len s]) (negb c) I J A →
  run ((O ++ F) ++ [len s]) sj s1 F1 b1 J L1 A →
  resolved [len s] (len s1 + 1) (pushed (ja 0) s1) s2 →
  run ((O ++ F) ++ F1 ++ [len s1]) s2 s3 F2 b2 A L2 A →
  (∀ s4, run O s0 s4 (F ++ F1 ++ F2) (b0 && if c then b2 else b1) I0 (if c then L2 else L1) A → wp k s4 Q) →
  wp (after ← here; resolve (len s1) after;; k) s3 Q.
Proof.
  intros Hr Hj Hr1 Hres Hr2 HQ. pose proof (run_nest _ _ _ _ _ _ _ _ _ _ _ _ Hr) as HO.
  destruct Hr as [HO0 Hl0 Hr]. destruct Hr1 as [_ _ Hr1], Hr2 as [_ _ Hr2].
  pose proof (sg_grow _ _ _ _ _ _ _ _ _ _ _ Hr2) as Hg. pose proof (rs_len _ _ _ _ Hres) as E.
  rewrite len_pushed in E. pose proof (zlen_nonneg (eg_insns s1)).
  change (wp (resolve (len s1) (len s3);; k) s3 Q). apply wp_bind, wp_eg_resolve; [lia|lia|].
  intros s4 Hres4. apply HQ. split; [done|done|].
  eapply (seg_seq _ _ _ _ _ _ _ _ (fails (F1 ++ F2)) _ _ _ _ _ _ Hr).
  by eapply seg_branch.
Qed.

(** Where the jump is a success of the whole. *)
Lemma seg_join O s0 s F b0 I0 sj s3 F2 c b2 I J K :
  run O s0 s F b0 I0 I K → seg (O ++ F) s sj (fails [len s]) (negb c) I J A →
  run ((O ++ F) ++ [len s]) sj s3 F2 b2 J A K →
  seg O s0 s3 (mk_patches [len s] (F ++ F2)) (b0 && (c || b2)) I0 A K.
Proof.
  intros [_ _ Hr] Hj [_ _ Hr2].
  pose proof (eseg_or _ _ _ _ _ _ _ _ _ _ _ _ _ _ _ Hj Hr2) as H.
  exact (seg_seq _ _ _ _ _ _ _ _ _ _ _ _ _ _ _ Hr H).
Qed.

(** Where it leads behind the whole. *)
Lemma wp_land {B} O s0 s F b0 I0 sj s3 F2 c b2 I J K (k : EG B) Q :
  run O s0 s F b0 I0 I K → seg (O ++ F) s sj (fails [len s]) (negb c) I J A →
  run ((O ++ F) ++ [len s]) sj s3 F2 b2 J A K →
  (∀ s4, run O s0 s4 (F ++ F2) (b0 && (c || b2)) I0 A K → wp k s4 Q) →
  wp (after ← here; resolve (len s) after;; k) s3 Q.
Proof.
  intros Hr Hj Hr2 HQ. pose proof (seg_join _ _ _ _ _ _ _ _ _ _ _ _ _ _ Hr Hj Hr2) as H.
  assert (Hp : len s0 ≤ len s < len s3) by (apply (sg_range _ _ _ _ _ _ _ _ _ _ _ H); left; by left).
  pose proof (zlen_nonneg (eg_insns s0)).
  change (wp (resolve (len s) (len s3);; k) s3 Q). apply wp_bind, wp_eg_resolve; [lia|lia|].
  intros s4 Hres. apply HQ. destruct Hr as [HO0 Hl0 _]. split; [done|done|]. by eapply seg_land.
Qed.

(** A jump behind the whole, over which its failures go on. *)
Lemma wp_flip {B} O s0 s S F b I J K (k : Z → EG B) Q :
  below O s0 → eg_link s0 = link → seg O s0 s (mk_patches S F) b I J K →
  (∀ s2, eg_link s2 = link → seg O s0 s2 (fails (S ++ [len s])) (negb b) I K J →
    below (O ++ S ++ [len s]) s2 → wp (k (len s)) s2 Q) →
  wp (ja_idx ← push (ja 0); start ← here; resolve_all F start;; k ja_idx) s Q.
Proof.
  intros HO Hl Hs HQ. pose proof (zlen_nonneg (eg_insns s0)).
  pose proof (sg_range _ _ _ _ _ _ _ _ _ _ _ Hs) as Hr. pose proof (sg_grow _ _ _ _ _ _ _ _ _ _ _ Hs) as Hg.
  simpl in Hr. change (wp (resolve_all F (len (pushed (ja 0) s));; k (len s)) (pushed (ja 0) s) Q).
  rewrite len_pushed. apply wp_bind, wp_eg_resolve_all.
  { intros p Hp. rewrite len_pushed. specialize (Hr p (or_intror Hp)). lia. }
  intros s2 Hres. pose proof (rs_len _ _ _ _ Hres) as E. rewrite len_pushed in E. apply HQ.
  - rewrite (rs_link _ _ _ _ Hres). simpl. by rewrite (sg_link _ _ _ _ _ _ _ _ _ _ _ Hs).
  - by eapply seg_flip.
  - intros p. rewrite E, !elem_of_app, list_elem_of_singleton. intros [Hp|[Hp| ->]]; [| |lia].
    + specialize (HO p Hp). lia.
    + specialize (Hr p (or_introl Hp)). lia.
Qed.
End branches.
