(* ===== verification/EbpfPrims.v ===== *)
(** What the primitives of the eBPF compiler decide: the segment each emits
    decides the exact semantics [prim_esem]. *)

From S2P Require Import EbpfCodegen.
From S2P Require Export EbpfRules.

(** Slots handed out in another order. *)
Ltac eslots :=
  lazymatch goal with
  | |- ∀ p, p ∈ _ ↔ p ∈ _ =>
      intros; unfold op_id, op_slot, op_slots, op_none, extend, patches_default, fails in *; cbn [success failure] in *;
      repeat match goal with H : success _ = [] |- _ => rewrite H in *; clear H end;
      rewrite ?elem_of_app, ?elem_of_cons, ?elem_of_nil; tauto
  end.

(** Close a primitive: forget the scratch registers, sort the slots. *)
Ltac eforget := intros; repeat match goal with H : holding _ _ _ _ |- _ => destruct H end; done.
Ltac edone := eret; try eforget; try (by eslots).

(** * Comparisons of R4 *)

Section compare.
Context (P : list Insn) (pkt : list Z) (host : Endian) (link : LinkType).
Context (Hpkt : Forall is_u8 pkt) (Hsmall : zlen pkt < 2 ^ 27).
Abbreviation checks := (checks P pkt host link).
Abbreviation run := (run P pkt host link).
Abbreviation len s := (zlen (eg_insns s)).
Context (A : Regs → Prop) `{!Ambient pkt A}.
Implicit Types (v k o : Z).

(** A failing comparison leads on with [A]. *)
Lemma checks_compare op i v b :
  op ∈ UNSIGNED → is_u64 v → negb (jtest op v (as_u64 i)) = b →
  checks op_slot (push (new (BPF_JMP .| op .| BPF_K) R4 0 0 i)) b (holding R4 v A) (holding R4 v A) A.
Proof.
  intros Hop Hv <-. eapply checks_mono; [by apply (checks_jump _ _ _ _ op 0 i v)|done..|]. by intros r [? _].
Qed.

Lemma checks_jne i v b :
  is_u64 v → (v =? as_u64 i) = b →
  checks op_slot (push (jne_imm R4 i 0)) b (holding R4 v A) (holding R4 v A) A.
Proof. intros Hv <-. apply (checks_compare BPF_JNE); [set_solver|done|]. apply negb_involutive. Qed.

Lemma checks_jeq i v b :
  is_u64 v → negb (v =? as_u64 i) = b →
  checks op_slot (push (jeq_imm R4 i 0)) b (holding R4 v A) (holding R4 v A) A.
Proof. intros Hv <-. by apply (checks_compare BPF_JEQ); [set_solver| |]. Qed.

Lemma as_u64_small k : 0 ≤ k < 2 ^ 64 → as_u64 k = k.
Proof. apply Z.mod_small. Qed.

Lemma b8_u64 o : is_u64 (b8 pkt o).
Proof. pose proof (b8_range pkt Hpkt o). unfold is_u64, is_u8 in *. lia. Qed.
Lemma h16_u64 o : is_u64 (h16 pkt o).
Proof. pose proof (h16_range pkt Hpkt o). unfold is_u64, is_u16 in *. lia. Qed.
Lemma w32_u64 o : is_u64 (w32 pkt o).
Proof. pose proof (w32_range pkt Hpkt o). unfold is_u64, is_u32 in *. lia. Qed.

(** The last comparison of a primitive, after which R4 does not matter. *)
Lemma holding_drop r v regs : holding r v A regs → A regs.
Proof. by intros [? _]. Qed.

Lemma checks_half o e :
  0 ≤ o < 2 ^ 15 → 0 ≤ e < 2 ^ 31 → checks op_id (check_half o e) (half_is pkt o e) A A A.
Proof.
  intros Ho He. estart. unfold check_half. estep; [by apply checks_load_half|].
  estep; [apply checks_jne; [by apply h16_u64|done]|].
  edone. unfold half_is. change (as_u64 (as_i32 e)) with (imm_of e). by rewrite imm_of_small.
Qed.

Lemma checks_byte o e :
  0 ≤ o < 2 ^ 15 → 0 ≤ e < 2 ^ 31 → checks op_id (check_byte o e) (byte_is pkt o e) A A A.
Proof.
  intros Ho He. estart. unfold check_byte. estep; [by apply checks_load_byte|].
  estep; [apply checks_jne; [by apply b8_u64|done]|].
  edone. unfold byte_is. change (as_u64 (as_i32 e)) with (imm_of e). by rewrite imm_of_small.
Qed.

Lemma checks_word o e : 0 ≤ o < 2 ^ 15 → checks op_id (check_word o e) (word_is pkt o e) A A A.
Proof.
  intros Ho. estart. unfold check_word. estep; [by apply checks_load_word|].
  estep; [apply checks_jne; [by apply w32_u64|done]|]. edone.
Qed.

(** A jump over the [ja] that is the failure. *)
Lemma wp_jset {B} O s0 s F b0 I0 i v (k : Z → EG B) Q :
  run O s0 s F b0 I0 (holding R4 v A) A → is_u64 v →
  (∀ p s', run O s0 s' (F ++ [p]) (b0 && negb (v .& as_u64 i =? 0)) I0 A A → wp (k p) s' Q) →
  wp (jset ← push (jset_imm R4 i 0); ja_fail ← push (ja 0); after ← here; resolve jset after;; k ja_fail) s Q.
Proof.
  intros Hr Hv HQ. pose proof (run_nest _ _ _ _ _ _ _ _ _ _ _ _ Hr) as HO.
  pose proof (run_link _ _ _ _ _ _ _ _ _ _ _ _ Hr) as Hl.
  pose proof (checks_compare BPF_JSET i v _ ltac:(set_solver) Hv eq_refl (O ++ F) s HO Hl) as [_ Hs].
  change (wp (jset ← push (jset_imm R4 i 0); ja_fail ← push (ja 0); after ← here; resolve jset after;; k ja_fail) s Q)
    with (wp (resolve (len s) (len (pushed (ja 0) (pushed (jset_imm R4 i 0) s)));; k (len (pushed (jset_imm R4 i 0) s)))
            (pushed (ja 0) (pushed (jset_imm R4 i 0) s)) Q).
  set (s1 := pushed (jset_imm R4 i 0) s) in *. assert (Hlen : len s1 = len s + 1) by apply len_pushed.
  pose proof (zlen_nonneg (eg_insns s)). rewrite len_pushed. apply wp_bind, wp_eg_resolve.
  { rewrite len_pushed. lia. } { lia. }
  intros s' Hres. apply HQ. destruct Hr as [HO0 Hl0 Hr]. split; [done|done|].
  assert (Hf : seg P pkt host (O ++ F) s s' (fails [len s1]) (negb (v .& as_u64 i =? 0)) (holding R4 v A) A A).
  { eapply eseg_mono; [by eapply (seg_flip _ _ _ (O ++ F) s s1 s' [] [len s])|..]; try done.
    - unfold jtest. simpl. by rewrite negb_involutive.
    - by intros _ r [? _]. }
  exact (seg_seq _ _ _ _ _ _ _ _ _ _ _ _ _ _ _ Hr Hf).
Qed.

Lemma checks_cmp op value v :
  is_u64 v → checks op_id (emit_cmp op value) (cmp_esem op v value) (holding R4 v A) A A.
Proof.
  intros Hv. unfold cmp_esem. change (imm_of value) with (as_u64 (as_i32 value)).
  destruct op; cbn [emit_cmp cmp_sem]; estart.
  - estep; [by apply checks_jne|]. edone.
  - estep; [by apply checks_jeq|]. edone.
  - estep; [apply (checks_compare BPF_JGE); [set_solver|done|symmetry; apply Z.ltb_antisym]|]. edone.
  - estep; [apply (checks_compare BPF_JGT); [set_solver|done|symmetry; apply Z.leb_antisym]|]. edone.
  - estep; [apply (checks_compare BPF_JLE); [set_solver|done|symmetry; apply Z.ltb_antisym]|]. edone.
  - estep; [apply (checks_compare BPF_JLT); [set_solver|done|symmetry; apply Z.leb_antisym]|]. edone.
  - eapply wp_jset; [exact Hrun|done|]. clear Hrun. intros ? ? Hrun. edone.
Qed.

(** 32-bit arithmetic on R4 with immediates. *)
Lemma checks_alu i v w K :
  (∀ regs pc, rval regs R4 = Some v →
    exec_insn P (ctx_of host pkt) pkt host regs i pc = inl (inl (rset R4 w regs, pc + 1))) →
  checks op_none (push i) true (holding R4 v A) (holding R4 w A) K.
Proof.
  intros Hi. apply checks_push. intros regs pc [HA Hv]. eexists. split; [|by apply Hi].
  by apply (holding_rset pkt); [done..|left].
Qed.

Lemma exec_and32 regs pc k v :
  rval regs R4 = Some v → is_u32 v → is_u32 k →
  exec_insn P (ctx_of host pkt) pkt host regs (and32_imm R4 (as_i32 k)) pc = inl (inl (rset R4 (v .& k) regs, pc + 1)).
Proof.
  intros Hv Hu Hk. eapply (ebpf_alu32_exec _ _ _ _ _ _ And_ R4 k v (eg_new Ethernet)); done.
Qed.

Lemma checks_and32 k v K :
  is_u32 v → is_u32 k →
  checks op_none (push (and32_imm R4 (as_i32 k))) true (holding R4 v A) (holding R4 (v .& k) A) K.
Proof. intros. apply checks_alu. intros. by apply exec_and32. Qed.

Lemma checks_and_small k v K :
  is_u32 v → 0 ≤ k < 2 ^ 31 →
  checks op_none (push (and32_imm R4 k)) true (holding R4 v A) (holding R4 (v .& k) A) K.
Proof.
  intros Hv Hk. rewrite <- (as_i32_small k Hk) at 1. apply checks_and32; [done|]. unfold is_u32. lia.
Qed.

Definition shift_fits (op : ArithOp * Z) : bool :=
  match op.1 with Shl | Shr => op.2 <? 32 | _ => true end.

(** What the compiler does not reject, the machine can do. *)
Lemma wp_alu32 op k s (Q : Insn → Codegen → Prop) :
  is_u32 k → shift_fits (op, k) = true →
  (∀ i, ebpf_alu32 op R4 (as_i32 k) s = Ok (i, s) → fit_op op k = true → Q i s) →
  wp (ebpf_alu32 op R4 (as_i32 k)) s Q.
Proof.
  intros Hk Hf HQ. unfold wp. destruct op; cbn [ebpf_alu32] in *; try (by apply HQ).
  - destruct (Z.eqb_spec (as_i32 k) 0) as [E|Hne]; [done|]. apply HQ; [done|]. cbn [fit_op].
    apply negb_true_iff, Z.eqb_neq. intros ->. by apply Hne.
  - done.
Qed.

Lemma checks_alu_ops ops v K :
  is_u32 v → Forall (λ op, is_u32 op.2) ops → forallb shift_fits ops = true →
  checks op_none (emit_alu_ops ops) true (holding R4 v A) (holding R4 (alu_sem ops v) A) K.
Proof.
  intros Hv Hops Hfit. revert v Hv. induction Hops as [|[op k] ops Hk Hops IH]; intros v Hv.
  { estart. unfold emit_alu_ops. cbn [forM]. by eret. }
  apply andb_true_iff in Hfit as [Hf Hfit]. simpl in Hk. estart. unfold emit_alu_ops. cbn [forM].
  apply wp_assoc, wp_bind, wp_alu32; [done|done|]. intros i Ei Hop. apply wp_assoc. estep.
  { apply (checks_alu i v (arith_sem op v k) K). intros. by eapply ebpf_alu32_exec. }
  apply wp_bind, wp_ret. elast; [by apply checks_emits, IH, arith_u32|]. by eseg Hrun.
Qed.

Lemma alu_sem_u32 ops v : is_u32 v → Forall (λ op, is_u32 op.2) ops → is_u32 (alu_sem ops v).
Proof.
  intros Hv Hops. revert v Hv. induction Hops as [|[op k] ops Hk Hops IH]; intros v Hv; [done|].
  apply IH. by apply arith_u32.
Qed.
End compare.

(** * Checks behind the headers *)

#[export] Instance given_ambient pkt c A `{!Ambient pkt A} : Ambient pkt (given c A).
Proof.
  split; [intros regs [_ H]; by apply amb_inv|].
  intros r v regs [Hc HA] Hr. split; [done|by apply amb_rset].
Qed.

Lemma enet_range link : 0 ≤ link_net_offset link ≤ 16.
Proof. by destruct link. Qed.

Lemma ether_range link o : link_ether_proto_offset link = Some o → 12 ≤ o ≤ 14.
Proof. destruct link; simpl; naive_solver lia. Qed.

Lemma as_u64_i16 k : 0 ≤ k < 2 ^ 31 → as_u64 k = k.
Proof. intros. apply as_u64_small. lia. Qed.

Lemma b8_u32 pkt o : Forall is_u8 pkt → is_u32 (b8 pkt o).
Proof. intros H. pose proof (b8_range pkt H o). unfold is_u32, is_u8 in *. lia. Qed.
Lemma h16_u32 pkt o : Forall is_u8 pkt → is_u32 (h16 pkt o).
Proof. intros H. pose proof (h16_range pkt H o). unfold is_u32, is_u16 in *. lia. Qed.

Lemma u32_u64 v : is_u32 v → is_u64 v.
Proof. unfold is_u32, is_u64. lia. Qed.

(** Side conditions of the rules. *)
Ltac eside :=
  first [assumption|apply _|reflexivity|lia|by apply b8_u64|by apply h16_u64|by apply w32_u64
        |by apply b8_u32|by apply h16_u32|by apply w32_range|by unfold is_u64; lia|by eapply run_below|by eapply run_link0|by auto].

Section prims.
Context (P : list Insn) (pkt : list Z) (host : Endian) (link : LinkType).
Context (Hpkt : Forall is_u8 pkt) (Hsmall : zlen pkt < 2 ^ 27).
Abbreviation checks := (checks P pkt host link).
Abbreviation emits := (emits P pkt host link).
Abbreviation run := (run P pkt host link).
Abbreviation len s := (zlen (eg_insns s)).
Abbreviation inv := (inv pkt).
Abbreviation net := (link_net_offset link).


Lemma checks_ethertype et :
  is_u16 et → checks op_id (emit_ethertype et) (et_is link pkt et) inv inv inv.
Proof.
  intros Het. unfold is_u16 in Het. estart. unfold emit_ethertype, et_is.
  eapply wp_eg_ether_offset; [exact Hrun|].
  destruct (link_ether_proto_offset link) as [o|] eqn:E.
  - pose proof (ether_range _ _ E). eapply checks_half; eside.
  - destruct (et =? 0x800); [|apply wp_fail]. eret.
Qed.

Lemma checks_net_byte o e :
  0 ≤ o < 2 ^ 10 → 0 ≤ e < 2 ^ 31 → checks op_id (check_net_byte o e) (byte_is pkt (net + o) e) inv inv inv.
Proof.
  intros Ho He. pose proof (enet_range link). estart. unfold check_net_byte.
  eapply wp_eg_net_offset; [exact Hrun|]. apply wp_add; [lia|]. eapply checks_byte; eside.
Qed.

Lemma checks_ip4_l4 n : is_u8 n → checks op_id (emit_ip4_l4 n) (v4_l4 link pkt n) inv inv inv.
Proof.
  intros Hn. unfold is_u8 in Hn. estart. unfold emit_ip4_l4.
  estep; [by apply checks_ethertype|]. estep; [by apply checks_net_byte; lia|]. edone.
Qed.

Lemma checks_ip6_l4 n : is_u8 n → checks op_id (emit_ip6_l4 n) (v6_l4 link pkt n) inv inv inv.
Proof.
  intros Hn. unfold is_u8 in Hn. estart. unfold emit_ip6_l4.
  estep; [by apply checks_ethertype|]. estep; [by apply checks_net_byte; lia|]. edone.
Qed.

(** Both families, behind a protocol field at [eo]. *)
Lemma dual_l4_spec eo n :
  link_ether_proto_offset link = Some eo →
  dual_l4 link pkt n =
  has pkt eo 2 && (if h16 pkt eo =? 0x800 then byte_is pkt (net + 9) n
                   else (h16 pkt eo =? 0x86dd) && byte_is pkt (net + 6) n).
Proof.
  intros E. unfold dual_l4, v4_l4, v6_l4, v4, v6, et_is, half_is, EbpfSem.net. rewrite E.
  destruct (has pkt eo 2); [|done]. simpl. destruct (Z.eqb_spec (h16 pkt eo) 0x800) as [->|]; [|done].
  by rewrite orb_false_r.
Qed.

Lemma checks_dual_l4 n : is_u8 n → checks op_id (emit_dual_l4 n) (dual_l4 link pkt n) inv inv inv.
Proof.
  intros Hn. pose proof (enet_range link). pose proof Hn as Hn'. unfold is_u8 in Hn'.
  estart. unfold emit_dual_l4. eapply wp_eg_ether_offset; [exact Hrun|].
  destruct (link_ether_proto_offset link) as [eo|] eqn:E.
  - pose proof (ether_range _ _ E). eapply wp_eg_net_offset; [exact Hrun|].
    estep; [apply checks_load_half; eside|].
    eapply wp_jump_if; [exact Hrun|eside|]. intros sj Hj Hrun1.
    estep; [apply checks_jne; eside|]. apply wp_add; [lia|].
    estep; [eapply checks_mono; [apply checks_byte; eside|done|apply holding_drop|done..]|].
    eapply wp_jump_over; [by eapply run_nest|exact Hj|exact Hrun1|]. intros s2 Hres Hrun2.
    apply wp_add; [lia|]. estep; [apply checks_byte; eside|].
    eapply wp_join; [exact Hrun|exact Hj|exact Hrun1|exact Hres|exact Hrun2|]. clear Hrun Hrun1 Hrun2. intros s4 Hrun.
    edone.
    + by rewrite (dual_l4_spec eo).
    + by destruct (_ =? _).
  - eapply checks_mono; [by apply checks_ip4_l4|..|apply Hrun|apply Hrun]; [|done..].
    unfold dual_l4. assert (v6_l4 link pkt n = false) as ->; [|by rewrite orb_false_r].
    unfold v6_l4, v6, et_is. by rewrite E.
Qed.

Lemma emits_proto p : wf_proto p → emits op_id (emit_proto p) (proto_esem link pkt p) inv inv inv.
Proof.
  intros Hp. apply checks_emits.
  destruct p; first [by apply checks_ethertype|by apply checks_dual_l4|by apply checks_ip4_l4|by apply checks_ip6_l4].
Qed.

(** * Directions *)

Section dir.
Context (A : Regs → Prop) `{!Ambient pkt A}.

Lemma emits_either check a b (t : Z → bool) :
  checks op_slots (check a) (t a) A A A → checks op_slots (check b) (t b) A A A →
  emits op_id (check_either check a b) (t a || t b) A A A.
Proof.
  intros Ha Hb. estart. unfold check_either. estep; [exact Ha|].
  eapply wp_flip; [apply Hrun|apply Hrun|apply Hrun|]. intros s2 Hl Hf Hbelow.
  apply wp_bind. eapply wp_mono; [apply (Hb _ s2 Hbelow Hl)|]. intros l s3 [_ Hs]. apply wp_ret.
  pose proof (eseg_or _ _ _ _ _ _ _ _ _ _ _ _ _ _ _ Hf Hs) as H1. by eseg H1; eslots.
Qed.

Lemma emits_dir check a b (t : Z → bool) dir :
  checks op_slots (check a) (t a) A A A → checks op_slots (check b) (t b) A A A →
  emits op_id (check_dir check a b dir) (dir_sem dir (t a) (t b)) A A A.
Proof.
  intros Ha Hb. destruct dir; cbn [check_dir dir_sem].
  - by apply emits_either.
  - estart. estep; [exact Ha|]. eret.
  - estart. estep; [exact Hb|]. eret.
  - estart. estep; [exact Ha|]. estep; [exact Hb|]. eret.
Qed.
End dir.

(** * Addresses *)

Lemma has_mono a b n : a ≤ b → has pkt b n = true → has pkt a n = true.
Proof. unfold has. intros. zbool. apply Z.leb_le. lia. Qed.

(** Either of two words, the jump on the first one being a success. *)
Lemma word_or src dst x y :
  src ≤ dst → has pkt src 4 && (x || has pkt dst 4 && y) = has pkt src 4 && x || has pkt dst 4 && y.
Proof.
  intros Hle. pose proof (has_mono src dst 4 Hle). destruct (has pkt src 4), (has pkt dst 4), x, y; naive_solver.
Qed.

Lemma emits_addr4 k src dst dir :
  0 ≤ src ≤ dst → dst < 2 ^ 15 →
  emits op_id (check_addr4 (as_i32 k) src dst dir) (dir_sem dir (word_is pkt src k) (word_is pkt dst k)) inv inv inv.
Proof.
  intros Hs Hd. destruct dir; cbn [check_addr4 dir_sem]; estart.
  - estep; [apply checks_load_word; eside|].
    eapply wp_jump_if; [exact Hrun|eside|]. intros sj Hj Hrun1.
    erelease. estep; [apply checks_load_word; eside|]. estep; [apply checks_jne; eside|]. erelease.
    apply wp_ret. pose proof (seg_join _ _ _ _ _ _ _ _ _ _ _ _ _ _ _ _ _ _ _ Hrun Hj Hrun1) as Hs'.
    eseg Hs'. by rewrite word_or by lia.
  - estep; [apply checks_load_word; eside|]. estep; [apply checks_jne; eside|]. edone.
  - estep; [apply checks_load_word; eside|]. estep; [apply checks_jne; eside|]. edone.
  - estep; [apply checks_load_word; eside|]. estep; [apply checks_jne; eside|]. erelease.
    estep; [apply checks_load_word; eside|]. estep; [apply checks_jne; eside|]. edone.
    unfold word_is. by rewrite !andb_assoc.
Qed.

Lemma emits_host4 a dir :
  emits op_id (emit_host4 a dir)
    (v4 link pkt && dir_sem dir (word_is pkt (net + 12) a) (word_is pkt (net + 16) a)) inv inv inv.
Proof.
  pose proof (enet_range link). estart. unfold emit_host4, ip4_guard.
  estep; [by apply checks_ethertype|]. eapply wp_eg_net_offset; [exact Hrun|].
  apply wp_add; [lia|]. apply wp_add; [lia|].
  apply wp_bind. elast; [by apply emits_addr4; lia|]. apply wp_ret. by eseg Hrun; eslots.
Qed.

Lemma checks_ip6 segs i o :
  0 ≤ o → 0 ≤ i → o + 2 * (i + zlen segs) < 2 ^ 15 → Forall is_u16 segs →
  checks op_slots (check_ip6 i segs o) (all_from (λ i seg, half_is pkt (o + i * 2) seg) i segs) inv inv inv.
Proof.
  intros Ho Hi Hlt Hsegs. revert i Hi Hlt.
  induction Hsegs as [|seg segs Hseg Hsegs IH]; intros i Hi Hlt; [estart; cbn [check_ip6]; by eret|].
  rewrite zlen_cons in Hlt. pose proof (zlen_nonneg segs). unfold is_u16 in Hseg.
  estart. cbn [check_ip6 all_from]. apply wp_add; [lia|].
  estep; [apply checks_load_half; eside|]. estep; [apply checks_jne; eside|]. erelease.
  estep; [apply IH; lia|]. edone. unfold half_is. by rewrite as_u64_i16 by lia.
Qed.

Lemma emits_host6 segs dir :
  wf_segments segs →
  emits op_id (emit_host6 segs dir)
    (v6 link pkt && dir_sem dir (addr6_is pkt segs (net + 8)) (addr6_is pkt segs (net + 24))) inv inv inv.
Proof.
  intros [Hlen Hsegs]. pose proof (enet_range link). estart. unfold emit_host6.
  estep; [by apply checks_ethertype|]. eapply wp_eg_net_offset; [exact Hrun|].
  apply wp_add; [lia|]. apply wp_add; [lia|].
  apply wp_bind. elast; [by apply (emits_dir inv _ _ _ (addr6_is pkt segs)); apply checks_ip6; try lia|].
  apply wp_ret. by eseg Hrun; eslots.
Qed.

Lemma checks_net4 n o :
  is_u32 (net_mask n) → 0 ≤ o < 2 ^ 15 →
  checks op_slots (check_net4 (as_i32 (net_mask n)) (as_i32 (net_addr n .& net_mask n)) o) (net4_is pkt n o)
    inv inv inv.
Proof.
  intros Hm Ho. estart. unfold check_net4. estep; [apply checks_load_word; eside|].
  estep; [apply checks_and32; eside|].
  assert (is_u64 (w32 pkt o .& net_mask n)) by (apply u32_u64, u32_land; [by apply w32_range|apply Hm]).
  estep; [apply checks_jne; eside|]. edone.
Qed.

Lemma emits_net n dir :
  is_u32 (net_addr n) → is_u32 (net_mask n) →
  emits op_id (emit_net n dir) (v4 link pkt && dir_sem dir (net4_is pkt n (net + 12)) (net4_is pkt n (net + 16)))
    inv inv inv.
Proof.
  intros Ha Hm. pose proof (enet_range link). estart. unfold emit_net, ip4_guard.
  estep; [by apply checks_ethertype|]. eapply wp_eg_net_offset; [exact Hrun|].
  apply wp_add; [lia|]. apply wp_add; [lia|]. cbv zeta.
  assert (Hmask : ∀ o, is_u64 (w32 pkt o .& net_mask n))
    by (intros; apply u32_u64, u32_land; [by apply w32_range|apply Hm]).
  destruct dir; [|apply wp_bind; elast;
    [by apply (emits_dir inv _ _ _ (net4_is pkt n)); apply checks_net4; try lia|];
    apply wp_ret; by eseg Hrun; eslots..].
  estep; [apply checks_load_word; eside|]. estep; [apply checks_and32; eside|].
  eapply wp_jump_if; [exact Hrun|eside|]. intros sj Hj Hrun1. erelease.
  estep; [apply checks_load_word; eside|]. estep; [apply checks_and32; eside|].
  estep; [apply checks_jne; eside|]. erelease.
  apply wp_ret. pose proof (seg_join _ _ _ _ _ _ _ _ _ _ _ _ _ _ _ _ _ _ _ Hrun Hj Hrun1) as Hs'.
  eseg Hs'; try eslots. cbn [dir_sem]. unfold net4_is. rewrite <- word_or by lia. by rewrite andb_assoc.
Qed.

Lemma all_from_true f i l : (∀ j x, i ≤ j → f j x = true) → all_from f i l = true.
Proof.
  revert i. induction l as [|x l IH]; intros i Hf; [done|]. cbn [all_from].
  rewrite Hf by lia. apply IH. intros. apply Hf. lia.
Qed.

Lemma checks_net6 segs i plen o :
  0 ≤ o → 0 ≤ i → o + 2 * (i + zlen segs) < 2 ^ 15 → Forall is_u16 segs →
  checks op_slots (check_net6 i segs plen o) (all_from (prefix_seg pkt plen o) i segs) inv inv inv.
Proof.
  intros Ho Hi Hlt Hsegs. revert i Hi Hlt.
  induction Hsegs as [|seg segs Hseg Hsegs IH]; intros i Hi Hlt; [estart; cbn [check_net6]; by eret|].
  rewrite zlen_cons in Hlt. pose proof (zlen_nonneg segs). pose proof Hseg as Hseg'. unfold is_u16 in Hseg'.
  estart. cbn [check_net6]. cbv zeta. destruct (Z.leb_spec plen (i * 16)) as [Hle|Hgt].
  { rewrite all_from_true; [by eret|]. intros j x Hj. unfold prefix_seg.
    by rewrite (proj2 (Z.leb_le _ _)) by lia. }
  assert (E : all_from (prefix_seg pkt plen o) i (seg :: segs) =
    has pkt (o + i * 2) 2 &&
    (if i * 16 + 16 <=? plen then h16 pkt (o + i * 2) =? seg
     else h16 pkt (o + i * 2) .& net6_mask (plen - i * 16) =? seg .& net6_mask (plen - i * 16))
    && all_from (prefix_seg pkt plen o) (i + 1) segs).
  { cbn [all_from]. unfold prefix_seg at 1. rewrite (proj2 (Z.leb_gt _ _)) by lia.
    by rewrite net6_segment by (done || lia || by apply h16_range). }
  rewrite E. apply wp_add; [lia|]. estep; [apply checks_load_half; eside|].
  destruct (Z.leb_spec (i * 16 + 16) plen).
  - estep; [apply checks_jne; eside|]. erelease. estep; [apply IH; lia|]. edone.
    by rewrite as_u64_i16 by lia.
  - apply wp_assoc. fold (net6_mask (plen - i * 16)).
    pose proof (net6_mask_u16 (plen - i * 16) ltac:(lia)) as Hmr. unfold is_u16 in Hmr.
    set (m := net6_mask (plen - i * 16)) in *.
    assert (Hland : ∀ x, is_u16 x → is_u16 (x .& m)).
    { intros x Hx. unfold is_u16 in *. apply (land_range 16); lia. }
    pose proof (Hland _ (h16_range pkt Hpkt (o + i * 2))) as Hl. pose proof (Hland seg Hseg) as Hls.
    unfold is_u16 in Hl, Hls.
    estep; [apply checks_and_small; eside|]. estep; [apply checks_jne; eside|]. erelease.
    estep; [apply IH; lia|]. edone. by rewrite (as_u64_i16 (seg .& m)) by lia.
Qed.

Lemma emits_net6 n dir :
  wf_segments (net6_segments n) →
  emits op_id (emit_net6 n dir)
    (v6 link pkt && dir_sem dir (net6_is pkt n (net + 8)) (net6_is pkt n (net + 24))) inv inv inv.
Proof.
  intros [Hlen Hsegs]. pose proof (enet_range link). estart. unfold emit_net6.
  estep; [by apply checks_ethertype|]. eapply wp_eg_net_offset; [exact Hrun|].
  apply wp_add; [lia|]. apply wp_add; [lia|].
  apply wp_bind. elast; [by apply (emits_dir inv _ _ _ (net6_is pkt n)); apply checks_net6; try lia|].
  apply wp_ret. by eseg Hrun; eslots.
Qed.
End prims.
