(* ===== verification/EbpfPorts.v ===== *)
(** Ports of the eBPF compiler: the transport header's offset in R6, for either
    family, and what is tested behind it. *)

From S2P Require Import EbpfCodegen.
From S2P Require Export EbpfPrims.

(** R6 points [t] bytes into the packet. *)
Abbreviation trans_reg t A := (holding R6 (PKT_BASE + t) A).

Section ports.
Context (P : list Insn) (pkt : list Z) (host : Endian) (link : LinkType).
Context (Hpkt : Forall is_u8 pkt) (Hsmall : zlen pkt < 2 ^ 27).
Abbreviation checks := (checks P pkt host link).
Abbreviation emits := (emits P pkt host link).
Abbreviation run := (run P pkt host link).
Abbreviation len s := (zlen (eg_insns s)).
Abbreviation inv := (inv pkt).
Abbreviation net := (link_net_offset link).

Lemma checks_l4_proto o proto :
  0 ≤ o < 2 ^ 15 → checks op_slots (emit_l4_proto_check o proto) (l4_proto_is pkt o proto) inv inv inv.
Proof.
  intros Ho.
  assert (H : ∀ n, 0 ≤ n < 2 ^ 31 →
    checks op_slots (q ← check_byte o n; mret (failure q)) (byte_is pkt o n) inv inv inv).
  { intros n Hn. estart. estep; [apply checks_byte; eside|]. edone. }
  destruct proto as [[]|]; cbn [emit_l4_proto_check l4_proto_is];
    try (by apply H); try (estart; by apply wp_fail).
  estart. estep; [apply checks_load_byte; eside|].
  eapply wp_jump_if; [exact Hrun|eside|]. intros sj Hj Hrun1.
  estep; [apply checks_jne; eside|]. erelease.
  eapply wp_land; [exact Hrun|exact Hj|exact Hrun1|]. clear Hrun Hrun1. intros s4 Hrun. edone.
  unfold byte_is. change (as_u64 6) with 6. change (as_u64 17) with 17. by destruct (has pkt o 1).
Qed.

(** The offset of the transport header of an IPv4 packet. *)
Lemma trans4_range : net ≤ trans4 link pkt ≤ net + 60.
Proof.
  unfold trans4, EbpfSem.net. pose proof (Z.mod_pos_bound (b8 pkt net) 16). lia.
Qed.

Lemma exec_lsh2 regs pc v :
  rval regs R4 = Some v → 0 ≤ v < 16 →
  exec_insn P (ctx_of host pkt) pkt host regs (lsh32_imm R4 2) pc = inl (inl (rset R4 (4 * v) regs, pc + 1)).
Proof.
  intros Hv Hr. assert (Hu : is_u32 v) by (unfold is_u32; lia).
  pose proof (ebpf_alu32_exec P (ctx_of host pkt) pkt host regs pc Shl R4 2 v (eg_new link)
    (lsh32_imm R4 2) (eg_new link) eq_refl ltac:(done) Hv Hu ltac:(done) eq_refl) as H.
  rewrite H. assert (arith_sem Shl v 2 = 4 * v) as ->; [|done].
  cbn [arith_sem]. change (2 mod 32) with 2.
  rewrite Z.shiftl_mul_pow2 by lia. unfold as_u32. rewrite Z.mod_small by lia. lia.
Qed.

Lemma checks_ihl : checks op_slot (emit_ihl net) (has pkt net 1) inv (trans_reg (trans4 link pkt) inv) inv.
Proof.
  pose proof (enet_range link). pose proof (Z.mod_pos_bound (b8 pkt net) 16 ltac:(lia)) as Hm.
  estart. unfold emit_ihl. estep; [apply checks_load_byte; eside|].
  estep; [apply checks_and_small; eside|]. rewrite land_nibble in Hrun. set (h := b8 pkt net mod 16) in *.
  estep.
  { apply (checks_alu P pkt host link inv _ h (4 * h)). intros. by apply exec_lsh2. }
  estep.
  { apply (checks_push _ _ _ _ _ _ (holding R4 (4 * h) (trans_reg 0 inv))). intros regs pc [Hi Hv].
    eexists. split; [|by eapply exec_mov64_reg; [done|done|eapply inv_data|]].
    split; [split|]; [by apply inv_rset|by apply rval_rset_eq; [apply Hi|]|by rewrite rval_rset_ne]. }
  estep.
  { apply (checks_push _ _ _ _ _ _ (holding R4 (4 * h) (trans_reg net inv))). intros regs pc [[Hi H6] Hv].
    eexists. split; [|rewrite as_i32_small by lia; apply exec_add64_imm; [done|exact H6|..]; unfold PKT_BASE; lia].
    split; [split|]; [by apply inv_rset| |by rewrite rval_rset_ne].
    by rewrite rval_rset_eq by (done || apply Hi). }
  estep.
  { apply (checks_push _ _ _ _ _ _ (trans_reg (trans4 link pkt) inv)). intros regs pc [[Hi H6] Hv].
    eexists. split; [|apply exec_add64_reg; [done|done|exact H6|exact Hv|..]; unfold PKT_BASE; lia].
    split; [by apply inv_rset|]. rewrite rval_rset_eq by (done || apply Hi).
    f_equal. unfold trans4, EbpfSem.net. fold h. lia. }
  edone.
Qed.

(** Room for [n] bytes behind R6. *)
Lemma checks_trans_bounds t n :
  0 ≤ t < 2 ^ 20 → 0 ≤ n < 2 ^ 20 →
  checks op_slot (check_trans_bounds n) (has pkt t n) (trans_reg t inv) (given (has pkt t n) (trans_reg t inv)) inv.
Proof.
  intros Ht Hn. eapply checks_given; [done..|].
  eapply (checks_mono _ _ _ _ _ _ _ _ _ _ _ _ (trans_reg t inv)); [|done..|by intros ? [? _]]. estart. unfold check_trans_bounds. estep.
  { apply (checks_push _ _ _ _ _ _ (holding R5 (PKT_BASE + t) (trans_reg t inv))). intros regs pc Hr.
    eexists. split; [by apply (holding_rset pkt); [apply _|done|right]|].
    destruct Hr as [_ H6]. apply exec_mov64_reg; [done..|exact H6|]. unfold is_u64, PKT_BASE. lia. }
  estep.
  { apply (checks_push _ _ _ _ _ _ (holding R5 (PKT_BASE + (t + n)) (trans_reg t inv))). intros regs pc [Hr H5].
    eexists. split; [by apply (holding_rset pkt); [apply _|done|right]|].
    replace (PKT_BASE + (t + n)) with (PKT_BASE + t + n) by lia.
    apply exec_add64_imm; [done|exact H5|..]; unfold PKT_BASE; lia. }
  elast; [apply checks_emits, checks_jgt_end; [apply _| |done]; unfold is_u64, PKT_BASE; lia|].
  eseg Hrun. unfold has, data_end. simpl. apply Bool.eq_iff_eq_true. rewrite !Z.leb_le. lia.
Qed.

(** * The prerequisites of a port test *)

Abbreviation at_trans := (given (has pkt (trans_at link pkt) 4) (trans_reg (trans_at link pkt) inv)).

(** [trans_at] and [has_trans] for each family. *)
Lemma trans_at_v4 : v4 link pkt = true → trans_at link pkt = trans4 link pkt.
Proof. unfold trans_at. by intros ->. Qed.

Lemma trans_at_v6 : v4 link pkt = false → trans_at link pkt = net + 40.
Proof. unfold trans_at. by intros ->. Qed.

Lemma v4_ether eo :
  link_ether_proto_offset link = Some eo → v4 link pkt = has pkt eo 2 && (h16 pkt eo =? 0x800).
Proof. intros E. unfold v4, et_is. by rewrite E. Qed.

Lemma v6_ether eo :
  link_ether_proto_offset link = Some eo → v6 link pkt = has pkt eo 2 && (h16 pkt eo =? 0x86dd).
Proof. intros E. unfold v6, et_is. by rewrite E. Qed.

Lemma has_trans_ether eo proto :
  link_ether_proto_offset link = Some eo →
  has_trans link pkt proto =
  has pkt eo 2 && (if h16 pkt eo =? 0x800 then l4_proto_is pkt (net + 9) proto && has pkt net 1 && has pkt (trans4 link pkt) 4
                   else (h16 pkt eo =? 0x86dd) && l4_proto_is pkt (net + 6) proto && has pkt (net + 40) 4).
Proof.
  intros E. unfold has_trans. rewrite (v4_ether eo E), (v6_ether eo E). unfold EbpfSem.net.
  destruct (has pkt eo 2); [|done]. simpl. by destruct (h16 pkt eo =? 0x800).
Qed.

Lemma checks_port_prereqs proto :
  checks op_id (emit_port_prereqs proto) (has_trans link pkt proto) inv at_trans inv.
Proof.
  pose proof (enet_range link). pose proof trans4_range. estart. unfold emit_port_prereqs.
  eapply wp_eg_ether_offset; [exact Hrun|].
  destruct (link_ether_proto_offset link) as [eo|] eqn:E.
  - pose proof (ether_range _ _ E). eapply wp_eg_net_offset; [exact Hrun|].
    estep; [apply checks_load_half; eside|].
    eapply wp_jump_if; [exact Hrun|eside|]. intros sj Hj Hrun1.
    estep; [apply checks_jne; eside|]. erelease. apply wp_add; [lia|].
    estep; [apply checks_l4_proto; lia|].
    estep.
    { apply (checks_push _ _ _ _ _ _ (trans_reg 0 inv)). intros regs pc Hi. eexists.
      split; [|by eapply exec_mov64_reg; [done|done|eapply inv_data|]].
      split; [by apply inv_rset|by apply rval_rset_eq; [apply Hi|]]. }
    apply wp_add; [lia|]. estep.
    { apply (checks_push _ _ _ _ _ _ (trans_reg (net + 40) inv)). intros regs pc [Hi H6]. eexists.
      split; [|rewrite as_i32_small by lia; apply exec_add64_imm; [done|exact H6|..]; unfold PKT_BASE; lia].
      split; [by apply inv_rset|by rewrite rval_rset_eq by (done || apply Hi)]. }
    estep; [apply checks_trans_bounds; lia|].
    eapply wp_jump_over; [by eapply run_nest|exact Hj|exact Hrun1|]. intros s2 Hres Hrun2.
    apply wp_add; [lia|]. estep; [apply checks_l4_proto; lia|]. estep; [apply checks_ihl|].
    estep; [apply checks_trans_bounds; lia|].
    eapply wp_join; [exact Hrun|exact Hj|exact Hrun1|exact Hres|exact Hrun2|]. clear Hrun Hrun1 Hrun2. intros s4 Hrun.
    edone.
    + by rewrite (has_trans_ether eo).
    + change (as_u64 2048) with 2048. intros Hb r. pose proof (v4_ether eo E) as Hv4.
      destruct (has pkt eo 2); [|done]. simpl in Hb, Hv4. destruct (h16 pkt eo =? 2048).
      * by rewrite trans_at_v4.
      * by rewrite trans_at_v6.
  - unfold emit_port_prereqs_ipv4_only, ip4_guard.
    assert (Hv4 : v4 link pkt = true) by (unfold v4, et_is; by rewrite E).
    estep; [by apply checks_ethertype|]. eapply wp_eg_net_offset; [exact Hrun|]. apply wp_add; [lia|].
    estep; [apply checks_l4_proto; lia|]. estep; [apply checks_ihl|]. estep; [apply checks_trans_bounds; lia|].
    edone.
    + unfold has_trans, EbpfSem.net. change (et_is link pkt 2048) with (v4 link pkt). by rewrite Hv4.
    + by rewrite trans_at_v4.
Qed.

(** * Port tests *)

Lemma checks_to_inv {R} (op : R → Patches) m b I J A :
  Ambient pkt A → checks op m b I J A → checks op m b I J inv.
Proof. intros HA H. eapply checks_mono; [exact H|done..|]. intros r Hr. by apply amb_inv. Qed.

(** One of the two ports. *)
Lemma checks_port_field off K :
  off = 0 ∨ off = 2 →
  checks op_none (push_ldx_h_be R4 R6 off) true at_trans
    (holding R4 (h16 pkt (trans_at link pkt + off)) at_trans) K.
Proof.
  intros Hoff. pose proof (enet_range link). pose proof trans4_range.
  assert (0 ≤ trans_at link pkt) by (unfold trans_at, EbpfSem.net; destruct (v4 _ _); lia).
  eapply checks_mono; [apply (checks_ldx_h P pkt host link Hpkt Hsmall at_trans R6 (trans_at link pkt) ltac:(done));
    [by intros regs [_ [_ ?]]|lia]|done| |done|done].
  intros r Hr. split; [|done]. destruct Hr as [Hh _]. unfold has in *. zbool. apply Z.leb_le. lia.
Qed.

(** Load a port and compare it. *)
Ltac eport := estep; [apply checks_port_field; auto|].
Ltac ejne := estep; [eapply (checks_to_inv _ _ _ _ _ at_trans); [apply _|apply checks_jne; eside]|].

(** The transport header's offset given up. *)
Lemma at_trans_inv regs : at_trans regs → inv regs.
Proof. by intros [_ [? _]]. Qed.

Lemma holding_inv v regs : holding R4 v at_trans regs → inv regs.
Proof. intros [Hr _]. by apply at_trans_inv. Qed.

Lemma emits_port port dir proto :
  is_u16 port →
  emits op_id (emit_port port dir proto) (ports_esem link pkt dir proto (λ p, p =? port)) inv inv inv.
Proof.
  intros Hp. unfold is_u16 in Hp. estart. unfold emit_port, ports_esem.
  estep; [apply checks_port_prereqs|]. cbv zeta. replace (h16 pkt (trans_at link pkt)) with (h16 pkt (trans_at link pkt + 0)) by by rewrite Z.add_0_r.
  destruct dir; cbn [dir_sem].
  - eport. eapply wp_jump_if; [exact Hrun|eside|]. intros sj Hj Hrun1. erelease. eport. ejne. erelease.
    apply wp_ret. pose proof (seg_join _ _ _ _ _ _ _ _ _ _ _ _ _ _ _ _ _ _ _ Hrun Hj Hrun1) as Hs'.
    eseg Hs'; try eslots; [by rewrite as_u64_i16 by lia|]. intros _ r. apply at_trans_inv.
  - eport. ejne. edone; [by rewrite as_u64_i16 by lia|]. intros _ r. apply holding_inv.
  - eport. ejne. edone; [by rewrite as_u64_i16 by lia|]. intros _ r. apply holding_inv.
  - eport. ejne. erelease. eport. ejne. edone; [by rewrite as_u64_i16 by lia|]. intros _ r. apply holding_inv.
Qed.

Lemma checks_range lo hi off :
  is_u16 lo → is_u16 hi → off = 0 ∨ off = 2 →
  checks op_slots (check_range lo hi off)
    (let p := h16 pkt (trans_at link pkt + off) in (lo <=? p) && (p <=? hi)) at_trans at_trans at_trans.
Proof.
  intros Hlo Hhi Hoff. unfold is_u16 in *. estart. unfold check_range. eport.
  estep; [apply (checks_compare P pkt host link at_trans BPF_JLT); [set_solver|eside|symmetry; apply Z.leb_antisym]|].
  estep; [apply (checks_compare P pkt host link at_trans BPF_JGT); [set_solver|eside|symmetry; apply Z.leb_antisym]|].
  erelease. edone. by rewrite !as_u64_i16 by lia.
Qed.

Lemma emits_portrange lo hi dir proto :
  is_u16 lo → is_u16 hi →
  emits op_id (emit_portrange lo hi dir proto)
    (ports_esem link pkt dir proto (λ p, (lo <=? p) && (p <=? hi))) inv inv inv.
Proof.
  intros Hlo Hhi. estart. unfold emit_portrange, ports_esem.
  estep; [apply checks_port_prereqs|]. replace (h16 pkt (trans_at link pkt)) with (h16 pkt (trans_at link pkt + 0)) by by rewrite Z.add_0_r.
  apply wp_bind. elast.
  - eapply emits_mono; [apply (emits_dir P pkt host link at_trans (check_range lo hi) 0 2
      (λ off, let p := h16 pkt (trans_at link pkt + off) in (lo <=? p) && (p <=? hi)));
      by apply checks_range; auto|done|done|done|]. intros r. apply at_trans_inv.
  - apply wp_ret. eseg Hrun; try eslots. intros _ r. apply at_trans_inv.
Qed.
End ports.
