(* ===== verification/EbpfBytes.v ===== *)
(** The other primitives of the eBPF compiler, and all of them together. *)

From S2P Require Import EbpfCodegen.
From S2P Require Export EbpfPorts.

Section bytes.
Context (P : list Insn) (pkt : list Z) (host : Endian) (link : LinkType).
Context (Hpkt : Forall is_u8 pkt) (Hsmall : zlen pkt < 2 ^ 27).
Abbreviation checks := (checks P pkt host link).
Abbreviation emits := (emits P pkt host link).
Abbreviation run := (run P pkt host link).
Abbreviation len s := (zlen (eg_insns s)).
Abbreviation inv := (inv pkt).
Abbreviation net := (link_net_offset link).

(** * Link-layer addresses *)

Lemma six_octets (l : list Z) : zlen l = 6 → ∃ x1 x2 x3 x4 x5 x6, l = [x1; x2; x3; x4; x5; x6].
Proof.
  unfold zlen. intros Hl. do 6 (destruct l as [|? l]; [simpl in Hl; lia|]).
  destruct l; [|simpl in Hl; lia]. by repeat eexists.
Qed.

Lemma low_octets a :
  zlen (mac_octets a) = 6 → Forall is_u8 (mac_octets a) →
  0 ≤ u32_from_be_bytes (drop 4 (mac_octets a)) < 2 ^ 31.
Proof.
  intros (x1 & x2 & x3 & x4 & x5 & x6 & ->)%six_octets Ho. repeat (apply Forall_cons in Ho as [? Ho]).
  unfold u32_from_be_bytes, is_u8 in *. simpl. lia.
Qed.

Lemma checks_mac a o :
  zlen (mac_octets a) = 6 → Forall is_u8 (mac_octets a) → 0 ≤ o < 2 ^ 10 →
  checks op_slots (check_mac (as_i32 (u32_from_be_bytes (take 4 (mac_octets a))))
    (as_i32 (u32_from_be_bytes (drop 4 (mac_octets a)))) o) (mac_is pkt a o) inv inv inv.
Proof.
  intros Hlen Ho8 Ho. estart. unfold check_mac. estep; [apply checks_load_word; eside|].
  estep; [apply checks_jne; eside|]. erelease. apply wp_add; [lia|].
  estep; [apply checks_load_half; eside|]. estep; [apply checks_jne; eside|]. edone.
  pose proof (low_octets a Hlen Ho8) as Hh.
  unfold mac_is, word_is, half_is. change (as_u64 (as_i32 ?x)) with (imm_of x).
  rewrite (imm_of_small (u32_from_be_bytes (drop 4 (mac_octets a)))) by done. by rewrite !andb_assoc.
Qed.

Lemma emits_ether_host a dir :
  zlen (mac_octets a) = 6 → Forall is_u8 (mac_octets a) →
  emits op_id (emit_ether_host a dir) (dir_sem dir (mac_is pkt a 6) (mac_is pkt a 0)) inv inv inv.
Proof.
  intros Hlen Ho. estart. unfold emit_ether_host. apply wp_bind, wp_gets.
  case_decide; [apply wp_fail|]. cbv zeta.
  pose proof (λ o, checks_mac a o Hlen Ho) as Hm.
  destruct dir; cbn [dir_sem].
  - eapply (emits_mono _ _ _ _ _ _ (mac_is pkt a 0 || mac_is pkt a 6)); [|apply orb_comm|done|done|done|apply Hrun..].
    by apply emits_either; apply Hm.
  - estep; [by apply Hm|]. eret.
  - estep; [by apply Hm|]. eret.
  - estep; [by apply (Hm 0)|]. estep; [by apply (Hm 6)|]. edone. apply andb_comm.
Qed.

Lemma emits_ether_multicast :
  emits op_id emit_ether_multicast (has pkt 0 1 && Z.odd (b8 pkt 0)) inv inv inv.
Proof.
  estart. unfold emit_ether_multicast. apply wp_bind, wp_gets. case_decide; [apply wp_fail|].
  estep; [apply checks_load_byte; eside|].
  eapply (wp_jset P pkt host link Hpkt Hsmall inv); [exact Hrun|eside|]. clear Hrun. intros ? ? Hrun. edone.
  change (as_u64 1) with 1. rewrite (land_ones_mod _ 1) by done. change (2 ^ 1) with 2. rewrite Zmod_odd.
  by destruct (Z.odd _).
Qed.

(** * Addresses of many *)

Lemma emits_ip_broadcast :
  emits op_id emit_ip_broadcast (v4 link pkt && word_is pkt (net + 16) 0xffffffff) inv inv inv.
Proof.
  pose proof (enet_range link). estart. unfold emit_ip_broadcast, ip4_guard.
  estep; [by apply checks_ethertype|]. eapply wp_eg_net_offset; [exact Hrun|]. apply wp_add; [lia|].
  estep; [apply checks_word; eside|]. edone.
Qed.

Lemma emits_ip_multicast :
  emits op_id emit_ip_multicast
    (v4 link pkt && has pkt (net + 16) 4 && (w32 pkt (net + 16) .& 0xf0000000 =? imm_of 0xe0000000)) inv inv inv.
Proof.
  pose proof (enet_range link). estart. unfold emit_ip_multicast, ip4_guard.
  assert (is_u64 (w32 pkt (net + 16) .& 0xf0000000)) by (apply u32_u64, u32_land; [by apply w32_range|done]).
  estep; [by apply checks_ethertype|]. eapply wp_eg_net_offset; [exact Hrun|]. apply wp_add; [lia|].
  estep; [apply checks_load_word; eside|]. estep; [apply checks_and32; eside|].
  estep; [apply checks_jne; eside|]. edone.
Qed.

Lemma emits_ip6_multicast :
  emits op_id emit_ip6_multicast (v6 link pkt && byte_is pkt (net + 24) 0xff) inv inv inv.
Proof.
  pose proof (enet_range link). estart. unfold emit_ip6_multicast.
  estep; [by apply checks_ethertype|]. eapply wp_eg_net_offset; [exact Hrun|]. apply wp_add; [lia|].
  estep; [apply checks_byte; eside|]. edone.
Qed.

(** * Tags and tunnels *)

Lemma behind_range d k : 0 ≤ d ≤ 14 → 0 ≤ k ≤ 4 → 0 ≤ behind link d k < 2 ^ 10.
Proof.
  intros. unfold behind. destruct (link_ether_proto_offset link) as [o|] eqn:E; simpl; [|lia].
  pose proof (ether_range _ _ E). lia.
Qed.

Lemma emits_vlan id :
  wf_option is_u16 id → emits op_id (emit_vlan id) (prim_esem link pkt (PVlan id)) inv inv inv.
Proof.
  intros Hid. estart. unfold emit_vlan. estep; [by apply checks_ethertype|].
  destruct id as [vid|]; cbn [prim_esem]; [|eret; by eslots].
  simpl in Hid. unfold is_u16 in Hid. pose proof (behind_range 14 2 ltac:(lia) ltac:(lia)) as Hr.
  eapply wp_eg_ether_offset; [exact Hrun|]. apply wp_add; [unfold behind in Hr; lia|]. fold (behind link 14 2).
  estep; [apply checks_load_half; eside|]. estep; [apply checks_and_small; eside|].
  rewrite (land_ones_mod _ 12) in Hrun by done.
  assert (is_u64 (h16 pkt (behind link 14 2) mod 2 ^ 12)).
  { pose proof (Z.mod_pos_bound (h16 pkt (behind link 14 2)) (2 ^ 12)). unfold is_u64. lia. }
  estep; [apply checks_jne; eside|]. edone. by rewrite as_u64_i16 by lia.
Qed.

Lemma emits_pppoe id :
  wf_option is_u16 id → emits op_id (emit_pppoe_session id) (prim_esem link pkt (PPppoeSession id)) inv inv inv.
Proof.
  intros Hid. estart. unfold emit_pppoe_session. estep; [by apply checks_ethertype|].
  destruct id as [sid|]; cbn [prim_esem]; [|eret; by eslots].
  simpl in Hid. unfold is_u16 in Hid. pose proof (behind_range 12 4 ltac:(lia) ltac:(lia)) as Hr.
  eapply wp_eg_ether_offset; [exact Hrun|]. apply wp_add; [unfold behind in Hr; lia|]. fold (behind link 12 4).
  estep; [apply checks_load_half; eside|]. estep; [apply checks_jne; eside|]. edone.
  unfold half_is. by rewrite as_u64_i16, !andb_assoc by lia.
Qed.

Lemma exec_rsh12 regs pc v :
  rval regs R4 = Some v → is_u32 v →
  exec_insn P (ctx_of host pkt) pkt host regs (rsh32_imm R4 12) pc =
    inl (inl (rset R4 (Z.shiftr v 12) regs, pc + 1)).
Proof.
  intros Hv Hu.
  exact (ebpf_alu32_exec P (ctx_of host pkt) pkt host regs pc Shr R4 12 v (eg_new link)
    (rsh32_imm R4 12) (eg_new link) eq_refl ltac:(done) Hv Hu ltac:(done) eq_refl).
Qed.

Lemma emits_mpls label :
  emits op_id (emit_mpls label) (prim_esem link pkt (PMpls label)) inv inv inv.
Proof.
  estart. unfold emit_mpls. eapply wp_eg_ether_offset; [exact Hrun|].
  destruct (link_ether_proto_offset link) as [eo|] eqn:E; [|apply wp_fail]. pose proof (ether_range _ _ E).
  estep; [apply checks_load_half; eside|].
  eapply wp_jump_if; [exact Hrun|eside|]. intros sj Hj Hrun1.
  estep; [apply checks_jne; eside|]. erelease.
  eapply wp_land; [exact Hrun|exact Hj|exact Hrun1|]. clear Hrun Hrun1. intros s4 Hrun. cbv zeta.
  assert (Het : et_is link pkt 0x8847 || et_is link pkt 0x8848 =
    has pkt eo 2 && ((h16 pkt eo =? 0x8847) || (h16 pkt eo =? 0x8848))).
  { unfold et_is, half_is. rewrite E. by destruct (has pkt eo 2). }
  cbn [prim_esem]. rewrite Het. destruct label as [lbl|]; [|edone].
  assert (Hb : behind link 0 2 = eo + 2) by (unfold behind; by rewrite E). rewrite Hb.
  apply wp_add; [lia|]. estep; [apply checks_load_word; eside|].
  pose proof (w32_range pkt Hpkt (eo + 2)) as Hw.
  estep.
  { apply (checks_alu P pkt host link inv _ (w32 pkt (eo + 2)) (Z.shiftr (w32 pkt (eo + 2)) 12)).
    intros. by apply exec_rsh12. }
  assert (is_u64 (Z.shiftr (w32 pkt (eo + 2)) 12)).
  { unfold is_u64, is_u32 in *. rewrite Z.shiftr_div_pow2 by lia. Z.div_mod_to_equations. lia. }
  estep; [apply checks_jne; eside|]. edone.
Qed.

(** * Lengths and byte accesses *)

Lemma emits_len op v : emits op_id (emit_len op v) (cmp_esem op (zlen pkt) v) inv inv inv.
Proof.
  pose proof (zlen_nonneg pkt). estart. unfold emit_len. estep.
  { apply (checks_push _ _ _ _ _ _ (holding R4 (data_end pkt) inv)). intros regs pc Hi. eexists.
    split; [by apply (holding_rset pkt); [apply _|done|left]|].
    eapply exec_mov64_reg; [done|done|by apply inv_end|]. unfold is_u64, data_end, PKT_BASE. lia. }
  estep.
  { apply (checks_push _ _ _ _ _ _ (holding R4 (zlen pkt) inv)). intros regs pc [Hi Hv]. eexists.
    split; [by apply (holding_rset pkt); [apply _|done|left]|].
    replace (zlen pkt) with (data_end pkt - PKT_BASE) by (unfold data_end; lia).
    eapply exec_sub64_reg; [done|done|exact Hv|by eapply inv_data|..]; unfold data_end, PKT_BASE; lia. }
  elast; [apply checks_emits, checks_cmp; eside|]. by eseg Hrun.
Qed.

Lemma load_sem_u32 sz o : is_u32 (load_sem pkt sz o).
Proof. destruct sz; [by apply b8_u32|by apply h16_u32|by apply w32_range]. Qed.

Lemma checks_load_size sz o :
  0 ≤ o < 2 ^ 15 →
  checks op_slot (emit_load_size sz o) (has pkt o (size_of sz)) inv (holding R4 (load_sem pkt sz o) inv) inv.
Proof. intros Ho. destruct sz; [apply checks_load_byte; eside|apply checks_load_half; eside|apply checks_load_word; eside]. Qed.

Lemma fit_access_spec ba :
  fit_access ba = true → ba_offset ba < 2 ^ 14 ∧ forallb shift_fits (ba_alu_ops ba) = true.
Proof.
  unfold fit_access. intros H. apply andb_true_iff in H as [H1 H2]. zbool. split; [done|].
  revert H2. induction (ba_alu_ops ba) as [|[op k] l IH]; [done|]. cbn [forallb]. rewrite !andb_true_iff.
  intros [? ?]. by split; [destruct op|auto].
Qed.

(** The arithmetic and the comparison of what R4 holds. *)
Tactic Notation "ecompare" constr(A) :=
  estep; [apply (checks_alu_ops P pkt host link A); first [eassumption|eside]|];
  estep; [apply (checks_cmp P pkt host link Hpkt Hsmall A); by apply u32_u64, alu_sem_u32|].

Lemma emits_fixed_access ba value base :
  wf_byte_access ba → fit_access ba = true → 0 ≤ base ≤ 16 →
  emits op_id (emit_fixed_byte_access ba value base) (access_esem pkt ba (base + ba_offset ba) value) inv inv inv.
Proof.
  intros (Hoff & Hops & _) [Hlt Hfit]%fit_access_spec Hbase. unfold wf_offset in Hoff.
  pose proof (load_sem_u32 (ba_size ba) (base + ba_offset ba)) as Hv.
  estart. unfold emit_fixed_byte_access, as_u32. rewrite Z.mod_small by lia. apply wp_add; [lia|].
  estep; [apply checks_load_size; lia|]. ecompare inv. edone.
Qed.

Lemma wp_i32_add {B} a b s (k : Z → EG B) Q :
  0 ≤ a → 0 ≤ b → a + b < 2 ^ 31 → wp (k (a + b)) s Q → wp (i32_add a b ≫= k) s Q.
Proof.
  intros. apply wp_bind. unfold i32_add.
  by rewrite (proj2 (Z.leb_le _ _)), (proj2 (Z.ltb_lt _ _)) by lia.
Qed.

Lemma size_bytes_range sz : 1 ≤ size_bytes sz ≤ 4.
Proof. destruct sz; simpl; lia. Qed.

(** A load through R6. *)
Lemma checks_load_trans sz t o K :
  0 ≤ t → 0 ≤ o →
  checks op_none
    (match sz with
     | Byte => push (ldx_b R4 R6 o);; mret tt
     | Half => push_ldx_h_be R4 R6 o
     | Word => push_ldx_w_be R4 R6 o
     end) true (given (has pkt (t + o) (size_of sz)) (trans_reg t inv))
    (holding R4 (load_sem pkt sz (t + o)) (trans_reg t inv)) K.
Proof.
  intros Ht Ho. assert (H6 : ∀ regs, trans_reg t inv regs → rval regs R6 = Some (PKT_BASE + t)) by by intros regs [_ ?].
  destruct sz.
  - estart. estep; [apply (checks_ldx_b P pkt host link Hpkt Hsmall (trans_reg t inv) R6 t ltac:(done) H6); lia|]. eret.
  - apply (checks_ldx_h P pkt host link Hpkt Hsmall (trans_reg t inv) R6 t ltac:(done) H6); lia.
  - apply (checks_ldx_w P pkt host link Hpkt Hsmall (trans_reg t inv) R6 t ltac:(done) H6); lia.
Qed.

Lemma emits_trans_access ba value :
  wf_byte_access ba → fit_access ba = true →
  emits op_id (emit_trans_byte_access ba value)
    (has pkt net 1 && access_esem pkt ba (trans4 link pkt + ba_offset ba) value) inv inv inv.
Proof.
  intros (Hoff & Hops & _) [Hlt Hfit]%fit_access_spec. unfold wf_offset in Hoff.
  pose proof (enet_range link). pose proof (trans4_range pkt link). pose proof (size_bytes_range (ba_size ba)).
  pose proof (load_sem_u32 (ba_size ba) (trans4 link pkt + ba_offset ba)) as Hv.
  estart. unfold emit_trans_byte_access. eapply wp_eg_net_offset; [exact Hrun|].
  estep; [by apply checks_ihl|]. apply wp_i32_add; [lia..|].
  estep; [apply checks_trans_bounds; eside|]. rewrite as_i16_small by lia.
  assert (Hhas : has pkt (trans4 link pkt) (ba_offset ba + size_bytes (ba_size ba)) =
    has pkt (trans4 link pkt + ba_offset ba) (size_of (ba_size ba))).
  { unfold has, size_of. by rewrite Z.add_assoc. }
  rewrite Hhas in Hrun. estep; [apply checks_load_trans; lia|].
  apply (run_weaken _ _ _ _ _ _ _ _ _ _ _ (holding R4 (load_sem pkt (ba_size ba) (trans4 link pkt + ba_offset ba)) inv))
    in Hrun; [|by intros r [[? _] ?]].
  ecompare inv. edone. unfold access_esem. by rewrite ?andb_assoc.
Qed.

Lemma emits_byte_access ba :
  wf_byte_access ba → fit_access ba = true →
  emits op_id (emit_byte_access ba) (byte_access_esem link pkt ba) inv inv inv.
Proof.
  intros Hwf Hfit. pose proof (enet_range link). unfold emit_byte_access, byte_access_esem.
  destruct (ba_rhs ba) as [value|l]; [|intros O s _ _; apply wp_fail].
  destruct (ba_layer ba).
  - by apply (emits_fixed_access ba value 0).
  - estart. eapply wp_eg_net_offset; [exact Hrun|].
    apply (emits_fixed_access ba value net Hwf Hfit); [done|apply Hrun|apply Hrun].
  - by apply emits_trans_access.
Qed.

(** Every primitive decides its meaning. *)
Lemma emits_primitive p :
  wf_primitive p → fit (Prim p) = true → emits op_id (emit_primitive p) (prim_esem link pkt p) inv inv inv.
Proof.
  intros Hwf Hfit. destruct p; cbn [emit_primitive prim_esem wf_primitive] in *.
  - destruct addr; [by apply emits_host4|by apply emits_host6].
  - by apply emits_port.
  - apply emits_portrange; first [assumption|apply Hwf].
  - apply emits_net; first [assumption|apply Hwf].
  - apply emits_net6; first [assumption|apply Hwf].
  - by apply emits_proto.
  - apply emits_ether_host; first [assumption|apply Hwf].
  - by apply checks_emits, checks_ethertype.
  - by apply emits_ether_multicast.
  - by apply emits_ip_broadcast.
  - by apply emits_ip_multicast.
  - by apply emits_ip6_multicast.
  - by apply emits_vlan.
  - by apply emits_mpls.
  - by apply checks_emits, checks_ethertype.
  - by apply emits_pppoe.
  - by apply checks_emits, checks_ip4_l4.
  - by apply checks_emits, checks_ip6_l4.
  - by apply emits_len.
  - intros O s _ _. apply wp_fail.
  - intros O s _ _. apply wp_fail.
  - by apply emits_byte_access.
Qed.
End bytes.
