(* ===== verification/EbpfCorrect.v ===== *)
(** The eBPF compiler: the walk as recursion, the segment of every expression,
    and the program it returns, run by the reference interpreter. *)

From S2P Require Import EbpfCodegen.
From S2P Require Export EbpfBytes.

(** * The walk as recursion *)

Fixpoint ebpf_rec (e : Expr) : EG Patches :=
  match e with
  | Prim p => emit_primitive p
  | And l r =>
      left_p ← ebpf_rec l;
      and_right left_p;;
      right_p ← ebpf_rec r;
      mret (and_done (failure left_p) right_p)
  | Or l r =>
      left_p ← ebpf_rec l;
      ja_idx ← or_right left_p;
      right_p ← ebpf_rec r;
      mret (or_done (success left_p) ja_idx right_p)
  | Not x =>
      inner_p ← ebpf_rec x;
      not_done inner_p
  end.

(** The turns the loop takes for an expression. *)
Fixpoint turns (e : Expr) : nat :=
  match e with
  | Prim _ => 1
  | And l r | Or l r => 3 + turns l + turns r
  | Not x => 2 + turns x
  end.

Lemma turns_size e : (turns e ≤ 3 * size e)%nat.
Proof. induction e; simpl; lia. Qed.

Lemma eg_bind_ext {R B} (m : EG R) (f g : R → EG B) s :
  (∀ a s', f a s' = g a s') → (m ≫= f) s = (m ≫= g) s.
Proof. intros H. unfold mbind, Error.M_bind. by destruct (m s) as [[]| | |]. Qed.

Lemma eg_bind_assoc {R B C} (m : EG R) (f : R → EG B) (g : B → EG C) s :
  ((m ≫= f) ≫= g) s = (x ← m; f x ≫= g) s.
Proof. unfold mbind, Error.M_bind. by destruct (m s) as [[]| | |]. Qed.

Lemma eg_ret_bind {R B} (a : R) (f : R → EG B) s : (mret a ≫= f) s = f a s.
Proof. done. Qed.

Lemma walk_rec e n work dn s :
  walk_loop (turns e + n) (WEmit e :: work) dn s = (p ← ebpf_rec e; walk_loop n work (p :: dn)) s.
Proof.
  revert n work dn s. induction e as [l IHl r IHr|l IHl r IHr|x IHx|p]; intros n work dn s;
    cbn [turns ebpf_rec].
  - change (3 + turns l + turns r + n)%nat with (S (2 + turns l + turns r + n)).
    cbn [walk_loop walk_step]. unfold mbind at 1, Error.M_bind at 1.
    replace (2 + turns l + turns r + n)%nat with (turns l + S (turns r + S n))%nat by lia.
    cbn -[walk_loop ebpf_rec]. rewrite IHl, eg_bind_assoc. apply eg_bind_ext. intros lp s1.
    cbn [walk_loop walk_step]. rewrite !eg_bind_assoc. apply eg_bind_ext. intros [] s2.
    rewrite eg_ret_bind, IHr, eg_bind_assoc. by apply eg_bind_ext.
  - change (3 + turns l + turns r + n)%nat with (S (2 + turns l + turns r + n)).
    cbn [walk_loop walk_step]. unfold mbind at 1, Error.M_bind at 1.
    replace (2 + turns l + turns r + n)%nat with (turns l + S (turns r + S n))%nat by lia.
    cbn -[walk_loop ebpf_rec]. rewrite IHl, eg_bind_assoc. apply eg_bind_ext. intros lp s1.
    cbn [walk_loop walk_step]. rewrite !eg_bind_assoc. apply eg_bind_ext. intros ja s2.
    rewrite eg_ret_bind, IHr, eg_bind_assoc. by apply eg_bind_ext.
  - change (2 + turns x + n)%nat with (S (1 + turns x + n)).
    cbn [walk_loop walk_step]. unfold mbind at 1, Error.M_bind at 1.
    replace (1 + turns x + n)%nat with (turns x + S n)%nat by lia.
    cbn -[walk_loop ebpf_rec]. rewrite IHx, eg_bind_assoc. apply eg_bind_ext. intros xp s1.
    cbn [walk_loop walk_step]. rewrite !eg_bind_assoc. by apply eg_bind_ext.
  - cbn [walk_loop walk_step Nat.add]. rewrite eg_bind_assoc. by apply eg_bind_ext.
Qed.

Lemma emit_expr_rec e s : emit_expr e s = ebpf_rec e s.
Proof.
  pose proof (turns_size e). unfold emit_expr, walk_fuel.
  replace (S (3 * size e)) with (turns e + S (3 * size e - turns e))%nat by lia.
  rewrite walk_rec. unfold mbind, Error.M_bind. by destruct (ebpf_rec e s) as [[]| | |].
Qed.

(** * Expressions *)

Section exprs.
Context (P : list Insn) (pkt : list Z) (host : Endian) (link : LinkType).
Context (Hpkt : Forall is_u8 pkt) (Hsmall : zlen pkt < 2 ^ 27).
Abbreviation emits := (emits P pkt host link).
Abbreviation seg := (seg P pkt host).
Abbreviation len s := (zlen (eg_insns s)).
Abbreviation inv := (inv pkt).

(** Behind the left operand of an AND, its successes lead on. *)
Lemma wp_eg_and_right {B} O s0 s p b (k : EG B) Q :
  below O s0 → eg_link s0 = link → seg O s0 s p b inv inv inv →
  (∀ s', run P pkt host link O s0 s' (failure p) b inv inv inv → wp k s' Q) →
  wp (and_right p;; k) s Q.
Proof.
  intros HO Hl Hs HQ. unfold and_right. apply wp_assoc.
  change (wp (resolve_all (success p) (len s);; k) s Q). apply wp_bind, wp_eg_resolve_all.
  { intros q Hq. pose proof (zlen_nonneg (eg_insns s0)).
    pose proof (sg_range _ _ _ _ _ _ _ _ _ _ _ Hs q (or_introl Hq)). lia. }
  intros s' Hres. apply HQ. split; [done|done|].
  eapply seg_land; [done| |exact Hres]. by destruct p.
Qed.

(** Behind the left operand of an OR, its failures lead on. *)
Lemma wp_eg_or_right {B} O s0 s p b (k : Z → EG B) Q :
  below O s0 → eg_link s0 = link → seg O s0 s p b inv inv inv →
  (∀ ja s', eg_link s' = link → seg O s0 s' (fails (success p ++ [ja])) (negb b) inv inv inv →
    below (O ++ success p ++ [ja]) s' → wp (k ja) s' Q) →
  wp (ja_idx ← or_right p; k ja_idx) s Q.
Proof.
  intros HO Hl Hs HQ. destruct p as [S F].
  assert (H : wp (ja_idx ← push (ja 0); start ← here; resolve_all F start;; k ja_idx) s Q)
    by (by eapply wp_flip; [exact HO|exact Hl|exact Hs|]; auto).
  revert H. unfold or_right, wp, push, here, gets, mbind, Error.M_bind. cbn [failure].
  by destruct (resolve_all _ _ _) as [[]| | |].
Qed.

Lemma emits_expr e :
  wf_expr e → fit e = true → emits op_id (ebpf_rec e) (esem link pkt e) inv inv inv.
Proof.
  induction e as [l IHl r IHr|l IHl r IHr|x IHx|p]; intros Hwf Hfit; cbn [ebpf_rec esem].
  - destruct Hwf as [Hl Hr]. cbn [fit] in Hfit. apply andb_true_iff in Hfit as [Fl Fr].
    intros O s HO Hlk. apply wp_bind. eapply wp_mono; [by apply IHl|]. intros p s1 Hs.
    eapply wp_eg_and_right; [done|done|exact Hs|]. intros s2 Hrun. apply wp_bind.
    elast; [by apply IHr|]. apply wp_ret. eapply eseg_mono; [exact Hrun|done..|].
    intros q. unfold op_id, and_done. cbn [failure]. by rewrite Codegen.elem_of_concat.
  - destruct Hwf as [Hl Hr]. cbn [fit] in Hfit. apply andb_true_iff in Hfit as [Fl Fr].
    intros O s HO Hlk. apply wp_bind. eapply wp_mono; [by apply IHl|]. intros p s1 Hs.
    eapply wp_eg_or_right; [done|done|exact Hs|]. intros ja s2 Hlk2 Hf Hb. apply wp_bind.
    eapply wp_mono; [by apply (IHr Hr Fr _ s2 Hb Hlk2)|]. intros q s3 Hs3. apply wp_ret.
    pose proof (eseg_or _ _ _ _ _ _ _ _ _ _ _ _ _ _ _ Hf Hs3) as H. eapply eseg_mono; [exact H|done..| |done].
    intros t. unfold op_id, or_done. cbn [success]. by rewrite Codegen.elem_of_concat.
  - cbn [fit] in Hfit. intros O s HO Hlk. apply wp_bind.
    eapply wp_mono; [by apply IHx|]. intros [S F] s1 Hs.
    unfold not_done. cbn [success failure].
    eapply wp_flip; [exact HO|exact Hlk|exact Hs|]. intros s2 _ Hf _. by apply wp_ret.
  - by apply emits_primitive.
Qed.
End exprs.

(** * Whole programs *)

Lemma agrees_self s : agrees (eg_insns s) s [].
Proof. intros i insn E. exists (off insn). by rewrite set_off_off. Qed.

Lemma agrees_prefix P s s' O :
  (∃ l, eg_insns s' = eg_insns s ++ l) → agrees P s' O → agrees P s O.
Proof.
  intros [l E] H i insn Hi. apply H. rewrite E. pose proof (zget_Some_lt _ _ _ Hi).
  by rewrite zget_app_l by lia.
Qed.

(** The two exits behind the code. *)
Definition stubs : list Insn := [mov64_imm R0 XDP_PASS; exit; mov64_imm R0 XDP_DROP; exit].

(** The code of [s], its slots resolved to the exits, is placed in the result. *)
Lemma finish_placed s q s5 s6 n0 :
  let P := eg_insns s6 in
  let s4 := set_insns (eg_insns s ++ stubs) s in
  (∀ p, p ∈ success q ∨ p ∈ failure q → n0 ≤ p < zlen (eg_insns s)) → 0 ≤ n0 →
  (∀ p, p ∈ success q → p ∈ failure q → False) →
  resolved (success q) (zlen (eg_insns s)) s4 s5 → resolved (failure q) (zlen (eg_insns s) + 2) s5 s6 →
  placed P s (success q ++ failure q) ∧ agrees P s4 (success q ++ failure q) ∧
  zlen P = zlen (eg_insns s) + 4 ∧
  (∀ p, p ∈ success q → tgt P p = zlen (eg_insns s)) ∧
  (∀ p, p ∈ failure q → tgt P p = zlen (eg_insns s) + 2).
Proof.
  intros P s4 Hr Hn0 Hap R5 R6. pose proof (rs_len _ _ _ _ R5) as L5. pose proof (rs_len _ _ _ _ R6) as L6.
  assert (L4 : zlen (eg_insns s4) = zlen (eg_insns s) + 4) by (simpl; by rewrite zlen_app).
  destruct (agrees_resolved P (failure q) _ s5 s6 [] R6 (agrees_self s6)) as [A5 T5].
  { intros p Hp. split; [apply not_elem_of_nil|]. specialize (Hr p (or_intror Hp)). lia. }
  destruct (agrees_resolved P (success q) _ s4 s5 _ R5 A5) as [A4 T4].
  { intros p Hp. split; [intros Hp'; by eapply Hap|]. specialize (Hr p (or_introl Hp)). lia. }
  assert (A4' : agrees P s4 (success q ++ failure q)).
  { intros i insn E. destruct (A4 i insn E) as (o & Eo & Ho). exists o. split; [done|].
    intros Hn. apply Ho. rewrite elem_of_app in *. simpl in *. naive_solver. }
  split_and!; [|done|unfold P; lia|done|done]. split.
  - unfold P. lia.
  - eapply agrees_prefix; [|exact A4']. by exists stubs.
  - intros p [Hp|Hp]%elem_of_app.
    + rewrite (T4 p Hp). specialize (Hr p (or_introl Hp)). unfold P. lia.
    + rewrite (T5 p Hp). specialize (Hr p (or_intror Hp)). unfold P. lia.
Qed.

Definition prologue (link : LinkType) : Codegen := mk_codegen [ldx_w R2 R1 0; ldx_w R3 R1 4] link.

(** What the body of [compile] does: the code of the expression behind the
    prologue, its slots resolved to the exits. *)
Inductive compiled (P : list Insn) (pkt : list Z) (host : Endian) (link : LinkType) (e : Expr) (s6 : Codegen) : Prop :=
  | Compiled s q s5 :
      seg P pkt host [] (prologue link) s q (esem link pkt e) (inv pkt) (inv pkt) (inv pkt) →
      resolved (success q) (zlen (eg_insns s)) (set_insns (eg_insns s ++ stubs) s) s5 →
      resolved (failure q) (zlen (eg_insns s) + 2) s5 s6 →
      compiled P pkt host link e s6.

Section compile.
Context (e : Expr) (link : LinkType) (Hwf : wf_expr e) (Hfit : fit e = true).

(** The exits, and the jumps to them. *)
Lemma wp_finish P pkt host s q :
  seg P pkt host [] (prologue link) s q (esem link pkt e) (inv pkt) (inv pkt) (inv pkt) →
  wp (accept_idx ← here;
      push (mov64_imm R0 XDP_PASS);;
      push exit;;
      drop_idx ← here;
      push (mov64_imm R0 XDP_DROP);;
      push exit;;
      resolve_all (success q) accept_idx;;
      resolve_all (failure q) drop_idx) s (λ _ s6, compiled P pkt host link e s6).
Proof.
  intros Hs. pose proof (sg_range _ _ _ _ _ _ _ _ _ _ _ Hs) as Hr. change (zlen (eg_insns (prologue link))) with 2 in Hr.
  set (s4 := set_insns (eg_insns s ++ stubs) s).
  assert (L4 : zlen (eg_insns s4) = zlen (eg_insns s) + 4) by (simpl; by rewrite zlen_app).
  assert (Hw : wp (resolve_all (success q) (zlen (eg_insns s));; resolve_all (failure q) (zlen (eg_insns s) + 2)) s4
    (λ _ s6, compiled P pkt host link e s6)).
  { apply wp_bind, wp_eg_resolve_all; [intros p Hp; specialize (Hr p (or_introl Hp)); lia|]. intros s5 R5.
    pose proof (rs_len _ _ _ _ R5). apply wp_eg_resolve_all; [intros p Hp; specialize (Hr p (or_intror Hp)); lia|].
    intros s6 R6. by apply (Compiled _ _ _ _ _ _ s q s5). }
  unfold wp, push, here, gets, mbind, Error.M_bind in *. cbn [set_insns eg_insns eg_link].
  rewrite <- !app_assoc, !zlen_app. cbn [app]. exact Hw.
Qed.

Lemma ebpf_compile_spec P pkt host :
  Forall is_u8 pkt → zlen pkt < 2 ^ 27 →
  match compile e link with
  | Ok p => ∃ s6, p = mk_program (eg_insns s6) ∧ compiled P pkt host link e s6
  | Err _ => True
  | Panic | OutOfFuel => False
  end.
Proof.
  intros Hpkt Hsmall.
  assert (H : wp (patches ← emit_expr e;
      accept_idx ← here;
      push (mov64_imm R0 XDP_PASS);;
      push exit;;
      drop_idx ← here;
      push (mov64_imm R0 XDP_DROP);;
      push exit;;
      resolve_all (success patches) accept_idx;;
      resolve_all (failure patches) drop_idx) (prologue link) (λ _ s6, compiled P pkt host link e s6)).
  { apply wp_bind. unfold wp at 1. rewrite emit_expr_rec. fold (wp (ebpf_rec e)).
    apply (wp_mono (ebpf_rec e) (prologue link) _ _
      (emits_expr P pkt host link Hpkt Hsmall e Hwf Hfit [] (prologue link) ltac:(by intros p ?%not_elem_of_nil) eq_refl)).
    intros q s Hs. by apply wp_finish. }
  match type of H with wp ?m _ _ =>
    assert (E : compile e link = ('(_, s) ← m (prologue link); Ok (mk_program (eg_insns s)))) by done
  end.
  rewrite E. clear E. unfold wp in H.
  match type of H with match ?x with Ok _ => _ | _ => _ end => destruct x as [[[] s6]| | |] end; [|done..].
  by exists s6.
Qed.

(** An exit of the placed program, reached in as many turns as the distance. *)
Lemma stub_runs P pkt host s O i k n regs pc :
  agrees P (set_insns (eg_insns s ++ stubs) s) O → (∀ p, p ∈ O → p < zlen (eg_insns s)) →
  pc = zlen (eg_insns s) + i → zget stubs i = Some (mov64_imm R0 k) → zget stubs (i + 1) = Some exit → 0 ≤ i →
  is_u64 k → wf_regs regs →
  exec_loop (S (S n)) P (ctx_of host pkt) pkt host regs pc = inl k.
Proof.
  intros Ha HO -> E0 E1 Hi Hk Hw.
  assert (Hg : ∀ j insn, 0 ≤ j → zget stubs j = Some insn → zget P (zlen (eg_insns s) + j) = Some insn).
  { intros j insn Hj E. destruct (Ha (zlen (eg_insns s) + j) insn) as (o & Eo & Ho).
    - simpl. rewrite zget_app_r by lia. by replace (zlen (eg_insns s) + j - zlen (eg_insns s)) with j by lia.
    - rewrite Eo, Ho; [by rewrite set_off_off|]. intros Hp%HO. lia. }
  eapply exec_stub; [done|by apply Hg| |done].
  replace (zlen (eg_insns s) + i + 1) with (zlen (eg_insns s) + (i + 1)) by lia. apply Hg; [lia|done].
Qed.

Lemma compiled_runs pkt host s6 :
  compiled (eg_insns s6) pkt host link e s6 → zlen pkt < 2 ^ 27 → zlen (eg_insns s6) ≤ 2 ^ 16 →
  run_ebpf (eg_insns s6) pkt host = inl (if esem link pkt e then Match else NoMatch).
Proof.
  intros [s q s5 Hs R5 R6] Hsmall Hlim. set (P := eg_insns s6) in *.
  pose proof (sg_range _ _ _ _ _ _ _ _ _ _ _ Hs) as Hr. change (zlen (eg_insns (prologue link))) with 2 in Hr.
  destruct (finish_placed s q s5 s6 2 Hr ltac:(lia) (sg_apart _ _ _ _ _ _ _ _ _ _ _ Hs) R5 R6)
    as (Hp & Ha & HL & HtS & HtF). fold P in Hp, Ha, HL, HtS, HtF.
  assert (HO : ∀ p, p ∈ success q ++ failure q → p < zlen (eg_insns s)).
  { intros p Hp'%elem_of_app. specialize (Hr p Hp'). lia. }
  pose proof (sg_placed _ _ _ _ _ _ _ _ _ _ _ Hs Hp) as [_ H2 _].
  assert (Hpro : ∀ i insn, zget (eg_insns (prologue link)) i = Some insn → zget P i = Some insn).
  { intros i insn E. destruct (H2 i insn E) as (o & -> & Ho).
    rewrite Ho by apply not_elem_of_nil. by rewrite set_off_off. }
  pose proof (reach_prologue P pkt host Hsmall (Hpro 0 _ eq_refl) (Hpro 1 _ eq_refl)) as Hreach.
  destruct (ereach_bind _ _ _ _ _ _ (lands P s q (esem link pkt e) (inv pkt) (inv pkt)) Hreach)
    as (n & regs & pc & Hl & Hn & Hrun).
  { intros regs pc [-> Hi]. by apply (sg_run _ _ _ _ _ _ _ _ _ _ _ Hs Hp). }
  assert (Hexec : ∀ k : Z, pc ≤ zlen (eg_insns s) + 2 →
    (∀ m, exec_loop (S (S m)) P (ctx_of host pkt) pkt host regs pc = inl k) → exec P pkt host = inl k).
  { intros k Hpc Hk. unfold exec.
    assert (EL : STEP_LIMIT = (n + S (S (STEP_LIMIT - n - 2)))%nat).
    { assert (Z.of_nat STEP_LIMIT = 2 ^ 16) by (unfold STEP_LIMIT; rewrite Z2Nat.id; done). lia. }
    rewrite EL, Hrun. apply Hk. }
  unfold run_ebpf, lands in *. destruct (esem link pkt e).
  - destruct Hl as [HJ Hpc]. assert (pc = zlen (eg_insns s) + 0) as -> by (destruct Hpc as [->|(p & ? & ->)]; [lia|rewrite HtS by done; lia]).
    rewrite (Hexec XDP_PASS); [done|lia|]. intros m. by eapply stub_runs; try done; apply HJ.
  - destruct Hl as [HJ (p & ? & Ep)]. rewrite HtF in Ep by done. subst pc.
    rewrite (Hexec XDP_DROP); [done|lia|]. intros m. by eapply stub_runs; try done; apply HJ.
Qed.
End compile.

(** C6: the compiler for the extended target returns a program or an error, and
    never panics, on every expression whose offsets and shifts fit its
    instructions. *)
Theorem ebpf_compile_returns (e : Expr) (link : LinkType) :
  wf_expr e → fit e = true → returns (compile e link).
Proof.
  intros Hwf Hfit. pose proof (ebpf_compile_spec e link Hwf Hfit [] [] Little) as H.
  specialize (H ltac:(constructor) eq_refl). by destruct (compile e link).
Qed.

Lemma ebpf_runs e link p pkt host :
  wf_expr e → fit e = true → Forall is_u8 pkt → zlen pkt < 2 ^ 27 →
  compile e link = Ok p → Ebpf.len p ≤ 2 ^ 16 →
  run_ebpf (insns p) pkt host = inl (if esem link pkt e then Match else NoMatch).
Proof.
  intros Hwf Hfit Hpkt Hsmall Hc Hlen.
  pose proof (ebpf_compile_spec e link Hwf Hfit (insns p) pkt host Hpkt Hsmall) as H.
  rewrite Hc in H. destruct H as (s6 & -> & Hs). by apply compiled_runs.
Qed.

(** [not tcp port 80 and host 10.0.0.1], and a frame it matches. *)
Definition ebpf_sample : Expr :=
  And (Not (Prim (PPort 80 SrcOrDst (Some Tcp)))) (Prim (PHost (V4 0x0a000001) SrcOrDst)).

Definition ebpf_sample_pkt : list Z :=
  replicate 12 0 ++ [0x08; 0x00]
  ++ [0x45; 0; 0; 40; 0; 0; 0; 0; 64; 6; 0; 0; 10; 0; 0; 1; 10; 0; 0; 2]
  ++ [0; 81; 4; 0] ++ replicate 200 0.

Lemma ebpf_compile_returns_witness : returns (compile ebpf_sample LinuxSll).
Proof. apply (ebpf_compile_returns ebpf_sample LinuxSll); repeat split; by vm_compute. Defined.
