(* ===== verification/Segment.v ===== *)
(** A program logic for emitted code. A segment is a list of instructions with
    open jump slots; its triple says that, placed anywhere in any program that
    fills the slots, it decides a fixed predicate of the packet: it leaves
    through its end or its success target when the predicate holds, and through
    its failure target when it does not. The rules follow the ways the emitter
    composes code. *)

From S2P Require Export OptimizerCorrect Codegen.

(** * Slots and targets *)

Definition patch_idx (q : Patch) : Z := match q with Jt i | Jf i | Ja i => i end.

(** Which slots are resolved, and to which instruction. *)
Definition target : Type := Patch → option Z.

Definition over (f g : target) : target := λ q,
  match f q with Some t => Some t | None => g q end.

Definition to_all (l : list Patch) (t : Z) : target := λ q,
  if decide (q ∈ l) then Some t else None.

Definition slot (f : target) (q : Patch) (old : Z) : Z :=
  match f q with Some t => t - patch_idx q - 1 | None => old end.

Definition patch_insn (f : target) (idx : Z) (i : Insn) : Insn :=
  mk_insn (i_code i) (slot f (Jt idx) (i_jt i)) (slot f (Jf idx) (i_jf i))
    (slot f (Ja idx) (i_k i)).

(** The code at [base] with its slots filled. *)
Definition patch_code (f : target) (base : Z) (c : list Insn) : list Insn :=
  imap (λ j i, patch_insn f (base + Z.of_nat j) i) c.

Lemma zlen_patch_code f base c : zlen (patch_code f base c) = zlen c.
Proof. apply zlen_imap. Qed.
#[export] Hint Rewrite zlen_patch_code : zlen.

Lemma zget_patch_code f base c j :
  zget (patch_code f base c) j = patch_insn f (base + j) <$> zget c j.
Proof. apply (zget_imap (λ j i, patch_insn f (base + j) i)). Qed.

Lemma patch_insn_over f g idx i :
  patch_insn f idx (patch_insn g idx i) = patch_insn (over f g) idx i.
Proof. unfold patch_insn, slot, over. simpl. f_equal; by case_match. Qed.

Lemma patch_code_over f g base c :
  patch_code f base (patch_code g base c) = patch_code (over f g) base c.
Proof.
  apply zget_ext; [by rewrite !zlen_patch_code|]. intros j Hj.
  rewrite !zget_patch_code. destruct (zget c j); [|done]. simpl.
  by rewrite patch_insn_over.
Qed.

Lemma patch_insn_ext f g idx i :
  (∀ q, patch_idx q = idx → f q = g q) → patch_insn f idx i = patch_insn g idx i.
Proof. intros H. unfold patch_insn, slot. by rewrite !H. Qed.

Lemma patch_code_ext f g base c :
  (∀ q, base ≤ patch_idx q < base + zlen c → f q = g q) →
  patch_code f base c = patch_code g base c.
Proof.
  intros H. apply zget_ext; [by rewrite !zlen_patch_code|]. intros j Hj.
  rewrite zlen_patch_code in Hj. rewrite !zget_patch_code.
  destruct (zget c j); [|done]. simpl. f_equal. apply patch_insn_ext. intros. apply H. lia.
Qed.

Lemma patch_code_id f base c :
  (∀ q, base ≤ patch_idx q < base + zlen c → f q = None) → patch_code f base c = c.
Proof.
  intros H. apply zget_ext; [by rewrite zlen_patch_code|]. intros j Hj.
  rewrite zlen_patch_code in Hj. rewrite zget_patch_code.
  destruct (zget c j) as [i|]; [|done]. simpl. f_equal.
  unfold patch_insn, slot. rewrite !H by (simpl; lia). by destruct i.
Qed.

Lemma patch_code_app f base c1 c2 :
  patch_code f base (c1 ++ c2) = patch_code f base c1 ++ patch_code f (base + zlen c1) c2.
Proof.
  unfold patch_code. rewrite imap_app. f_equal. apply imap_ext. intros j i _. simpl.
  f_equal. unfold zlen. lia.
Qed.

Lemma patch_code_nil f base : patch_code f base [] = [].
Proof. done. Qed.

(** Patching behind a prefix leaves the prefix alone. *)
Lemma patch_code_suffix f l c :
  (∀ q, patch_idx q < zlen l → f q = None) →
  patch_code f 0 (l ++ c) = l ++ patch_code f (zlen l) c.
Proof.
  intros H. rewrite patch_code_app. f_equal. apply patch_code_id. intros. apply H. lia.
Qed.

Lemma to_all_in l t q : q ∈ l → to_all l t q = Some t.
Proof. intros. unfold to_all. by rewrite decide_True. Qed.

Lemma to_all_notin l t q : q ∉ l → to_all l t q = None.
Proof. intros. unfold to_all. by rewrite decide_False. Qed.

(** * Resolution *)

Lemma set_insns_id s : set_insns (cg_insns s) s = s.
Proof. by destruct s. Qed.

Definition slot_ok (n t : Z) (q : Patch) : Prop := 0 ≤ patch_idx q < t ∧ patch_idx q < n.

Lemma zset_patch idx insn insn' f l :
  zget l idx = Some insn → insn' = patch_insn f idx insn →
  (∀ q, patch_idx q ≠ idx → f q = None) →
  zset idx insn' l = patch_code f 0 l.
Proof.
  intros Hg -> Hf. pose proof (zget_Some_lt _ _ _ Hg).
  apply zget_ext; [by rewrite zlen_zset, zlen_patch_code|]. intros j Hj.
  rewrite zget_patch_code, Z.add_0_l. destruct (decide (j = idx)) as [->|].
  - by rewrite zget_zset_eq, Hg.
  - rewrite zget_zset_ne by done. destruct (zget l j) as [i|]; [|done]. simpl. f_equal.
    unfold patch_insn, slot. rewrite !Hf by (simpl; done). by destruct i.
Qed.

Lemma wp_offset from to s (Q : Z → Codegen → Prop) :
  from < to → (to - from - 1 ≤ 255 → Q (to - from - 1) s) → wp (offset from to) s Q.
Proof.
  intros Hlt HQ. unfold offset. rewrite (proj2 (Z.ltb_lt _ _)) by done. simpl.
  destruct (Z.ltb_spec 255 (to - from - 1)); [done|]. apply wp_ret. auto.
Qed.

Lemma wp_update_insn i f s (Q : unit → Codegen → Prop) insn :
  zget (cg_insns s) i = Some insn →
  Q tt (set_insns (zset i (f insn) (cg_insns s)) s) → wp (update_insn i f) s Q.
Proof. unfold wp, update_insn. by intros ->. Qed.

Lemma slot_hit q t old : slot (to_all [q] t) q old = t - patch_idx q - 1.
Proof. unfold slot. by rewrite to_all_in by set_solver. Qed.

Lemma slot_miss q q' t old : q' ≠ q → slot (to_all [q] t) q' old = old.
Proof. intros. unfold slot. by rewrite to_all_notin by set_solver. Qed.

Lemma wp_resolve q t s :
  slot_ok (zlen (cg_insns s)) t q →
  wp (resolve q t) s (λ _ s',
    s' = set_insns (patch_code (to_all [q] t) 0 (cg_insns s)) s ∧ t - patch_idx q - 1 ≤ 255).
Proof.
  intros [Hlt Hn]. destruct (zget_lt_Some (cg_insns s) (patch_idx q)) as [insn Hg]; [lia|].
  assert (Hgen : ∀ g : Z → Insn → Insn,
    patch_insn (to_all [q] t) (patch_idx q) insn = g (t - patch_idx q - 1) insn →
    wp (off ← offset (patch_idx q) t; update_insn (patch_idx q) (g off)) s (λ _ s',
      s' = set_insns (patch_code (to_all [q] t) 0 (cg_insns s)) s ∧ t - patch_idx q - 1 ≤ 255)).
  { intros g Hf. apply wp_bind, wp_offset; [lia|]. intros H255.
    apply (wp_update_insn _ _ _ _ insn); [done|]. split; [|done]. f_equal.
    apply zset_patch with insn; [done|done|].
    intros q' Hq'. apply to_all_notin. intros ->%list_elem_of_singleton. done. }
  destruct q as [i|i|i]; [apply (Hgen set_jt)|apply (Hgen set_jf)|apply (Hgen set_k)];
    unfold patch_insn; simpl; rewrite ?slot_hit, ?slot_miss by done; done.
Qed.

Lemma wp_resolve_all l t s :
  (∀ q, q ∈ l → slot_ok (zlen (cg_insns s)) t q) →
  wp (resolve_all l t) s (λ _ s',
    s' = set_insns (patch_code (to_all l t) 0 (cg_insns s)) s ∧
    ∀ q, q ∈ l → t - patch_idx q - 1 ≤ 255).
Proof.
  revert s. induction l as [|q l IH]; intros s Hl.
  - apply wp_ret. split; [|by intros q ?%not_elem_of_nil].
    rewrite patch_code_id; [by rewrite set_insns_id|].
    intros. apply to_all_notin, not_elem_of_nil.
  - unfold resolve_all. simpl. apply wp_bind. eapply wp_mono.
    { apply wp_resolve, Hl. set_solver. }
    intros [] s1 [-> H255]. eapply wp_mono.
    { apply IH. simpl. rewrite zlen_patch_code. set_solver. }
    intros [] s2 [-> Hall]. simpl. split; [|set_solver].
    rewrite patch_code_over. unfold set_insns. simpl. f_equal. apply patch_code_ext.
    intros q' _. unfold over, to_all.
    destruct (decide (q' ∈ l)); [by rewrite decide_True by set_solver|].
    destruct (decide (q' ∈ [q])), (decide (q' ∈ q :: l)); set_solver.
Qed.

(** * Reaching a state *)

(** No instruction changes the number of scratch slots. *)
Lemma exec_insn_scratch pkt m i m' :
  exec_insn pkt m i = Next m' → zlen (r_scratch m') = zlen (r_scratch m).
Proof.
  unfold exec_insn, store. cbv zeta. opcase; intros [= <-]; simpl; try done;
    repeat case_match; simplify_eq; by rewrite zlen_zset.
Qed.

(** Instructions that neither jump nor return. *)
Definition straight (i : Insn) : bool := negb (is_jump i) && negb (is_ret i).

Lemma exec_insn_fault pkt m i r :
  straight i = true → exec_insn pkt m i = Done r → r = None.
Proof.
  unfold straight. rewrite is_jump_class. unfold is_ret, exec_insn. intros H. zbool.
  opcase; zbool; congruence.
Qed.

Section logic.
Context (pkt : list Z) (B : Z).

(** From [m], the program either faults, on a packet shorter than [B], or
    behaves as from a state that satisfies [Q]. *)
Definition reach (P : list Insn) (m : vm) (Q : vm → Prop) : Prop :=
  (exec P pkt m = None ∧ zlen pkt < B) ∨ ∃ m', exec P pkt m = exec P pkt m' ∧ Q m'.

Lemma reach_here P m (Q : vm → Prop) : Q m → reach P m Q.
Proof. right. eauto. Qed.

Lemma reach_bind P m (Q R : vm → Prop) :
  reach P m Q → (∀ m', Q m' → reach P m' R) → reach P m R.
Proof.
  intros [?|(m' & E & HQ)] HR; [by left|].
  destruct (HR m' HQ) as [[? ?]|(m'' & E' & ?)]; [left; split; congruence|].
  right. exists m''. split; [congruence|done].
Qed.

Lemma reach_mono P m (Q R : vm → Prop) :
  reach P m Q → (∀ m', Q m' → R m') → reach P m R.
Proof. intros H HR. eapply reach_bind; [done|]. eauto using reach_here. Qed.

Lemma reach_eq P m m' (Q : vm → Prop) :
  exec P pkt m = exec P pkt m' → reach P m' Q → reach P m Q.
Proof. unfold reach. by intros ->. Qed.

(** The straight-line run of [cs]; [None] when it faults. *)
Fixpoint line (cs : list Insn) (m : vm) : option vm :=
  match cs with
  | [] => Some m
  | i :: cs' =>
      match exec_insn pkt m i with
      | Next m' => line cs' m'
      | Done _ => None
      end
  end.

Lemma line_scratch cs m m' :
  line cs m = Some m' → zlen (r_scratch m') = zlen (r_scratch m).
Proof.
  revert m. induction cs as [|i cs IH]; intros m; simpl; [by intros [= ->]|].
  destruct (exec_insn pkt m i) as [m1|] eqn:E; [|done]. intros H.
  rewrite (IH _ H). by eapply exec_insn_scratch.
Qed.

Definition placed (P : list Insn) (base : Z) (c : list Insn) : Prop :=
  ∀ j i, zget c j = Some i → zget P (base + j) = Some i.

Lemma placed_cons P base i c : placed P base (i :: c) ↔ zget P base = Some i ∧ placed P (base + 1) c.
Proof.
  unfold placed. split.
  - intros H. split; [rewrite <- (H 0 i) by apply zget_cons_0; f_equal; lia|].
    intros j x Hj. pose proof (zget_Some_lt _ _ _ Hj).
    rewrite <- (H (j + 1) x); [f_equal; lia|].
    rewrite zget_cons_S by lia. by replace (j + 1 - 1) with j by lia.
  - intros [H0 H] j x Hj. pose proof (zget_Some_lt _ _ _ Hj).
    destruct (Z.eq_dec j 0) as [->|].
    + rewrite zget_cons_0 in Hj. simplify_eq. by rewrite Z.add_0_r.
    + rewrite zget_cons_S in Hj by lia. rewrite <- (H _ _ Hj). f_equal. lia.
Qed.

Lemma placed_app P base c1 c2 :
  placed P base (c1 ++ c2) ↔ placed P base c1 ∧ placed P (base + zlen c1) c2.
Proof.
  revert base. induction c1 as [|i c1 IH]; intros base.
  - simpl. znil. rewrite Z.add_0_r. split; [|tauto]. split; [|done].
    intros j x Hj. apply zget_Some_lt in Hj. znil. lia.
  - simpl. rewrite !placed_cons, IH, zlen_cons.
    replace (base + 1 + zlen c1) with (base + (1 + zlen c1)) by lia. tauto.
Qed.

Section prog.
Context (P : list Insn).
Hypothesis Hwf : wf_prog P.

Lemma exec_straight p m i :
  0 ≤ p → zget P p = Some i → is_jump i = false →
  exec P pkt (with_pc p m) =
  match exec_insn pkt m i with
  | Next m' => exec P pkt (with_pc (p + 1) m')
  | Done r => r
  end.
Proof.
  intros Hp Hg Hj. rewrite (exec_at_plain _ _ Hwf (with_pc p m) i) by done.
  destruct (exec_insn_plain pkt p m i Hj) as [-> _]. by destruct (exec_insn pkt m i).
Qed.

Lemma reach_line base cs m (Q : vm → Prop) :
  0 ≤ base → placed P base cs → forallb straight cs = true →
  match line cs m with
  | Some m' => reach P (with_pc (base + zlen cs) m') Q
  | None => zlen pkt < B
  end → reach P (with_pc base m) Q.
Proof.
  revert base m. induction cs as [|i cs IH]; intros base m Hb Hpl Hst Hline.
  { simpl in Hline. znil. by rewrite Z.add_0_r in Hline. }
  apply placed_cons in Hpl as [Hg Hpl]. simpl in Hst, Hline.
  apply andb_true_iff in Hst as [Hi Hst].
  assert (Hj : is_jump i = false)
    by (unfold straight in Hi; apply andb_true_iff in Hi as [Hi _]; by apply negb_true_iff).
  pose proof (exec_straight base m i Hb Hg Hj) as E.
  destruct (exec_insn pkt m i) as [m1|r] eqn:Ei.
  - apply (reach_eq _ _ _ _ E). apply IH; [lia|done..|].
    destruct (line cs m1); [|done].
    replace (base + 1 + zlen cs) with (base + zlen (i :: cs)); [done|].
    rewrite zlen_cons. lia.
  - apply exec_insn_fault in Ei; [|done]. subst r. by left.
Qed.

Lemma reach_cond p m i b (Q : vm → Prop) :
  0 ≤ p → zget P p = Some i → is_cond_jump i = true → cond_test i m = Some b →
  reach P (with_pc (p + 1 + (if b then i_jt i else i_jf i)) m) Q →
  reach P (with_pc p m) Q.
Proof.
  intros Hp Hg Hc Ht. apply reach_eq.
  rewrite (exec_at_cond _ _ Hwf (with_pc p m) i) by done.
  change (cond_test i (with_pc p m)) with (cond_test i m). by rewrite Ht.
Qed.

Lemma reach_ja p m i (Q : vm → Prop) :
  0 ≤ p → zget P p = Some i → is_ja i = true →
  reach P (with_pc (p + 1 + i_k i) m) Q → reach P (with_pc p m) Q.
Proof.
  intros Hp Hg Hc. apply reach_eq.
  by rewrite (exec_at_ja _ _ Hwf (with_pc p m) i).
Qed.
End prog.

(** * Triples *)

(** The slots of a segment of length [n] at [base], and only these, are
    filled with the success and failure targets. *)
Record fills (f : target) (base n : Z) (p : Patches) (TS TF : Z) : Prop := {
  fill_success q : q ∈ success p → f q = Some TS;
  fill_failure q : q ∈ failure p → f q = Some TF;
  fill_none q :
    base ≤ patch_idx q < base + n → q ∉ success p → q ∉ failure p → f q = None;
}.

(** The exits of a segment entered in [m]: [b] decides between them, [post]
    holds of A and X on success, and X is kept if [K]. *)
Definition exits (fall TS TF : Z) (b : bool) (post : Z → Z → Prop) (K : Prop) (m m' : vm) :
    Prop :=
  zlen (r_scratch m') = SCRATCH ∧ (K → r_x m' = r_x m) ∧
  if b then (r_pc m' = fall ∨ r_pc m' = TS) ∧ post (r_a m') (r_x m') else r_pc m' = TF.

Definition seg (base : Z) (c : list Insn) (p : Patches) (pre : Z → Z → Prop) (b : bool)
    (post : Z → Z → Prop) (K : Prop) : Prop :=
  ∀ P f TS TF, wf_prog P → 0 ≤ base → 0 ≤ TS → 0 ≤ TF →
    placed P base (patch_code f base c) → fills f base (zlen c) p TS TF →
    ∀ m, zlen (r_scratch m) = SCRATCH → pre (r_a m) (r_x m) →
      reach P (with_pc base m) (exits (base + zlen c) TS TF b post K m).

(** The slots of [p] lie in [lo .. hi) and no slot is in both lists. *)
Definition within (lo hi : Z) (p : Patches) : Prop :=
  ∀ q, q ∈ success p ∨ q ∈ failure p → lo ≤ patch_idx q < hi.

Definition separate (p : Patches) : Prop := ∀ q, q ∈ success p → q ∉ failure p.

Lemma with_pc_eq p m : r_pc m = p → m = with_pc p m.
Proof. intros <-. by rewrite with_pc_id. Qed.

Lemma seg_mono base c p (pre pre' : Z → Z → Prop) b (post post' : Z → Z → Prop) (K K' : Prop) :
  seg base c p pre b post K →
  (∀ a x, pre' a x → pre a x) → (∀ a x, b = true → post a x → post' a x) → (K' → K) →
  seg base c p pre' b post' K'.
Proof.
  intros Hs Hpre Hpost HK P f TS TF Hwf Hb HTS HTF Hpl Hf m Hsc Hm.
  eapply reach_mono; [eapply (Hs P f TS TF); eauto|].
  intros m' (Hsc' & Hx & He). split; [done|]. split; [auto|]. destruct b; [|done]. destruct He. auto.
Qed.

Lemma seg_patches base c p p' pre b post K :
  (∀ q, q ∈ success p ↔ q ∈ success p') → (∀ q, q ∈ failure p ↔ q ∈ failure p') →
  seg base c p pre b post K → seg base c p' pre b post K.
Proof.
  intros HS HF Hs P f TS TF Hwf Hb HTS HTF Hpl [H1 H2 H3] m Hsc Hm.
  eapply (Hs P f TS TF); eauto. constructor; intros q; rewrite ?HS, ?HF; auto.
Qed.

Lemma seg_skip base (pre : Z → Z → Prop) K : seg base [] patches_default pre true pre K.
Proof.
  intros P f TS TF Hwf Hb HTS HTF Hpl Hf m Hsc Hm. apply reach_here.
  do 2 (split; [done|]). split; [|done]. left. simpl. znil. lia.
Qed.

(** Left, then right; the success slots of the left lead to the right. *)
Lemma seg_and base c1 c2 p1 p2 pre b1 mid K1 b2 post K2 :
  let base2 := base + zlen c1 in
  within base base2 p1 → separate p1 → within base2 (base2 + zlen c2) p2 →
  seg base c1 p1 pre b1 mid K1 →
  (b1 = true → seg base2 c2 p2 mid b2 post K2) →
  seg base (patch_code (to_all (success p1) base2) base c1 ++ c2)
    (mk_patches (success p2) (failure p1 ++ failure p2)) pre (b1 && b2) post (K1 ∧ K2).
Proof.
  intros base2 Hin1 Hsep Hin2 Hs1 Hs2 P f TS TF Hwf Hb HTS HTF Hpl [HfS HfF HfN] m Hsc Hm.
  simpl in *. pose proof (zlen_nonneg c1). pose proof (zlen_nonneg c2).
  rewrite zlen_app, zlen_patch_code in *.
  rewrite patch_code_app, zlen_patch_code, patch_code_over in Hpl.
  apply placed_app in Hpl as [Hpl1 Hpl2]. rewrite zlen_patch_code in Hpl2.
  assert (Hnone : ∀ q, patch_idx q < base2 → q ∉ success p2 ∧ q ∉ failure p2).
  { intros q Hq. split; intros Hin; assert (base2 <= patch_idx q) by (apply Hin2; auto); lia. }
  eapply reach_bind.
  { eapply (Hs1 P _ base2 TF); [done|done|lia|done|exact Hpl1| |exact Hsc|exact Hm].
    split; intros q Hq; unfold over.
    - pose proof (Hin1 q ltac:(auto)). destruct (Hnone q) as [? ?]; [lia|].
      rewrite HfN, to_all_in; [done|done|lia|done|].
      pose proof (Hsep q Hq). set_solver.
    - by rewrite HfF by set_solver.
    - intros Hq1 Hq2. destruct (Hnone q) as [? ?]; [lia|].
      rewrite HfN, to_all_notin; [done|done|lia|done|set_solver]. }
  intros m1 (Hsc1 & Hx1 & He1). destruct b1; simpl.
  - destruct He1 as [Hpc1 Hmid]. assert (r_pc m1 = base2) as Hpc by (unfold base2; lia).
    rewrite (with_pc_eq _ _ Hpc).
    eapply reach_mono.
    { eapply (Hs2 eq_refl P f TS TF); [done|lia|done|done|exact Hpl2| |exact Hsc1|exact Hmid].
      split; intros q Hq; [auto|apply HfF; set_solver|].
      intros Hq1 Hq2. apply HfN; [lia|done|].
      intros [Hin|Hin]%elem_of_app; [|done]. pose proof (Hin1 q ltac:(auto)). lia. }
    intros m2 (Hsc2 & Hx2 & He2). split; [done|]. split; [intros [? ?]; rewrite Hx2, Hx1; auto|].
    destruct b2; [|done]. destruct He2 as [? ?]. split; [|done]. unfold base2 in *. lia.
  - apply reach_here. split; [done|]. split; [intros [? ?]; auto|done].
Qed.

(** Left; its failures lead to the right, its end jumps over the right. *)
Lemma seg_or base c1 c2 p1 p2 pre b1 post K1 b2 (pre2 : Z → Z → Prop) K2 :
  let jx := base + zlen c1 in
  let base2 := jx + 1 in
  within base jx p1 → separate p1 → within base2 (base2 + zlen c2) p2 →
  seg base c1 p1 pre b1 post K1 →
  (b1 = false → ∀ a x a' x', pre a x → (K1 → x' = x) → pre2 a' x') →
  (b1 = false → seg base2 c2 p2 pre2 b2 post K2) →
  seg base (patch_code (to_all (failure p1) base2) base c1 ++ [ja 0] ++ c2)
    (mk_patches (success p1 ++ [Ja jx] ++ success p2) (failure p2))
    pre (b1 || b2) post (K1 ∧ K2).
Proof.
  intros jx base2 Hin1 Hsep Hin2 Hs1 Hpre2 Hs2 P f TS TF Hwf Hb HTS HTF Hpl
    [HfS HfF HfN] m Hsc Hm.
  simpl in *. pose proof (zlen_nonneg c1). pose proof (zlen_nonneg c2).
  rewrite !zlen_app, zlen_cons, zlen_patch_code in *.
  rewrite patch_code_app, zlen_patch_code, patch_code_over in Hpl.
  apply placed_app in Hpl as [Hpl1 Hpl2]. rewrite zlen_patch_code in Hpl2.
  change (ja 0 :: c2) with ([ja 0] ++ c2) in Hpl2. rewrite patch_code_app in Hpl2.
  apply placed_app in Hpl2 as [Hja Hpl2]. rewrite zlen_patch_code in Hpl2.
  change (zlen [ja 0]) with 1 in Hpl2. fold jx base2 in Hpl2, Hja.
  pose proof (Hja 0 _ (zget_patch_code f jx [ja 0] 0)) as Hja'. clear Hja.
  assert (Hnone : ∀ q, patch_idx q < base2 → q ∉ success p2 ∧ q ∉ failure p2).
  { intros q Hq. split; intros Hin; assert (base2 <= patch_idx q) by (apply Hin2; auto); lia. }
  eapply reach_bind.
  { eapply (Hs1 P _ TS base2); [done|done|done|unfold base2, jx; lia|exact Hpl1| |exact Hsc|exact Hm].
    split; intros q Hq; unfold over.
    - by rewrite HfS by set_solver.
    - pose proof (Hin1 q ltac:(auto)). destruct (Hnone q) as [? ?]; [unfold base2; lia|].
      rewrite HfN, to_all_in; [done|done|unfold jx in *; lia| |done].
      intros [Hin|[Hin|Hin]%elem_of_cons]%elem_of_app; [|subst q; simpl in *; lia|done].
      by apply (Hsep q).
    - intros Hq1 Hq2. destruct (Hnone q) as [? ?]; [unfold base2, jx; lia|].
      rewrite HfN, to_all_notin; [done|done|lia| |done].
      intros [Hin|[Hin|Hin]%elem_of_cons]%elem_of_app; [done| |done].
      subst q. simpl in *. unfold jx in *. lia. }
  intros m1 (Hsc1 & Hx1 & He1). destruct b1; simpl.
  - destruct He1 as [Hpc1 Hpost]. destruct Hpc1 as [Hpc1|Hpc1].
    + rewrite (with_pc_eq _ _ Hpc1). fold jx.
      rewrite Z.add_0_r in Hja'.
      eapply (reach_ja P Hwf jx); [unfold jx; lia|exact Hja'|done|].
      apply reach_here. split; [done|]. split; [intros [? ?]; auto|]. split; [|done]. right.
      simpl. unfold slot. rewrite HfS by set_solver. simpl. lia.
    + apply reach_here. split; [done|]. split; [intros [? ?]; auto|]. auto.
  - rewrite (with_pc_eq _ _ He1). eapply reach_mono.
    { eapply (Hs2 eq_refl P f TS TF); [done|unfold base2, jx; lia|done|done|exact Hpl2| | |].
      - split; intros q Hq; [apply HfS; set_solver|auto|].
        intros Hq1 Hq2. apply HfN; [unfold base2, jx in *; lia| |done].
        intros [Hin|[Hin|Hin]%elem_of_cons]%elem_of_app; [| |done].
        + pose proof (Hin1 q ltac:(auto)). unfold base2 in *. lia.
        + subst q. simpl in *. unfold base2 in *. lia.
      - done.
      - eapply Hpre2; eauto. }
    intros m2 (Hsc2 & Hx2 & He2). split; [done|]. split; [intros [? ?]; rewrite Hx2, Hx1; auto|].
    destruct b2; [|done]. destruct He2 as [? ?]. split; [|done].
    unfold base2, jx in *. znil. lia.
Qed.

(** The inner success leads to the failure target and back. *)
Lemma seg_not base c1 p1 pre b1 mid K1 (post : Z → Z → Prop) :
  let jx := base + zlen c1 in
  within base jx p1 → separate p1 →
  seg base c1 p1 pre b1 mid K1 →
  (b1 = false → ∀ a x a' x', pre a x → (K1 → x' = x) → post a' x') →
  seg base (patch_code (to_all (failure p1) (jx + 1)) base c1 ++ [ja 0])
    (mk_patches [] (success p1 ++ [Ja jx])) pre (negb b1) post K1.
Proof.
  intros jx Hin1 Hsep Hs1 Hpost P f TS TF Hwf Hb HTS HTF Hpl [HfS HfF HfN] m Hsc Hm.
  simpl in *. pose proof (zlen_nonneg c1).
  rewrite !zlen_app, zlen_patch_code in *. change (zlen [ja 0]) with 1 in *.
  rewrite patch_code_app, zlen_patch_code, patch_code_over in Hpl.
  apply placed_app in Hpl as [Hpl1 Hja]. rewrite zlen_patch_code in Hja. fold jx in Hja.
  pose proof (Hja 0 _ (zget_patch_code f jx [ja 0] 0)) as Hja'. clear Hja.
  rewrite Z.add_0_r in Hja'.
  eapply reach_bind.
  { eapply (Hs1 P _ TF (jx + 1)); [done|done|done|unfold jx; lia|exact Hpl1| |exact Hsc|exact Hm].
    split; intros q Hq; unfold over.
    - by rewrite HfF by set_solver.
    - pose proof (Hin1 q ltac:(auto)).
      rewrite HfN, to_all_in; [done|done|unfold jx in *; lia|by apply not_elem_of_nil|].
      intros [Hin|Hin%list_elem_of_singleton]%elem_of_app; [|subst q; simpl in *; lia].
      by apply (Hsep q).
    - intros Hq1 Hq2.
      rewrite HfN, to_all_notin; [done|done|lia|by apply not_elem_of_nil|].
      intros [Hin|Hin%list_elem_of_singleton]%elem_of_app; [done|].
      subst q. simpl in *. unfold jx in *. lia. }
  intros m1 (Hsc1 & Hx1 & He1). destruct b1; simpl.
  - destruct He1 as [[Hpc1|Hpc1] _].
    + rewrite (with_pc_eq _ _ Hpc1). fold jx.
      eapply (reach_ja P Hwf jx); [unfold jx; lia|exact Hja'|done|].
      apply reach_here. split; [done|]. split; [auto|].
      simpl. unfold slot. rewrite HfF by set_solver. simpl. lia.
    + apply reach_here. split; [done|]. split; auto.
  - apply reach_here. split; [done|]. split; [auto|]. split; [left; unfold jx in *; lia|]. eauto.
Qed.
End logic.
