(* ===== verification/Line.v ===== *)
(** Straight-line code: what each instruction the emitter uses does to the
    registers, in terms of the packet fields of the reference semantics, and
    the segments made of such code and one conditional jump. *)

From S2P Require Export Segment Fields Needs.

(** * Loads *)

Lemma b8_zget pkt o v : zget pkt o = Some v → b8 pkt o = v.
Proof. unfold b8. by intros ->. Qed.

Lemma slice_get_zget pkt a b bs j :
  0 ≤ a → slice_get pkt a b = Some bs → 0 ≤ j < b - a → zget bs j = zget pkt (a + j).
Proof.
  unfold slice_get. intros Ha Hs Hj. case_match eqn:E; [|done]. injection Hs as <-.
  zbool. rewrite !zget_spec, !decide_True by lia.
  rewrite lookup_take_lt by lia. rewrite lookup_drop. f_equal. lia.
Qed.

Lemma slice_get_length pkt a b bs :
  0 ≤ a → slice_get pkt a b = Some bs → zlen bs = b - a ∧ b ≤ zlen pkt.
Proof.
  unfold slice_get. intros Ha Hs. case_match eqn:E; [|done]. injection Hs as <-.
  zbool. unfold zlen in *. rewrite length_take, length_drop. lia.
Qed.

Lemma slice_get_b8 pkt a b bs j :
  0 ≤ a → slice_get pkt a b = Some bs → 0 ≤ j < b - a → zget bs j = Some (b8 pkt (a + j)).
Proof.
  intros Ha Hs Hj. pose proof (slice_get_zget _ _ _ _ _ Ha Hs Hj) as Hz.
  destruct (slice_get_length _ _ _ _ Ha Hs).
  destruct (zget_lt_Some pkt (a + j)) as [v Hv]; [lia|].
  by rewrite Hz, Hv, (b8_zget _ _ _ Hv).
Qed.

(** The value a load of [sz] gives, and when it faults. *)
Definition size_code (sz : AccessSize) : Z :=
  match sz with Byte => BPF_B | Half => BPF_H | Word => BPF_W end.

Lemma sized_load_spec pkt sz o :
  0 ≤ o < 2 ^ 32 →
  match sized_load pkt o (size_code sz) with
  | Some v => v = load_sem pkt sz o
  | None => zlen pkt < o + size_bytes sz
  end.
Proof.
  intros Ho. destruct sz; unfold sized_load, checked_add; simpl.
  - destruct (zget pkt o) as [v|] eqn:E; [by rewrite (b8_zget _ _ _ E)|].
    apply zget_None in E. lia.
  - rewrite (proj2 (Z.ltb_lt _ _)) by lia. simpl.
    destruct (slice_get pkt o (o + 2)) as [bs|] eqn:E; simpl.
    + pose proof (slice_get_length _ _ _ _ (proj1 Ho) E) as [Hl _].
      pose proof (slice_get_b8 _ _ _ _ 0 (proj1 Ho) E) as H0.
      pose proof (slice_get_b8 _ _ _ _ 1 (proj1 Ho) E) as H1.
      destruct bs as [|b0 [|b1 [|? ?]]]; unfold zlen in Hl; simpl in Hl; try lia.
      specialize (H0 ltac:(lia)). specialize (H1 ltac:(lia)).
      injection H0 as ->. injection H1 as ->. unfold from_be_bytes, h16. simpl.
      rewrite Z.add_0_r. lia.
    + unfold slice_get in E. case_match eqn:E'; [done|].
      apply andb_false_iff in E' as [E'|E']; zbool; lia.
  - rewrite (proj2 (Z.ltb_lt _ _)) by lia. simpl.
    destruct (slice_get pkt o (o + 4)) as [bs|] eqn:E; simpl.
    + pose proof (slice_get_length _ _ _ _ (proj1 Ho) E) as [Hl _].
      pose proof (slice_get_b8 _ _ _ _ 0 (proj1 Ho) E) as H0.
      pose proof (slice_get_b8 _ _ _ _ 1 (proj1 Ho) E) as H1.
      pose proof (slice_get_b8 _ _ _ _ 2 (proj1 Ho) E) as H2.
      pose proof (slice_get_b8 _ _ _ _ 3 (proj1 Ho) E) as H3.
      destruct bs as [|b0 [|b1 [|b2 [|b3 [|? ?]]]]]; unfold zlen in Hl; simpl in Hl; try lia.
      specialize (H0 ltac:(lia)). specialize (H1 ltac:(lia)).
      specialize (H2 ltac:(lia)). specialize (H3 ltac:(lia)).
      injection H0 as ->. injection H1 as ->. injection H2 as ->. injection H3 as ->.
      unfold from_be_bytes, w32, h16. simpl.
      replace (o + 2 + 1) with (o + 3) by lia. rewrite Z.add_0_r. lia.
    + unfold slice_get in E. case_match eqn:E'; [done|].
      apply andb_false_iff in E' as [E'|E']; zbool; lia.
Qed.

Section line.
Context (pkt : list Z) (B : Z).

(** The run of [cs] from [m] ends in a state satisfying [Q], unless it faults
    on a packet shorter than [B]. *)
Definition line_ok (cs : list Insn) (m : vm) (Q : vm → Prop) : Prop :=
  match line pkt cs m with
  | Some m' => Q m'
  | None => zlen pkt < B
  end.

Lemma line_nil m (Q : vm → Prop) : Q m → line_ok [] m Q.
Proof. done. Qed.

Definition set_a (a : Z) (m : vm) : vm := mk_vm a (r_x m) (r_scratch m) (r_pc m).
Definition set_x (x : Z) (m : vm) : vm := mk_vm (r_a m) x (r_scratch m) (r_pc m).

Lemma line_step i cs m m' (Q : vm → Prop) :
  exec_insn pkt m i = Next m' → line_ok cs m' Q → line_ok (i :: cs) m Q.
Proof. unfold line_ok. simpl. by intros ->. Qed.

(** Absolute and indirect loads. *)
Lemma line_load_abs sz o cs m (Q : vm → Prop) :
  0 ≤ o < 2 ^ 32 → o + size_bytes sz ≤ B →
  line_ok cs (set_a (load_sem pkt sz o) m) Q → line_ok (load_insn o sz false :: cs) m Q.
Proof.
  intros Ho Hb HQ. pose proof (sized_load_spec pkt sz o Ho) as Hs.
  assert (E : exec_insn pkt m (load_insn o sz false) =
    match sized_load pkt o (size_code sz) with
    | Some a => Next (set_a a m) | None => Done None end) by (by destruct sz).
  unfold line_ok. simpl. rewrite E. destruct (sized_load pkt o (size_code sz)); [by subst|lia].
Qed.

Lemma line_load_ind sz o cs m (Q : vm → Prop) :
  0 ≤ r_x m + o < 2 ^ 32 → r_x m + o + size_bytes sz ≤ B →
  line_ok cs (set_a (load_sem pkt sz (r_x m + o)) m) Q →
  line_ok (load_insn o sz true :: cs) m Q.
Proof.
  intros Ho Hb HQ. pose proof (sized_load_spec pkt sz _ Ho) as Hs.
  assert (E : exec_insn pkt m (load_insn o sz true) =
    match sized_load pkt (as_u32 (r_x m + o)) (size_code sz) with
    | Some a => Next (set_a a m) | None => Done None end) by (by destruct sz).
  unfold line_ok. simpl. rewrite E. unfold as_u32. rewrite Z.mod_small by lia.
  destruct (sized_load pkt _ (size_code sz)); [by subst|lia].
Qed.

Lemma line_ldb o cs m (Q : vm → Prop) :
  0 ≤ o < 2 ^ 32 → o + 1 ≤ B →
  line_ok cs (set_a (b8 pkt o) m) Q → line_ok (ldb_abs o :: cs) m Q.
Proof. apply (line_load_abs Byte). Qed.

Lemma line_ldh o cs m (Q : vm → Prop) :
  0 ≤ o < 2 ^ 32 → o + 2 ≤ B →
  line_ok cs (set_a (h16 pkt o) m) Q → line_ok (ldh_abs o :: cs) m Q.
Proof. apply (line_load_abs Half). Qed.

Lemma line_ldw o cs m (Q : vm → Prop) :
  0 ≤ o < 2 ^ 32 → o + 4 ≤ B →
  line_ok cs (set_a (w32 pkt o) m) Q → line_ok (ldw_abs o :: cs) m Q.
Proof. apply (line_load_abs Word). Qed.

Lemma line_ldh_ind o cs m (Q : vm → Prop) :
  0 ≤ r_x m + o < 2 ^ 32 → r_x m + o + 2 ≤ B →
  line_ok cs (set_a (h16 pkt (r_x m + o)) m) Q → line_ok (ldh_ind o :: cs) m Q.
Proof. apply (line_load_ind Half). Qed.

Lemma line_ldx_msh o cs m (Q : vm → Prop) :
  0 ≤ o < 2 ^ 32 → o + 1 ≤ B →
  line_ok cs (set_x (4 * (b8 pkt o mod 16)) m) Q → line_ok (ldx_msh o :: cs) m Q.
Proof.
  intros Ho Hb HQ.
  assert (E : exec_insn pkt m (ldx_msh o) =
    match (b ← zget pkt o; Some (4 * (b .& 0xf))) with
    | Some x => Next (set_x x m) | None => Done None end) by done.
  unfold line_ok. simpl. rewrite E. destruct (zget pkt o) as [v|] eqn:Hv; simpl.
  - rewrite land_nibble, <- (b8_zget _ _ _ Hv). done.
  - apply zget_None in Hv. lia.
Qed.

Lemma line_ldx_imm k cs m (Q : vm → Prop) :
  line_ok cs (set_x k m) Q → line_ok (ldx_imm k :: cs) m Q.
Proof. by apply line_step. Qed.

Lemma line_and k cs m (Q : vm → Prop) :
  line_ok cs (set_a (r_a m .& k) m) Q → line_ok (and_k k :: cs) m Q.
Proof. by apply line_step. Qed.

Lemma line_rsh k cs m (Q : vm → Prop) :
  line_ok cs (set_a (Z.shiftr (r_a m) (k mod 32)) m) Q → line_ok (rsh_k k :: cs) m Q.
Proof.
  rewrite <- land_31. by apply line_step.
Qed.

Lemma line_len cs m (Q : vm → Prop) :
  line_ok cs (set_a (as_u32 (zlen pkt)) m) Q →
  line_ok (mk_insn (BPF_LD .| BPF_LEN) 0 0 0 :: cs) m Q.
Proof. by apply line_step. Qed.

Lemma line_tax cs m (Q : vm → Prop) :
  line_ok cs (set_x (r_a m) m) Q → line_ok (tax :: cs) m Q.
Proof. by apply line_step. Qed.

(** The ALU instruction of one arithmetic step. *)
Lemma line_alu aop k insn cs m (Q : vm → Prop) :
  alu_insn aop k = Ok insn →
  line_ok cs (set_a (arith_sem aop (r_a m) k) m) Q → line_ok (insn :: cs) m Q.
Proof.
  intros Hi HQ. destruct aop; simpl in Hi;
    try (destruct (Z.eqb_spec k 0); [done|]); try injection Hi as <-; try done;
    try (by eapply line_step; [|exact HQ]).
  - eapply line_step; [|exact HQ]. unfold exec_insn. simpl. unfold alu. simpl.
    by rewrite (proj2 (Z.eqb_neq _ _)).
  - eapply line_step; [|exact HQ]. simpl. by rewrite <- land_31.
  - by apply line_rsh.
Qed.
End line.

(** * Segments of straight-line code and one conditional jump *)

Section check.
Context (pkt : list Z) (B : Z).

(** The jump field that leads on, and the one that is patched. *)
Definition open_field (fld : PatchField) (j : Insn) : Z :=
  match fld with FieldJt => i_jt j | FieldJf => i_jf j end.
Definition other_field (fld : PatchField) : PatchField :=
  match fld with FieldJt => FieldJf | FieldJf => FieldJt end.

(** Does the jump take the field [fld] when its condition is [t]? *)
Definition takes (fld : PatchField) (t : bool) : bool :=
  match fld with FieldJt => t | FieldJf => negb t end.

Lemma patch_one_jump (f : target) jx j fld t :
  f (field_patch fld jx) = Some t → f (field_patch (other_field fld) jx) = None →
  open_field (other_field fld) j = 0 →
  let j' := patch_insn f jx j in
  i_code j' = i_code j ∧ i_k j' = slot f (Ja jx) (i_k j) ∧
  ∀ tk : bool, jx + 1 + (if tk then i_jt j' else i_jf j') = (if takes fld tk then t else jx + 1).
Proof.
  intros Ht Hn H0. split_and!; [done..|]. intros tk.
  destruct fld, tk; simpl in *; unfold slot; rewrite ?Ht, ?Hn; simpl; lia.
Qed.

Lemma cond_test_patch f jx j m :
  f (Ja jx) = None → cond_test (patch_insn f jx j) m = cond_test j m.
Proof. intros H. unfold cond_test, patch_insn, slot, uses_x. simpl. by rewrite H. Qed.

Lemma field_patch_idx fld jx : patch_idx (field_patch fld jx) = jx.
Proof. by destruct fld. Qed.

(** Entering straight-line code followed by a jump with one open field. *)
Lemma reach_check P f base cs j fld rest t m (Q : vm → Prop) :
  wf_prog P → 0 ≤ base →
  let jx := base + zlen cs in
  placed P base (patch_code f base (cs ++ [j] ++ rest)) →
  (∀ q, base ≤ patch_idx q ≤ jx → q ≠ field_patch fld jx → f q = None) →
  f (field_patch fld jx) = Some t →
  forallb straight cs = true → is_cond_jump j = true →
  open_field (other_field fld) j = 0 →
  line_ok pkt B cs m (λ m1, ∃ tk, cond_test j m1 = Some tk ∧
    reach pkt B P (with_pc (if takes fld tk then t else jx + 1) m1) Q) →
  reach pkt B P (with_pc base m) Q.
Proof.
  intros Hwf Hb jx Hpl Hnone Ht Hst Hcj H0 Hline. pose proof (zlen_nonneg cs).
  rewrite patch_code_app, (patch_code_id f base cs) in Hpl.
  2:{ intros q Hq. apply Hnone; [lia|]. intros ->. rewrite field_patch_idx in Hq. lia. }
  apply placed_app in Hpl as [Hpl Hplj]. fold jx in Hplj.
  rewrite patch_code_app in Hplj. apply placed_app in Hplj as [Hplj _].
  pose proof (Hplj 0 _ (zget_patch_code f jx [j] 0)) as Hg. simpl in Hg.
  rewrite Z.add_0_r in Hg.
  apply (reach_line pkt B P Hwf base cs m Q Hb Hpl Hst).
  unfold line_ok in Hline. destruct (line pkt cs m) as [m1|]; [|done].
  destruct Hline as (tk & Htk & HQ).
  destruct (patch_one_jump f jx j fld t Ht) as (Hc & _ & Hpc); [|done|].
  { apply Hnone; [destruct fld; simpl; lia|by destruct fld]. }
  eapply (reach_cond pkt B P Hwf jx m1 _ tk); [unfold jx; lia|exact Hg| | |].
  - unfold is_cond_jump in *. simpl. done.
  - rewrite cond_test_patch; [done|]. apply Hnone; [simpl; lia|by destruct fld].
  - by rewrite Hpc.
Qed.

Lemma seg_check base cs j fld (pre : Z → Z → Prop) b (post : Z → Z → Prop) (K : Prop) :
  forallb straight cs = true → is_cond_jump j = true →
  open_field (other_field fld) j = 0 →
  (∀ m, zlen (r_scratch m) = SCRATCH → pre (r_a m) (r_x m) → line_ok pkt B cs m (λ m1,
    cond_test j m1 = Some (takes fld (negb b)) ∧
    (b = true → post (r_a m1) (r_x m1)) ∧ (K → r_x m1 = r_x m))) →
  seg pkt B base (cs ++ [j]) (fails [field_patch fld (base + zlen cs)]) pre b post K.
Proof.
  intros Hst Hcj H0 Hline P f TS TF Hwf Hb HTS HTF Hpl [_ HfF HfN] m Hsc Hm.
  rewrite zlen_app in *. change (zlen [j]) with 1 in *.
  apply (reach_check P f base cs j fld [] TF m); [done|done|by rewrite app_nil_r| | |done..|].
  { intros q Hq Hne. apply HfN; [lia|apply not_elem_of_nil|].
    by intros ->%list_elem_of_singleton. }
  { apply HfF. simpl. set_solver. }
  specialize (Hline m Hsc Hm). unfold line_ok in *.
  destruct (line pkt cs m) as [m1|] eqn:El; [|done].
  pose proof (line_scratch _ _ _ _ El) as Hsc1. rewrite Hsc in Hsc1.
  destruct Hline as (Ht & Hpost & Hx). eexists. split; [exact Ht|]. apply reach_here.
  do 2 (split; [done|]). destruct fld, b; simpl; try done; split; auto with lia.
Qed.

(** A check whose success jumps over the rest, which decides otherwise. *)
Lemma seg_or_jump base cs j fld c2 p2 (pre : Z → Z → Prop) b1 b2 (post pre2 : Z → Z → Prop)
    (K K2 : Prop) :
  let jx := base + zlen cs in
  let base2 := jx + 1 in
  forallb straight cs = true → is_cond_jump j = true →
  open_field (other_field fld) j = 0 →
  within base2 (base2 + zlen c2) p2 →
  (∀ m, zlen (r_scratch m) = SCRATCH → pre (r_a m) (r_x m) → line_ok pkt B cs m (λ m1,
    cond_test j m1 = Some (takes fld b1) ∧
    (b1 = true → post (r_a m1) (r_x m1)) ∧ (b1 = false → pre2 (r_a m1) (r_x m1)) ∧
    (K → r_x m1 = r_x m))) →
  (b1 = false → seg pkt B base2 c2 p2 pre2 b2 post K2) →
  seg pkt B base (cs ++ [j] ++ c2)
    (mk_patches (field_patch fld jx :: success p2) (failure p2)) pre (b1 || b2) post (K ∧ K2).
Proof.
  intros jx base2 Hst Hcj H0 Hin Hline Hs2 P f TS TF Hwf Hb HTS HTF Hpl [HfS HfF HfN] m Hsc Hm.
  simpl in *. pose proof (zlen_nonneg cs). pose proof (zlen_nonneg c2).
  rewrite zlen_app, zlen_cons in *.
  assert (Hnone : ∀ q, patch_idx q < base2 → q ∉ success p2 ∧ q ∉ failure p2).
  { intros q Hq. split; intros Hq'; assert (base2 <= patch_idx q) by (apply Hin; auto); lia. }
  apply (reach_check P f base cs j fld c2 TS m); [done|done|done| | |done..|].
  { intros q Hq Hne. destruct (Hnone q) as [? ?]; [unfold base2, jx; lia|].
    apply HfN; [lia|set_solver|done]. }
  { apply HfS. set_solver. }
  specialize (Hline m Hsc Hm). unfold line_ok in *.
  destruct (line pkt cs m) as [m1|] eqn:El; [|done].
  pose proof (line_scratch _ _ _ _ El) as Hsc1. rewrite Hsc in Hsc1.
  destruct Hline as (Ht & Hpost & Hpre2 & Hx). eexists. split; [exact Ht|].
  assert (takes fld (takes fld b1) = b1) as -> by (by destruct fld, b1).
  destruct b1; simpl.
  { apply reach_here. split; [done|]. split; [intros [? ?]; auto|]. auto. }
  eapply reach_mono.
  { eapply (Hs2 eq_refl P f TS TF); [done|unfold base2, jx; lia|done|done| | |done|].
    - rewrite patch_code_app in Hpl. apply placed_app in Hpl as [_ Hpl].
      rewrite zlen_patch_code in Hpl. change (j :: c2) with ([j] ++ c2) in Hpl.
      rewrite patch_code_app in Hpl. by apply placed_app in Hpl as [_ Hpl].
    - split; intros q Hq; [apply HfS; set_solver|auto|]. intros Hq1 Hq2.
      apply HfN; [unfold base2, jx in *; lia| |done].
      intros [->|?]%elem_of_cons; [|done]. rewrite field_patch_idx in Hq. lia.
    - apply Hpre2; done. }
  intros m2 (Hsc2 & Hx2 & He2). simpl in *. split; [done|]. split; [intros [? ?]; rewrite Hx2, Hx; auto|].
  destruct b2; [|done]. destruct He2 as [? ?]. split; [|done]. unfold base2, jx in *. lia.
Qed.

(** Straight-line code on its own. *)
Lemma seg_line base cs (pre post : Z → Z → Prop) (K : Prop) :
  forallb straight cs = true →
  (∀ m, zlen (r_scratch m) = SCRATCH → pre (r_a m) (r_x m) → line_ok pkt B cs m (λ m1,
    post (r_a m1) (r_x m1) ∧ (K → r_x m1 = r_x m))) →
  seg pkt B base cs patches_default pre true post K.
Proof.
  intros Hst Hline P f TS TF Hwf Hb HTS HTF Hpl [_ _ HfN] m Hsc Hm.
  rewrite patch_code_id in Hpl by (intros; apply HfN; [done|apply not_elem_of_nil..]).
  apply (reach_line pkt B P Hwf base cs m _ Hb Hpl Hst).
  specialize (Hline m Hsc Hm). unfold line_ok in Hline.
  destruct (line pkt cs m) as [m1|] eqn:El; [|done].
  pose proof (line_scratch _ _ _ _ El) as Hsc1. rewrite Hsc in Hsc1.
  destruct Hline. apply reach_here. do 2 (split; [done|]). split; [by left|done].
Qed.

(** A two-way branch: [j] leads to [c6] when [b0], else to [c4], whose end
    jumps over [c6]. *)
Lemma seg_ite base cs j fld c4 c6 p4 p6 (pre pre4 pre6 post : Z → Z → Prop)
    b0 b4 b6 (K0 K4 K6 : Prop) :
  let jx := base + zlen cs in
  let base4 := jx + 1 in
  let jy := base4 + zlen c4 in
  let base6 := jy + 1 in
  let stop := base6 + zlen c6 in
  forallb straight cs = true → is_cond_jump j = true →
  open_field (other_field fld) j = 0 →
  success p4 = [] → success p6 = [] →
  within base4 jy p4 → within base6 stop p6 →
  (∀ m, zlen (r_scratch m) = SCRATCH → pre (r_a m) (r_x m) → line_ok pkt B cs m (λ m1,
    cond_test j m1 = Some (takes fld b0) ∧
    (b0 = true → pre6 (r_a m1) (r_x m1)) ∧ (b0 = false → pre4 (r_a m1) (r_x m1)) ∧
    (K0 → r_x m1 = r_x m))) →
  (b0 = false → seg pkt B base4 c4 p4 pre4 b4 post K4) →
  (b0 = true → seg pkt B base6 c6 p6 pre6 b6 post K6) →
  seg pkt B base
    (patch_code (to_all [field_patch fld jx] base6) base (cs ++ [j]) ++ c4
     ++ patch_code (to_all [Ja jy] stop) jy [ja 0] ++ c6)
    (fails (failure p4 ++ failure p6)) pre (if b0 then b6 else b4) post (K0 ∧ K4 ∧ K6).
Proof.
  intros jx base4 jy base6 stop Hst Hcj H0 Hq4 Hq6 Hin4 Hin6 Hline Hs4 Hs6
    P f TS TF Hwf Hb HTS HTF Hpl [_ HfF HfN] m Hsc Hm.
  pose proof (zlen_nonneg cs). pose proof (zlen_nonneg c4). pose proof (zlen_nonneg c6).
  assert (Hlen : base + zlen (patch_code (to_all [field_patch fld jx] base6) base (cs ++ [j])
     ++ c4 ++ patch_code (to_all [Ja jy] stop) jy [ja 0] ++ c6) = stop).
  { rewrite !zlen_app, !zlen_patch_code, zlen_app. change (zlen [_]) with 1.
    unfold stop, base6, jy, base4, jx. lia. }
  rewrite Hlen in *.
  assert (HfN' : ∀ q, base ≤ patch_idx q < stop → q ∉ failure p4 → q ∉ failure p6 → f q = None).
  { intros q Hq Hq1 Hq2. apply HfN; [lia|apply not_elem_of_nil|]. simpl. set_solver. }
  clear HfN.
  rewrite patch_code_app, patch_code_over, zlen_patch_code, zlen_app in Hpl.
  change (zlen [j]) with 1 in Hpl. apply placed_app in Hpl as [Hpl0 Hpl].
  rewrite zlen_patch_code, zlen_app in Hpl. change (zlen [j]) with 1 in Hpl.
  replace (base + (zlen cs + 1)) with base4 in Hpl by (unfold base4, jx; lia).
  rewrite patch_code_app in Hpl. apply placed_app in Hpl as [Hpl4 Hpl].
  rewrite zlen_patch_code in Hpl. fold jy in Hpl.
  rewrite patch_code_app, patch_code_over, zlen_patch_code in Hpl.
  apply placed_app in Hpl as [Hply Hpl6]. rewrite zlen_patch_code in Hpl6.
  change (zlen [ja 0]) with 1 in Hpl6. fold base6 in Hpl6.
  assert (Hno4 : ∀ q, q ∈ failure p4 → base4 ≤ patch_idx q < jy) by (intros; apply Hin4; auto).
  assert (Hno6 : ∀ q, q ∈ failure p6 → base6 ≤ patch_idx q < stop) by (intros; apply Hin6; auto).
  assert (Hnone : ∀ q, base ≤ patch_idx q ≤ jx → f q = None).
  { intros q Hq. apply HfN'; [unfold stop, base6, jy, base4; lia|intros ?%Hno4|intros ?%Hno6];
      unfold base6, jy, base4 in *; lia. }
  apply (reach_check P (over f (to_all [field_patch fld jx] base6)) base cs j fld [] base6 m);
    [done|done|by rewrite app_nil_r| | |done..|].
  { intros q Hq Hne. unfold over. rewrite Hnone by done. apply to_all_notin. set_solver. }
  { unfold over. rewrite Hnone by (rewrite field_patch_idx; unfold jx; lia).
    apply to_all_in. set_solver. }
  specialize (Hline m Hsc Hm). unfold line_ok in *.
  destruct (line pkt cs m) as [m1|] eqn:El; [|done].
  pose proof (line_scratch _ _ _ _ El) as Hsc1. rewrite Hsc in Hsc1.
  destruct Hline as (Ht & Hp6 & Hp4 & Hx). eexists. split; [exact Ht|].
  assert (takes fld (takes fld b0) = b0) as -> by (by destruct fld, b0).
  destruct b0.
  - eapply reach_mono.
    { eapply (Hs6 eq_refl P f stop TF); [done|unfold base6, jy, base4, jx; lia| |done|exact Hpl6| |done|
        apply Hp6; done].
      { unfold stop, base6, jy, base4, jx. lia. }
      split; intros q Hq; [rewrite Hq6 in Hq; by apply not_elem_of_nil in Hq|
        apply HfF; simpl; set_solver|].
      intros _ Hq2. apply HfN'; [unfold stop, base6, jy, base4, jx in *; lia| |done].
      intros ?%Hno4. unfold base6 in *. lia. }
    intros m2 (Hsc2 & Hx2 & He2). simpl in *. split; [done|]. split; [intros (? & ? & ?); rewrite Hx2, Hx; auto|].
    destruct b6; [|done]. destruct He2 as [? ?]. split; [|done]. left. unfold stop in *. lia.
  - eapply reach_bind.
    { eapply (Hs4 eq_refl P f jy TF); [done|unfold base4, jx; lia| |done|exact Hpl4| |done|
        apply Hp4; done].
      { unfold jy, base4, jx. lia. }
      split; intros q Hq; [rewrite Hq4 in Hq; by apply not_elem_of_nil in Hq|
        apply HfF; simpl; set_solver|].
      intros _ Hq2. fold jy in Hq. apply HfN'; [unfold stop, base6, base4, jx in *; lia|done|].
      intros ?%Hno6. unfold base6 in *. lia. }
    intros m2 (Hsc2 & Hx2 & He2). simpl in *. destruct b4.
    + destruct He2 as [Hpc Hpost]. fold jy in Hpc.
      assert (r_pc m2 = jy) as Hpc' by lia. rewrite (with_pc_eq _ _ Hpc').
      pose proof (Hply 0 _ (zget_patch_code _ jy [ja 0] 0)) as Hg. simpl in Hg.
      rewrite Z.add_0_r in Hg.
      eapply (reach_ja pkt B P Hwf jy); [unfold jy, base4, jx; lia|exact Hg|done|].
      apply reach_here. split; [done|]. split; [intros (? & ? & ?); simpl; rewrite Hx2, Hx; auto|].
      split; [|done]. left. simpl. unfold slot, over.
      rewrite HfN'; [rewrite to_all_in by set_solver; simpl; lia| |intros ?%Hno4|intros ?%Hno6];
        simpl in *; unfold stop, base6, jy, base4, jx in *; lia.
    + apply reach_here. split; [done|]. split; [intros (? & ? & ?); rewrite Hx2, Hx; auto|done].
Qed.
End check.
