(* ===== verification/Emit.v ===== *)
(** What an emitting function promises: how it extends the compiler state, and
    which segment it appends. Rules for sequencing emissions. *)

From S2P Require Export Line.

(** * Well-formed code *)

(** Instructions of the compiler: in range, no exotic MISC opcode, and
    unconditional jumps as short as conditional ones. *)
Definition good_insn (i : Insn) : Prop :=
  wf_insn i ∧ misc_ok i ∧ (is_ja i = true → i_k i ≤ 255).

Lemma patch_insn_good f idx i :
  good_insn i →
  (∀ q t, patch_idx q = idx → f q = Some t → idx < t ∧ t - idx - 1 ≤ 255) →
  good_insn (patch_insn f idx i).
Proof.
  intros ((? & ? & ? & ?) & Hm & Hja) Hf.
  assert (Hs : ∀ q old, patch_idx q = idx →
    (0 ≤ slot f q old ≤ 255 ∨ slot f q old = old)).
  { intros q old Hq. unfold slot. destruct (f q) as [t|] eqn:E; [|by right].
    destruct (Hf q t Hq E). left. lia. }
  unfold good_insn, wf_insn, patch_insn. simpl.
  pose proof (Hs (Jt idx) (i_jt i) eq_refl). pose proof (Hs (Jf idx) (i_jf i) eq_refl).
  pose proof (Hs (Ja idx) (i_k i) eq_refl).
  split_and!; try done; try ulia. intros Hj. specialize (Hja Hj). lia.
Qed.

Lemma patch_code_good f base c :
  Forall good_insn c →
  (∀ q t, f q = Some t → patch_idx q < t ∧ t - patch_idx q - 1 ≤ 255) →
  Forall good_insn (patch_code f base c).
Proof.
  intros Hc Hf. apply Forall_lookup. intros j i Hj. unfold patch_code in Hj.
  rewrite list_lookup_imap in Hj. apply fmap_Some in Hj as (i0 & Hi & ->).
  rewrite Forall_lookup in Hc. apply patch_insn_good; [eauto|].
  intros q t <- Ht. by apply Hf.
Qed.

(** * Growth of the compiler state *)

(** RawIp is compiled under the fact that the packet is IPv4. *)
Definition rawip_ok (s : Codegen) : Prop :=
  cg_link s = RawIp → f_ethertype (cg_facts s) = Some 0x0800.

(** No offset arithmetic overflows below this many VLAN tags. *)
Definition depth_ok (s : Codegen) : Prop := 0 ≤ cg_vlan_depth s < 2 ^ 28.

Record grows (n : Z) (s s' : Codegen) (q : Patches) : Prop := {
  gr_code : ∃ c, cg_insns s' = cg_insns s ++ c ∧ Forall good_insn c ∧ zlen c ≤ n;
  gr_link : cg_link s' = cg_link s;
  gr_depth : cg_vlan_depth s' = cg_vlan_depth s;
  gr_x : cg_x_writes s ≤ cg_x_writes s';
  gr_rawip : rawip_ok s → rawip_ok s';
  gr_within : within (zlen (cg_insns s)) (zlen (cg_insns s')) q;
  gr_separate : separate q;
}.

Lemma grows_len n s s' q : grows n s s' q → zlen (cg_insns s) ≤ zlen (cg_insns s').
Proof. intros [(c & -> & _) _ _ _ _ _ _]. rewrite zlen_app. pose proof (zlen_nonneg c). lia. Qed.

Section emits.
Context (pkt : list Z) (B : Z).

(** The code from [s] to [s'], with open slots [q], decides [b], given [H]. *)
Definition emits (n : Z) (s s' : Codegen) (q : Patches) (H : Prop)
    (pre : Z → Z → Prop) (b : bool) (post : Z → Z → Prop) : Prop :=
  grows n s s' q ∧
  (H → ∀ c, cg_insns s' = cg_insns s ++ c →
    seg pkt B (zlen (cg_insns s)) c q pre b post (cg_x_writes s' = cg_x_writes s)).

Lemma emits_weaken n n' s s' q (H H' : Prop) (pre pre' : Z → Z → Prop) b b'
    (post post' : Z → Z → Prop) :
  emits n s s' q H pre b post → n ≤ n' → (H' → H) → (H' → b' = b) →
  (H' → ∀ a x, pre' a x → pre a x) → (H' → b = true → ∀ a x, post a x → post' a x) →
  emits n' s s' q H' pre' b' post'.
Proof.
  intros [[(c & Ec & Hg & Hn) ? ? ? ? ? ?] Hs] Hle HH Hb Hpre Hpost. split.
  - constructor; try done. exists c. split_and!; [done..|lia].
  - intros Hh c' Hc. rewrite (Hb Hh). eapply seg_mono; [apply Hs; auto|by apply Hpre| |done].
    intros a x Hb'. by apply Hpost.
Qed.

Lemma emits_patches n s s' q q' H pre b post :
  (∀ p, p ∈ success q ↔ p ∈ success q') → (∀ p, p ∈ failure q ↔ p ∈ failure q') →
  emits n s s' q H pre b post → emits n s s' q' H pre b post.
Proof.
  intros HS HF [[? ? ? ? ? Hw Hp] Hs]. split.
  - constructor; try done.
    + intros p. rewrite <- HS, <- HF. apply Hw.
    + intros p. rewrite <- HS, <- HF. apply Hp.
  - intros Hh c Hc. eapply seg_patches; [exact HS|exact HF|auto].
Qed.

(** Recording facts emits nothing. *)
Lemma emits_set_facts n s s' q f H pre b post :
  (rawip_ok s' → rawip_ok (set_facts f s')) →
  emits n s s' q H pre b post → emits n s (set_facts f s') q H pre b post.
Proof.
  intros Hraw [[? ? ? ? ? ? ?] Hs]. split; [constructor; auto|exact Hs].
Qed.

Lemma emits_skip s H (pre : Z → Z → Prop) : emits 0 s s patches_default H pre true pre.
Proof.
  split.
  - constructor; try done; [|by intros q [?%not_elem_of_nil|?%not_elem_of_nil]|
      by intros q ?%not_elem_of_nil].
    exists []. rewrite app_nil_r. split_and!; [done..|]. znil. lia.
  - intros _ c Hc. rewrite <- (app_nil_r (cg_insns s)) in Hc at 1. simplify_list_eq.
    apply seg_skip.
Qed.

(** Sequencing, the success slots of the left resolved to the right. *)
Lemma emits_and n1 n2 s s1 s1' s2 q1 q2 (H : Prop) pre b1 mid b2 post :
  cg_insns s1' = patch_code (to_all (success q1) (zlen (cg_insns s1))) 0 (cg_insns s1) →
  (∀ q, q ∈ success q1 → zlen (cg_insns s1) - patch_idx q - 1 ≤ 255) →
  cg_link s1' = cg_link s1 → cg_x_writes s1' = cg_x_writes s1 →
  (rawip_ok s1 → rawip_ok s1') → cg_vlan_depth s2 = cg_vlan_depth s →
  emits n1 s s1 q1 H pre b1 mid →
  grows n2 s1' (set_depth (cg_vlan_depth s1') s2) q2 →
  (H → b1 = true → ∀ c, cg_insns s2 = cg_insns s1' ++ c →
    seg pkt B (zlen (cg_insns s1')) c q2 mid b2 post (cg_x_writes s2 = cg_x_writes s1')) →
  emits (n1 + n2) s s2 (mk_patches (success q2) (failure q1 ++ failure q2)) H
    pre (b1 && b2) post.
Proof.
  intros Hi1 H255 Hl1 Hx1 Hr1 Hd2 [G1 S1] G2 S2.
  pose proof (grows_len _ _ _ _ G1) as Hlen1.
  pose proof (grows_len _ _ _ _ G2) as Hlen2. simpl in Hlen2.
  destruct G1 as [(c1 & E1 & Hg1 & Hn1) Hlk1 Hdp1 Hxw1 Hrw1 Hin1 Hsep1].
  destruct G2 as [(c2 & E2 & Hg2 & Hn2) Hlk2 Hdp2 Hxw2 Hrw2 Hin2 Hsep2].
  simpl in *.
  set (base := zlen (cg_insns s)) in *. set (base2 := zlen (cg_insns s1)) in *.
  assert (Hb2 : base2 = base + zlen c1) by (unfold base2; rewrite E1; apply zlen_app).
  assert (Hb2' : zlen (cg_insns s1') = base2) by (rewrite Hi1; apply zlen_patch_code).
  rewrite Hb2' in *.
  assert (Ec1 : cg_insns s1' =
    cg_insns s ++ patch_code (to_all (success q1) base2) base c1).
  { rewrite Hi1, E1. apply patch_code_suffix. intros q Hq. apply to_all_notin. intros Hin.
    assert (base ≤ patch_idx q) by (apply Hin1; auto). lia. }
  assert (Hend : zlen (cg_insns s2) = base2 + zlen c2) by (rewrite E2, zlen_app; lia).
  split.
  - constructor; simpl; [|congruence|congruence|lia|auto| |].
    + exists (patch_code (to_all (success q1) base2) base c1 ++ c2). split_and!.
      * by rewrite E2, Ec1, app_assoc.
      * apply Forall_app. split; [|done]. apply patch_code_good; [done|].
        unfold to_all. intros q t Ht. case_decide as Hin; [|done]. injection Ht as <-.
        assert (patch_idx q < base2) by (apply Hin1; auto). auto.
      * rewrite zlen_app, zlen_patch_code. lia.
    + intros q [Hq|[Hq|Hq]%elem_of_app].
      * assert (base2 ≤ patch_idx q < zlen (cg_insns s2)) by (apply Hin2; auto). lia.
      * assert (base ≤ patch_idx q < base2) by (apply Hin1; auto). lia.
      * assert (base2 ≤ patch_idx q < zlen (cg_insns s2)) by (apply Hin2; auto). lia.
    + intros q Hq [Hq'|Hq']%elem_of_app; [|by apply (Hsep2 q)].
      assert (base2 ≤ patch_idx q) by (apply Hin2; auto).
      assert (patch_idx q < base2) by (apply Hin1; auto). lia.
  - intros Hh c Hc.
    assert (c = patch_code (to_all (success q1) base2) base c1 ++ c2) as ->.
    { rewrite E2, Ec1, <- app_assoc in Hc. by apply app_inv_head in Hc. }
    rewrite Hb2 in *.
    eapply seg_mono; [eapply (seg_and pkt B base c1 c2 q1 q2)| | |].
    + done.
    + done.
    + rewrite <- Hend. done.
    + by apply S1.
    + intros Hb1. by apply S2.
    + done.
    + done.
    + intros Hx. lia.
Qed.

(** The common case: the left has no success slots. *)
Lemma emits_seq n1 n2 s s1 s2 q1 q2 (H H2 : Prop) pre b1 mid b2 post :
  success q1 = [] →
  emits n1 s s1 q1 H pre b1 mid →
  emits n2 s1 s2 q2 H2 mid b2 post →
  (H → b1 = true → H2) →
  emits (n1 + n2) s s2 (extend q1 q2) H pre (b1 && b2) post.
Proof.
  intros Hq1 E1 [G2 S2] HH. unfold extend. rewrite Hq1. simpl.
  pose proof G2 as [_ _ Hd2 _ _ _ _]. pose proof (proj1 E1) as [_ _ Hd1 _ _ _ _].
  eapply (emits_and n1 n2 s s1 s1 s2 q1 q2 H); try done; try congruence.
  - rewrite Hq1. rewrite patch_code_id; [done|]. intros. apply to_all_notin, not_elem_of_nil.
  - rewrite Hq1. by intros q ?%not_elem_of_nil.
  - destruct G2. constructor; simpl; auto.
  - intros Hh Hb. apply S2. auto.
Qed.

(** Left; then a jump over the right, to which the failures lead. *)
Lemma emits_or n1 n2 s s1 s1' s2 q1 q2 (H : Prop) (pre : Z → Z → Prop) b1 b2
    (post pre2 : Z → Z → Prop) :
  cg_insns s1' = patch_code (to_all (failure q1) (zlen (cg_insns s1) + 1)) 0
                   (cg_insns s1 ++ [ja 0]) →
  (∀ q, q ∈ failure q1 → zlen (cg_insns s1) + 1 - patch_idx q - 1 ≤ 255) →
  cg_link s1' = cg_link s1 → cg_x_writes s1' = cg_x_writes s1 →
  cg_vlan_depth s1' = cg_vlan_depth s1 → (rawip_ok s → rawip_ok s1') →
  emits n1 s s1 q1 H pre b1 post →
  grows n2 s1' s2 q2 →
  (H → b1 = false → ∀ a x a' x',
    pre a x → (cg_x_writes s1 = cg_x_writes s → x' = x) → pre2 a' x') →
  (H → b1 = false → ∀ c, cg_insns s2 = cg_insns s1' ++ c →
    seg pkt B (zlen (cg_insns s1')) c q2 pre2 b2 post (cg_x_writes s2 = cg_x_writes s1')) →
  emits (n1 + 1 + n2) s s2
    (mk_patches (success q1 ++ [Ja (zlen (cg_insns s1))] ++ success q2) (failure q2)) H
    pre (b1 || b2) post.
Proof.
  intros Hi1 H255 Hl1 Hx1 Hd1 Hr1 [G1 S1] G2 Hpre2 S2.
  pose proof (grows_len _ _ _ _ G1) as Hlen1.
  pose proof (grows_len _ _ _ _ G2) as Hlen2.
  destruct G1 as [(c1 & E1 & Hg1 & Hn1) Hlk1 Hdp1 Hxw1 Hrw1 Hin1 Hsep1].
  destruct G2 as [(c2 & E2 & Hg2 & Hn2) Hlk2 Hdp2 Hxw2 Hrw2 Hin2 Hsep2].
  set (base := zlen (cg_insns s)) in *. set (jx := zlen (cg_insns s1)) in *.
  assert (Hjx : jx = base + zlen c1) by (unfold jx; rewrite E1; apply zlen_app).
  assert (Hb2' : zlen (cg_insns s1') = jx + 1)
    by (rewrite Hi1, zlen_patch_code; apply zlen_app).
  rewrite Hb2' in *.
  assert (Hlow : ∀ q, q ∈ failure q1 → base ≤ patch_idx q < jx) by (intros; apply Hin1; auto).
  assert (Ec1 : cg_insns s1' =
    cg_insns s ++ patch_code (to_all (failure q1) (jx + 1)) base c1 ++ [ja 0]).
  { rewrite Hi1, E1, <- app_assoc, patch_code_suffix.
    2:{ intros q Hq. apply to_all_notin. intros Hin. specialize (Hlow q Hin). lia. }
    rewrite patch_code_app. fold base. rewrite <- Hjx. do 2 f_equal. apply patch_code_id.
    intros q Hq. apply to_all_notin. intros Hin. specialize (Hlow q Hin). lia. }
  assert (Hend : zlen (cg_insns s2) = jx + 1 + zlen c2) by (rewrite E2, zlen_app; lia).
  split.
  - constructor; simpl; [|congruence|congruence|lia|auto| |].
    + exists (patch_code (to_all (failure q1) (jx + 1)) base c1 ++ [ja 0] ++ c2). split_and!.
      * by rewrite E2, Ec1, <- !app_assoc.
      * rewrite !Forall_app. split_and!; [|repeat constructor; try done; lia|done].
        apply patch_code_good; [done|].
        unfold to_all. intros q t Ht. case_decide as Hin; [|done]. injection Ht as <-.
        specialize (Hlow q Hin). specialize (H255 q Hin). lia.
      * rewrite !zlen_app, zlen_patch_code. change (zlen [ja 0]) with 1. lia.
    + intros q [[Hq|[->|Hq]%elem_of_cons]%elem_of_app|Hq]; simpl.
      * assert (base ≤ patch_idx q < jx) by (apply Hin1; auto). lia.
      * lia.
      * assert (jx + 1 ≤ patch_idx q < zlen (cg_insns s2)) by (apply Hin2; auto). lia.
      * assert (jx + 1 ≤ patch_idx q < zlen (cg_insns s2)) by (apply Hin2; auto). lia.
    + intros q Hq Hq'.
      assert (jx + 1 ≤ patch_idx q < zlen (cg_insns s2)) by (apply Hin2; auto).
      apply elem_of_app in Hq as [Hq|[->|Hq]%elem_of_cons]; [|simpl in *; lia|by apply (Hsep2 q)].
      assert (base ≤ patch_idx q < jx) by (apply Hin1; auto). lia.
  - intros Hh c Hc.
    assert (c = patch_code (to_all (failure q1) (jx + 1)) base c1 ++ [ja 0] ++ c2) as ->.
    { rewrite E2, Ec1, <- !app_assoc in Hc. by apply app_inv_head in Hc. }
    rewrite Hend in Hin2. rewrite Hjx in *.
    eapply seg_mono; [eapply (seg_or pkt B base c1 c2 q1 q2)| | |].
    + done.
    + done.
    + done.
    + by apply S1.
    + intros Hb1. by apply Hpre2.
    + intros Hb1. by apply S2.
    + done.
    + done.
    + intros Hx. lia.
Qed.

(** The inner code, then a jump; failures lead behind it. *)
Lemma emits_not n s s1 s2 q1 (H : Prop) (pre : Z → Z → Prop) b mid (post : Z → Z → Prop) :
  cg_insns s2 = patch_code (to_all (failure q1) (zlen (cg_insns s1) + 1)) 0
                  (cg_insns s1 ++ [ja 0]) →
  (∀ q, q ∈ failure q1 → zlen (cg_insns s1) + 1 - patch_idx q - 1 ≤ 255) →
  cg_link s2 = cg_link s1 → cg_x_writes s2 = cg_x_writes s1 →
  cg_vlan_depth s2 = cg_vlan_depth s1 → (rawip_ok s → rawip_ok s2) →
  emits n s s1 q1 H pre b mid →
  (H → b = false → ∀ a x a' x',
    pre a x → (cg_x_writes s1 = cg_x_writes s → x' = x) → post a' x') →
  emits (n + 1) s s2 (mk_patches [] (success q1 ++ [Ja (zlen (cg_insns s1))])) H
    pre (negb b) post.
Proof.
  intros Hi1 H255 Hl1 Hx1 Hd1 Hr1 [G1 S1] Hpost.
  pose proof (grows_len _ _ _ _ G1) as Hlen1.
  destruct G1 as [(c1 & E1 & Hg1 & Hn1) Hlk1 Hdp1 Hxw1 Hrw1 Hin1 Hsep1].
  set (base := zlen (cg_insns s)) in *. set (jx := zlen (cg_insns s1)) in *.
  assert (Hjx : jx = base + zlen c1) by (unfold jx; rewrite E1; apply zlen_app).
  assert (Hend : zlen (cg_insns s2) = jx + 1)
    by (rewrite Hi1, zlen_patch_code; apply zlen_app).
  assert (Hlow : ∀ q, q ∈ failure q1 → base ≤ patch_idx q < jx) by (intros; apply Hin1; auto).
  assert (Ec1 : cg_insns s2 =
    cg_insns s ++ patch_code (to_all (failure q1) (jx + 1)) base c1 ++ [ja 0]).
  { rewrite Hi1, E1, <- app_assoc, patch_code_suffix.
    2:{ intros q Hq. apply to_all_notin. intros Hin. specialize (Hlow q Hin). lia. }
    rewrite patch_code_app. fold base. rewrite <- Hjx. do 2 f_equal. apply patch_code_id.
    intros q Hq. apply to_all_notin. intros Hin. specialize (Hlow q Hin). lia. }
  split.
  - constructor; simpl; [|congruence|congruence|lia|auto| |].
    + eexists. split_and!; [exact Ec1| |].
      * rewrite !Forall_app. split_and!; [|repeat constructor; try done; lia].
        apply patch_code_good; [done|].
        unfold to_all. intros q t Ht. case_decide as Hin; [|done]. injection Ht as <-.
        specialize (Hlow q Hin). specialize (H255 q Hin). lia.
      * rewrite !zlen_app, zlen_patch_code. change (zlen [ja 0]) with 1. lia.
    + intros q [Hq|[Hq|Hq%list_elem_of_singleton]%elem_of_app]; simpl.
      * by apply not_elem_of_nil in Hq.
      * assert (base ≤ patch_idx q < jx) by (apply Hin1; auto). lia.
      * subst q. simpl. lia.
    + by intros q ?%not_elem_of_nil.
  - intros Hh c Hc.
    assert (c = patch_code (to_all (failure q1) (jx + 1)) base c1 ++ [ja 0]) as ->.
    { rewrite Ec1 in Hc. by apply app_inv_head in Hc. }
    rewrite Hjx in *.
    eapply seg_mono; [eapply (seg_not pkt B base c1 q1)| | |].
    + done.
    + done.
    + by apply S1.
    + intros Hb1. by apply Hpost.
    + done.
    + done.
    + intros Hx. lia.
Qed.

(** ** Leaves *)

(** The state after pushing an instruction. *)
Definition pushed (i : Insn) (s : Codegen) : Codegen :=
  mk_codegen (cg_insns s ++ [i]) (cg_link s)
    (if writes_x i then set_ports_ready None (cg_facts s) else cg_facts s)
    (if writes_x i then cg_x_writes s + 1 else cg_x_writes s)
    (cg_vlan_depth s).

Definition pushed_all (c : list Insn) (s : Codegen) : Codegen :=
  foldl (λ s i, pushed i s) s c.

Lemma pushed_all_cons i c s : pushed_all (i :: c) s = pushed_all c (pushed i s).
Proof. done. Qed.

Lemma pushed_all_grows c s :
  let s' := pushed_all c s in
  cg_insns s' = cg_insns s ++ c ∧ cg_link s' = cg_link s ∧
  cg_vlan_depth s' = cg_vlan_depth s ∧ cg_x_writes s ≤ cg_x_writes s' ∧
  f_ethertype (cg_facts s') = f_ethertype (cg_facts s).
Proof.
  revert s. induction c as [|i c IH]; intros s; simpl; [by rewrite app_nil_r|].
  destruct (IH (pushed i s)) as (-> & -> & -> & Hx & ->). simpl in *.
  rewrite <- app_assoc. split_and!; try done; case_match; try done; lia.
Qed.

Lemma pushed_all_no_x c s :
  forallb (λ i, negb (writes_x i)) c = true →
  cg_x_writes (pushed_all c s) = cg_x_writes s ∧ cg_facts (pushed_all c s) = cg_facts s.
Proof.
  revert s. induction c as [|i c IH]; intros s; simpl; [done|]. intros H. zbool.
  destruct (IH (pushed i s) H0) as [-> ->]. simpl. by rewrite H.
Qed.

Lemma pushed_all_x c s :
  forallb (λ i, negb (writes_x i)) c = false →
  f_ports_ready (cg_facts (pushed_all c s)) = None ∧
  cg_x_writes s < cg_x_writes (pushed_all c s).
Proof.
  revert s. induction c as [|i c IH]; intros s; simpl; [done|].
  destruct (writes_x i) eqn:Hw; simpl.
  - intros _. destruct (pushed_all_grows c (pushed i s)) as (_ & _ & _ & Hx & _).
    simpl in Hx. rewrite Hw in Hx. split; [|lia].
    destruct (forallb (λ i, negb (writes_x i)) c) eqn:Hc.
    + destruct (pushed_all_no_x c (pushed i s) Hc) as [_ ->]. simpl. by rewrite Hw.
    + by apply IH.
  - intros Hc. destruct (IH (pushed i s) Hc) as [? Hx]. simpl in Hx. rewrite Hw in Hx. done.
Qed.

(** A leaf given by its code. *)
Lemma emits_code c s q (H : Prop) (pre : Z → Z → Prop) b post :
  let s' := pushed_all c s in
  Forall good_insn c →
  within (zlen (cg_insns s)) (zlen (cg_insns s) + zlen c) q → separate q →
  (H → seg pkt B (zlen (cg_insns s)) c q pre b post (cg_x_writes s' = cg_x_writes s)) →
  emits (zlen c) s s' q H pre b post.
Proof.
  intros s' Hg Hin Hsep Hs. destruct (pushed_all_grows c s) as (Ei & El & Ed & Ex & Ef).
  fold s' in Ei, El, Ed, Ex, Ef. split.
  - constructor; try done.
    + exists c. done.
    + unfold rawip_ok. by rewrite El, Ef.
    + by rewrite Ei, zlen_app.
  - intros Hh c' Hc. rewrite Ei in Hc. apply app_inv_head in Hc as <-. auto.
Qed.

Lemma within_fails fld lo n idx :
  lo ≤ idx < lo + n → within lo (lo + n) (fails [field_patch fld idx]).
Proof.
  intros ? q [Hq|Hq]; [by apply not_elem_of_nil in Hq|].
  apply list_elem_of_singleton in Hq as ->. by destruct fld.
Qed.

Lemma separate_fails l : separate (fails l).
Proof. by intros q ?%not_elem_of_nil. Qed.

(** Straight-line code and a conditional jump with one failure slot. *)
Lemma emits_check cs j fld s (H : Prop) (pre : Z → Z → Prop) b (post : Z → Z → Prop) q :
  let s' := pushed_all (cs ++ [j]) s in
  q = fails [field_patch fld (zlen (cg_insns s) + zlen cs)] →
  Forall good_insn (cs ++ [j]) →
  forallb straight cs = true → is_cond_jump j = true →
  open_field (other_field fld) j = 0 →
  (H → ∀ m, zlen (r_scratch m) = SCRATCH → pre (r_a m) (r_x m) → line_ok pkt B cs m (λ m1,
    cond_test j m1 = Some (takes fld (negb b)) ∧
    (b = true → post (r_a m1) (r_x m1)) ∧
    (cg_x_writes s' = cg_x_writes s → r_x m1 = r_x m))) →
  emits (zlen cs + 1) s s' q H pre b post.
Proof.
  intros s' -> Hg Hst Hcj H0 Hline.
  assert (zlen cs + 1 = zlen (cs ++ [j])) as -> by (rewrite zlen_app; done).
  pose proof (zlen_nonneg cs).
  apply emits_code; [done| |apply separate_fails|].
  - rewrite zlen_app. change (zlen [j]) with 1. apply within_fails. lia.
  - intros Hh. apply seg_check; auto.
Qed.
End emits.

(** * Running an emitter *)

Lemma wp_push i s (Q : Z → Codegen → Prop) :
  Q (zlen (cg_insns s)) (pushed i s) → wp (push i) s Q.
Proof. done. Qed.

Lemma wp_here s (Q : Z → Codegen → Prop) : Q (zlen (cg_insns s)) s → wp here s Q.
Proof. done. Qed.

Lemma wp_u32_add a b s (Q : Z → Codegen → Prop) :
  a + b < 2 ^ 32 → Q (a + b) s → wp (u32_add a b) s Q.
Proof. intros Hlt HQ. unfold u32_add. by rewrite (proj2 (Z.ltb_lt _ _)). Qed.

Lemma wp_net_offset s (Q : Z → Codegen → Prop) :
  depth_ok s → Q (net_at (cg_link s) (cg_vlan_depth s)) s → wp net_offset s Q.
Proof.
  intros Hd HQ. unfold depth_ok in Hd. unfold net_offset, u32_mul.
  do 2 apply wp_bind, wp_gets. apply wp_bind. rewrite (proj2 (Z.ltb_lt _ _)) by lia.
  apply wp_ret. apply wp_u32_add; [destruct (cg_link s); simpl; lia|].
  unfold net_at in HQ. by replace (4 * cg_vlan_depth s) with (cg_vlan_depth s * 4) in HQ by lia.
Qed.

Lemma wp_ether_proto_offset s (Q : option Z → Codegen → Prop) :
  depth_ok s →
  Q ((λ o, o + 4 * cg_vlan_depth s) <$> link_ether_proto_offset (cg_link s)) s →
  wp ether_proto_offset s Q.
Proof.
  intros Hd HQ. unfold depth_ok in Hd. unfold ether_proto_offset, u32_mul.
  apply wp_bind, wp_gets. destruct (link_ether_proto_offset (cg_link s)) as [o|] eqn:E; [|done].
  assert (o ≤ 14) by (destruct (cg_link s); simplify_eq/=; lia).
  apply wp_bind, wp_gets, wp_bind. rewrite (proj2 (Z.ltb_lt _ _)) by lia.
  apply wp_ret, wp_bind, wp_u32_add; [lia|]. apply wp_ret. simpl in HQ.
  by replace (4 * cg_vlan_depth s) with (cg_vlan_depth s * 4) in HQ by lia.
Qed.

Lemma wp_put_facts f s (Q : unit → Codegen → Prop) : Q tt (set_facts f s) → wp (put_facts f) s Q.
Proof. done. Qed.

Lemma wp_lift {A} (o : outcome A) s (Q : A → Codegen → Prop) :
  returns o → (∀ a, o = Ok a → Q a s) → wp (lift o) s Q.
Proof. intros Hr HQ. destruct o; simpl in *; try done. by apply HQ. Qed.
