(* ===== verification/EmitChecks.v ===== *)
(** The checks the primitives are built from: each is shown to emit a segment
    that decides a comparison of packet fields. *)

From S2P Require Export Emit.

(** * Instructions in range *)

Lemma good_plain i :
  is_u16 (i_code i) → is_u8 (i_jt i) → is_u8 (i_jf i) → is_u32 (i_k i) →
  (i_code i .& 0x07 =? BPF_MISC) = false → is_ja i = false → good_insn i.
Proof.
  intros ? ? ? ? Hm Hj. split_and!; [done|..]; [|congruence].
  intros E. rewrite E in Hm. done.
Qed.

Lemma good_tax : good_insn tax.
Proof. repeat split; try done. by left. Qed.

Ltac solve_range :=
  cbv [i_code i_jt i_jf i_k ldw_abs ldh_abs ldb_abs ldw_ind ldb_ind ldh_ind ldx_msh ldx_imm
       and_k or_k rsh_k add_k sub_k mul_k div_k lsh_k xor_k jeq_k jgt_k jge_k jset_k
       jeq_x jgt_x jge_x jset_x st ldx_mem ja];
  first [ assumption
        | unfold is_u32, is_u8; lia
        | by (split; vm_compute) ].

(** Every instruction of a literal list is good, given the ranges of [k]. *)
Ltac solve_good :=
  repeat first [apply Forall_nil_2 | apply Forall_cons_2];
  first [ exact good_tax
        | apply good_plain; [solve_range|solve_range|solve_range|solve_range
                            |reflexivity|reflexivity] ].

(** * Conditional jumps *)

Lemma cond_jeq k jt jf m : cond_test (jeq_k k jt jf) m = Some (r_a m =? k).
Proof. done. Qed.
Lemma cond_jgt k jt jf m : cond_test (jgt_k k jt jf) m = Some (k <? r_a m).
Proof. done. Qed.
Lemma cond_jge k jt jf m : cond_test (jge_k k jt jf) m = Some (k <=? r_a m).
Proof. done. Qed.
Lemma cond_jset k jt jf m : cond_test (jset_k k jt jf) m = Some (negb (r_a m .& k =? 0)).
Proof. done. Qed.

Section checks.
Context (pkt : list Z) (B : Z).

Abbreviation emits := (emits pkt B).
Abbreviation line_ok := (line_ok pkt B).

(** The facts and the X counter are as before. *)
Definition same_env (s s' : Codegen) : Prop :=
  cg_facts s' = cg_facts s ∧ cg_x_writes s' = cg_x_writes s ∧ cg_link s' = cg_link s ∧
  cg_vlan_depth s' = cg_vlan_depth s.

Lemma same_env_refl s : same_env s s.
Proof. done. Qed.

Lemma same_env_trans s1 s2 s3 : same_env s1 s2 → same_env s2 s3 → same_env s1 s3.
Proof. unfold same_env. intros (-> & -> & -> & ->) (-> & -> & -> & ->). done. Qed.

Lemma same_env_pushed_all c s :
  forallb (λ i, negb (writes_x i)) c = true → same_env s (pushed_all c s).
Proof.
  intros Hc. destruct (pushed_all_no_x c s Hc) as [Ex Ef].
  destruct (pushed_all_grows c s) as (_ & ? & ? & _). done.
Qed.

(** [cs] loads [v] into A and keeps X. *)
Definition loads (cs : list Insn) (R : Z → Prop) (v : Z) : Prop :=
  ∀ m, R (r_x m) → line_ok cs m (λ m1, r_a m1 = v ∧ r_x m1 = r_x m).

(** Load, then one conditional jump with the failure slot in [fld]. *)
Lemma emits_load_check cs j fld s (H : Prop) (R : Z → Prop) v b q :
  q = fails [field_patch fld (zlen (cg_insns s) + zlen cs)] →
  Forall good_insn (cs ++ [j]) → forallb straight cs = true → is_cond_jump j = true →
  open_field (other_field fld) j = 0 →
  (H → loads cs R v) →
  (∀ m, r_a m = v → cond_test j m = Some (takes fld (negb b))) →
  emits (zlen cs + 1) s (pushed_all (cs ++ [j]) s) q H (λ _ x, R x) b (λ _ x, R x).
Proof.
  intros Hq Hg Hst Hcj H0 Hl Ht. apply (emits_check pkt B cs j fld); try done.
  intros Hh m _ Hm. specialize (Hl Hh m Hm). unfold Line.line_ok in *.
  destruct (line pkt cs m) as [m1|]; [|done]. destruct Hl as [Ha Hx].
  split_and!; [by apply Ht| |done]. intros _. by rewrite Hx.
Qed.

(** Two loads compared with one constant: both must match, or one of them. *)
Lemma emits_two_and cs1 cs2 k s (H : Prop) (R : Z → Prop) v1 v2 :
  is_u32 k → Forall good_insn (cs1 ++ cs2) →
  forallb straight cs1 = true → forallb straight cs2 = true →
  (H → loads cs1 R v1) → (H → loads cs2 R v2) →
  let i1 := zlen (cg_insns s) + zlen cs1 in
  let i2 := i1 + 1 + zlen cs2 in
  emits (zlen cs1 + 1 + (zlen cs2 + 1)) s
    (pushed_all (cs2 ++ [jeq_k k 0 0xff]) (pushed_all (cs1 ++ [jeq_k k 0 0xff]) s))
    (fails [Jf i1; Jf i2]) H (λ _ x, R x) ((v1 =? k) && (v2 =? k)) (λ _ x, R x).
Proof.
  intros Hk Hg Hst1 Hst2 Hl1 Hl2 i1 i2. apply Forall_app in Hg as [Hg1 Hg2].
  destruct (pushed_all_grows (cs1 ++ [jeq_k k 0 0xff]) s) as (Ei & _).
  eapply emits_patches; [| |eapply (emits_seq pkt B _ _ s _ _ (fails [Jf i1]) (fails [Jf i2]) H H);
    [done|apply (emits_load_check cs1 (jeq_k k 0 0xff) FieldJf s H R v1)
    |apply (emits_load_check cs2 (jeq_k k 0 0xff) FieldJf _ H R v2)|done]]; try done.
  - apply Forall_app. split; [done|solve_good].
  - intros m <-. rewrite cond_jeq. simpl. by rewrite negb_involutive.
  - rewrite Ei, !zlen_app. change (zlen [_]) with 1. unfold i2, i1. simpl. do 3 f_equal. lia.
  - apply Forall_app. split; [done|solve_good].
  - intros m <-. rewrite cond_jeq. simpl. by rewrite negb_involutive.
Qed.

Lemma emits_two_or cs1 cs2 k s (H : Prop) (R : Z → Prop) v1 v2 :
  is_u32 k → Forall good_insn (cs1 ++ cs2) →
  forallb straight cs1 = true → forallb straight cs2 = true →
  (H → loads cs1 R v1) → (H → loads cs2 R v2) →
  let i1 := zlen (cg_insns s) + zlen cs1 in
  let i2 := i1 + 1 + zlen cs2 in
  let code := cs1 ++ [jeq_k k 0xff 0] ++ cs2 ++ [jeq_k k 0 0xff] in
  emits (zlen code) s (pushed_all code s)
    (mk_patches [Jt i1] [Jf i2]) H (λ _ x, R x) ((v1 =? k) || (v2 =? k)) (λ _ x, R x).
Proof.
  intros Hk Hg Hst1 Hst2 Hl1 Hl2 i1 i2 code. apply Forall_app in Hg as [Hg1 Hg2].
  pose proof (zlen_nonneg cs1). pose proof (zlen_nonneg cs2).
  assert (Hlen : zlen code = zlen cs1 + 1 + zlen cs2 + 1)
    by (unfold code; rewrite !zlen_app; change (zlen [_]) with 1; lia).
  apply emits_code.
  - unfold code. rewrite !Forall_app. split_and!; [done|solve_good|done|solve_good].
  - intros q [Hq%list_elem_of_singleton|Hq%list_elem_of_singleton]; subst q;
      simpl; unfold i2, i1; lia.
  - intros q Hq%list_elem_of_singleton Hq'%list_elem_of_singleton. by subst q.
  - intros Hh. specialize (Hl1 Hh). specialize (Hl2 Hh).
    eapply seg_mono; [eapply (seg_or_jump pkt B _ cs1 (jeq_k k 0xff 0) FieldJt
      (cs2 ++ [jeq_k k 0 0xff]) (fails [Jf i2]) (λ _ x, R x) (v1 =? k) (v2 =? k)
      (λ _ x, R x) (λ _ x, R x) True True)|done|done|done]; try done.
    + intros q [Hq|Hq%list_elem_of_singleton]; [by apply not_elem_of_nil in Hq|subst q].
      rewrite zlen_app. change (zlen [_]) with 1. simpl. unfold i2, i1. lia.
    + intros m _ Hm. specialize (Hl1 m Hm). unfold Line.line_ok in *.
      destruct (line pkt cs1 m) as [m1|]; [|done]. destruct Hl1 as [<- Hx].
      rewrite cond_jeq, Hx. done.
    + intros _. apply (seg_check pkt B _ cs2 (jeq_k k 0 0xff) FieldJf); try done.
      intros m _ Hm. specialize (Hl2 m Hm). unfold Line.line_ok in *.
      destruct (line pkt cs2 m) as [m1|]; [|done]. destruct Hl2 as [<- Hx].
      rewrite cond_jeq, Hx. simpl. by rewrite negb_involutive.
Qed.

(** ** Loads *)

Lemma loads_load sz o R :
  0 ≤ o < 2 ^ 32 → o + size_bytes sz ≤ B → loads [load_insn o sz false] R (load_sem pkt sz o).
Proof. intros ? ? m Hm. by apply line_load_abs. Qed.

Lemma loads_ldb o R : 0 ≤ o < 2 ^ 32 → o + 1 ≤ B → loads [ldb_abs o] R (b8 pkt o).
Proof. apply (loads_load Byte). Qed.
Lemma loads_ldh o R : 0 ≤ o < 2 ^ 32 → o + 2 ≤ B → loads [ldh_abs o] R (h16 pkt o).
Proof. apply (loads_load Half). Qed.
Lemma loads_ldw o R : 0 ≤ o < 2 ^ 32 → o + 4 ≤ B → loads [ldw_abs o] R (w32 pkt o).
Proof. apply (loads_load Word). Qed.

Lemma loads_ldh_ind o base (R : Z → Prop) :
  (∀ x, R x → x + o = base) → 0 ≤ base < 2 ^ 32 → base + 2 ≤ B →
  loads [ldh_ind o] R (h16 pkt base).
Proof.
  intros HR Hb HB m Hm. specialize (HR _ Hm). apply line_ldh_ind; [lia..|].
  rewrite HR. done.
Qed.

Lemma loads_then cs i v v' R :
  loads cs R v →
  (∀ m (Q : vm → Prop), r_a m = v → Q (set_a v' m) → line_ok [i] m Q) →
  loads (cs ++ [i]) R v'.
Proof.
  intros Hl Hi m Hm. specialize (Hl m Hm). unfold Line.line_ok in *.
  assert (line pkt (cs ++ [i]) m = m1 ← line pkt cs m; line pkt [i] m1) as ->.
  { clear. revert m. induction cs as [|i' cs IH]; intros m; [done|].
    simpl. destruct (exec_insn pkt m i'); [apply IH|done]. }
  destruct (line pkt cs m) as [m1|]; [|done]. destruct Hl as [Ha Hx].
  change (match line pkt [i] m1 with Some m' => r_a m' = v' ∧ r_x m' = r_x m | None => zlen pkt < B end).
  by apply (Hi m1 (λ m', r_a m' = v' ∧ r_x m' = r_x m)).
Qed.

Lemma loads_and cs k v R : loads cs R v → loads (cs ++ [and_k k]) R (v .& k).
Proof.
  intros Hl. eapply loads_then; [done|]. intros m Q <- HQ. by apply line_and.
Qed.

Lemma loads_rsh cs k v R : loads cs R v → loads (cs ++ [rsh_k k]) R (Z.shiftr v (k mod 32)).
Proof.
  intros Hl. eapply loads_then; [done|]. intros m Q <- HQ. by apply line_rsh.
Qed.

(** Straight-line code on its own. *)
Lemma emits_line cs s (H : Prop) (pre post : Z → Z → Prop) :
  let s' := pushed_all cs s in
  Forall good_insn cs → forallb straight cs = true →
  (H → ∀ m, zlen (r_scratch m) = SCRATCH → pre (r_a m) (r_x m) → line_ok cs m (λ m1,
    post (r_a m1) (r_x m1) ∧ (cg_x_writes s' = cg_x_writes s → r_x m1 = r_x m))) →
  emits (zlen cs) s s' patches_default H pre true post.
Proof.
  intros s' Hg Hst Hl. apply emits_code; [done| |by intros q ?%not_elem_of_nil|].
  - by intros q [?%not_elem_of_nil|?%not_elem_of_nil].
  - intros Hh. apply seg_line; [done|]. auto.
Qed.

(** The code of the two branches around the jump that closes the first. *)
Lemma ite_code s s2 s3 s4 s5 cs j fld c4 c6 :
  let base := zlen (cg_insns s) in
  let jx := base + zlen cs in
  let jy := zlen (cg_insns s2) in
  let stop := zlen (cg_insns s4) in
  cg_insns s2 = cg_insns (pushed_all (cs ++ [j]) s) ++ c4 →
  cg_insns s4 = cg_insns s3 ++ c6 →
  cg_insns s3 = patch_code (to_all [field_patch fld jx] (jy + 1)) 0 (cg_insns s2 ++ [ja 0]) →
  cg_insns s5 = patch_code (to_all [Ja jy] stop) 0 (cg_insns s4) →
  jy = jx + 1 + zlen c4 ∧ zlen (cg_insns s3) = jy + 1 ∧ stop = jy + 1 + zlen c6 ∧
  cg_insns s5 = cg_insns s ++ patch_code (to_all [field_patch fld jx] (jy + 1)) base (cs ++ [j])
    ++ c4 ++ patch_code (to_all [Ja jy] stop) jy [ja 0] ++ c6.
Proof.
  intros base jx jy stop Ec4 Ec6 E3 E5. destruct (pushed_all_grows (cs ++ [j]) s) as (Ei & _).
  pose proof (zlen_nonneg cs). pose proof (zlen_nonneg c4). pose proof (zlen_nonneg c6).
  assert (L2 : jy = jx + 1 + zlen c4)
    by (unfold jy; rewrite Ec4, Ei, !zlen_app; change (zlen [j]) with 1; unfold jx, base; lia).
  assert (L3 : zlen (cg_insns s3) = jy + 1) by (rewrite E3, zlen_patch_code; apply zlen_app).
  assert (L4 : stop = jy + 1 + zlen c6) by (unfold stop; rewrite Ec6, zlen_app; lia).
  split_and!; [done..|]. set (c0 := patch_code _ base (cs ++ [j])).
  assert (Ei3 : cg_insns s3 = cg_insns s ++ c0 ++ c4 ++ [ja 0]).
  { rewrite E3, Ec4, Ei, <- !app_assoc, patch_code_suffix.
    2:{ intros q Hq. apply to_all_notin. intros ->%list_elem_of_singleton.
        rewrite field_patch_idx in Hq. unfold jx, base in *. lia. }
    f_equal. rewrite (app_assoc cs), patch_code_app. f_equal. apply patch_code_id.
    intros q Hq. apply to_all_notin. intros ->%list_elem_of_singleton.
    rewrite field_patch_idx, zlen_app in Hq. change (zlen [j]) with 1 in Hq.
    unfold jx, base in *. lia. }
  rewrite E5, Ec6, Ei3. rewrite <- !app_assoc.
  rewrite (app_assoc c0), (app_assoc (cg_insns s)).
  assert (Lj : zlen (cg_insns s ++ c0 ++ c4) = jy).
  { unfold c0. rewrite !zlen_app, zlen_patch_code, zlen_app. change (zlen [j]) with 1. fold base. lia. }
  rewrite patch_code_suffix.
  2:{ intros q Hq. apply to_all_notin. intros ->%list_elem_of_singleton. simpl in Hq. lia. }
  rewrite Lj, patch_code_app, <- !app_assoc. do 4 f_equal. apply patch_code_id.
  intros q Hq. apply to_all_notin. intros ->%list_elem_of_singleton. simpl in Hq.
  change (zlen [ja 0]) with 1 in Hq. lia.
Qed.

(** A two-way branch. *)
Lemma emits_ite n4 n6 s s2 s3 s4 s5 cs j fld q4 q6 (H : Prop)
    (pre pre4 pre6 post : Z → Z → Prop) b0 b4 b6 :
  let s1 := pushed_all (cs ++ [j]) s in
  let jx := zlen (cg_insns s) + zlen cs in
  let jy := zlen (cg_insns s2) in
  let stop := zlen (cg_insns s4) in
  Forall good_insn (cs ++ [j]) → forallb straight cs = true → is_cond_jump j = true →
  open_field (other_field fld) j = 0 → success q4 = [] → success q6 = [] →
  cg_insns s3 = patch_code (to_all [field_patch fld jx] (jy + 1)) 0 (cg_insns s2 ++ [ja 0]) →
  cg_insns s5 = patch_code (to_all [Ja jy] stop) 0 (cg_insns s4) →
  jy + 1 - jx - 1 ≤ 255 → stop - jy - 1 ≤ 255 →
  cg_link s3 = cg_link s2 → cg_x_writes s3 = cg_x_writes s2 →
  cg_vlan_depth s3 = cg_vlan_depth s2 → cg_facts s3 = cg_facts s2 → same_env s4 s5 →
  emits n4 s1 s2 q4 (H ∧ b0 = false) pre4 b4 post →
  emits n6 s3 s4 q6 (H ∧ b0 = true) pre6 b6 post →
  (H → ∀ m, zlen (r_scratch m) = SCRATCH → pre (r_a m) (r_x m) → line_ok cs m (λ m1,
    cond_test j m1 = Some (takes fld b0) ∧
    (b0 = true → pre6 (r_a m1) (r_x m1)) ∧ (b0 = false → pre4 (r_a m1) (r_x m1)) ∧
    (cg_x_writes s1 = cg_x_writes s → r_x m1 = r_x m))) →
  emits (zlen cs + 1 + n4 + 1 + n6) s s5 (fails (failure q4 ++ failure q6)) H
    pre (if b0 then b6 else b4) post.
Proof.
  intros s1 jx jy stop Hg Hst Hcj H0 Hq4 Hq6 E3 E5 Hjx Hjy Hl3 Hx3 Hd3 Hf3
    (Hf5 & Hx5 & Hl5 & Hd5) [G4 S4] [G6 S6] Hline.
  destruct (pushed_all_grows (cs ++ [j]) s) as (Ei & El & Ed & Ex & Ef).
  fold s1 in Ei, El, Ed, Ex, Ef.
  destruct G4 as [(c4 & Ec4 & Hg4 & Hn4) Hl4 Hd4 Hx4 Hr4 Hin4 Hsep4].
  destruct G6 as [(c6 & Ec6 & Hg6 & Hn6) Hl6 Hd6 Hx6 Hr6 Hin6 Hsep6].
  pose proof (zlen_nonneg cs). pose proof (zlen_nonneg c4). pose proof (zlen_nonneg c6).
  destruct (ite_code s s2 s3 s4 s5 cs j fld c4 c6) as (L2 & L3 & L4 & Ei5); [done..|].
  fold jx jy stop in L2, L3, L4, Ei5.
  set (base := zlen (cg_insns s)) in *. assert (Eb : base ≤ jx) by (unfold jx; lia).
  assert (L1 : zlen (cg_insns s1) = jx + 1)
    by (rewrite Ei, !zlen_app; change (zlen [j]) with 1; unfold jx, base; lia).
  set (c0 := patch_code (to_all [field_patch fld jx] (jy + 1)) base (cs ++ [j])) in *.
  assert (Lc0 : zlen c0 = zlen cs + 1) by (unfold c0; rewrite zlen_patch_code; apply zlen_app).
  assert (Hlow4 : ∀ q, q ∈ failure q4 → jx + 1 ≤ patch_idx q < jy)
    by (intros q Hq; rewrite <- L1; apply Hin4; auto).
  assert (Hlow6 : ∀ q, q ∈ failure q6 → jy + 1 ≤ patch_idx q < stop)
    by (intros q Hq; rewrite <- L3; apply Hin6; auto).
  assert (L5 : zlen (cg_insns s5) = stop) by (rewrite E5; apply zlen_patch_code).
  assert (Hslot : ∀ l t p t', to_all l t p = Some t' → p ∈ l ∧ t' = t).
  { unfold to_all. intros l t p t' Ht. case_decide; naive_solver. }
  split.
  - constructor; [|congruence|congruence|lia| | |apply separate_fails].
    + eexists. split; [exact Ei5|]. split.
      * rewrite !Forall_app. split_and!; [|done| |done].
        -- apply patch_code_good; [done|].
           intros q t [Hq%list_elem_of_singleton ->]%Hslot. subst q.
           rewrite field_patch_idx. lia.
        -- apply patch_code_good; [repeat constructor; try done; lia|].
           intros q t [Hq%list_elem_of_singleton ->]%Hslot. subst q. simpl. lia.
      * rewrite !zlen_app, zlen_patch_code, Lc0. change (zlen [ja 0]) with 1. lia.
    + intros Hr. unfold rawip_ok in *. rewrite Hl5, Hf5. apply Hr6. rewrite Hl3, Hf3.
      apply Hr4. by rewrite El, Ef.
    + rewrite L5. intros q [Hq|Hq]; [by apply not_elem_of_nil in Hq|]. simpl in Hq.
      apply elem_of_app in Hq as [Hq|Hq]; [apply Hlow4 in Hq|apply Hlow6 in Hq]; lia.
  - intros Hh c Hc. rewrite Ei5 in Hc. apply app_inv_head in Hc. subst c. unfold c0.
    assert (jy = jx + 1 + zlen c4) as L2' by done.
    eapply seg_mono; [|done|done|].
    + rewrite L4. rewrite L2 in *.
      apply (seg_ite pkt B base cs j fld c4 c6 q4 q6 pre pre4 pre6 post b0 b4 b6
        (cg_x_writes s1 = cg_x_writes s) (cg_x_writes s2 = cg_x_writes s1)
        (cg_x_writes s4 = cg_x_writes s3)); try done.
      * intros q [Hq|Hq]; [rewrite Hq4 in Hq; by apply not_elem_of_nil in Hq|].
        apply Hlow4 in Hq. unfold jx, base in *. lia.
      * intros q [Hq|Hq]; [rewrite Hq6 in Hq; by apply not_elem_of_nil in Hq|].
        apply Hlow6 in Hq. unfold jx, base in *. lia.
      * auto.
      * intros Hb0. replace (base + zlen cs + 1) with (zlen (cg_insns s1))
          by (unfold jx in *; lia). by apply S4.
      * intros Hb0. replace (base + zlen cs + 1 + zlen c4 + 1) with (zlen (cg_insns s3))
          by (unfold jx in *; lia). by apply S6.
    + simpl. intros Hx. split_and!; lia.
Qed.

(** ** Closures that append to a list of failures *)

(** [check] emits a segment that decides [b] and keeps facts and X. *)
Definition check_ok (n : Z) (check : CG (list Patch)) (H : Prop) (R : Z → Prop) (b : bool) :
    Prop :=
  ∀ s, wp check s (λ l s',
    emits n s s' (fails l) H (λ _ x, R x) b (λ _ x, R x) ∧ same_env s s').

(** The same for a function that returns both lists. *)
Definition patches_ok (n : Z) (emit : CG Patches) (H : Prop) (R : Z → Prop) (b : bool) :
    Prop :=
  ∀ s, wp emit s (λ q s',
    emits n s s' q H (λ _ x, R x) b (λ _ x, R x) ∧ same_env s s').

Lemma check_either_ok n check o1 o2 H R b1 b2 :
  check_ok n (check o1) H R b1 → check_ok n (check o2) H R b2 →
  patches_ok (2 * n + 1) (check_either check o1 o2) H R (b1 || b2).
Proof.
  intros C1 C2 s. unfold check_either. apply wp_bind. eapply wp_mono; [apply C1|].
  intros l1 s1 [E1 Env1]. pose proof (proj1 E1) as [_ _ _ _ _ Hin1 _].
  apply wp_bind, wp_push, wp_bind, wp_here, wp_bind. simpl.
  rewrite zlen_app. change (zlen [ja 0]) with 1.
  eapply wp_mono.
  { apply wp_resolve_all. simpl. rewrite zlen_app. change (zlen [ja 0]) with 1.
    intros q Hq. destruct (Hin1 q ltac:(auto)). pose proof (zlen_nonneg (cg_insns s)).
    split; lia. }
  intros [] s1' [Hs1' H255]. apply wp_bind. eapply wp_mono; [apply C2|].
  intros l2 s2 [E2 Env2]. apply wp_ret.
  assert (Env1' : same_env s s1').
  { subst s1'. destruct Env1 as (? & ? & ? & ?). done. }
  split; [|by eapply same_env_trans].
  destruct Env1 as (Hf1 & Hx1 & Hl1 & Hd1). destruct Env1' as (Hf1' & Hx1' & Hl1' & Hd1').
  replace (2 * n + 1) with (n + 1 + n) by lia.
  apply (emits_or pkt B n n s s1 s1' s2 (fails l1) (fails l2) H (λ _ x, R x) b1 b2
    (λ _ x, R x) (λ _ x, R x)).
  - by subst s1'.
  - done.
  - congruence.
  - congruence.
  - congruence.
  - unfold rawip_ok. by rewrite Hl1', Hf1'.
  - done.
  - apply E2.
  - intros _ _ a x a' x' Hx Hk. by rewrite Hk.
  - intros Hh _. by apply E2.
Qed.

Lemma check_seq_ok n1 n2 (check1 check2 : CG (list Patch)) H R b1 b2 :
  check_ok n1 check1 H R b1 → check_ok n2 check2 H R b2 →
  check_ok (n1 + n2) (l1 ← check1; l2 ← check2; mret (l1 ++ l2)) H R (b1 && b2).
Proof.
  intros C1 C2 s. apply wp_bind. eapply wp_mono; [apply C1|]. intros l1 s1 [E1 Env1].
  apply wp_bind. eapply wp_mono; [apply C2|]. intros l2 s2 [E2 Env2]. apply wp_ret.
  split; [|by eapply same_env_trans].
  change (fails (l1 ++ l2)) with (extend (fails l1) (fails l2)).
  eapply emits_seq; [done|exact E1|exact E2|done].
Qed.

Lemma check_mono n n' check H (H' : Prop) R b b' :
  check_ok n check H R b → n ≤ n' → (H' → H) → (H' → b' = b) → check_ok n' check H' R b'.
Proof.
  intros C Hn HH Hb s. eapply wp_mono; [apply C|]. intros l s' [E Env].
  split; [|done]. by eapply emits_weaken.
Qed.

Lemma patches_mono n n' emit H (H' : Prop) R b b' :
  patches_ok n emit H R b → n ≤ n' → (H' → H) → (H' → b' = b) → patches_ok n' emit H' R b'.
Proof.
  intros C Hn HH Hb s. eapply wp_mono; [apply C|]. intros l s' [E Env].
  split; [|done]. by eapply emits_weaken.
Qed.

Lemma check_fails_ok n check H R b :
  check_ok n check H R b → patches_ok n (l ← check; mret (fails l)) H R b.
Proof. intros C s. apply wp_bind. eapply wp_mono; [apply C|]. intros l s' E. by apply wp_ret. Qed.

Lemma check_dir_ok n check src dst dir H R test :
  0 ≤ n → check_ok n (check src) H R (test src) → check_ok n (check dst) H R (test dst) →
  patches_ok (2 * n + 1) (check_dir check src dst dir) H R (dir_sem dir (test src) (test dst)).
Proof.
  intros Hn C1 C2. destruct dir; simpl.
  - by apply check_either_ok.
  - eapply patches_mono; [by apply check_fails_ok|lia|done|done].
  - eapply patches_mono; [by apply check_fails_ok|lia|done|done].
  - intros s. apply wp_bind. eapply wp_mono; [apply C1|]. intros l1 s1 [E1 Env1].
    apply wp_bind. eapply wp_mono; [apply C2|]. intros l2 s2 [E2 Env2]. apply wp_ret.
    split; [|by eapply same_env_trans].
    change (fails (l1 ++ l2)) with (extend (fails l1) (fails l2)).
    eapply emits_weaken; [eapply emits_seq; [done|exact E1|exact E2|done]|lia|done..].
Qed.

(** A load and an equality test. *)
Lemma check_eq_ok cs k H (R : Z → Prop) v :
  is_u32 k → Forall good_insn cs → forallb straight cs = true →
  forallb (λ i, negb (writes_x i)) cs = true → (H → loads cs R v) →
  ∀ s, let s' := pushed_all (cs ++ [jeq_k k 0 0xff]) s in
    emits (zlen cs + 1) s s' (fails [Jf (zlen (cg_insns s) + zlen cs)]) H
      (λ _ x, R x) (v =? k) (λ _ x, R x) ∧ same_env s s'.
Proof.
  intros Hk Hg Hst Hnx Hl s s'. split.
  - apply (emits_load_check cs (jeq_k k 0 0xff) FieldJf s H R v); try done.
    + apply Forall_app. split; [done|solve_good].
    + intros m <-. rewrite cond_jeq. simpl. by rewrite negb_involutive.
  - apply same_env_pushed_all. by rewrite forallb_app, Hnx.
Qed.
End checks.

#[export] Hint Resolve same_env_refl loads_ldb loads_ldh loads_ldw loads_and loads_rsh : pkt.
