(* ===== verification/EmitPrims.v ===== *)
(** Every primitive emits a segment that decides its meaning, given what the
    facts at its start claim; and the facts at its end are true again. *)

From S2P Require Export EmitChecks.

(** * Emissions under facts *)

Section emitted.
Context (pkt : list Z) (B : Z).

(** The facts of a compiler state are true of the packet; X is as they say. *)
Definition ft (s : Codegen) : Prop :=
  facts_true (cg_link s) pkt (cg_vlan_depth s) (cg_facts s).
Definition ready (s : Codegen) (x : Z) : Prop :=
  ports_ready (cg_link s) pkt (cg_vlan_depth s) (cg_facts s) x.

Definition ok (s : Codegen) : Prop := depth_ok s ∧ rawip_ok s.

Definition emitted (n : Z) (s s' : Codegen) (q : Patches) (H : Prop) (b : bool) : Prop :=
  emits pkt B n s s' q (H ∧ ft s) (λ _ x, ready s x) b (λ _ x, ready s' x) ∧
  (H → ft s → b = true → ft s').

Lemma grows_ok n s s' q : grows n s s' q → ok s → ok s'.
Proof.
  intros [_ _ Hd _ Hr _ _] [Hd' Hr']. split; [|auto]. unfold depth_ok in *. by rewrite Hd.
Qed.

Lemma emitted_grows n s s' q H b : emitted n s s' q H b → grows n s s' q.
Proof. by intros [[? _] _]. Qed.

Lemma emitted_ok n s s' q H b : emitted n s s' q H b → ok s → ok s'.
Proof. intros E. eapply grows_ok. by eapply emitted_grows. Qed.

Lemma emitted_env n s s' q H b :
  emitted n s s' q H b → cg_link s' = cg_link s ∧ cg_vlan_depth s' = cg_vlan_depth s.
Proof. by intros [? ? ? _ _ _ _]%emitted_grows. Qed.

Lemma emitted_mono n n' s s' q (H H' : Prop) b b' :
  emitted n s s' q H b → n ≤ n' → (H' → ft s → H) → (H' → ft s → b' = b) →
  emitted n' s s' q H' b'.
Proof.
  intros [E F] Hn HH Hb. split.
  - eapply emits_weaken; [exact E|done| | |done|done].
    + intros [? ?]. split; auto.
    + intros [? ?]. auto.
  - intros Hh Hf Hbt. rewrite Hb in Hbt by done. auto.
Qed.

Lemma emitted_skip s (H : Prop) b :
  (H → ft s → b = true) → emitted 0 s s patches_default H b.
Proof.
  intros Hb. split; [|done]. eapply emits_weaken; [apply (emits_skip pkt B s True (λ _ x, ready s x))|..]; try done.
  intros [? ?]. auto.
Qed.

Lemma emitted_seq n1 n2 s s1 s2 q1 q2 (H H2 : Prop) b1 b2 :
  emitted n1 s s1 q1 H b1 → success q1 = [] → emitted n2 s1 s2 q2 H2 b2 →
  (H → ft s → b1 = true → H2) →
  emitted (n1 + n2) s s2 (extend q1 q2) H (b1 && b2).
Proof.
  intros [E1 F1] Hq1 [E2 F2] HH. split.
  - eapply emits_seq; [done|exact E1|exact E2|]. intros [? ?] ?. split; auto.
  - intros Hh Hf [? ?]%andb_true_iff. auto.
Qed.

(** Code that keeps the environment; afterwards facts may be recorded. *)
Lemma emitted_record n s s' q (H : Prop) b f :
  emits pkt B n s s' q (H ∧ ft s) (λ _ x, ready s x) b (λ _ x, ready s x) →
  same_env s s' → f_ports_ready f = f_ports_ready (cg_facts s) →
  (f_ethertype (cg_facts s) = Some 0x0800 → f_ethertype f = Some 0x0800) →
  (H → ft s → b = true → facts_true (cg_link s) pkt (cg_vlan_depth s) f) →
  emitted n s (set_facts f s') q H b.
Proof.
  intros E (Hf & Hx & Hl & Hd) Hp Hraw Ht. split.
  - apply emits_set_facts.
    { unfold rawip_ok. simpl. rewrite Hf. auto. }
    eapply emits_weaken; [exact E|done..|].
    intros _ _ a x. unfold ready, ports_ready. simpl. by rewrite Hp, Hl, Hd.
  - unfold ft. simpl. by rewrite Hl, Hd.
Qed.

Lemma set_facts_id s : set_facts (cg_facts s) s = s.
Proof. by destruct s. Qed.

Lemma emitted_check n s s' q (H : Prop) b :
  emits pkt B n s s' q (H ∧ ft s) (λ _ x, ready s x) b (λ _ x, ready s x) →
  same_env s s' → emitted n s s' q H b.
Proof.
  intros E Env. rewrite <- (set_facts_id s'). rewrite (proj1 Env).
  apply emitted_record; try done.
Qed.

Lemma emitted_patches n s s' q q' H b :
  (∀ p, p ∈ success q ↔ p ∈ success q') → (∀ p, p ∈ failure q ↔ p ∈ failure q') →
  emitted n s s' q H b → emitted n s s' q' H b.
Proof. intros HS HF [E F]. split; [|done]. by eapply emits_patches. Qed.

(** A guard, then code that relies on it. *)
Lemma emitted_then n1 n2 s s1 s2 p q q' (H H2 : Prop) b1 b2 :
  emitted n1 s s1 p H b1 → success p = [] → (H → ft s → b1 = true → H2) →
  emits pkt B n2 s1 s2 q (H2 ∧ ft s1) (λ _ x, ready s1 x) b2 (λ _ x, ready s1 x) →
  same_env s1 s2 → q' = extend p q →
  emitted (n1 + n2) s s2 q' H (b1 && b2).
Proof.
  intros E1 Hp HH E2 Env2 ->. by eapply emitted_seq; [exact E1|done|apply emitted_check|].
Qed.
End emitted.

Lemma net_at_range s : depth_ok s → 0 ≤ net_at (cg_link s) (cg_vlan_depth s) ≤ 2 ^ 30 + 16.
Proof. unfold depth_ok, net_at. destruct (cg_link s); simpl; lia. Qed.

Lemma wp_load_check i k s (Q : Patches → Codegen → Prop) :
  Q (fails [Jf (zlen (cg_insns s) + 1)]) (pushed_all [i; jeq_k k 0 0xff] s) →
  wp (push i;; idx ← push (jeq_k k 0 0xff); mret (fails [Jf idx])) s Q.
Proof.
  intros HQ. apply wp_bind, wp_push, wp_bind, wp_push, wp_ret. simpl.
  by rewrite zlen_app.
Qed.

Lemma record_fact_cases o v : (o = None ∧ record_fact o v = Some v) ∨ record_fact o v = o.
Proof. destruct o; auto. Qed.

(** * Ethertypes and protocols *)

Section prims.
Context (pkt : list Z) (B : Z).

Abbreviation emits := (emits pkt B).
Abbreviation emitted := (emitted pkt B).
Abbreviation ft := (ft pkt).
Abbreviation ready := (ready pkt).
Abbreviation net s := (net_at (cg_link s) (cg_vlan_depth s)).
Abbreviation eth s := (ethertype_is (cg_link s) pkt (cg_vlan_depth s)).

(** An ethertype other than the VLAN tag's may be matched at any depth. *)
Definition eth_ok (s : Codegen) (et : Z) : Prop := cg_vlan_depth s = 0 ∨ et ≠ 0x8100.

Lemma known_ethertype s et :
  ft s → eth_ok s et → f_ethertype (cg_facts s) = Some et → eth s et = true.
Proof. intros [Hf _ _ _] He Hk. destruct (Hf et Hk) as [?|[? ?]]; [done|]. by destruct He. Qed.

Lemma emit_ethertype_spec et s :
  ok s → is_u32 et →
  wp (emit_ethertype et) s (λ q s',
    emitted 2 s s' q (net s ≤ B ∧ eth_ok s et) (eth s et) ∧ success q = [] ∧
    cg_x_writes s' = cg_x_writes s).
Proof.
  intros [Hd Hr] Het. unfold emit_ethertype.
  apply wp_bind, wp_ether_proto_offset; [done|].
  destruct (link_ether_proto_offset (cg_link s)) as [o|] eqn:Ho; simpl.
  - assert (Heth : eth s et = (h16 pkt (o + 4 * cg_vlan_depth s) =? et))
      by (unfold ethertype_is; by rewrite Ho).
    apply wp_bind, wp_gets. case_decide as Hk.
    { apply wp_ret. split_and!; [|done|done].
      eapply emitted_mono; [apply (emitted_skip pkt B s (net s ≤ B ∧ eth_ok s et) true)|lia|..];
        [done|done|]. intros [_ He] Hf. by apply known_ethertype. }
    apply wp_bind, wp_load_check. apply wp_bind, wp_gets.
    apply wp_bind, wp_put_facts, wp_ret. split_and!; [|done|done].
    assert (Hoff : 0 ≤ o + 4 * cg_vlan_depth s < 2 ^ 31 ∧
      o + 4 * cg_vlan_depth s + 2 ≤ net_at (cg_link s) (cg_vlan_depth s)).
    { unfold depth_ok, net_at in *. destruct (cg_link s); simplify_eq/=; lia. }
    destruct (check_eq_ok pkt B [ldh_abs (o + 4 * cg_vlan_depth s)] et
      ((net s ≤ B ∧ eth_ok s et) ∧ ft s) (ready s) (h16 pkt (o + 4 * cg_vlan_depth s)))
      with (s := s) as [E Env]; try done.
    { solve_good. }
    { intros [[Hroom _] _]. apply loads_ldh; lia. }
    rewrite <- Heth in E. apply emitted_record; try done.
    + simpl. intros Hk'. by rewrite Hk'.
    + intros _ [Hf Hp Hn Hpo] Hb. constructor; simpl; try done.
      intros et'. destruct (record_fact_cases (f_ethertype (cg_facts s)) et) as [[_ ->]| ->];
        [|by apply Hf]. intros [= <-]. by left.
  - destruct (Z.eqb_spec et 0x0800) as [->|Hne]; [|apply wp_fail].
    apply wp_ret. split_and!; [|done|done].
    eapply emitted_mono; [apply (emitted_skip pkt B s True true)|lia|..]; [done|done|].
    intros _ _. unfold ethertype_is. by rewrite Ho.
Qed.

(** A byte of the network header. *)
Lemma check_byte_spec off k s (H : Prop) (R : Z → Prop) :
  0 ≤ off < 2 ^ 32 → is_u32 k → (H → off + 1 ≤ B) →
  wp (check_byte off k) s (λ q s',
    emits 2 s s' q H (λ _ x, R x) (b8 pkt off =? k) (λ _ x, R x) ∧ same_env s s' ∧
    success q = []).
Proof.
  intros Ho Hk HB. apply wp_load_check.
  destruct (check_eq_ok pkt B [ldb_abs off] k H R (b8 pkt off)) with (s := s) as [E Env];
    try done.
  { solve_good. }
  { intros Hh. apply loads_ldb; auto. }
Qed.

(** An ethertype guard, then a byte of the network header compared with [n],
    recorded as a fact. *)
Lemma l4_field_spec et k n (get : Facts → option Z) (set : option Z → Facts → Facts)
    (fin : Patches → Patches → Patches) s :
  ok s → is_u8 n → is_u32 et → et ≠ 0x8100 → 0 ≤ k < 64 →
  (∀ p q, success p = [] → success q = [] → fin p q = extend p q) →
  (∀ o f, f_ports_ready (set o f) = f_ports_ready f ∧
          f_ethertype (set o f) = f_ethertype f) →
  (∀ link d f, facts_true link pkt d f →
    (get f = Some n → (b8 pkt (net_at link d + k) =? n) = true) ∧
    ((b8 pkt (net_at link d + k) =? n) = true →
      facts_true link pkt d (set (record_fact (get f) n) f))) →
  wp (p ← emit_ethertype et;
      f ← gets cg_facts;
      if decide (get f = Some n) then mret p
      else
        base ← net_offset;
        off ← u32_add base k;
        q ← check_byte off n;
        f ← gets cg_facts;
        put_facts (set (record_fact (get f) n) f);;
        mret (fin p q)) s (λ q s',
    emitted 4 s s' q (header_needs (cg_link s) (cg_vlan_depth s) (eth s et) (k + 1) ≤ B)
      (eth s et && (b8 pkt (net_at (cg_link s) (cg_vlan_depth s) + k) =? n)) ∧ success q = []).
Proof.
  intros Hok Hn Het Hne Hk0 Hfin Hset Hget. apply wp_bind.
  eapply wp_mono; [by apply emit_ethertype_spec|].
  intros p s1 (E1 & Hq1 & _). pose proof (emitted_env _ _ _ _ _ _ _ _ E1) as [Hl Hd].
  pose proof (emitted_ok _ _ _ _ _ _ _ _ E1 Hok) as Hok1.
  assert (He : eth_ok s et) by (by right).
  pose proof (net_at_range s (proj1 Hok)) as Hna.
  assert (Hnet : header_needs (cg_link s) (cg_vlan_depth s) (eth s et) (k + 1) ≤ B → net s ≤ B)
    by (unfold header_needs; case_match; lia).
  apply wp_bind, wp_gets. case_decide as Hk.
  { apply wp_ret. split; [|done].
    eapply emitted_mono; [exact E1|lia|auto|]. intros Hroom Hf.
    destruct (eth s et) eqn:Hb; [|done]. simpl.
    destruct (Hget _ _ _ (proj2 E1 (conj (Hnet Hroom) He) Hf eq_refl)) as [Hp _].
    rewrite Hl, Hd in Hp. by apply Hp. }
  apply wp_bind, wp_net_offset; [apply Hok1|]. rewrite Hl, Hd.
  apply wp_bind, wp_u32_add; [lia|]. apply wp_bind.
  eapply wp_mono; [apply (check_byte_spec _ n s1 (net s + (k + 1) ≤ B ∧ ft s1) (ready s1))|].
  { lia. } { ulia. } { lia. }
  intros q s2 (E2 & Env2 & Hq2). apply wp_bind, wp_gets.
  apply wp_bind, wp_put_facts, wp_ret. rewrite (Hfin p q Hq1 Hq2).
  split; [|unfold extend; simpl; by rewrite Hq1, Hq2]. change 4 with (2 + 2).
  eapply (emitted_seq pkt B 2 2 s s1 _ p q _ (net s + (k + 1) ≤ B));
    [eapply emitted_mono; [exact E1|lia|auto|done]|exact Hq1| |].
  2:{ intros Hroom _ Hb. by rewrite Hb in Hroom. }
  destruct Env2 as (Ef2 & Ex2 & El2 & Ed2). rewrite Ef2.
  destruct (Hset (record_fact (get (cg_facts s1)) n) (cg_facts s1)) as [Hs1 Hs2].
  apply emitted_record; try done.
  - by rewrite Hs2.
  - intros _ Hf Hb. apply Hget; [done|]. by rewrite Hl, Hd.
Qed.

Lemma emit_ip4_l4_spec n s :
  ok s → is_u8 n →
  wp (emit_ip4_l4 n) s (λ q s',
    emitted 4 s s' q (header_needs (cg_link s) (cg_vlan_depth s) (eth s 0x0800) 10 ≤ B)
      (ip4_l4_is (cg_link s) pkt (cg_vlan_depth s) n) ∧ success q = []).
Proof.
  intros Hok Hn. apply (l4_field_spec 0x0800 9 n f_ip4_proto set_ip4_proto
    (λ p q, mk_patches (success p ++ success q) (failure p ++ failure q))); try done.
  intros link d f [Hf Hp Hn' Hpo]. split; [by apply Hp|]. intros Hb.
  constructor; simpl; try done. intros n'.
  destruct (record_fact_cases (f_ip4_proto f) n) as [[_ ->]| ->]; [|by apply Hp].
  by intros [= <-].
Qed.

Lemma emit_ip6_l4_spec n s :
  ok s → is_u8 n →
  wp (emit_ip6_l4 n) s (λ q s',
    emitted 4 s s' q (header_needs (cg_link s) (cg_vlan_depth s) (eth s 0x86dd) 7 ≤ B)
      (ip6_l4_is (cg_link s) pkt (cg_vlan_depth s) n) ∧ success q = []).
Proof.
  intros Hok Hn. apply (l4_field_spec 0x86dd 6 n f_ip6_nh set_ip6_nh
    (λ p q, mk_patches (success p) (failure p ++ failure q))); try done.
  { intros p q Hp Hq. unfold extend. by rewrite Hp, Hq. }
  intros link d f [Hf Hp Hn' Hpo]. split; [by apply Hn'|]. intros Hb.
  constructor; simpl; try done. intros n'.
  destruct (record_fact_cases (f_ip6_nh f) n) as [[_ ->]| ->]; [|by apply Hn'].
  by intros [= <-].
Qed.
End prims.
