(* ===== verification/EmitPorts.v ===== *)
(** The port prologue: whatever the facts let it skip, it decides whether the
    packet has ports of the wanted protocols and leaves their offset in X. *)

From S2P Require Export EmitPrims.

Section ports.
Context (pkt : list Z) (B : Z).

Abbreviation emits := (emits pkt B).
Abbreviation emitted := (emitted pkt B).
Abbreviation ft := (ft pkt).
Abbreviation ready := (ready pkt).
Abbreviation eth s := (ethertype_is (cg_link s) pkt (cg_vlan_depth s)).
Abbreviation net s := (net_at (cg_link s) (cg_vlan_depth s)).
Abbreviation room s := (protocol_needs (cg_link s) pkt (cg_vlan_depth s) ≤ B).

Definition l4_wf (w : L4Set) : Prop := match w with One n => is_u8 n | TcpOrUdp => True end.

(** Facts recorded after code that may write X. *)
Lemma emitted_facts n s s' q (H : Prop) b post f :
  emits n s s' q (H ∧ ft s) (λ _ x, ready s x) b post →
  (rawip_ok s' → rawip_ok (set_facts f s')) →
  (H → ft s → b = true → facts_true (cg_link s) pkt (cg_vlan_depth s) f ∧
    ∀ a x, post a x → ports_ready (cg_link s) pkt (cg_vlan_depth s) f x) →
  emitted n s (set_facts f s') q H b.
Proof.
  intros E Hraw Hf. pose proof (proj1 E) as [_ Hl Hd _ _ _ _]. split.
  - apply emits_set_facts; [done|]. eapply emits_weaken; [exact E|done..|].
    intros [Hh Hft] Hb a x. unfold EmitPrims.ready. simpl. rewrite Hl, Hd. by apply Hf.
  - intros Hh Hft Hb. unfold EmitPrims.ft. simpl. rewrite Hl, Hd. by apply Hf.
Qed.

(** Code without success slots, one piece after the other. *)
Lemma emits_then n1 n2 s s1 s2 l1 l2 (H : Prop) pre b1 mid b2 post :
  emits n1 s s1 (fails l1) H pre b1 mid → emits n2 s1 s2 (fails l2) H mid b2 post →
  emits (n1 + n2) s s2 (fails (l1 ++ l2)) H pre (b1 && b2) post.
Proof.
  intros E1 E2. change (fails (l1 ++ l2)) with (extend (fails l1) (fails l2)).
  by eapply emits_seq.
Qed.

(** The second piece may suppose that the first one holds. *)
Lemma emits_then_if n1 n2 s s1 s2 l1 l2 (H : Prop) pre b1 mid b2 post :
  emits n1 s s1 (fails l1) H pre b1 mid →
  emits n2 s1 s2 (fails l2) (H ∧ b1 = true) mid b2 post →
  emits (n1 + n2) s s2 (fails (l1 ++ l2)) H pre (b1 && b2) post.
Proof.
  intros E1 E2. change (fails (l1 ++ l2)) with (extend (fails l1) (fails l2)).
  eapply emits_seq; [done|exact E1|exact E2|]. by split.
Qed.

(** ** Protocol sets *)

Lemma emit_l4_set_check_spec want s (H : Prop) v (R : Z → Prop) :
  l4_wf want →
  wp (emit_l4_set_check want) s (λ l s',
    emits 2 s s' (fails l) H (λ a x, a = v ∧ R x) (l4_contains want v) (λ _ x, R x) ∧
    same_env s s').
Proof.
  intros Hw. destruct want as [n|]; cbn [emit_l4_set_check l4_contains].
  - apply wp_bind, wp_push, wp_ret. split; [|done].
    eapply emits_weaken; [apply (emits_check pkt B [] (jeq_k n 0 0xff) FieldJf s H
      (λ a x, a = v ∧ R x) (v =? n) (λ _ x, R x))|..]; try done.
    + simpl. znil. by rewrite Z.add_0_r.
    + unfold l4_wf in Hw. assert (is_u32 n) by ulia. solve_good.
    + intros _ m _ [Ha Hx]. apply line_nil. rewrite cond_jeq, Ha. simpl.
      by rewrite negb_involutive.
    + intros _. simpl. by rewrite Z.eqb_sym.
  - set (c := [jeq_k 6 0xff 0] ++ [jeq_k 17 0 0xff]).
    assert (E1 : emits 2 s (pushed_all c s)
      (mk_patches [Jt (zlen (cg_insns s))] [Jf (zlen (cg_insns s) + 1)]) H
      (λ a x, a = v ∧ R x) ((v =? 6) || (v =? 17)) (λ _ x, R x)).
    { apply (emits_code pkt B c); [solve_good| | |].
      - intros q [Hq%list_elem_of_singleton|Hq%list_elem_of_singleton]; subst q; simpl;
          change (zlen c) with 2; lia.
      - intros q Hq%list_elem_of_singleton Hq'%list_elem_of_singleton. by subst q.
      - intros _. pose proof (seg_or_jump pkt B (zlen (cg_insns s)) [] (jeq_k 6 0xff 0) FieldJt
          [jeq_k 17 0 0xff] (fails [Jf (zlen (cg_insns s) + 1)]) (λ a x, a = v ∧ R x)
          (v =? 6) (v =? 17) (λ _ x, R x) (λ a x, a = v ∧ R x) True True) as Hs.
        znil. rewrite Z.add_0_r in Hs.
        eapply seg_mono; [apply Hs|done|done|done]; try done.
        + intros q [Hq|Hq%list_elem_of_singleton]; [by apply not_elem_of_nil in Hq|subst q].
          change (zlen [_]) with 1. simpl. lia.
        + intros m _ [Ha Hx]. apply line_nil. by rewrite cond_jeq, Ha.
        + intros _. pose proof (seg_check pkt B (zlen (cg_insns s) + 1) [] (jeq_k 17 0 0xff)
            FieldJf (λ a x, a = v ∧ R x) (v =? 17) (λ _ x, R x) True) as Hc.
          znil. rewrite Z.add_0_r in Hc. apply Hc; try done.
          intros m _ [Ha Hx]. apply line_nil. rewrite cond_jeq, Ha. simpl.
          by rewrite negb_involutive. }
    apply wp_bind, wp_push, wp_bind, wp_push, wp_bind, wp_here, wp_bind.
    cbn [cg_insns pushed].
    rewrite !zlen_app. change (zlen [_]) with 1.
    pose proof (zlen_nonneg (cg_insns s)).
    eapply wp_mono.
    { apply wp_resolve. simpl. rewrite !zlen_app. change (zlen [_]) with 1. split; simpl; lia. }
    intros [] s' [Hs' H255]. apply wp_ret.
    assert (Env : same_env s s') by (by subst s').
    split; [|done].
    replace 2 with (2 + 0) by lia. rewrite <- (andb_true_r ((v =? 6) || (v =? 17))).
    destruct (emits_skip pkt B s' H (λ _ x, R x)) as [Gs Ss].
    eapply (emits_and pkt B 2 0 s (pushed_all c s) s' s'
      (mk_patches [Jt (zlen (cg_insns s))] [Jf (zlen (cg_insns s) + 1)]) patches_default H
      (λ a x, a = v ∧ R x) ((v =? 6) || (v =? 17)) (λ _ x, R x));
      [| |by subst s'|by subst s'|by subst s'|by subst s'|exact E1| |].
    + subst s'. simpl. by rewrite !zlen_app.
    + intros q Hq%list_elem_of_singleton. subst q. simpl. rewrite !zlen_app.
      change (zlen [_]) with 1. lia.
    + assert (set_depth (cg_vlan_depth s') s' = s') as -> by (clear; by destruct s').
      exact Gs.
    + intros Hh _. by apply Ss.
Qed.

(** A header byte loaded for it. *)
Lemma emits_ldb off s (H : Prop) (R : Z → Prop) :
  0 ≤ off < 2 ^ 32 → (H → off + 1 ≤ B) →
  emits 1 s (pushed (ldb_abs off) s) patches_default H (λ _ x, R x) true
    (λ a x, a = b8 pkt off ∧ R x).
Proof.
  intros Ho HB. apply (emits_line pkt B [ldb_abs off] s); [solve_good|done|].
  intros Hh m _ Hm. apply line_ldb; [done|auto|]. by apply line_nil.
Qed.

(** [ldb off] and the set check. *)
Lemma l4_check_spec {A} off want s (H : Prop) (R : Z → Prop) (k : list Patch → A) :
  0 ≤ off < 2 ^ 32 → l4_wf want → (H → off + 1 ≤ B) →
  wp (push (ldb_abs off);; l ← emit_l4_set_check want; mret (k l)) s (λ r s',
    ∃ l, r = k l ∧
    emits 3 s s' (fails l) H (λ _ x, R x) (l4_contains want (b8 pkt off)) (λ _ x, R x) ∧
    same_env s s').
Proof.
  intros Ho Hw HB. apply wp_bind, wp_push, wp_bind.
  eapply wp_mono; [apply (emit_l4_set_check_spec want _ H (b8 pkt off) R Hw)|].
  intros l s2 [E2 Env2]. apply wp_ret. exists l. split_and!; [done| |].
  - change 3 with (1 + 2). change (fails l) with (extend patches_default (fails l)).
    change (l4_contains want (b8 pkt off)) with (true && l4_contains want (b8 pkt off)).
    eapply emits_seq; [done|by apply emits_ldb|exact E2|done].
  - eapply same_env_trans; [|exact Env2]. done.
Qed.

(** ** Fragments and header lengths *)

Lemma frag_check_spec off s (H : Prop) (R : Z → Prop) :
  0 ≤ off < 2 ^ 32 → (H → off + 2 ≤ B) →
  let s' := pushed (jset_k 0x1fff 0xff 0) (pushed (ldh_abs off) s) in
  let q := Jt (zlen (cg_insns (pushed (ldh_abs off) s))) in
  emits 2 s s' (fails [q]) H (λ _ x, R x) (h16 pkt off mod 2 ^ 13 =? 0) (λ _ x, R x).
Proof.
  intros Ho HB s' q.
  apply (emits_load_check pkt B [ldh_abs off] (jset_k 0x1fff 0xff 0) FieldJt s H R (h16 pkt off));
    try done.
  - unfold q. simpl. by rewrite zlen_app.
  - solve_good.
  - intros Hh. apply loads_ldh; auto.
  - intros m <-. rewrite cond_jset. rewrite (land_ones_mod _ 13) by done. done.
Qed.

Lemma ip4_ip6_exclusive s : eth s 0x0800 = true → eth s 0x86dd = false.
Proof.
  unfold ethertype_is. destruct (link_ether_proto_offset (cg_link s)).
  - intros H. zbool. rewrite H. done.
  - done.
Qed.

Lemma has_ports_ip4 s w :
  eth s 0x0800 = true →
  has_ports (cg_link s) pkt (cg_vlan_depth s) w =
  l4_contains w (b8 pkt (net s + 9)) && (h16 pkt (net s + 6) mod 2 ^ 13 =? 0).
Proof.
  intros H. unfold has_ports, is_ip4, is_ip6. rewrite (ip4_ip6_exclusive s H), H.
  by rewrite orb_false_r.
Qed.

Lemma has_ports_ip6 s w :
  eth s 0x86dd = true →
  has_ports (cg_link s) pkt (cg_vlan_depth s) w = l4_contains w (b8 pkt (net s + 6)).
Proof.
  intros H. unfold has_ports, is_ip4, is_ip6. rewrite H.
  destruct (eth s 0x0800) eqn:H4; [|done].
  rewrite (ip4_ip6_exclusive s H4) in H. done.
Qed.

(** The bytes in front of the ports. *)
Lemma room_net s : room s → net s ≤ B.
Proof. unfold protocol_needs. repeat case_match; lia. Qed.

Lemma room_ip4 s : room s → eth s 0x0800 = true → net s + 10 ≤ B.
Proof. unfold protocol_needs, is_ip4. intros H E. by rewrite E in H. Qed.

Lemma room_ip6 s : room s → eth s 0x86dd = true → net s + 7 ≤ B.
Proof.
  unfold protocol_needs, is_ip4, is_ip6. intros H E. rewrite E in H.
  destruct (eth s 0x0800) eqn:H4; [|done]. rewrite (ip4_ip6_exclusive s H4) in E. done.
Qed.

(** The transport offset, once the IP version is known. *)
Lemma ports_at_ip4 s :
  eth s 0x0800 = true →
  ports_at (cg_link s) pkt (cg_vlan_depth s) = net s + 4 * (b8 pkt (net s) mod 16).
Proof. intros H. unfold ports_at, is_ip6. by rewrite (ip4_ip6_exclusive s H). Qed.

Lemma ports_at_ip6 s :
  eth s 0x86dd = true → ports_at (cg_link s) pkt (cg_vlan_depth s) = net s + 40.
Proof. intros H. unfold ports_at, is_ip6. by rewrite H. Qed.

Lemma emits_ldx_msh s o (H : Prop) (R : Z → Prop) :
  0 ≤ o < 2 ^ 32 → (H → o + 1 ≤ B) →
  emits 1 s (pushed (ldx_msh o) s) patches_default H (λ _ x, R x) true
    (λ _ x, x = 4 * (b8 pkt o mod 16)).
Proof.
  intros Ho HB. apply (emits_line pkt B [ldx_msh o] s); [solve_good|done|].
  intros Hh m _ Hm. apply line_ldx_msh; [done|auto|]. apply line_nil. split; [done|].
  simpl. lia.
Qed.

Lemma emits_ldx_imm s k (H : Prop) (R : Z → Prop) :
  is_u32 k →
  emits 1 s (pushed (ldx_imm k) s) patches_default H (λ _ x, R x) true (λ _ x, x = k).
Proof.
  intros Hk. apply (emits_line pkt B [ldx_imm k] s); [solve_good|done|].
  intros Hh m _ Hm. apply line_ldx_imm, line_nil. split; [done|]. simpl. lia.
Qed.

(** ** The single-path prologues *)

Definition est_facts (get : Facts → option Z) (set : option Z → Facts → Facts) (e : L4Set)
    (f : Facts) : Facts :=
  set_ports_ready (Some e)
    (match e with One n => set (record_fact (get f) n) f | TcpOrUdp => f end).

Lemma wp_establish get set e s (Q : unit → Codegen → Prop) :
  Q tt (set_facts (est_facts get set e (cg_facts s)) s) → wp (establish get set e) s Q.
Proof. done. Qed.

(** Recording a prologue keeps the facts true. *)
Lemma est_facts_true link d f f' e :
  facts_true link pkt d f →
  f_ethertype f' = f_ethertype f → f_ip4_proto f' = f_ip4_proto f → f_ip6_nh f' = f_ip6_nh f →
  has_ports link pkt d e = true →
  (∀ n, e = One n → (b8 pkt (net_at link d + 9) =? n) = true) →
  facts_true link pkt d (est_facts f_ip4_proto set_ip4_proto e f').
Proof.
  intros [Hf Hp Hn Hpo] E1 E2 E3 He Hone. constructor; unfold est_facts; simpl.
  - destruct e; simpl; rewrite E1; apply Hf.
  - intros n. destruct e as [n'|]; simpl; rewrite E2; [|apply Hp].
    destruct (record_fact_cases (f_ip4_proto f) n') as [[_ ->]| ->]; [|apply Hp].
    intros [= <-]. by apply Hone.
  - destruct e; simpl; rewrite E3; apply Hn.
  - by intros w [= <-].
Qed.

Lemma est_facts_true6 link d f f' e :
  facts_true link pkt d f →
  f_ethertype f' = f_ethertype f → f_ip4_proto f' = f_ip4_proto f → f_ip6_nh f' = f_ip6_nh f →
  has_ports link pkt d e = true →
  (∀ n, e = One n → (b8 pkt (net_at link d + 6) =? n) = true) →
  facts_true link pkt d (est_facts f_ip6_nh set_ip6_nh e f').
Proof.
  intros [Hf Hp Hn Hpo] E1 E2 E3 He Hone. constructor; unfold est_facts; simpl.
  - destruct e; simpl; rewrite E1; apply Hf.
  - destruct e; simpl; rewrite E2; apply Hp.
  - intros n. destruct e as [n'|]; simpl; rewrite E3; [|apply Hn].
    destruct (record_fact_cases (f_ip6_nh f) n') as [[_ ->]| ->]; [|apply Hn].
    intros [= <-]. by apply Hone.
  - by intros w [= <-].
Qed.

Lemma contains_one w v n : l4_contains w v = true → w = One n → (v =? n) = true.
Proof. intros Hc ->. simpl in Hc. by rewrite Z.eqb_sym. Qed.

(** The protocol check, skipped when the fact [o] settles it. *)
Definition opt_check (o : option Z) (off : Z) (want : L4Set) : CG (L4Set * list Patch) :=
  match o with
  | Some n =>
      if l4_contains want n then mret (One n, [])
      else push (ldb_abs off);; l ← emit_l4_set_check want; mret (want, l)
  | None =>
      push (ldb_abs off);; l ← emit_l4_set_check want; mret (want, l)
  end.

Lemma opt_check_spec o off want s (H : Prop) (R : Z → Prop) :
  0 ≤ off < 2 ^ 32 → l4_wf want → (H → off + 1 ≤ B) →
  (H → ∀ n, o = Some n → (b8 pkt off =? n) = true) →
  wp (opt_check o off want) s (λ r s',
    emits 3 s s' (fails r.2) H (λ _ x, R x) (l4_contains want (b8 pkt off)) (λ _ x, R x) ∧
    same_env s s' ∧
    (H → l4_contains want (b8 pkt off) = true → l4_contains r.1 (b8 pkt off) = true)).
Proof.
  intros Ho Hw HB Hfact.
  assert (Hcheck : wp (push (ldb_abs off);; l ← emit_l4_set_check want; mret (want, l)) s
    (λ r s', emits 3 s s' (fails r.2) H (λ _ x, R x) (l4_contains want (b8 pkt off)) (λ _ x, R x) ∧
      same_env s s' ∧
      (H → l4_contains want (b8 pkt off) = true → l4_contains r.1 (b8 pkt off) = true))).
  { eapply wp_mono; [by apply (l4_check_spec off want s H R (λ l, (want, l)))|].
    intros r s' (l & -> & E & Env). done. }
  unfold opt_check. destruct o as [n|]; [|done].
  destruct (l4_contains want n) eqn:Hc; [|done].
  apply wp_ret. simpl. split_and!; [|done|].
  - eapply emits_weaken; [apply (emits_skip pkt B s True (λ _ x, R x))|lia|done| |done|done].
    intros Hh. specialize (Hfact Hh n eq_refl). zbool. by rewrite Hfact.
  - intros Hh _. specialize (Hfact Hh n eq_refl). zbool. rewrite Hfact. apply Z.eqb_refl.
Qed.

(** The state in which a prologue starts: the ethertype is known. *)
Lemma known_eth s et :
  ft s → et ≠ 0x8100 → f_ethertype (cg_facts s) = Some et → eth s et = true.
Proof. intros Hf He Hk. by apply (known_ethertype pkt s et Hf (or_intror He) Hk). Qed.

Lemma port_prereqs_v4_spec want s :
  ok s → l4_wf want → f_ethertype (cg_facts s) = Some 0x0800 →
  wp (port_prereqs_v4 want) s (λ q s',
    emitted 6 s s' q (room s) (has_ports (cg_link s) pkt (cg_vlan_depth s) want) ∧
    success q = [] ∧ f_ports_ready (cg_facts s') ≠ None).
Proof.
  intros Hok Hw Hk. pose proof (net_at_range s (proj1 Hok)) as Hna.
  assert (H4 : ft s → eth s 0x0800 = true) by (intros; by apply known_eth).
  assert (Hb : room s ∧ ft s → net s + 10 ≤ B) by (intros [? ?]; by apply room_ip4; auto).
  unfold port_prereqs_v4. apply wp_bind, wp_net_offset; [apply Hok|].
  apply wp_bind, wp_u32_add; [lia|]. apply wp_bind, wp_u32_add; [lia|].
  apply wp_bind, wp_gets, wp_bind. case_decide as Hready.
  - eapply wp_mono; [apply (l4_check_spec (net s + 9) want s (room s ∧ ft s) (ready s)
      (λ l, (want, l))); [lia|done|intros ?%Hb; lia]|].
    intros r s1 (l & -> & E & Env). simpl. apply wp_bind, wp_establish, wp_ret.
    split_and!; [|done|done].
    destruct Env as (Ef & Ex & El & Ed). rewrite Ef.
    eapply emitted_mono with (n := 6) (H := room s) (b := l4_contains want (b8 pkt (net s + 9)));
      [|lia|done|].
    + eapply emitted_facts; [eapply emits_weaken; [exact E|lia|done..]| |].
      { unfold rawip_ok. simpl. rewrite Ef. by destruct want. }
      intros Hr Hf Hc. specialize (H4 Hf).
      destruct (f_ports_ready (cg_facts s)) as [w|] eqn:Hpr; [|done].
      pose proof (ft_ports _ _ _ _ Hf _ Hpr) as Hw'. rewrite has_ports_ip4 in Hw' by done.
      apply andb_true_iff in Hw' as [_ Hfrag]. split.
      * apply (est_facts_true _ _ (cg_facts s)); try done.
        { by rewrite has_ports_ip4, Hc, Hfrag. } { intros n. by apply contains_one. }
      * intros _ x Hx _. apply Hx. by rewrite Hpr.
    + intros Hr Hf. rewrite has_ports_ip4 by auto.
      destruct (f_ports_ready (cg_facts s)) as [w|] eqn:Hpr; [|done].
      pose proof (ft_ports _ _ _ _ Hf _ Hpr) as Hw'. rewrite has_ports_ip4 in Hw' by auto.
      apply andb_true_iff in Hw' as [_ ->]. by rewrite andb_true_r.
  - apply wp_bind. eapply wp_mono.
    { apply (opt_check_spec (f_ip4_proto (cg_facts s)) (net s + 9) want s (room s ∧ ft s)
        (ready s)); [lia|done|intros ?%Hb; lia|]. intros [_ Hf] n Hn. by apply Hf. }
    intros r s1 (E1 & Env1 & Hr1).
    apply wp_bind, wp_push, wp_bind, wp_push, wp_bind, wp_push, wp_ret.
    apply wp_bind, wp_establish, wp_ret. split_and!; [|done|done].
    pose proof (frag_check_spec (net s + 6) s1 (room s ∧ ft s) (ready s) ltac:(lia)) as E2.
    specialize (E2 ltac:(intros ?%Hb; lia)).
    pose proof (emits_ldx_msh (pushed (jset_k 0x1fff 0xff 0) (pushed (ldh_abs (net s + 6)) s1))
      (net s) (room s ∧ ft s) (ready s) ltac:(lia) ltac:(intros ?%Hb; lia)) as E3.
    pose proof (emits_then _ _ _ _ _ _ _ _ _ _ _ _ _ E1 E2) as E12.
    pose proof (emits_then _ _ _ _ _ _ [] _ _ _ _ _ _ E12 E3) as E.
    clear E1 E2 E3 E12. change (3 + 2 + 1) with 6 in E.
    rewrite andb_true_r in E.
    eapply (emitted_facts 6 s _ _ (room s) _ _ _).
    + eapply emits_patches; [| |eapply emits_weaken; [exact E|lia|done| |done|]].
      * done.
      * intros p. simpl. rewrite app_nil_r. done.
      * intros [_ Hf]. by rewrite has_ports_ip4 by auto.
      * done.
    + unfold rawip_ok. simpl. rewrite (proj1 Env1). by destruct (r.1).
    + intros Hr Hf Hp. specialize (H4 Hf). rewrite has_ports_ip4 in Hp by done.
      apply andb_true_iff in Hp as [Hc Hfrag]. specialize (Hr1 (conj Hr Hf) Hc). split.
      * apply (est_facts_true _ _ (cg_facts s)); simpl; rewrite ?(proj1 Env1); try done.
        { by rewrite has_ports_ip4, Hr1, Hfrag. } { intros n. by apply contains_one. }
      * intros _ x -> _. by rewrite ports_at_ip4.
Qed.

Lemma port_prereqs_v6_spec want s :
  ok s → l4_wf want → f_ethertype (cg_facts s) = Some 0x86dd →
  wp (port_prereqs_v6 want) s (λ q s',
    emitted 6 s s' q (room s) (has_ports (cg_link s) pkt (cg_vlan_depth s) want) ∧
    success q = [] ∧ f_ports_ready (cg_facts s') ≠ None).
Proof.
  intros Hok Hw Hk. pose proof (net_at_range s (proj1 Hok)) as Hna.
  assert (H6 : ft s → eth s 0x86dd = true) by (intros; by apply known_eth).
  assert (Hraw : rawip_ok s → cg_link s ≠ RawIp)
    by (intros Hr Hl; specialize (Hr Hl); congruence).
  specialize (Hraw (proj2 Hok)).
  assert (Hb : room s ∧ ft s → net s + 7 ≤ B) by (intros [? ?]; by apply room_ip6; auto).
  unfold port_prereqs_v6. apply wp_bind, wp_net_offset; [apply Hok|].
  apply wp_bind, wp_u32_add; [lia|].
  apply wp_bind, wp_u32_add; [lia|].
  apply wp_bind, wp_gets, wp_bind. case_decide as Hready.
  - eapply wp_mono; [apply (l4_check_spec (net s + 6) want s (room s ∧ ft s) (ready s)
      (λ l, (want, l))); [lia|done|intros ?%Hb; lia]|].
    intros r s1 (l & -> & E & Env). simpl. apply wp_bind, wp_establish, wp_ret.
    split_and!; [|done|done].
    destruct Env as (Ef & Ex & El & Ed). rewrite Ef.
    eapply emitted_mono with (n := 6) (H := room s) (b := l4_contains want (b8 pkt (net s + 6)));
      [|lia|done|].
    + eapply emitted_facts; [eapply emits_weaken; [exact E|lia|done..]| |].
      { unfold rawip_ok. simpl. by rewrite El. }
      intros Hr Hf Hc. specialize (H6 Hf). split.
      * apply (est_facts_true6 _ _ (cg_facts s)); try done.
        { by rewrite has_ports_ip6, Hc. } { intros n. by apply contains_one. }
      * intros _ x Hx _. by apply Hx.
    + intros Hr Hf. by rewrite has_ports_ip6 by auto.
  - apply wp_bind. eapply wp_mono.
    { apply (opt_check_spec (f_ip6_nh (cg_facts s)) (net s + 6) want s (room s ∧ ft s)
        (ready s)); [lia|done|intros ?%Hb; lia|]. intros [_ Hf] n Hn. by apply Hf. }
    intros r s1 (E1 & Env1 & Hr1).
    apply wp_bind, wp_push, wp_ret.
    apply wp_bind, wp_establish, wp_ret. split_and!; [|done|done].
    pose proof (emits_ldx_imm s1 40 (room s ∧ ft s) (ready s) ltac:(by split)) as E2.
    pose proof (emits_then _ _ _ _ _ _ [] _ _ _ _ _ _ E1 E2) as E.
    clear E1 E2. rewrite andb_true_r, app_nil_r in E.
    eapply (emitted_facts 6 s _ _ (room s) _ _ _).
    + eapply emits_weaken; [exact E|lia|done| |done|].
      * intros [_ Hf]. by rewrite has_ports_ip6 by auto.
      * done.
    + unfold rawip_ok. simpl. by destruct Env1 as (_ & _ & -> & _).
    + intros Hr Hf Hp. specialize (H6 Hf). rewrite has_ports_ip6 in Hp by done.
      specialize (Hr1 (conj Hr Hf) Hp). split.
      * apply (est_facts_true6 _ _ (cg_facts s)); simpl; rewrite ?(proj1 Env1); try done.
        { by rewrite has_ports_ip6. } { intros n. by apply contains_one. }
      * intros _ x -> _. by rewrite ports_at_ip6.
Qed.

(** ** The dual-path prologue *)

(** The IPv4 path, entered with the ethertype [v] in A. *)
Lemma dual_ip4_spec want s o v (H : Prop) b4 (k : Z → list Patch → Z → CG Patches) Q :
  0 ≤ o < 2 ^ 31 → l4_wf want → (H → b4 = true → o + 10 ≤ B) → b4 = (v =? 0x0800) →
  (∀ i4 l i_frag s',
    emits 7 s s' (fails (Jf i4 :: l ++ [Jt i_frag])) H (λ a _, a = v)
      (b4 && l4_contains want (b8 pkt (o + 9)) && (h16 pkt (o + 6) mod 2 ^ 13 =? 0))
      (λ _ x, x = 4 * (b8 pkt o mod 16)) →
    cg_facts s' = set_ports_ready None (cg_facts s) → wp (k i4 l i_frag) s' Q) →
  wp (i_is_ip4 ← push (jeq_k 0x0800 0 0xff);
      push (ldb_abs (o + 9));;
      l4 ← emit_l4_set_check want;
      push (ldh_abs (o + 6));;
      i_frag ← push (jset_k 0x1fff 0xff 0);
      push (ldx_msh o);;
      k i_is_ip4 l4 i_frag) s Q.
Proof.
  intros Ho Hw Hb Hb4 HQ. apply wp_bind, wp_push. set (i4 := zlen (cg_insns s)).
  assert (E0 : emits 1 s (pushed (jeq_k 0x0800 0 0xff) s) (fails [Jf i4]) H
    (λ a _, a = v) b4 (λ _ _, True)).
  { apply (emits_check pkt B [] (jeq_k 0x0800 0 0xff) FieldJf s); try done.
    - simpl. unfold i4. znil. by rewrite Z.add_0_r.
    - solve_good.
    - intros _ m _ Hm. apply line_nil. rewrite cond_jeq, Hm, Hb4. simpl.
      by rewrite negb_involutive. }
  set (s1 := pushed (jeq_k 0x0800 0 0xff) s) in *. set (H2 := H ∧ b4 = true).
  assert (Hb2 : H2 → o + 10 ≤ B) by (intros [? ?]; auto).
  pose proof (emits_ldb (o + 9) s1 H2 (λ _, True) ltac:(lia) ltac:(intros ?%Hb2; lia)) as E1.
  apply wp_bind, wp_push, wp_bind.
  eapply wp_mono; [apply (emit_l4_set_check_spec want _ H2 (b8 pkt (o + 9)) (λ _, True) Hw)|].
  intros l4 s2 [E2 Env2].
  pose proof (frag_check_spec (o + 6) s2 H2 (λ _, True) ltac:(lia) ltac:(intros ?%Hb2; lia))
    as E3. cbv zeta in E3.
  apply wp_bind, wp_push, wp_bind, wp_push, wp_bind, wp_push.
  set (s3 := pushed (jset_k 0x1fff 0xff 0) (pushed (ldh_abs (o + 6)) s2)) in *.
  pose proof (emits_ldx_msh s3 o H2 (λ _, True) ltac:(lia) ltac:(intros ?%Hb2; lia)) as E4.
  pose proof (emits_then _ _ _ _ _ [] _ _ _ _ _ _ _ E1 E2) as E12.
  pose proof (emits_then _ _ _ _ _ _ _ _ _ _ _ _ _ E12 E3) as E123.
  pose proof (emits_then _ _ _ _ _ _ [] _ _ _ _ _ _ E123 E4) as E1234.
  pose proof (emits_then_if _ _ _ _ _ _ _ _ _ _ _ _ _ E0 E1234) as V4.
  rewrite andb_true_r, app_nil_r, !andb_assoc, andb_true_r in V4. apply HQ; [exact V4|].
  simpl. by rewrite (proj1 Env2).
Qed.

Lemma wp_ether_offset s o (Q : option Z → Codegen → Prop) :
  depth_ok s → link_ether_proto_offset (cg_link s) = Some o →
  Q (Some (o + 4 * cg_vlan_depth s)) s → wp ether_proto_offset s Q.
Proof. intros Hd Ho HQ. apply wp_ether_proto_offset; [done|]. by rewrite Ho. Qed.

(** The IPv6 path. *)
Lemma dual_ip6_spec want s o (H : Prop) (k : list Patch → CG Patches) Q :
  0 ≤ o < 2 ^ 31 → l4_wf want → (H → o + 7 ≤ B) →
  (∀ l s',
    emits 4 s s' (fails l) H (λ _ _, True) (l4_contains want (b8 pkt (o + 6)))
      (λ _ x, x = 40) →
    cg_facts s' = set_ports_ready None (cg_facts s) → wp (k l) s' Q) →
  wp (push (ldb_abs (o + 6));;
      l6 ← emit_l4_set_check want;
      push (ldx_imm 40);;
      k l6) s Q.
Proof.
  intros Ho Hw Hb HQ.
  pose proof (emits_ldb (o + 6) s H (λ _, True) ltac:(lia) ltac:(intros ?%Hb; lia)) as E1.
  apply wp_bind, wp_push, wp_bind.
  eapply wp_mono; [apply (emit_l4_set_check_spec want _ H (b8 pkt (o + 6)) (λ _, True) Hw)|].
  intros l s2 [E2 Env2]. apply wp_bind, wp_push.
  pose proof (emits_ldx_imm s2 40 H (λ _, True) ltac:(by split)) as E3.
  pose proof (emits_then _ _ _ _ _ [] _ _ _ _ _ _ _ E1 E2) as E12.
  pose proof (emits_then _ _ _ _ _ _ [] _ _ _ _ _ _ E12 E3) as V6.
  rewrite !andb_true_r, app_nil_r in V6. apply HQ; [exact V6|].
  simpl. by rewrite (proj1 Env2).
Qed.

(** Facts after the prologue, whose code has written X. *)
Lemma dual_facts_true link d f w :
  facts_true link pkt d f → has_ports link pkt d w = true →
  facts_true link pkt d (set_ports_ready (Some w) f).
Proof. intros [Hf Hp Hn Hpo] Hw. constructor; simpl; try done. by intros w' [= <-]. Qed.

(** The meaning of the dual-path prologue, by the ethertype. *)
Lemma has_ports_dual want s :
  has_ports (cg_link s) pkt (cg_vlan_depth s) want =
    if eth s 0x86dd then l4_contains want (b8 pkt (net s + 6))
    else eth s 0x0800 && l4_contains want (b8 pkt (net s + 9))
         && (h16 pkt (net s + 6) mod 2 ^ 13 =? 0).
Proof.
  destruct (eth s 0x86dd) eqn:H6; [by apply has_ports_ip6|].
  unfold has_ports, is_ip4, is_ip6. rewrite H6. simpl. by rewrite orb_false_r.
Qed.

(** The two paths, around the jump on the ethertype, decide it. *)
Lemma dual_emits want s s2 s4 eo q4 q6 :
  let H := room s ∧ ft s in
  let s1 := pushed (jeq_k 0x86dd 0xff 0) (pushed (ldh_abs eo) s) in
  let jx := zlen (cg_insns s) + 1 in
  let jy := zlen (cg_insns s2) in
  let stop := zlen (cg_insns s4) in
  let s3 := set_insns (patch_code (to_all [Jt jx] (jy + 1)) 0 (cg_insns (pushed (ja 0) s2)))
              (pushed (ja 0) s2) in
  let s5 := set_insns (patch_code (to_all [Ja jy] stop) 0 (cg_insns s4)) s4 in
  0 ≤ eo < 2 ^ 31 → eo + 2 ≤ net s → (∀ et, eth s et = (h16 pkt eo =? et)) →
  jy + 1 - jx - 1 ≤ 255 → stop - jy - 1 ≤ 255 →
  emits 7 s1 s2 (fails q4) (H ∧ eth s 0x86dd = false) (λ a _, a = h16 pkt eo)
    (eth s 0x0800 && l4_contains want (b8 pkt (net s + 9)) && (h16 pkt (net s + 6) mod 2 ^ 13 =? 0))
    (λ _ x, x = 4 * (b8 pkt (net s) mod 16)) →
  emits 4 s3 s4 (fails q6) (H ∧ eth s 0x86dd = true) (λ _ _, True)
    (l4_contains want (b8 pkt (net s + 6))) (λ _ x, x = 40) →
  emits 17 s s5 (fails (q4 ++ q6)) H (λ _ _, True)
    (has_ports (cg_link s) pkt (cg_vlan_depth s) want)
    (λ _ x, net s + x = ports_at (cg_link s) pkt (cg_vlan_depth s)).
Proof.
  intros H s1 jx jy stop s3 s5 Ho Hn He Hjx Hjy V4 V6.
  assert (Hb : H → net s ≤ B) by (intros [? _]; by apply room_net).
  rewrite has_ports_dual. change 17 with (zlen [ldh_abs eo] + 1 + 7 + 1 + 4 + 3).
  eapply emits_weaken; [eapply (emits_ite pkt B 7 4 s s2 s3 s4 s5 [ldh_abs eo]
    (jeq_k 0x86dd 0xff 0) FieldJt (fails q4) (fails q6) H
    (λ _ _, True) (λ a _, a = h16 pkt eo) (λ _ _, True)
    (λ _ x, net s + x = ports_at (cg_link s) pkt (cg_vlan_depth s)) (eth s 0x86dd))|lia|done..];
    try done.
  - solve_good.
  - eapply emits_weaken; [exact V4|lia|done|done|done|].
    intros [[_ Hf] H6] Hb4 _ x ->. apply andb_true_iff in Hb4 as [Hb4 _].
    apply andb_true_iff in Hb4 as [H4 _]. by rewrite ports_at_ip4.
  - eapply emits_weaken; [exact V6|lia|done|done|done|].
    intros [_ H6] _ _ x ->. by rewrite ports_at_ip6.
  - intros Hh m _ _. apply line_ldh; [lia|specialize (Hb Hh); lia|]. apply line_nil.
    rewrite cond_jeq. simpl. rewrite He. done.
Qed.

Lemma port_prereqs_dual_spec want s :
  ok s → l4_wf want → f_ethertype (cg_facts s) ≠ Some 0x0800 →
  wp (port_prereqs_dual want) s (λ q s',
    emitted 17 s s' q (room s) (has_ports (cg_link s) pkt (cg_vlan_depth s) want) ∧
    success q = [] ∧ f_ports_ready (cg_facts s') ≠ None).
Proof.
  intros Hok Hw Hk. pose proof (net_at_range s (proj1 Hok)) as Hna.
  destruct (link_ether_proto_offset (cg_link s)) as [o|] eqn:Ho.
  2:{ destruct Hk. apply (proj2 Hok). by destruct (cg_link s). }
  set (eo := o + 4 * cg_vlan_depth s).
  assert (Heo : 0 ≤ eo < 2 ^ 31 ∧ eo + 2 ≤ net s).
  { pose proof (proj1 Hok). unfold depth_ok, net_at, eo in *.
    destruct (cg_link s); simplify_eq/=; lia. }
  assert (He : ∀ et, eth s et = (h16 pkt eo =? et))
    by (intros; unfold ethertype_is; by rewrite Ho).
  set (H := room s ∧ ft s).
  unfold port_prereqs_dual. apply wp_bind, wp_net_offset; [apply Hok|].
  do 3 (apply wp_bind, wp_u32_add; [lia|]).
  apply wp_bind, (wp_ether_offset s o); [apply Hok|done|]. fold eo.
  apply wp_bind, wp_ret, wp_bind, wp_push, wp_bind, wp_push.
  set (s1 := pushed (jeq_k 0x86dd 0xff 0) (pushed (ldh_abs eo) s)).
  apply (dual_ip4_spec want s1 (net s) (h16 pkt eo) (H ∧ eth s 0x86dd = false) (eth s 0x0800));
    [lia|done|intros [[? _] _] ?; by apply room_ip4|apply He|].
  intros i4 l i_frag s2 V4 Hf2. pose proof (grows_len _ _ _ _ (proj1 V4)) as Hlen2.
  set (jx := zlen (cg_insns (pushed (ldh_abs eo) s))).
  assert (Hjx : jx = zlen (cg_insns s) + 1) by (unfold jx; simpl; by rewrite zlen_app).
  assert (Hs1 : zlen (cg_insns s1) = jx + 1) by (simpl; by rewrite zlen_app).
  pose proof (zlen_nonneg (cg_insns s)) as Hs0.
  apply wp_bind, wp_push, wp_bind, wp_here, wp_bind.
  assert (Hja : zlen (cg_insns (pushed (ja 0) s2)) = zlen (cg_insns s2) + 1)
    by (simpl; by rewrite zlen_app).
  rewrite Hja. eapply wp_mono.
  { apply wp_resolve. rewrite Hja. unfold slot_ok. simpl patch_idx. lia. }
  intros [] s3 [Hs3 H255]. simpl patch_idx in H255.
  apply (dual_ip6_spec want s3 (net s) (H ∧ eth s 0x86dd = true));
    [lia|done|intros [[? _] ?]; by apply room_ip6|].
  intros l6 s4 V6 Hf4. pose proof (grows_len _ _ _ _ (proj1 V6)) as Hlen4.
  assert (Hs3' : zlen (cg_insns s3) = zlen (cg_insns s2) + 1)
    by (subst s3; simpl; rewrite zlen_patch_code; apply zlen_app).
  apply wp_bind, wp_here, wp_bind. eapply wp_mono.
  { apply wp_resolve. unfold slot_ok. simpl patch_idx. lia. }
  intros [] s5 [Hs5 H255']. simpl patch_idx in H255'.
  apply wp_bind, wp_gets, wp_bind, wp_put_facts, wp_ret. split_and!; [|done|done].
  assert (Hf5 : cg_facts s5 = set_ports_ready None (cg_facts s)).
  { subst s5. simpl. rewrite Hf4. subst s3. simpl. by rewrite Hf2. }
  replace (Jf i4 :: l ++ Jt i_frag :: l6) with ((Jf i4 :: l ++ [Jt i_frag]) ++ l6)
    by (simpl; by rewrite <- app_assoc).
  eapply (emitted_facts 17 s s5 _ (room s) _
    (λ _ x, net s + x = ports_at (cg_link s) pkt (cg_vlan_depth s))).
  - rewrite Hjx in *. subst s3 s5. destruct Heo.
    by eapply emits_weaken; [apply (dual_emits want s s2 s4 eo)|..].
  - unfold rawip_ok. simpl. by rewrite Hf5.
  - intros Hr Hf Hp. rewrite Hf5. split.
    + change (set_ports_ready (Some want) (set_ports_ready None (cg_facts s)))
        with (set_ports_ready (Some want) (cg_facts s)).
      by apply dual_facts_true.
    + intros _ x Hx _. exact Hx.
Qed.

(** ** The prologue *)

Lemma has_ports_mono link d v w :
  subset_of v w = true → has_ports link pkt d v = true → has_ports link pkt d w = true.
Proof.
  unfold has_ports. intros Hs. rewrite !orb_true_iff, !andb_true_iff.
  intros [[[? ?] ?]|[? ?]]; [left|right]; eauto using subset_of_contains.
Qed.

Lemma emit_port_prereqs_set_spec want s :
  ok s → l4_wf want →
  wp (emit_port_prereqs_set want) s (λ q s',
    emitted 17 s s' q (room s) (has_ports (cg_link s) pkt (cg_vlan_depth s) want) ∧
    success q = [] ∧ f_ports_ready (cg_facts s') ≠ None).
Proof.
  intros Hok Hw. unfold emit_port_prereqs_set. apply wp_bind, wp_gets.
  destruct (ports_elidable want (cg_facts s)) eqn:He.
  { unfold ports_elidable in He.
    destruct (f_ports_ready (cg_facts s)) as [have|] eqn:Hp; [|done].
    apply wp_ret. split_and!; [|done|by rewrite Hp].
    eapply emitted_mono; [apply (emitted_skip pkt B s True true)|lia|..]; [done|done|].
    intros _ Hf. eapply has_ports_mono; [done|]. by apply Hf. }
  case_decide as H4; [|case_decide as H6].
  - eapply wp_mono; [by apply port_prereqs_v4_spec|]. intros q s' (E & ? & ?).
    split_and!; [|done|done]. eapply emitted_mono; [exact E|lia|done|done].
  - eapply wp_mono; [by apply port_prereqs_v6_spec|]. intros q s' (E & ? & ?).
    split_and!; [|done|done]. eapply emitted_mono; [exact E|lia|done|done].
  - by apply port_prereqs_dual_spec.
Qed.

Lemma l4set_for_wf proto w : l4set_for proto = Ok w → l4_wf w.
Proof. destruct proto as [[]|]; intros [= <-]; simpl; try done; by split. Qed.

Lemma l4set_for_returns proto : returns (l4set_for proto).
Proof. by destruct proto as [[]|]. Qed.

Lemma ports_at_range s :
  net s ≤ ports_at (cg_link s) pkt (cg_vlan_depth s) ≤ net s + 60.
Proof.
  unfold ports_at, ip4_header_len. case_match; [lia|].
  pose proof (Z.mod_pos_bound (b8 pkt (net s)) 16 ltac:(lia)). lia.
Qed.

(** ** Address and port tests with a direction *)

(** Two loads, compared with [k] as the direction says. *)
Definition dir_check (k : Z) (i_src i_dst : Insn) (dir : Dir) : CG Patches :=
  match dir with
  | Src => push i_src;; i ← push (jeq_k k 0 0xff); mret (fails [Jf i])
  | Dst => push i_dst;; i ← push (jeq_k k 0 0xff); mret (fails [Jf i])
  | SrcAndDst =>
      push i_src;; i1 ← push (jeq_k k 0 0xff);
      push i_dst;; i2 ← push (jeq_k k 0 0xff); mret (fails [Jf i1; Jf i2])
  | SrcOrDst =>
      push i_src;; i1 ← push (jeq_k k 0xff 0);
      push i_dst;; i2 ← push (jeq_k k 0 0xff); mret (mk_patches [Jt i1] [Jf i2])
  end.

Lemma dir_check_ok k i_src i_dst dir (H : Prop) R v1 v2 :
  is_u32 k → good_insn i_src → good_insn i_dst →
  straight i_src = true → straight i_dst = true →
  writes_x i_src = false → writes_x i_dst = false →
  (H → loads pkt B [i_src] R v1) → (H → loads pkt B [i_dst] R v2) →
  patches_ok pkt B 4 (dir_check k i_src i_dst dir) H R (dir_sem dir (v1 =? k) (v2 =? k)).
Proof.
  intros Hk G1 G2 S1 S2 X1 X2 L1 L2 s. destruct dir; simpl.
  - apply wp_bind, wp_push, wp_bind, wp_push, wp_bind, wp_push, wp_bind, wp_push, wp_ret.
    cbn [cg_insns pushed]. rewrite !zlen_app. change (zlen [_]) with 1.
    pose proof (emits_two_or pkt B [i_src] [i_dst] k s H R v1 v2 Hk) as E.
    change (zlen [_]) with 1 in E.
    replace (zlen (cg_insns s) + 1 + 1 + 1) with (zlen (cg_insns s) + 1 + 1 + 1) in E by lia.
    split; [apply E|apply (same_env_pushed_all [i_src; jeq_k k 0xff 0; i_dst; jeq_k k 0 0xff])];
      simpl; rewrite ?S1, ?S2, ?X1, ?X2; auto.
  - apply wp_bind, wp_push, wp_bind, wp_push, wp_ret.
    cbn [cg_insns pushed]. rewrite !zlen_app. change (zlen [_]) with 1.
    destruct (check_eq_ok pkt B [i_src] k H R v1) with (s := s) as [E Env];
      simpl; rewrite ?S1, ?X1; auto.
    split; [|done]. by eapply emits_weaken.
  - apply wp_bind, wp_push, wp_bind, wp_push, wp_ret.
    cbn [cg_insns pushed]. rewrite !zlen_app. change (zlen [_]) with 1.
    destruct (check_eq_ok pkt B [i_dst] k H R v2) with (s := s) as [E Env];
      simpl; rewrite ?S2, ?X2; auto.
    split; [|done]. by eapply emits_weaken.
  - apply wp_bind, wp_push, wp_bind, wp_push, wp_bind, wp_push, wp_bind, wp_push, wp_ret.
    cbn [cg_insns pushed]. rewrite !zlen_app. change (zlen [_]) with 1.
    pose proof (emits_two_and pkt B [i_src] [i_dst] k s H R v1 v2 Hk) as E.
    change (zlen [_]) with 1 in E.
    split; [apply E|apply (same_env_pushed_all [i_src; jeq_k k 0 0xff; i_dst; jeq_k k 0 0xff])];
      simpl; rewrite ?S1, ?S2, ?X1, ?X2; auto.
Qed.

End ports.
