(* ===== verification/EmitAddrs.v ===== *)
(** Address tests: IPv4 and IPv6 hosts and networks, and MAC addresses. *)

From S2P Require Export EmitPorts.

Section addrs.
Context (pkt : list Z) (B : Z).
Hypothesis Hpkt : Forall is_u8 pkt.

Abbreviation emits := (emits pkt B).
Abbreviation check_ok := (check_ok pkt B).

(** A halfword, an optional mask and an equality test; then more. *)
Lemma check_cons_ok cs k v (H : Prop) R n (rest : CG (list Patch)) b :
  is_u32 k → Forall good_insn cs → forallb straight cs = true →
  forallb (λ i, negb (writes_x i)) cs = true → (H → loads pkt B cs R v) →
  check_ok n rest H R b →
  ∀ s, wp (l ← rest; mret (Jf (zlen (cg_insns s) + zlen cs) :: l))
    (pushed_all (cs ++ [jeq_k k 0 0xff]) s) (λ l s',
      emits (zlen cs + 1 + n) s s' (fails l) H (λ _ x, R x) ((v =? k) && b) (λ _ x, R x) ∧
      same_env s s').
Proof.
  intros Hk Hg Hst Hnx Hl Hrest s.
  destruct (check_eq_ok pkt B cs k H R v Hk Hg Hst Hnx Hl s) as [E1 Env1].
  apply wp_bind. eapply wp_mono; [apply Hrest|]. intros l s' [E2 Env2]. apply wp_ret.
  split; [|by eapply same_env_trans].
  change (fails (?q :: l)) with (extend (fails [q]) (fails l)).
  exact (emits_then pkt B _ _ _ _ _ [_] l H _ _ _ _ _ E1 E2).
Qed.

Lemma check_nil_ok (H : Prop) R b : (H → b = true) → check_ok 0 (mret []) H R b.
Proof.
  intros Hb s. apply wp_ret. split; [|done].
  eapply emits_weaken; [apply (emits_skip pkt B s True (λ _ x, R x))|lia|done| |done|done]. auto.
Qed.

Lemma check_ip6_addr_ok segs off i (H : Prop) R :
  0 ≤ off → 0 ≤ i → off + 2 * (i + zlen segs) < 2 ^ 32 → Forall is_u16 segs →
  (H → off + 2 * (i + zlen segs) ≤ B) →
  check_ok (2 * zlen segs) (check_ip6_addr i segs off) H R
    (all_from (λ i seg, h16 pkt (off + 2 * i) =? seg) i segs).
Proof.
  intros Hoff. revert i. induction segs as [|seg segs IH]; intros i Hi Hlt Hsegs HB.
  { by apply check_nil_ok. }
  inversion Hsegs; subst. rewrite zlen_cons in *. pose proof (zlen_nonneg segs).
  intros s. simpl. apply wp_bind, wp_u32_add; [lia|].
  replace (i * 2) with (2 * i) by lia.
  apply wp_bind, wp_push, wp_bind, wp_push.
  replace (zlen (cg_insns (pushed (ldh_abs (off + 2 * i)) s)))
    with (zlen (cg_insns s) + zlen [ldh_abs (off + 2 * i)]) by (simpl; by rewrite zlen_app).
  eapply wp_mono.
  - apply (check_cons_ok [ldh_abs (off + 2 * i)] seg (h16 pkt (off + 2 * i)) H R
      (2 * zlen segs)); try done.
    + ulia.
    + solve_good.
    + intros Hh. apply loads_ldh; [lia|]. specialize (HB Hh). lia.
    + apply IH; [lia|lia|done|]. intros Hh. specialize (HB Hh). lia.
  - intros l s' [E Env]. split; [|done]. eapply emits_weaken; [exact E| |done..].
    change (zlen [_]) with 1. lia.
Qed.

Lemma check_net4_ok mask masked off (H : Prop) R :
  is_u32 mask → is_u32 masked → 0 ≤ off → off + 4 < 2 ^ 32 → (H → off + 4 ≤ B) →
  check_ok 3 (check_net4 mask masked off) H R (w32 pkt off .& mask =? masked).
Proof.
  intros Hm Hk Ho Hlt HB s.
  apply wp_bind, wp_push, wp_bind, wp_push, wp_bind, wp_push, wp_ret.
  cbn [cg_insns pushed]. rewrite !zlen_app. change (zlen [_]) with 1.
  destruct (check_eq_ok pkt B [ldw_abs off; and_k mask] masked H R (w32 pkt off .& mask))
    with (s := s) as [E Env]; try done.
  { solve_good. }
  { intros Hh. apply (loads_and pkt B [ldw_abs off]), loads_ldw; [lia|]. auto. }
  replace (zlen (cg_insns s) + 1 + 1) with
    (zlen (cg_insns s) + zlen [ldw_abs off; and_k mask]); [done|].
  change (zlen [_; _]) with 2. lia.
Qed.

Lemma all_from_beyond off len segs i :
  len ≤ 16 * i → Forall is_u16 segs →
  all_from (λ i seg,
    Z.shiftr (h16 pkt (off + 2 * i)) (16 - prefix_bits len i) =?
    Z.shiftr seg (16 - prefix_bits len i)) i segs = true.
Proof.
  intros Hi Hs. revert i Hi. induction Hs as [|seg segs Hseg Hs IH]; intros i Hi; [done|].
  simpl. rewrite IH by lia. rewrite andb_true_r, prefix_bits_zero by lia.
  pose proof (h16_range pkt Hpkt (off + 2 * i)) as Hh.
  rewrite !Z.shiftr_div_pow2 by lia. change (2 ^ (16 - 0)) with 65536.
  rewrite !Z.div_small by ulia. done.
Qed.

Lemma check_net6_ok segs len off i (H : Prop) R :
  0 ≤ off → 0 ≤ i → off + 2 * (i + zlen segs) < 2 ^ 32 → Forall is_u16 segs →
  (H → off + 2 * (i + zlen segs) ≤ B) →
  check_ok (3 * zlen segs) (check_net6 i segs len off) H R
    (all_from (λ i seg,
      Z.shiftr (h16 pkt (off + 2 * i)) (16 - prefix_bits len i) =?
      Z.shiftr seg (16 - prefix_bits len i)) i segs).
Proof.
  intros Hoff. revert i. induction segs as [|seg segs IH]; intros i Hi Hlt Hsegs HB.
  { by apply check_nil_ok. }
  pose proof Hsegs as Hsegs'. inversion Hsegs'; subst. pose proof (zlen_nonneg segs).
  cbn [check_net6]. cbv zeta. destruct (Z.leb_spec len (i * 16)) as [Hle|Hgt].
  { rewrite zlen_cons. intros s. eapply wp_mono; [apply (check_nil_ok H R true); done|].
    intros l s' [E Env]. split; [|done].
    rewrite (all_from_beyond off len (seg :: segs)) by (done || lia).
    eapply emits_weaken; [exact E|lia|done..]. }
  rewrite zlen_cons in *. intros s. cbn [all_from].
  rewrite net6_segment by (done || lia || apply h16_range; done).
  apply wp_bind, wp_u32_add; [lia|]. replace (i * 2) with (2 * i) by lia.
  apply wp_bind, wp_push.
  assert (Hload : H → loads pkt B [ldh_abs (off + 2 * i)] R (h16 pkt (off + 2 * i)))
    by (intros Hh; apply loads_ldh; [lia|specialize (HB Hh); lia]).
  assert (Hrest : check_ok (3 * zlen segs) (check_net6 (i + 1) segs len off) H R
    (all_from (λ i seg, Z.shiftr (h16 pkt (off + 2 * i)) (16 - prefix_bits len i) =?
      Z.shiftr seg (16 - prefix_bits len i)) (i + 1) segs)).
  { apply IH; [lia|lia|done|]. intros Hh. specialize (HB Hh). lia. }
  case_match eqn:Hfull; apply wp_bind.
  - apply wp_push.
    replace (zlen (cg_insns (pushed (ldh_abs (off + 2 * i)) s)))
      with (zlen (cg_insns s) + zlen [ldh_abs (off + 2 * i)]) by (simpl; by rewrite zlen_app).
    eapply wp_mono; [apply (check_cons_ok [ldh_abs (off + 2 * i)] seg
      (h16 pkt (off + 2 * i)) H R (3 * zlen segs)); try done; [ulia|solve_good]|].
    intros l s' [E Env]. split; [|done]. eapply emits_weaken; [exact E| |done..].
    change (zlen [_]) with 1. lia.
  - zbool. fold (net6_mask (len - i * 16)). apply wp_bind, wp_push, wp_push.
    pose proof (net6_mask_range (len - i * 16) ltac:(lia)) as Hmask.
    pose proof (land_range 32 (net6_mask (len - i * 16)) seg ltac:(lia) Hmask ltac:(ulia)).
    replace (zlen (cg_insns (pushed _ (pushed _ s))))
      with (zlen (cg_insns s) + zlen [ldh_abs (off + 2 * i); and_k (net6_mask (len - i * 16))])
      by (simpl; rewrite !zlen_app; change (zlen [_]) with 1; change (zlen [_; _]) with 2; lia).
    eapply wp_mono; [apply (check_cons_ok
      [ldh_abs (off + 2 * i); and_k (net6_mask (len - i * 16))]
      (seg .& net6_mask (len - i * 16))
      (h16 pkt (off + 2 * i) .& net6_mask (len - i * 16)) H R (3 * zlen segs)); try done|].
    + by rewrite Z.land_comm.
    + solve_good.
    + intros Hh. by apply (loads_and pkt B [_]), Hload.
    + intros l s' [E Env]. split; [|done]. eapply emits_weaken; [exact E| |done..].
      change (zlen [_; _]) with 2. lia.
Qed.

(** A MAC address as a word and a halfword. *)
Lemma mac_at_words off o0 o1 o2 o3 o4 o5 :
  is_u8 o0 → is_u8 o1 → is_u8 o2 → is_u8 o3 → is_u8 o4 → is_u8 o5 →
  mac_at pkt off (mk_mac [o0; o1; o2; o3; o4; o5]) =
  (w32 pkt off =? o0 * 2 ^ 24 + o1 * 2 ^ 16 + o2 * 2 ^ 8 + o3) &&
  (h16 pkt (off + 4) =? o4 * 2 ^ 8 + o5).
Proof.
  intros. unfold mac_at, w32, h16. cbn [mac_octets all_from].
  rewrite Z.add_0_r.
  replace (off + 2 + 1) with (off + 3) by lia. replace (off + 4 + 1) with (off + 5) by lia.
  replace (0 + 1) with 1 by lia. replace (1 + 1) with 2 by lia. replace (2 + 1) with 3 by lia.
  replace (3 + 1) with 4 by lia. replace (4 + 1) with 5 by lia.
  pose proof (b8_range pkt Hpkt off). pose proof (b8_range pkt Hpkt (off + 1)).
  pose proof (b8_range pkt Hpkt (off + 2)). pose proof (b8_range pkt Hpkt (off + 3)).
  pose proof (b8_range pkt Hpkt (off + 4)). pose proof (b8_range pkt Hpkt (off + 5)).
  apply eq_true_iff_eq. rewrite !andb_true_iff, !Z.eqb_eq.
  unfold is_u8 in *. lia.
Qed.

Lemma check_mac_ok a off (H : Prop) R :
  zlen (mac_octets a) = 6 → Forall is_u8 (mac_octets a) →
  0 ≤ off → off + 6 < 2 ^ 32 → (H → off + 6 ≤ B) →
  check_ok 4 (check_mac a off) H R (mac_at pkt off a).
Proof.
  intros Hlen Ho Hoff Hlt HB s. destruct a as [l]. simpl in Hlen, Ho. unfold zlen in Hlen.
  destruct l as [|o0 [|o1 [|o2 [|o3 [|o4 [|o5 [|? ?]]]]]]]; simpl in Hlen; try lia. clear Hlen.
  rewrite !Forall_cons in Ho. destruct Ho as (H0 & H1 & H2 & H3 & H4 & H5 & _).
  unfold check_mac. simpl nth.
  set (word := o0 * 2 ^ 24 + o1 * 2 ^ 16 + o2 * 2 ^ 8 + o3). set (half := o4 * 2 ^ 8 + o5).
  assert (is_u32 word ∧ is_u32 half) as [Hw Hh] by (unfold word, half; ulia).
  apply wp_bind, wp_push, wp_bind, wp_push, wp_bind, wp_push, wp_bind, wp_push, wp_ret.
  destruct (check_eq_ok pkt B [ldw_abs off] word H R (w32 pkt off)) with (s := s) as [E1 Env1];
    [done|solve_good|done..|intros ?; apply loads_ldw; [lia|]; specialize (HB ltac:(done)); lia|].
  destruct (check_eq_ok pkt B [ldh_abs (off + 4)] half H R (h16 pkt (off + 4)))
    with (s := pushed_all ([ldw_abs off] ++ [jeq_k word 0 0xff]) s) as [E2 Env2];
    [done|solve_good|done..|intros ?; apply loads_ldh; [lia|]; specialize (HB ltac:(done)); lia|].
  pose proof (emits_then pkt B _ _ _ _ _ [_] [_] H _ _ _ _ _ E1 E2) as E.
  split; [|by eapply same_env_trans].
  assert (Hb : mac_at pkt off (mk_mac [o0; o1; o2; o3; o4; o5]) =
    (w32 pkt off =? word) && (h16 pkt (off + 4) =? half)).
  { by apply mac_at_words. }
  rewrite Hb. unfold extend, fails in *. cbn [success failure app] in E.
  cbn [cg_insns pushed pushed_all foldl app] in *. rewrite !zlen_app in *.
  change (zlen [_]) with 1 in *.
  eapply emits_weaken; [exact E|lia|done..].
Qed.
End addrs.
