(* ===== verification/EmitAll.v ===== *)
(** Every primitive: the segment it emits decides its meaning. *)

From S2P Require Export EmitAddrs.

(** * Preservation of X *)

Definition keeps_x (i : Insn) : bool :=
  negb (i_code i .& 0x07 =? BPF_LDX) && negb (i_code i .& 0x07 =? BPF_MISC).

Lemma keeps_x_writes i : keeps_x i = true → writes_x i = false.
Proof.
  unfold keeps_x, writes_x. intros [H1%negb_true_iff H2%negb_true_iff]%andb_true_iff.
  rewrite H1. simpl. apply Z.eqb_neq. intros E. by rewrite E in H2.
Qed.

Lemma keeps_x_all cs : forallb keeps_x cs = true → forallb (λ i, negb (writes_x i)) cs = true.
Proof.
  induction cs as [|i cs IH]; [done|]. simpl. intros [H1 H2]%andb_true_iff.
  by rewrite keeps_x_writes, IH.
Qed.

Lemma exec_insn_x pkt m i m' :
  straight i = true → keeps_x i = true → exec_insn pkt m i = Next m' → r_x m' = r_x m.
Proof.
  unfold straight, keeps_x, exec_insn. rewrite is_jump_class.
  intros _ [H1%negb_true_iff H2%negb_true_iff]%andb_true_iff. rewrite H1, H2.
  opcase; by intros [= <-].
Qed.

Lemma line_x pkt cs m m' :
  forallb straight cs = true → forallb keeps_x cs = true →
  line pkt cs m = Some m' → r_x m' = r_x m.
Proof.
  revert m. induction cs as [|i cs IH]; intros m; simpl; [by intros _ _ [= ->]|].
  intros [Hs1 Hs]%andb_true_iff [Hk1 Hk]%andb_true_iff Hl.
  destruct (exec_insn pkt m i) as [m1|] eqn:E; [|done].
  rewrite (IH m1) by done. by eapply exec_insn_x.
Qed.

Section all.
Context (pkt : list Z) (B : Z).
Hypothesis Hpkt : Forall is_u8 pkt.

Abbreviation emits := (emits pkt B).
Abbreviation emitted := (emitted pkt B).
Abbreviation ft := (ft pkt).
Abbreviation ready := (ready pkt).
Abbreviation eth s := (ethertype_is (cg_link s) pkt (cg_vlan_depth s)).
Abbreviation net s := (net_at (cg_link s) (cg_vlan_depth s)).
Abbreviation room s p := (prim_needs (cg_link s) pkt (cg_vlan_depth s) p ≤ B).

(** * A guard and what follows it *)

(** [rest] appends to the patches [p] those of a segment that decides [b] and
    looks at [k] bytes of the network header. *)
Definition rest_ok (n : Z) (s1 : Codegen) (p : Patches) (rest : CG Patches) (k : Z)
    (b : bool) : Prop :=
  wp rest s1 (λ q' s', ∃ q, q' = extend p q ∧
    emits n s1 s' q (net s1 + k ≤ B ∧ ft s1) (λ _ x, ready s1 x) b (λ _ x, ready s1 x) ∧
    same_env s1 s').

Lemma rest_patches n s1 p (m : CG Patches) k b :
  patches_ok pkt B n m (net s1 + k ≤ B ∧ ft s1) (ready s1) b →
  rest_ok n s1 p (q ← m; mret (extend p q)) k b.
Proof.
  intros C. apply wp_bind. eapply wp_mono; [apply C|]. intros q s' [E Env].
  apply wp_ret. eauto.
Qed.

Lemma guard_then et n (rest : Patches → CG Patches) k (H : Prop) b s :
  ok s → is_u32 et → 0 ≤ k → (H → eth_ok s et) →
  (∀ p s1, success p = [] → cg_link s1 = cg_link s → cg_vlan_depth s1 = cg_vlan_depth s →
    ok s1 → rest_ok n s1 p (rest p) k b) →
  wp (p ← emit_ethertype et; rest p) s (λ q s',
    emitted (2 + n) s s' q (header_needs (cg_link s) (cg_vlan_depth s) (eth s et) k ≤ B ∧ H)
      (eth s et && b)).
Proof.
  intros Hok Het Hk HH Hrest. apply wp_bind.
  eapply wp_mono; [by apply emit_ethertype_spec|]. intros p s1 (E1 & Hp & _).
  pose proof (emitted_env _ _ _ _ _ _ _ _ E1) as [Hl Hd].
  pose proof (emitted_ok _ _ _ _ _ _ _ _ E1 Hok) as Hok1.
  eapply wp_mono; [by apply Hrest|]. intros q' s2 (q & -> & E2 & Env2).
  eapply (emitted_seq pkt B 2 n s s1 s2 p q _ (net s1 + k ≤ B));
    [|done|by apply emitted_check|].
  - eapply emitted_mono; [exact E1|lia| |done]. unfold header_needs.
    intros [? ?] _. split; [case_match; lia|auto].
  - unfold header_needs. intros [Hr _] _ Hb. by rewrite Hb, <- Hl, <- Hd in Hr.
Qed.

(** The offsets of fields of the network header. *)
Lemma wp_field s k (Q : Z → Codegen → Prop) :
  ok s → 0 ≤ k < 128 → Q (net s + k) s → wp (u32_add (net s) k) s Q.
Proof. intros [Hd _] Hk HQ. pose proof (net_at_range s Hd). apply wp_u32_add; [lia|done]. Qed.

Ltac net_fields Hok :=
  apply wp_bind, wp_net_offset; [apply Hok|];
  repeat (apply wp_bind, wp_field; [exact Hok|lia|]).

Lemma emit_host4_spec a dir s :
  ok s → is_u32 a →
  wp (emit_host4 a dir) s (λ q s', emitted 6 s s' q (room s (PHost (V4 a) dir))
    (prim_sem (cg_link s) pkt (cg_vlan_depth s) (PHost (V4 a) dir))).
Proof.
  intros Hok Ha. eapply wp_mono; [eapply (guard_then 0x0800 4 _ 20 True); [done|done|lia|by right|]|].
  2:{ intros q s' E. eapply emitted_mono; [exact E|lia|done|]. cbn [prim_sem]. done. }
  intros p s1 Hp Hl Hd Hok1. net_fields Hok1. apply rest_patches.
  rewrite <- Hl, <- Hd. pose proof (net_at_range s1 (proj1 Hok1)).
  replace (check_addr4 a (net s1 + 12) (net s1 + 16) dir)
    with (dir_check a (ldw_abs (net s1 + 12)) (ldw_abs (net s1 + 16)) dir) by (by destruct dir).
  apply dir_check_ok; try done; try (by apply good_plain; try done; solve_range).
  - intros [Hr _]. apply loads_ldw; lia.
  - intros [Hr _]. apply loads_ldw; lia.
Qed.

Lemma emit_host6_spec segs dir s :
  ok s → wf_segments segs →
  wp (emit_host6 segs dir) s (λ q s', emitted 35 s s' q (room s (PHost (V6 segs) dir))
    (prim_sem (cg_link s) pkt (cg_vlan_depth s) (PHost (V6 segs) dir))).
Proof.
  intros Hok [Hlen Hsegs].
  eapply wp_mono; [eapply (guard_then 0x86dd 33 _ 40 True); [done|done|lia|by right|]|].
  2:{ intros q s' E. eapply emitted_mono; [exact E|lia|done|]. cbn [prim_sem]. done. }
  intros p s1 Hp Hl Hd Hok1. net_fields Hok1. apply rest_patches.
  rewrite <- Hl, <- Hd. pose proof (net_at_range s1 (proj1 Hok1)).
  assert (C : ∀ k, 0 ≤ k ≤ 24 → check_ok pkt B 16 (check_ip6_addr 0 segs (net s1 + k))
    (net s1 + 40 ≤ B ∧ ft s1) (ready s1) (ip6_addr_at pkt (net s1 + k) segs)).
  { intros k Hk. eapply check_mono; [apply check_ip6_addr_ok|lia..|done|done]; try done; try lia. }
  change 33 with (2 * 16 + 1).
  apply (check_dir_ok pkt B 16 (check_ip6_addr 0 segs) (net s1 + 8) (net s1 + 24) dir _ _
    (λ o, ip6_addr_at pkt o segs)); [lia|apply C; lia..].
Qed.

Lemma emit_net6_spec n dir s :
  ok s → wf_segments (net6_segments n) → is_u8 (net6_prefix_len n) →
  wp (emit_net6 n dir) s (λ q s', emitted 51 s s' q (room s (PNet6 n dir))
    (prim_sem (cg_link s) pkt (cg_vlan_depth s) (PNet6 n dir))).
Proof.
  intros Hok [Hlen Hsegs] Hpl.
  eapply wp_mono; [eapply (guard_then 0x86dd 49 _ 40 True); [done|done|lia|by right|]|].
  2:{ intros q s' E. eapply emitted_mono; [exact E|lia|done|]. cbn [prim_sem]. done. }
  intros p s1 Hp Hl Hd Hok1. net_fields Hok1. apply rest_patches.
  rewrite <- Hl, <- Hd. pose proof (net_at_range s1 (proj1 Hok1)).
  set (check := check_net6 0 (net6_segments n) (net6_prefix_len n)).
  assert (C : ∀ k, 0 ≤ k ≤ 24 → check_ok pkt B 24 (check (net s1 + k))
    (net s1 + 40 ≤ B ∧ ft s1) (ready s1)
    (ip6_prefix_at pkt (net s1 + k) (net6_segments n) (net6_prefix_len n))).
  { intros k Hk. unfold check.
    eapply check_mono; [apply check_net6_ok|lia..|done|done]; try done; try lia. }
  change 49 with (2 * 24 + 1).
  apply (check_dir_ok pkt B 24 check (net s1 + 8) (net s1 + 24) dir _ _
    (λ o, ip6_prefix_at pkt o (net6_segments n) (net6_prefix_len n))); [lia|apply C; lia..].
Qed.

Lemma emit_net_spec n dir s :
  ok s → is_u32 (net_addr n) → is_u32 (net_mask n) →
  wp (emit_net n dir) s (λ q s', emitted 9 s s' q (room s (PNet n dir))
    (prim_sem (cg_link s) pkt (cg_vlan_depth s) (PNet n dir))).
Proof.
  intros Hok Ha Hm.
  eapply wp_mono; [eapply (guard_then 0x0800 7 _ 20 True); [done|done|lia|by right|]|].
  2:{ intros q s' E. eapply emitted_mono; [exact E|lia|done|]. cbn [prim_sem]. done. }
  intros p s1 Hp Hl Hd Hok1. net_fields Hok1. cbv zeta.
  rewrite <- Hl, <- Hd. pose proof (net_at_range s1 (proj1 Hok1)).
  pose proof (land_range 32 (net_addr n) (net_mask n) ltac:(lia) Ha (proj1 Hm)) as Hand.
  set (masked := net_addr n .& net_mask n) in *.
  set (test o := w32 pkt o .& net_mask n =? masked).
  assert (C : ∀ k, 0 ≤ k ≤ 16 → check_ok pkt B 3 (check_net4 (net_mask n) masked (net s1 + k))
    (net s1 + 20 ≤ B ∧ ft s1) (ready s1) (test (net s1 + k))).
  { intros k Hk. apply check_net4_ok; try done; try lia. }
  assert (D : dir ≠ SrcOrDst → rest_ok 7 s1 p
    (q ← check_dir (check_net4 (net_mask n) masked) (net s1 + 12) (net s1 + 16) dir;
     mret (extend p q)) 20 (dir_sem dir (test (net s1 + 12)) (test (net s1 + 16)))).
  { intros _. apply rest_patches. change 7 with (2 * 3 + 1).
    apply check_dir_ok; [lia|apply C; lia..]. }
  destruct dir; [|by apply D..].
  do 6 apply wp_bind, wp_push. apply wp_ret. eexists. split; [done|].
  cbn [cg_insns pushed]. rewrite !zlen_app. change (zlen [_]) with 1.
  assert (L : ∀ k, 0 ≤ k ≤ 16 → (net s1 + 20 ≤ B ∧ ft s1) →
    loads pkt B [ldw_abs (net s1 + k); and_k (net_mask n)] (ready s1)
      (w32 pkt (net s1 + k) .& net_mask n)).
  { intros k Hk [Hr _]. apply (loads_and pkt B [_]), loads_ldw; lia. }
  pose proof (emits_two_or pkt B [ldw_abs (net s1 + 12); and_k (net_mask n)]
    [ldw_abs (net s1 + 16); and_k (net_mask n)] masked s1
    (net s1 + 20 ≤ B ∧ ft s1) (ready s1) (w32 pkt (net s1 + 12) .& net_mask n)
    (w32 pkt (net s1 + 16) .& net_mask n) Hand) as E.
  specialize (E ltac:(solve_good) eq_refl eq_refl (L 12 ltac:(lia)) (L 16 ltac:(lia))).
  cbv zeta in E. change (zlen [_; _]) with 2 in E.
  split; [|by apply (same_env_pushed_all [_; _; _; _; _; _])].
  match type of E with emits _ _ _ (mk_patches [Jt ?a] [Jf ?b]) _ _ _ _ =>
    replace b with (zlen (cg_insns s1) + 1 + 1 + 1 + 1 + 1) in E by lia;
    replace a with (zlen (cg_insns s1) + 1 + 1) in E by lia end.
  eapply emits_weaken; [exact E| |done..]. by vm_compute.
Qed.

(** * Ports *)

Lemma ldh_ind_ports s1 k :
  ok s1 → 0 ≤ k ≤ 2 → f_ports_ready (cg_facts s1) ≠ None →
  ports_at (cg_link s1) pkt (cg_vlan_depth s1) + 4 ≤ B →
  loads pkt B [ldh_ind (net s1 + k)] (ready s1)
    (h16 pkt (ports_at (cg_link s1) pkt (cg_vlan_depth s1) + k)).
Proof.
  intros Hok Hk Hp Hr. pose proof (net_at_range s1 (proj1 Hok)).
  pose proof (ports_at_range pkt s1).
  apply loads_ldh_ind; [|lia..]. intros x Hx. specialize (Hx Hp). lia.
Qed.

Lemma check_range_ok lo hi off (H : Prop) R v :
  is_u32 lo → is_u32 hi → is_u32 off → (H → loads pkt B [ldh_ind off] R v) →
  check_ok pkt B 3 (check_range lo hi off) H R ((lo <=? v) && (v <=? hi)).
Proof.
  intros Hlo Hhi Hoff Hl s. apply wp_bind, wp_push, wp_bind, wp_push, wp_bind, wp_push, wp_ret.
  cbn [cg_insns pushed]. rewrite !zlen_app. change (zlen [_]) with 1.
  split; [|by apply (same_env_pushed_all [_; _; _])].
  change 3 with (2 + 1).
  change (fails [?a; ?b]) with (extend (fails [a]) (fails [b])).
  apply (emits_seq pkt B 2 1 s (pushed_all [ldh_ind off; jge_k lo 0 0xff] s) _ _ _ H H
    _ _ (λ a x, a = v ∧ R x)); [done| | |done].
  - apply (emits_check pkt B [ldh_ind off] (jge_k lo 0 0xff) FieldJf); try done; [solve_good|].
    intros Hh m _ Hm. specialize (Hl Hh m Hm). unfold Line.line_ok in *.
    destruct (line pkt [ldh_ind off] m) as [m1|]; [|done]. destruct Hl as [<- Hx].
    rewrite cond_jge, Hx. simpl. by rewrite negb_involutive.
  - apply (emits_check pkt B [] (jgt_k hi 0xff 0) FieldJt); try done; [|solve_good|].
    { simpl. rewrite !zlen_app. change (zlen [_]) with 1. znil. do 3 f_equal. lia. }
    intros Hh m _ [<- Hm]. apply line_nil. rewrite cond_jgt. simpl.
    split_and!; [|done|done]. f_equal. lia.
Qed.

(** What a port test needs, its prologue needs; and where there are ports, they. *)
Lemma ports_needs_room s proto want :
  l4set_for proto = Ok want → ports_needs (cg_link s) pkt (cg_vlan_depth s) proto ≤ B →
  protocol_needs (cg_link s) pkt (cg_vlan_depth s) ≤ B ∧
  (has_ports (cg_link s) pkt (cg_vlan_depth s) want = true →
    ports_at (cg_link s) pkt (cg_vlan_depth s) + 4 ≤ B).
Proof. unfold ports_needs. intros -> H. simpl in H. case_match; split; (done || lia). Qed.

Lemma emit_port_spec port dir proto s :
  ok s → is_u16 port →
  wp (emit_port port dir proto) s (λ q s', emitted 21 s s' q (room s (PPort port dir proto))
    (prim_sem (cg_link s) pkt (cg_vlan_depth s) (PPort port dir proto))).
Proof.
  intros Hok Hport. apply wp_bind. unfold emit_port_prereqs.
  apply wp_bind, wp_lift; [apply l4set_for_returns|]. intros want Hw.
  eapply wp_mono; [apply emit_port_prereqs_set_spec; [done|by eapply l4set_for_wf]|].
  intros p s1 (E1 & Hp & Hready).
  pose proof (emitted_env _ _ _ _ _ _ _ _ E1) as [Hl Hd].
  pose proof (emitted_ok _ _ _ _ _ _ _ _ E1 Hok) as Hok1.
  apply wp_bind, wp_net_offset; [apply Hok1|]. cbv zeta.
  apply wp_bind, wp_field; [done|lia|]. pose proof (net_at_range s1 (proj1 Hok1)).
  set (pa := ports_at (cg_link s1) pkt (cg_vlan_depth s1)).
  set (Q := λ q s', emitted 21 s s' q (room s (PPort port dir proto))
    (prim_sem (cg_link s) pkt (cg_vlan_depth s) (PPort port dir proto))).
  assert (W : wp (q ← dir_check port (ldh_ind (net s1)) (ldh_ind (net s1 + 2)) dir;
    mret (extend p q)) s1 Q); [|by destruct dir].
  apply wp_bind. eapply wp_mono; [apply (dir_check_ok pkt B port _ _ dir (pa + 4 ≤ B ∧ ft s1)
    (ready s1) (h16 pkt (pa + 0)) (h16 pkt (pa + 2)));
    try done; try (by apply good_plain; try done; solve_range)|].
  { ulia. }
  { intros [Hr _]. rewrite <- (Z.add_0_r (net s1)). by apply ldh_ind_ports. }
  { intros [Hr _]. by apply ldh_ind_ports. }
  intros q s2 [E2 Env2]. apply wp_ret. unfold Q. simpl. unfold ports_sem. rewrite Hw. simpl.
  change 21 with (17 + 4). rewrite Z.add_0_r in E2. unfold pa in E2.
  rewrite Hl, Hd in E2.
  eapply (emitted_then pkt B 17 4 s s1 s2 p q _ _
    (ports_at (cg_link s) pkt (cg_vlan_depth s) + 4 ≤ B)); [|done| |exact E2|done|done].
  - eapply emitted_mono; [exact E1|lia| |done]. intros Hr _. by apply (ports_needs_room s proto want).
  - intros Hr _. by apply (ports_needs_room s proto want).
Qed.

Lemma emit_portrange_spec lo hi dir proto s :
  ok s → is_u16 lo → is_u16 hi →
  wp (emit_portrange lo hi dir proto) s (λ q s', emitted 24 s s' q (room s (PPortRange lo hi dir proto))
    (prim_sem (cg_link s) pkt (cg_vlan_depth s) (PPortRange lo hi dir proto))).
Proof.
  intros Hok Hlo Hhi. apply wp_bind. unfold emit_port_prereqs.
  apply wp_bind, wp_lift; [apply l4set_for_returns|]. intros want Hw.
  eapply wp_mono; [apply emit_port_prereqs_set_spec; [done|by eapply l4set_for_wf]|].
  intros p s1 (E1 & Hp & Hready).
  pose proof (emitted_env _ _ _ _ _ _ _ _ E1) as [Hl Hd].
  pose proof (emitted_ok _ _ _ _ _ _ _ _ E1 Hok) as Hok1.
  apply wp_bind, wp_net_offset; [apply Hok1|]. cbv zeta.
  apply wp_bind, wp_field; [done|lia|]. pose proof (net_at_range s1 (proj1 Hok1)).
  set (pa := ports_at (cg_link s1) pkt (cg_vlan_depth s1)).
  set (test v := (lo <=? v) && (v <=? hi)).
  assert (C : ∀ k, 0 ≤ k ≤ 2 → check_ok pkt B 3 (check_range lo hi (net s1 + k))
    (pa + 4 ≤ B ∧ ft s1) (ready s1) (test (h16 pkt (pa + k)))).
  { intros k Hk. apply check_range_ok; [ulia..|]. intros [Hr _]. by apply ldh_ind_ports. }
  apply wp_bind. eapply wp_mono;
    [apply (check_dir_ok pkt B 3 (check_range lo hi) (net s1) (net s1 + 2) dir
      (pa + 4 ≤ B ∧ ft s1) (ready s1) (λ o, test (h16 pkt (o - net s1 + pa)))); [lia|..]|].
  { rewrite <- (Z.add_0_r (net s1)) at 1.
    eapply check_mono; [apply (C 0); lia|lia|done|]. intros _. do 2 f_equal. lia. }
  { eapply check_mono; [apply (C 2); lia|lia|done|]. intros _. do 2 f_equal. lia. }
  intros q s2 [E2 Env2]. apply wp_ret. simpl. unfold ports_sem. rewrite Hw. simpl.
  replace (net s1 - net s1 + pa) with pa in E2 by lia.
  replace (net s1 + 2 - net s1 + pa) with (pa + 2) in E2 by lia.
  unfold pa in E2. rewrite Hl, Hd in E2. change 24 with (17 + 7).
  eapply (emitted_then pkt B 17 7 s s1 s2 p q _ _
    (ports_at (cg_link s) pkt (cg_vlan_depth s) + 4 ≤ B)); [|done| |exact E2|done|done].
  - eapply emitted_mono; [exact E1|lia| |done]. intros Hr _. by apply (ports_needs_room s proto want).
  - intros Hr _. by apply (ports_needs_room s proto want).
Qed.

(** * Link layer *)

Lemma emit_ether_host_spec a dir s :
  ok s → zlen (mac_octets a) = 6 → Forall is_u8 (mac_octets a) →
  wp (emit_ether_host a dir) s (λ q s', emitted 9 s s' q (room s (PEtherHost a dir))
    (prim_sem (cg_link s) pkt (cg_vlan_depth s) (PEtherHost a dir))).
Proof.
  intros Hok Hlen Ha. apply wp_bind, wp_gets. case_decide; [apply wp_fail|].
  assert (C : ∀ o, 0 ≤ o ≤ 6 →
    check_ok pkt B 4 (check_mac a o) (12 ≤ B ∧ ft s) (ready s) (mac_at pkt o a)).
  { intros o Ho. apply (check_mac_ok pkt B Hpkt); try done; try lia. }
  assert (P : ∀ src dst d b, 0 ≤ src ≤ 6 → 0 ≤ dst ≤ 6 →
    b = dir_sem d (mac_at pkt src a) (mac_at pkt dst a) →
    wp (check_dir (check_mac a) src dst d) s (λ q s', emitted 9 s s' q (room s (PEtherHost a dir)) b)).
  { intros src dst d b Hs Hd ->. change 9 with (2 * 4 + 1).
    eapply wp_mono; [apply (check_dir_ok pkt B 4 (check_mac a) src dst d
      (12 ≤ B ∧ ft s) (ready s) (λ o, mac_at pkt o a)); [lia|apply C; lia..]|].
    intros q s' [E Env]. by apply emitted_check. }
  destruct dir; [apply (P 0 6 SrcOrDst)|apply (P 6 0 Src)|apply (P 6 0 Dst)
    |apply (P 0 6 SrcAndDst)]; try lia; simpl;
    [apply orb_comm|done|done|apply andb_comm].
Qed.

Lemma land_1_odd x : negb (x .& 1 =? 0) = Z.odd x.
Proof.
  rewrite (land_ones_mod x 1) by done. change (2 ^ 1) with 2. rewrite Zmod_odd.
  by destruct (Z.odd x).
Qed.

Lemma emit_ether_multicast_spec s :
  ok s →
  wp emit_ether_multicast s (λ q s', emitted 2 s s' q (room s PEtherMulticast)
    (prim_sem (cg_link s) pkt (cg_vlan_depth s) PEtherMulticast)).
Proof.
  intros Hok. apply wp_bind, wp_gets. case_decide; [apply wp_fail|].
  apply wp_bind, wp_push, wp_bind, wp_push, wp_ret. cbn [cg_insns pushed]. rewrite zlen_app.
  apply emitted_check; [|by apply (same_env_pushed_all [_; _])].
  apply (emits_load_check pkt B [ldb_abs 0] (jset_k 0x01 0 0xff) FieldJf s _ (ready s)
    (b8 pkt 0)); try done; [solve_good| |].
  - intros [Hr _]. simpl in Hr. apply loads_ldb; lia.
  - intros m Hm. rewrite cond_jset, land_1_odd, Hm. simpl. by rewrite negb_involutive.
Qed.

(** A load and an equality test behind a guard. *)
Lemma extend_fails p l : mk_patches (success p) (failure p ++ l) = extend p (fails l).
Proof. unfold extend. simpl. by rewrite app_nil_r. Qed.

Lemma rest_leaf cs k s1 p n v b idx :
  idx = zlen (cg_insns s1) + zlen cs → is_u32 k → Forall good_insn cs →
  forallb straight cs = true → forallb (λ i, negb (writes_x i)) cs = true →
  (net s1 + n ≤ B ∧ ft s1 → loads pkt B cs (ready s1) v) → b = (v =? k) →
  ∃ q, mk_patches (success p) (failure p ++ [Jf idx]) = extend p q ∧
    emits (zlen cs + 1) s1 (pushed_all (cs ++ [jeq_k k 0 0xff]) s1) q (net s1 + n ≤ B ∧ ft s1)
      (λ _ x, ready s1 x) b (λ _ x, ready s1 x) ∧
    same_env s1 (pushed_all (cs ++ [jeq_k k 0 0xff]) s1).
Proof.
  intros -> Hk Hg Hst Hnx Hl ->. rewrite extend_fails. eexists. split; [done|].
  by apply check_eq_ok.
Qed.

Lemma emit_ip_broadcast_spec s :
  ok s →
  wp emit_ip_broadcast s (λ q s', emitted 4 s s' q (room s PIpBroadcast)
    (prim_sem (cg_link s) pkt (cg_vlan_depth s) PIpBroadcast)).
Proof.
  intros Hok. eapply wp_mono; [eapply (guard_then 0x0800 2 _ 20 True); [done|done|lia|by right|]|].
  2:{ intros q s' E. eapply emitted_mono; [exact E|lia|done|]. cbn [prim_sem]. done. }
  intros p s1 Hp Hl Hd Hok1. net_fields Hok1. rewrite <- Hl, <- Hd.
  pose proof (net_at_range s1 (proj1 Hok1)).
  apply wp_bind, wp_load_check, wp_ret.
  eapply (rest_leaf [ldw_abs _]); [done|done|solve_good|done|done| |done].
  intros [Hr _]. apply loads_ldw; lia.
Qed.

Lemma emit_ip_multicast_spec s :
  ok s →
  wp emit_ip_multicast s (λ q s', emitted 5 s s' q (room s PIpMulticast)
    (prim_sem (cg_link s) pkt (cg_vlan_depth s) PIpMulticast)).
Proof.
  intros Hok. eapply wp_mono; [eapply (guard_then 0x0800 3 _ 20 True); [done|done|lia|by right|]|].
  2:{ intros q s' E. eapply emitted_mono; [exact E|lia|done|]. cbn [prim_sem]. done. }
  intros p s1 Hp Hl Hd Hok1. net_fields Hok1. rewrite <- Hl, <- Hd.
  pose proof (net_at_range s1 (proj1 Hok1)).
  apply wp_bind, wp_push, wp_bind, wp_push, wp_bind, wp_push, wp_ret.
  apply (rest_leaf [ldw_abs _; and_k 0xf0000000] 0xe0000000 s1 p 20
    (w32 pkt (net s1 + 16) .& 0xf0000000)); try done; [|solve_good| |].
  - cbn [cg_insns pushed]. rewrite !zlen_app. change (zlen [_]) with 1.
    change (zlen [_; _]) with 2. lia.
  - intros [Hr _].
    apply (loads_and pkt B [_]), loads_ldw; lia.
  - symmetry. pose proof (w32_range pkt Hpkt (net s1 + 16)).
    apply (mask_high 32 28 0xf0000000 _ 0xe0000000); [lia|done|ulia..].
Qed.

Lemma emit_ip6_multicast_spec s :
  ok s →
  wp emit_ip6_multicast s (λ q s', emitted 4 s s' q (room s PIp6Multicast)
    (prim_sem (cg_link s) pkt (cg_vlan_depth s) PIp6Multicast)).
Proof.
  intros Hok. eapply wp_mono; [eapply (guard_then 0x86dd 2 _ 25 True); [done|done|lia|by right|]|].
  2:{ intros q s' E. eapply emitted_mono; [exact E|lia|done|]. cbn [prim_sem]. done. }
  intros p s1 Hp Hl Hd Hok1. net_fields Hok1. rewrite <- Hl, <- Hd.
  pose proof (net_at_range s1 (proj1 Hok1)).
  apply wp_bind, wp_load_check, wp_ret.
  eapply (rest_leaf [ldb_abs _]); [done|done|solve_good|done|done| |done].
  intros [Hr _]. apply loads_ldb; lia.
Qed.

Lemma link_offset_net o s :
  link_ether_proto_offset (cg_link s) = Some o → ok s →
  0 ≤ o + 4 * cg_vlan_depth s ∧ o + 4 * cg_vlan_depth s + 2 ≤ net s ∧ net s < 2 ^ 31.
Proof.
  intros Ho [Hd _]. unfold depth_ok, net_at in *. destruct (cg_link s); simplify_eq/=; lia.
Qed.

Lemma emit_ethertype_plain et s :
  ok s → is_u32 et →
  wp (emit_ethertype et) s (λ q s', emitted 2 s s' q (net s ≤ B ∧ eth_ok s et) (eth s et)).
Proof.
  intros Hok Het. eapply wp_mono; [by apply emit_ethertype_spec|]. by intros q s' (E & _).
Qed.

Lemma emit_vlan_spec id s :
  ok s → wf_option is_u16 id →
  wp (emit_vlan id) s (λ q s', emitted 5 s s' q (room s (PVlan id) ∧ cg_vlan_depth s = 0)
    (prim_sem (cg_link s) pkt (cg_vlan_depth s) (PVlan id))).
Proof.
  intros Hok Hid. destruct id as [vid|].
  2:{ apply wp_bind. eapply wp_mono; [by apply (emit_ethertype_plain 0x8100)|].
      intros q s' E. apply wp_ret. eapply emitted_mono; [exact E|lia| |done].
      intros [? ?] _. by repeat split; [|left]. }
  destruct (link_ether_proto_offset (cg_link s)) as [o|] eqn:Ho.
  2:{ destruct s as [insns [] f xw d]; done. }
  eapply wp_mono; [eapply (guard_then 0x8100 3 _ 2 (cg_vlan_depth s = 0)); [done|done|lia|by left|]|].
  2:{ intros q s' E. eapply emitted_mono; [exact E|lia|done|]. cbn [prim_sem]. done. }
  intros p s1 Hp Hl Hd Hok1.
  rewrite <- Hl in Ho. pose proof (link_offset_net o s1 Ho Hok1) as (Ho1 & Ho2 & Ho3).
  apply wp_bind, (wp_ether_offset s1 o); [apply Hok1|done|].
  apply wp_bind. simpl unwrap_or. apply wp_u32_add; [lia|].
  apply wp_bind, wp_push, wp_bind, wp_push, wp_bind, wp_push, wp_ret.
  unfold behind_ethertype. rewrite <- Hl, <- Hd, Ho. simpl unwrap_or.
  apply (rest_leaf [ldh_abs (o + 4 * cg_vlan_depth s1 + 2); and_k 0x0fff] vid s1 p 2
    (h16 pkt (o + 4 * cg_vlan_depth s1 + 2) .& 0x0fff)); try done; [|simpl in Hid; ulia| | |].
  - cbn [cg_insns pushed]. rewrite !zlen_app. change (zlen [_]) with 1.
    change (zlen [_; _]) with 2. lia.
  - solve_good.
  - intros [Hr _].
    apply (loads_and pkt B [_]), loads_ldh; lia.
  - by rewrite (land_ones_mod _ 12).
Qed.

Lemma emit_pppoe_session_spec id s :
  ok s → wf_option is_u16 id →
  wp (emit_pppoe_session id) s (λ q s', emitted 4 s s' q (room s (PPppoeSession id))
    (prim_sem (cg_link s) pkt (cg_vlan_depth s) (PPppoeSession id))).
Proof.
  intros Hok Hid. destruct id as [sid|].
  2:{ apply wp_bind. eapply wp_mono; [by apply (emit_ethertype_plain 0x8864)|].
      intros q s' E. apply wp_ret. eapply emitted_mono; [exact E|lia| |done].
      intros ? _. split; [done|]. by right. }
  destruct (link_ether_proto_offset (cg_link s)) as [o|] eqn:Ho.
  2:{ destruct s as [insns [] f xw d]; done. }
  eapply wp_mono; [eapply (guard_then 0x8864 2 _ 4 True); [done|done|lia|by right|]|].
  2:{ intros q s' E. eapply emitted_mono; [exact E|lia|done|]. cbn [prim_sem]. done. }
  intros p s1 Hp Hl Hd Hok1.
  rewrite <- Hl in Ho. pose proof (link_offset_net o s1 Ho Hok1) as (Ho1 & Ho2 & Ho3).
  apply wp_bind, (wp_ether_offset s1 o); [apply Hok1|done|].
  apply wp_bind. simpl unwrap_or. apply wp_u32_add; [lia|].
  apply wp_bind, wp_push, wp_bind, wp_push, wp_ret.
  unfold behind_ethertype. rewrite <- Hl, <- Hd, Ho. simpl unwrap_or.
  apply (rest_leaf [ldh_abs (o + 4 * cg_vlan_depth s1 + 4)] sid s1 p 4
    (h16 pkt (o + 4 * cg_vlan_depth s1 + 4))); try done; [|simpl in Hid; ulia| |].
  - cbn [cg_insns pushed]. by rewrite !zlen_app.
  - solve_good.
  - intros [Hr _]. apply loads_ldh; lia.
Qed.

(** Without a label, either MPLS ethertype is accepted. With one, the code
    accepts every unicast MPLS packet: no meaning is claimed. *)
Lemma emit_mpls_spec label s :
  ok s → wf_option is_u32 label →
  wp (emit_mpls label) s (λ q s', emitted 6 s s' q (room s (PMpls label) ∧ label = None)
    (prim_sem (cg_link s) pkt (cg_vlan_depth s) (PMpls label))).
Proof.
  intros Hok Hlbl. destruct (link_ether_proto_offset (cg_link s)) as [o|] eqn:Ho.
  2:{ destruct s as [insns [] f xw d]; done. }
  pose proof (link_offset_net o s Ho Hok) as (Ho1 & Ho2 & Ho3).
  apply wp_bind, (wp_ether_offset s o); [apply Hok|done|].
  apply wp_bind, wp_push, wp_bind, wp_push, wp_bind, wp_push.
  set (off := o + 4 * cg_vlan_depth s) in *.
  cbn [cg_insns pushed]. rewrite !zlen_app. change (zlen [_]) with 1. cbv zeta.
  destruct label as [lbl|].
  - apply wp_bind, wp_u32_add; [lia|].
    apply wp_bind, wp_push, wp_bind, wp_push, wp_bind, wp_push, wp_ret.
    cbn [cg_insns pushed success failure]. rewrite !zlen_app. change (zlen [_]) with 1.
    simpl in Hlbl. apply emitted_check; [|by apply (same_env_pushed_all [_; _; _; _; _; _])].
    change 6 with (zlen [ldh_abs off; jeq_k 0x8847 0xff 0; jeq_k 0x8848 0 0xff;
      ldw_abs (off + 2); rsh_k 12; jeq_k lbl 0 0xff]).
    apply emits_code; [solve_good| | |by intros [[_ [=]] _]].
    + change (zlen [_; _; _; _; _; _]) with 6. intros q Hq.
      repeat (setoid_rewrite elem_of_cons in Hq || setoid_rewrite elem_of_nil in Hq).
      destruct Hq as [[->|[]]|[->|[->|[]]]]; simpl; lia.
    + intros q [->|[]%elem_of_nil]%elem_of_cons. simpl.
      rewrite elem_of_cons, list_elem_of_singleton. intros [?|?]; done.
  - apply wp_ret. apply emitted_check; [|by apply (same_env_pushed_all [_; _; _])].
    eapply emits_weaken; [apply (emits_code pkt B [ldh_abs off; jeq_k 0x8847 0xff 0;
      jeq_k 0x8848 0 0xff] s _ ((room s (PMpls None) ∧ None = @None Z) ∧ ft s) (λ _ x, ready s x)
      ((h16 pkt off =? 0x8847) || (h16 pkt off =? 0x8848)) (λ _ x, ready s x))|
      by vm_compute|done| |done|done].
    + solve_good.
    + change (zlen [_; _; _]) with 3. intros q Hq.
      repeat (setoid_rewrite elem_of_cons in Hq || setoid_rewrite elem_of_nil in Hq).
      destruct Hq as [[->|[]]|[->|[]]]; simpl; lia.
    + intros q [->|[]%elem_of_nil]%elem_of_cons. simpl.
      rewrite list_elem_of_singleton. done.
    + intros [[Hr _] _]. simpl in Hr.
      eapply seg_mono; [eapply (seg_or_jump pkt B _ [ldh_abs off] (jeq_k 0x8847 0xff 0) FieldJt
        [jeq_k 0x8848 0 0xff] (fails [Jf (zlen (cg_insns s) + 1 + 1)]) (λ _ x, ready s x)
        (h16 pkt off =? 0x8847) (h16 pkt off =? 0x8848)
        (λ _ x, ready s x) (λ a x, a = h16 pkt off ∧ ready s x) True True)|done|done|done];
        try done.
      * intros q [[]%elem_of_nil|Hq%list_elem_of_singleton]. subst q.
        change (zlen [_]) with 1. simpl. lia.
      * intros m _ Hm. apply line_ldh; [lia..|]. apply line_nil. rewrite cond_jeq. done.
      * intros _. change (zlen [_]) with 1.
        pose proof (seg_check pkt B (zlen (cg_insns s) + 1 + 1) [] (jeq_k 0x8848 0 0xff) FieldJf
          (λ a x, a = h16 pkt off ∧ ready s x) (h16 pkt off =? 0x8848)
          (λ _ x, ready s x) True eq_refl eq_refl eq_refl) as S.
        change (zlen (@nil Insn)) with 0 in S. rewrite Z.add_0_r in S. apply S.
        intros m _ [Ha Hm]. apply line_nil. rewrite cond_jeq, Ha. simpl.
        by rewrite negb_involutive.
    + intros _. cbn [prim_sem]. unfold ethertype_is. rewrite Ho. by rewrite andb_true_r.
Qed.
End all.
