(* ===== verification/EmitBytes.v ===== *)
(** Packet length and raw byte access, and the theorem of all primitives. *)

From S2P Require Export EmitAll.

(** * Comparisons *)

Lemma cmp_insn_spec op v :
  let '(j, fld) := cmp_insn op v in
  is_cond_jump j = true ∧ open_field (other_field fld) j = 0 ∧ writes_x j = false ∧
  (is_u32 v → good_insn j) ∧
  ∀ m, cond_test j m = Some (takes fld (negb (cmp_sem op (r_a m) v))).
Proof.
  destruct op; simpl; split_and!; try done; try (by intros ?; apply good_plain; try done; solve_range);
    intros m; rewrite ?cond_jeq, ?cond_jgt, ?cond_jge, ?cond_jset; simpl;
    rewrite ?negb_involutive; try done; f_equal; lia.
Qed.

Lemma cond_x i m :
  i_code i .& 0x08 = BPF_X →
  cond_test i m = jump_taken (i_code i .& 0xf0) (r_a m) (r_x m).
Proof. intros E. unfold cond_test, uses_x. by rewrite E. Qed.

(** The right-hand side is in A, the left-hand side in X. *)
Lemma cmp_x_insn_spec op :
  let '(j, fld) := cmp_x_insn op in
  is_cond_jump j = true ∧ open_field (other_field fld) j = 0 ∧ writes_x j = false ∧
  good_insn j ∧
  ∀ m, cond_test j m = Some (takes fld (negb (cmp_sem op (r_x m) (r_a m)))).
Proof.
  destruct op; simpl; split_and!; try done; try (by apply good_plain; try done; solve_range);
    intros m; rewrite cond_x by done; rewrite ?negb_involutive;
    unfold cmp_sem; rewrite ?(Z.land_comm (r_x m)), ?(Z.eqb_sym (r_x m)); try done.
  - change (Some (r_x m <=? r_a m) = Some (negb (r_a m <? r_x m))). f_equal. lia.
  - change (Some (r_x m <? r_a m) = Some (negb (r_a m <=? r_x m))). f_equal. lia.
Qed.

(** * Straight-line code that may write X, then a comparison *)

Section bytes.
Context (pkt : list Z) (B : Z).
Hypothesis Hpkt : Forall is_u8 pkt.

Abbreviation emits := (emits pkt B).
Abbreviation emitted := (emitted pkt B).
Abbreviation ft := (ft pkt).
Abbreviation ready := (ready pkt).
Abbreviation net s := (net_at (cg_link s) (cg_vlan_depth s)).

Lemma pushed_all_app c1 c2 s : pushed_all (c1 ++ c2) s = pushed_all c2 (pushed_all c1 s).
Proof. apply foldl_app. Qed.

(** Pushed code keeps the facts but for the register claim. *)
Lemma pushed_all_facts c s :
  cg_facts (pushed_all c s) = cg_facts s ∨
  cg_facts (pushed_all c s) = set_ports_ready None (cg_facts s).
Proof.
  revert s. induction c as [|i c IH]; intros s; simpl; [by left|].
  destruct (IH (pushed i s)) as [-> | ->]; simpl; destruct (writes_x i); auto.
Qed.

Lemma pushed_all_ft c s : ft s → ft (pushed_all c s).
Proof.
  unfold EmitPrims.ft. intros Hf. destruct (pushed_all_grows c s) as (_ & -> & -> & _).
  destruct (pushed_all_facts c s) as [-> | ->]; [done|]. by destruct Hf.
Qed.

(** Either no instruction writes X, or one visibly does. *)
Definition x_known (cs : list Insn) : Prop :=
  forallb keeps_x cs = true ∨ forallb (λ i, negb (writes_x i)) cs = false.

Lemma emitted_code cs j fld s (H : Prop) b :
  Forall good_insn (cs ++ [j]) → forallb straight cs = true → x_known cs →
  is_cond_jump j = true → open_field (other_field fld) j = 0 → writes_x j = false →
  (H → ∀ m, zlen (r_scratch m) = SCRATCH →
    line_ok pkt B cs m (λ m1, cond_test j m1 = Some (takes fld (negb b)))) →
  emitted (zlen cs + 1) s (pushed_all (cs ++ [j]) s)
    (fails [field_patch fld (zlen (cg_insns s) + zlen cs)]) H b.
Proof.
  intros Hg Hst Hx Hcj H0 Hjx Hline. destruct (pushed_all_grows (cs ++ [j]) s)
    as (_ & Hl & Hd & _ & _). split.
  - apply (emits_check pkt B cs j fld); try done. intros [Hh Hf] m Hm Hr.
    specialize (Hline Hh m Hm). unfold line_ok in *.
    destruct (line pkt cs m) as [m1|] eqn:E; [|done]. split; [done|].
    destruct Hx as [Hx|Hx].
    + assert (Ex : r_x m1 = r_x m) by (by eapply line_x).
      assert (Hk : forallb (λ i, negb (writes_x i)) (cs ++ [j]) = true).
      { rewrite forallb_app, (keeps_x_all cs Hx). simpl. by rewrite Hjx. }
      destruct (pushed_all_no_x _ s Hk) as [_ Hfs]. split; [|by intros _].
      intros _. unfold EmitPrims.ready, ports_ready in *. rewrite Hl, Hd, Hfs. by rewrite Ex.
    + assert (Hk : forallb (λ i, negb (writes_x i)) (cs ++ [j]) = false)
        by (by rewrite forallb_app, Hx).
      destruct (pushed_all_x _ s Hk) as [Hfs Hxw]. split; [|lia].
      intros _. unfold EmitPrims.ready, ports_ready. by rewrite Hfs.
  - intros _ Hf _. by apply pushed_all_ft.
Qed.

(** The comparison after the code has been pushed. *)
Lemma emit_cmp_spec cs op v s (H : Prop) b :
  is_u32 v → Forall good_insn cs → forallb straight cs = true → x_known cs →
  (H → ∀ m, zlen (r_scratch m) = SCRATCH →
    line_ok pkt B cs m (λ m1, cmp_sem op (r_a m1) v = b)) →
  wp (emit_cmp op v) (pushed_all cs s) (λ q s', emitted (zlen cs + 1) s s' q H b).
Proof.
  intros Hv Hg Hst Hx Hline. pose proof (cmp_insn_spec op v) as Hspec. unfold emit_cmp.
  destruct (cmp_insn op v) as [j fld]. destruct Hspec as (Hcj & H0 & Hjx & Hgj & Ht).
  apply wp_bind, wp_push, wp_ret. destruct (pushed_all_grows cs s) as (-> & _).
  rewrite zlen_app. change (pushed j (pushed_all cs s)) with (pushed_all [j] (pushed_all cs s)).
  rewrite <- pushed_all_app. apply emitted_code; try done.
  - apply Forall_app. split; [done|]. apply Forall_cons_2; [auto|done].
  - intros Hh m Hm. specialize (Hline Hh m Hm). unfold line_ok in *.
    destruct (line pkt cs m) as [m1|]; [|done]. by rewrite Ht, Hline.
Qed.

Lemma emit_cmp_x_spec cs op s (H : Prop) b :
  Forall good_insn cs → forallb straight cs = true → x_known cs →
  (H → ∀ m, zlen (r_scratch m) = SCRATCH →
    line_ok pkt B cs m (λ m1, cmp_sem op (r_x m1) (r_a m1) = b)) →
  wp (emit_cmp_x op) (pushed_all cs s) (λ q s', emitted (zlen cs + 1) s s' q H b).
Proof.
  intros Hg Hst Hx Hline. pose proof (cmp_x_insn_spec op) as Hspec. unfold emit_cmp_x.
  destruct (cmp_x_insn op) as [j fld]. destruct Hspec as (Hcj & H0 & Hjx & Hgj & Ht).
  apply wp_bind, wp_push, wp_ret. destruct (pushed_all_grows cs s) as (-> & _).
  rewrite zlen_app. change (pushed j (pushed_all cs s)) with (pushed_all [j] (pushed_all cs s)).
  rewrite <- pushed_all_app. apply emitted_code; try done.
  - apply Forall_app. split; [done|]. by apply Forall_cons_2.
  - intros Hh m Hm. specialize (Hline Hh m Hm). unfold line_ok in *.
    destruct (line pkt cs m) as [m1|]; [|done]. by rewrite Ht, Hline.
Qed.

Lemma emit_len_spec op v s :
  is_u32 v →
  wp (emit_len op v) s (λ q s', emitted 2 s s' q True
    (prim_sem (cg_link s) pkt (cg_vlan_depth s) (PLen op v))).
Proof.
  intros Hv. apply wp_bind, wp_push.
  apply (emit_cmp_spec [mk_insn (BPF_LD .| BPF_LEN) 0 0 0]); try done.
  - solve_good.
  - by left.
Qed.

(** * Byte access *)

Lemma line_st0 cs m (Q : vm → Prop) :
  zlen (r_scratch m) = SCRATCH →
  line_ok pkt B cs (mk_vm (r_a m) (r_x m) (zset 0 (r_a m) (r_scratch m)) (r_pc m)) Q →
  line_ok pkt B (st 0 :: cs) m Q.
Proof.
  intros Hm. apply line_step. unfold exec_insn. simpl. unfold store. by rewrite Hm.
Qed.

Lemma line_ldx_mem0 v cs m (Q : vm → Prop) :
  zget (r_scratch m) 0 = Some v →
  line_ok pkt B cs (set_x v m) Q → line_ok pkt B (ldx_mem 0 :: cs) m Q.
Proof.
  intros Hm. apply line_step. unfold exec_insn. simpl. unfold load_x. simpl. by rewrite Hm.
Qed.

Lemma good_load_insn o sz ind : is_u32 o → good_insn (load_insn o sz ind).
Proof. intros Ho. destruct sz, ind; apply good_plain; try done; solve_range. Qed.

Lemma alu_insn_good aop k i :
  is_u32 k → alu_insn aop k = Ok i →
  good_insn i ∧ straight i = true ∧ keeps_x i = true.
Proof.
  intros Hk Hi. destruct aop; simpl in Hi; try (destruct (k =? 0); [done|]);
    try done; injection Hi as <-; split_and!; try done;
    apply good_plain; try done; solve_range.
Qed.

(** The code of the arithmetic steps. *)
Record alu_code (ops : list (ArithOp * Z)) (cs : list Insn) : Prop := {
  ac_len : zlen cs = zlen ops;
  ac_good : Forall good_insn cs;
  ac_straight : forallb straight cs = true;
  ac_keeps : forallb keeps_x cs = true;
  ac_line rest m (Q : vm → Prop) :
    line_ok pkt B rest (set_a (alu_sem ops (r_a m)) m) Q → line_ok pkt B (cs ++ rest) m Q;
}.

Lemma wp_alu_ops ops s (Q : unit → Codegen → Prop) :
  Forall (λ op, is_u32 op.2) ops →
  (∀ cs, alu_code ops cs → Q tt (pushed_all cs s)) → wp (emit_alu_ops ops) s Q.
Proof.
  intros Hops. revert s Q. induction Hops as [|[aop k] ops Hk Hops IH]; intros s Q HQ.
  { apply wp_ret. apply (HQ []). constructor; try done. intros rest m Q'. by destruct m. }
  unfold emit_alu_ops in *. cbn [forM]. apply wp_bind, wp_bind, wp_lift.
  { destruct aop; try done. simpl. by destruct (k =? 0). }
  intros i Hi. apply wp_bind, wp_push, wp_ret, IH. intros cs [Hl Hg Hst Hkx Hline].
  destruct (alu_insn_good aop k i Hk Hi) as (Hgi & Hsi & Hki).
  apply (HQ (i :: cs)). constructor; simpl.
  - rewrite !zlen_cons. lia.
  - by apply Forall_cons_2.
  - by rewrite Hsi.
  - by rewrite Hki.
  - intros rest m Q' HQ'. eapply line_alu; [exact Hi|]. by apply Hline.
Qed.

(** The code of one load at a layer of a packet; [msh] loads the length of
    the IPv4 header into X first. *)
Definition access_code (nt : Z) (layer : Layer) (off : Z) (sz : AccessSize) (msh : bool) :
    list Insn :=
  match layer with
  | Raw => [load_insn off sz false]
  | Net => [load_insn (nt + off) sz false]
  | Trans => (if msh then [ldx_msh nt] else []) ++ [load_insn (nt + off) sz true]
  end.

Definition access_x (link : LinkType) (d : Z) (layer : Layer) (x : Z) : Z :=
  if is_trans layer then ip4_header_len link pkt d else x.

Lemma access_code_props nt layer off sz msh :
  0 ≤ nt < 2 ^ 31 → 0 ≤ off < 2 ^ 31 →
  Forall good_insn (access_code nt layer off sz msh) ∧
  forallb straight (access_code nt layer off sz msh) = true ∧
  zlen (access_code nt layer off sz msh) ≤ 2 ∧
  (is_trans layer = false → forallb keeps_x (access_code nt layer off sz msh) = true) ∧
  (is_trans layer = true → msh = true →
    forallb (λ i, negb (writes_x i)) (access_code nt layer off sz msh) = false).
Proof.
  intros Hn Ho.
  assert (Hg : ∀ o ind, 0 ≤ o < 2 ^ 32 → Forall good_insn [load_insn o sz ind])
    by (intros; apply Forall_cons_2; [by apply good_load_insn|done]).
  destruct layer, msh; simpl; split_and!; try done;
    try (apply Hg; lia); try (by destruct sz).
  apply Forall_cons_2; [|apply Hg; lia]. apply good_plain; try done; solve_range.
Qed.

Lemma ip4_header_len_range link d : 0 ≤ ip4_header_len link pkt d ≤ 60.
Proof.
  unfold ip4_header_len.
  pose proof (Z.mod_pos_bound (b8 pkt (net_at link d)) 16 ltac:(lia)). lia.
Qed.

(** Room for an access at a layer. *)
Definition access_room (link : LinkType) (d : Z) (layer : Layer) (off : Z) (sz : AccessSize) : Prop :=
  access_needs link pkt d layer off sz ≤ B.

Lemma line_access link d layer off sz msh rest m (Q : vm → Prop) :
  0 ≤ net_at link d < 2 ^ 31 - 128 → 0 ≤ off < 2 ^ 31 → access_room link d layer off sz →
  (is_trans layer = true → msh = false → r_x m = ip4_header_len link pkt d) →
  line_ok pkt B rest (set_a (load_sem pkt sz (layer_at link pkt d layer + off))
    (set_x (access_x link d layer (r_x m)) m)) Q →
  line_ok pkt B (access_code (net_at link d) layer off sz msh ++ rest) m Q.
Proof.
  intros Hn Ho Hr Hx. unfold access_x, access_room, access_needs in *.
  pose proof (ip4_header_len_range link d).
  assert (1 ≤ size_bytes sz ≤ 4) by (by destruct sz).
  destruct layer; cbn [layer_at] in *; simpl.
  - apply line_load_abs; lia.
  - apply line_load_abs; lia.
  - intros HQ.
    assert (HL : ∀ m', r_x m' = ip4_header_len link pkt d →
      line_ok pkt B rest (set_a (load_sem pkt sz (net_at link d + ip4_header_len link pkt d + off)) m') Q →
      line_ok pkt B (load_insn (net_at link d + off) sz true :: rest) m' Q).
    { intros m' Hx' HQ'. apply line_load_ind; rewrite Hx'; [lia|lia|].
      replace (ip4_header_len link pkt d + (net_at link d + off))
        with (net_at link d + ip4_header_len link pkt d + off) by lia. done. }
    destruct msh; simpl.
    + apply line_ldx_msh; [lia|lia|]. by apply HL.
    + specialize (Hx eq_refl eq_refl). apply HL; [done|]. rewrite <- Hx in HQ at 2.
      by destruct m.
Qed.

Lemma as_u32_offset o : wf_offset o → as_u32 o = o.
Proof. unfold wf_offset, as_u32. intros ?. apply Z.mod_small. lia. Qed.

Lemma net_range s : ok s → 0 ≤ net s < 2 ^ 31 - 128.
Proof. intros [Hd _]. pose proof (net_at_range s Hd). lia. Qed.

Lemma wp_load_sized o sz ind s (Q : unit → Codegen → Prop) :
  Q tt (pushed_all [load_insn o sz ind] s) → wp (load_sized o sz ind) s Q.
Proof. intros HQ. by apply wp_bind, wp_push, wp_ret. Qed.

Lemma x_known_app layer c1 c2 :
  (is_trans layer = false → forallb keeps_x c1 = true) →
  (is_trans layer = true → forallb (λ i, negb (writes_x i)) c1 = false) →
  forallb keeps_x c2 = true → x_known (c1 ++ c2).
Proof.
  unfold x_known. intros H1 H2 H3. rewrite !forallb_app, H3.
  destruct (is_trans layer); [right; by rewrite H2|left; by rewrite H1].
Qed.

Lemma emit_byte_access_const_spec ba v s :
  ok s → wf_byte_access ba → ba_rhs ba = Const v →
  wp (emit_byte_access_const ba v) s (λ q s', emitted (zlen (ba_alu_ops ba) + 3) s s' q
    (access_room (cg_link s) (cg_vlan_depth s) (ba_layer ba) (ba_offset ba) (ba_size ba))
    (byte_access_sem (cg_link s) pkt (cg_vlan_depth s) ba)).
Proof.
  intros Hok (Hoff & Hops & Hrhs) Er. rewrite Er in Hrhs.
  unfold emit_byte_access_const. rewrite (as_u32_offset _ Hoff). unfold wf_offset in Hoff.
  pose proof (net_range s Hok) as Hn. apply wp_bind, wp_gets.
  set (code := access_code (net s) (ba_layer ba) (ba_offset ba) (ba_size ba) true).
  assert (W : ∀ Q : Patches → Codegen → Prop,
    wp (emit_alu_ops (ba_alu_ops ba);; emit_cmp (ba_op ba) v) (pushed_all code s) Q →
    wp (match ba_layer ba with
        | Raw =>
            if decide (cg_link s = RawIp) then
              fail (CodegenError "raw link-layer byte access cannot be used with RawIp link type")
            else load_sized (ba_offset ba) (ba_size ba) false
        | Net => base ← net_offset; off ← u32_add base (ba_offset ba);
                 load_sized off (ba_size ba) false
        | Trans => base ← net_offset; push (ldx_msh base);;
                   off ← u32_add base (ba_offset ba); load_sized off (ba_size ba) true
        end;; emit_alu_ops (ba_alu_ops ba);; emit_cmp (ba_op ba) v) s Q).
  { intros Q HQ. apply wp_bind. unfold code in HQ. destruct (ba_layer ba).
    - case_decide; [apply wp_fail|]. by apply wp_load_sized.
    - apply wp_bind, wp_net_offset; [apply Hok|]. apply wp_bind, wp_u32_add; [lia|].
      by apply wp_load_sized.
    - apply wp_bind, wp_net_offset; [apply Hok|]. apply wp_bind, wp_push.
      apply wp_bind, wp_u32_add; [lia|]. by apply wp_load_sized. }
  apply W. clear W. apply wp_bind, wp_alu_ops; [done|].
  intros cs [Hlen Hg Hst Hk Hline]. rewrite <- pushed_all_app.
  destruct (access_code_props (net s) (ba_layer ba) (ba_offset ba) (ba_size ba) true)
    as (G & S & L & K1 & K2); [lia|lia|]. fold code in G, S, L, K1, K2.
  eapply wp_mono; [apply (emit_cmp_spec (code ++ cs) (ba_op ba) v s
    (access_room (cg_link s) (cg_vlan_depth s) (ba_layer ba) (ba_offset ba) (ba_size ba))
    (byte_access_sem (cg_link s) pkt (cg_vlan_depth s) ba))|]; try done.
  - by apply Forall_app.
  - by rewrite forallb_app, S.
  - by apply (x_known_app (ba_layer ba)); auto.
  - intros Hr m Hm. apply line_access; [done|done|exact Hr|done|].
    rewrite <- (app_nil_r cs). apply Hline, line_nil. simpl. unfold byte_access_sem.
    rewrite Er. reflexivity.
  - intros q s' E. eapply emitted_mono; [exact E|rewrite zlen_app; lia|done|done].
Qed.

Definition load_room (link : LinkType) (d : Z) (ba : ByteAccess) (rhs : ByteLoad) : Prop :=
  access_room link d (ba_layer ba) (ba_offset ba) (ba_size ba) ∧
  access_room link d (bl_layer rhs) (bl_offset rhs) (bl_size rhs).

(** Loading one side at its layer, with X loaded when [msh]. *)
Lemma wp_layer_load layer off sz s (Q : unit → Codegen → Prop) :
  ok s → 0 ≤ off < 2 ^ 31 → is_trans layer = false →
  Q tt (pushed_all (access_code (net s) layer off sz false) s) →
  wp (o ← layer_offset layer off; load_sized o sz false) s Q.
Proof.
  intros Hok Ho Ht HQ. pose proof (net_range s Hok) as Hn. apply wp_bind.
  destruct layer; [|..|done]; simpl.
  - by apply wp_ret, wp_load_sized.
  - apply wp_bind, wp_net_offset; [apply Hok|]. apply wp_u32_add; [lia|].
    by apply wp_load_sized.
Qed.

Lemma pushed_all_ok c s : ok s → ok (pushed_all c s).
Proof.
  destruct (pushed_all_grows c s) as (_ & Hl & Hd & _ & He).
  unfold ok, depth_ok, rawip_ok. by rewrite Hl, Hd, He.
Qed.

Lemma net_pushed c s : net (pushed_all c s) = net s.
Proof. by destruct (pushed_all_grows c s) as (_ & -> & -> & _). Qed.

Lemma zget_zset0 v (l : list Z) : zlen l = SCRATCH → zget (zset 0 v l) 0 = Some v.
Proof. destruct l as [|x l]; [done|]. intros _. reflexivity. Qed.

Lemma trans_load_code off sz msh :
  ∀ nt, access_code nt Trans off sz msh =
    (if msh then [ldx_msh nt] else []) ++ [load_insn (nt + off) sz true].
Proof. done. Qed.

(** One side of a comparison of two loads. *)
Lemma wp_side layer off sz msh s (Q : unit → Codegen → Prop) :
  ok s → 0 ≤ off < 2 ^ 31 →
  Q tt (pushed_all (access_code (net s) layer off sz msh) s) →
  wp (if is_trans layer then
        (if msh then push (ldx_msh (net s));; mret tt else mret tt);;
        o ← u32_add (net s) off; load_sized o sz true
      else o ← layer_offset layer off; load_sized o sz false) s Q.
Proof.
  intros Hok Ho HQ. pose proof (net_range s Hok) as Hn.
  destruct (is_trans layer) eqn:Ht; [|by apply wp_layer_load; [..|destruct layer]].
  destruct layer; try done. rewrite trans_load_code in HQ. apply wp_bind. destruct msh.
  - apply wp_bind, wp_push, wp_ret, wp_bind, wp_u32_add; [lia|]. by apply wp_load_sized.
  - apply wp_ret, wp_bind, wp_u32_add; [lia|]. by apply wp_load_sized.
Qed.

(** The code of both branches: through scratch memory when a side needs X
    for the transport offset, through X otherwise. *)
Definition load_code (nt : Z) (ba : ByteAccess) (rhs : ByteLoad) (acs : list Insn) : list Insn :=
  let lhs_code := access_code nt (ba_layer ba) (ba_offset ba) (ba_size ba) true in
  if is_trans (ba_layer ba) || is_trans (bl_layer rhs) then
    lhs_code ++ acs ++ st 0 ::
    access_code nt (bl_layer rhs) (bl_offset rhs) (bl_size rhs)
      (negb (is_trans (ba_layer ba))) ++ [ldx_mem 0]
  else
    lhs_code ++ acs ++ tax :: access_code nt (bl_layer rhs) (bl_offset rhs) (bl_size rhs) false.

Lemma line_load_code s ba rhs acs m :
  ok s → wf_offset (ba_offset ba) → wf_offset (bl_offset rhs) →
  alu_code (ba_alu_ops ba) acs → zlen (r_scratch m) = SCRATCH →
  load_room (cg_link s) (cg_vlan_depth s) ba rhs → ba_rhs ba = Load_ rhs →
  line_ok pkt B (load_code (net s) ba rhs acs) m (λ m1,
    cmp_sem (ba_op ba) (r_x m1) (r_a m1) =
    byte_access_sem (cg_link s) pkt (cg_vlan_depth s) ba).
Proof.
  intros Hok Hlo Hro [_ _ _ _ Hline] Hm [Hr1 Hr2] Er. pose proof (net_range s Hok) as Hn.
  unfold byte_access_sem. rewrite Er. unfold load_code. case_match eqn:Ht.
  - apply line_access; [done|done|done|done|]. apply Hline, line_st0; [done|].
    apply line_access; [done|done|done| |].
    { intros _ Hlt%negb_false_iff. simpl. unfold access_x. by rewrite Hlt. }
    eapply line_ldx_mem0; [simpl; by apply zget_zset0|]. by apply line_nil.
  - apply orb_false_iff in Ht as [Ht1 Ht2].
    apply line_access; [done|done|done|done|]. apply Hline, line_tax.
    rewrite <- (app_nil_r (access_code _ (bl_layer rhs) _ _ _)).
    apply line_access; [done|done|done|by rewrite Ht2|]. apply line_nil. simpl.
    unfold access_x. by rewrite Ht2.
Qed.

Lemma load_code_props s ba rhs acs :
  ok s → wf_offset (ba_offset ba) → wf_offset (bl_offset rhs) →
  alu_code (ba_alu_ops ba) acs →
  let cs := load_code (net s) ba rhs acs in
  Forall good_insn cs ∧ forallb straight cs = true ∧
  forallb (λ i, negb (writes_x i)) cs = false ∧ zlen cs ≤ zlen (ba_alu_ops ba) + 6.
Proof.
  intros Hok Hlo Hro [Hlen Hg Hst _ _]. pose proof (net_range s Hok) as Hn.
  destruct (access_code_props (net s) (ba_layer ba) (ba_offset ba) (ba_size ba) true)
    as (G1 & S1 & L1 & _); [lia|done|].
  assert (P2 : ∀ msh, let c := access_code (net s) (bl_layer rhs) (bl_offset rhs)
    (bl_size rhs) msh in Forall good_insn c ∧ forallb straight c = true ∧ zlen c ≤ 2).
  { intros msh. by destruct (access_code_props (net s) (bl_layer rhs) (bl_offset rhs)
      (bl_size rhs) msh) as (? & ? & ? & _); [lia|done|]. }
  simpl. unfold load_code. destruct (is_trans (ba_layer ba) || is_trans (bl_layer rhs)).
  - destruct (P2 (negb (is_trans (ba_layer ba)))) as (G2 & S2 & L2).
    rewrite !Forall_app, !Forall_cons, !Forall_app, !forallb_app. simpl.
    rewrite !forallb_app, S1, S2, Hst. split_and!; try done.
    + solve_good.
    + simpl. by rewrite !andb_false_r.
    + rewrite !zlen_app, zlen_cons, zlen_app. change (zlen [_]) with 1. lia.
  - destruct (P2 false) as (G2 & S2 & L2).
    rewrite !Forall_app, !Forall_cons, !forallb_app. simpl.
    rewrite S1, S2, Hst. split_and!; try done.
    + apply good_tax.
    + by rewrite !andb_false_r.
    + rewrite !zlen_app, zlen_cons. lia.
Qed.

Lemma access_no_msh nt layer off sz b1 b2 :
  is_trans layer = false → access_code nt layer off sz b1 = access_code nt layer off sz b2.
Proof. by destruct layer. Qed.

Lemma wp_layer_bind {A} layer off sz s (k : CG A) (Q : A → Codegen → Prop) :
  ok s → 0 ≤ off < 2 ^ 31 → is_trans layer = false →
  wp k (pushed_all (access_code (net s) layer off sz false) s) Q →
  wp (o ← layer_offset layer off; load_sized o sz false;; k) s Q.
Proof.
  intros Hok Ho Ht HQ.
  assert (W : wp (o ← layer_offset layer off; load_sized o sz false) s (λ _ s', wp k s' Q))
    by (by apply wp_layer_load).
  unfold wp, mbind, M_bind in *. destruct (layer_offset layer off s) as [[o s']| | |]; done.
Qed.

(** The two loads, as the code writes them. *)
Lemma wp_first_side l o n s (Q : unit → Codegen → Prop) :
  ok s → wf_offset o →
  Q tt (pushed_all (access_code (net s) l o n true) s) →
  wp (if is_trans l then push (ldx_msh (net s));; off ← u32_add (net s) o; load_sized off n true
      else off ← layer_offset l o; load_sized off n false) s Q.
Proof. intros Hok Hlo HQ. pose proof (wp_side l o n true s Q Hok Hlo HQ). by destruct (is_trans l). Qed.

Lemma wp_second_side cs l o n b s (Q : unit → Codegen → Prop) :
  ok s → wf_offset o →
  Q tt (pushed_all (access_code (net s) l o n b) (pushed_all cs s)) →
  wp (if is_trans l then
        (if b then push (ldx_msh (net s));; mret tt else mret tt);;
        off ← u32_add (net s) o; load_sized off n true
      else off ← layer_offset l o; load_sized off n false) (pushed_all cs s) Q.
Proof.
  intros Hok Hlo HQ. rewrite <- (net_pushed cs s) in *.
  by apply (wp_side l o n b (pushed_all cs s) Q (pushed_all_ok cs s Hok) Hlo).
Qed.

Lemma emit_byte_access_load_spec ba rhs s :
  ok s → wf_byte_access ba → ba_rhs ba = Load_ rhs →
  wp (emit_byte_access_load ba rhs) s (λ q s', emitted (zlen (ba_alu_ops ba) + 7) s s' q
    (load_room (cg_link s) (cg_vlan_depth s) ba rhs)
    (byte_access_sem (cg_link s) pkt (cg_vlan_depth s) ba)).
Proof.
  intros Hok (Hlo & Hops & Hro) Er. rewrite Er in Hro.
  unfold emit_byte_access_load. rewrite (as_u32_offset _ Hlo), (as_u32_offset _ Hro).
  apply wp_bind, wp_net_offset; [apply Hok|]. cbv zeta. apply wp_bind.
  assert (F : ∀ acs, alu_code (ba_alu_ops ba) acs →
    wp (emit_cmp_x (ba_op ba)) (pushed_all (load_code (net s) ba rhs acs) s)
      (λ q s', emitted (zlen (ba_alu_ops ba) + 7) s s' q
        (load_room (cg_link s) (cg_vlan_depth s) ba rhs)
        (byte_access_sem (cg_link s) pkt (cg_vlan_depth s) ba))).
  { intros acs Ha. destruct (load_code_props s ba rhs acs Hok Hlo Hro Ha) as (G & S & X & L).
    eapply wp_mono; [apply (emit_cmp_x_spec (load_code (net s) ba rhs acs) (ba_op ba) s
      (load_room (cg_link s) (cg_vlan_depth s) ba rhs)
      (byte_access_sem (cg_link s) pkt (cg_vlan_depth s) ba)); [done|done|by right|]|].
    - intros Hr m Hm. by apply line_load_code.
    - intros q s' E. eapply emitted_mono; [exact E|lia|done|done]. }
  unfold load_code in F.
  destruct (is_trans (ba_layer ba) || is_trans (bl_layer rhs)) eqn:Ht.
  - apply wp_bind.
    apply wp_first_side; [done|done|]. set (c1 := access_code (net s) (ba_layer ba) _ _ _) in *.
    apply wp_bind, wp_alu_ops; [done|]. intros acs Ha. rewrite <- pushed_all_app.
    apply wp_bind, wp_push. apply wp_bind.
    set (c2 := c1 ++ acs ++ [st 0]).
    assert (E2 : pushed (st 0) (pushed_all (c1 ++ acs) s) = pushed_all c2 s).
    { unfold c2. rewrite app_assoc, (pushed_all_app (c1 ++ acs)). done. }
    rewrite E2. apply (wp_second_side c2); [done|done|].
    apply wp_bind, wp_push, wp_ret.
    specialize (F acs Ha).
    match goal with |- wp _ (pushed (ldx_mem 0) (pushed_all ?c (pushed_all c2 s))) _ =>
      replace (pushed (ldx_mem 0) (pushed_all c (pushed_all c2 s)))
        with (pushed_all (c2 ++ c ++ [ldx_mem 0]) s) by (by rewrite !pushed_all_app) end.
    unfold c2. rewrite <- !app_assoc. exact F.
  - apply orb_false_iff in Ht as [Ht1 Ht2].
    apply wp_layer_bind; [done|done|done|].
    rewrite <- (access_no_msh _ _ _ _ true false Ht1).
    set (c1 := access_code (net s) (ba_layer ba) (ba_offset ba) (ba_size ba) true) in *.
    apply wp_bind, wp_alu_ops; [done|]. intros acs Ha. rewrite <- pushed_all_app.
    apply wp_bind, wp_push. set (c2 := c1 ++ acs ++ [tax]).
    assert (pushed tax (pushed_all (c1 ++ acs) s) = pushed_all c2 s) as ->.
    { unfold c2. rewrite app_assoc, (pushed_all_app (c1 ++ acs)). done. }
    apply wp_layer_load; [by apply pushed_all_ok|done|done|].
    rewrite net_pushed, <- pushed_all_app. unfold c2. rewrite <- !app_assoc. by apply F.
Qed.
End bytes.

(** * All primitives *)

(** A bound on the instructions a primitive emits. *)
Definition prim_cost (p : Primitive) : Z :=
  match p with PByteAccess ba => 64 + zlen (ba_alu_ops ba) | _ => 64 end.

(** The primitives whose code means what they say behind [d] VLAN tags: no
    further VLAN check behind a tag, and no MPLS check with a label. *)
Definition prim_sound (d : Z) (p : Primitive) : bool :=
  match p with
  | PVlan _ => d =? 0
  | PEtherProto et => (d =? 0) || negb (et =? 0x8100)
  | PMpls (Some _) => false
  | _ => true
  end.

Lemma prim_cost_pos p : 0 < prim_cost p.
Proof. destruct p; simpl; try lia. pose proof (zlen_nonneg (ba_alu_ops ba)). lia. Qed.

Section primitives.
Context (pkt : list Z) (B : Z).
Hypothesis Hpkt : Forall is_u8 pkt.

Abbreviation emitted := (emitted pkt B).
Abbreviation net s := (net_at (cg_link s) (cg_vlan_depth s)).

Definition prim_pre (s : Codegen) (p : Primitive) : Prop :=
  prim_needs (cg_link s) pkt (cg_vlan_depth s) p ≤ B ∧ prim_sound (cg_vlan_depth s) p = true.

Lemma emit_proto_spec pr s :
  ok s → wf_proto pr →
  wp (emit_proto pr) s (λ q s', emitted 4 s s' q (proto_needs (cg_link s) pkt (cg_vlan_depth s) pr ≤ B)
    (proto_sem (cg_link s) pkt (cg_vlan_depth s) pr)).
Proof.
  intros Hok Hw.
  assert (He : ∀ et, is_u32 et → et ≠ 0x8100 → wp (emit_ethertype et) s (λ q s',
    emitted 4 s s' q (net s ≤ B) (ethertype_is (cg_link s) pkt (cg_vlan_depth s) et))).
  { intros et Het Hne. eapply wp_mono; [by apply emit_ethertype_plain|]. intros q s' E.
    eapply emitted_mono; [exact E|lia| |done]. intros ? _. split; [done|by right]. }
  assert (H4 : ∀ n, is_u8 n → wp (emit_ip4_l4 n) s (λ q s',
    emitted 4 s s' q (header_needs (cg_link s) (cg_vlan_depth s)
      (is_ip4 (cg_link s) pkt (cg_vlan_depth s)) 10 ≤ B) (ip4_l4_is (cg_link s) pkt (cg_vlan_depth s) n))).
  { intros n Hn. eapply wp_mono; [by apply emit_ip4_l4_spec|]. by intros q s' [E _]. }
  assert (H6 : ∀ n, is_u8 n → wp (emit_ip6_l4 n) s (λ q s',
    emitted 4 s s' q (header_needs (cg_link s) (cg_vlan_depth s)
      (is_ip6 (cg_link s) pkt (cg_vlan_depth s)) 7 ≤ B) (ip6_l4_is (cg_link s) pkt (cg_vlan_depth s) n))).
  { intros n Hn. eapply wp_mono; [by apply emit_ip6_l4_spec|]. by intros q s' [E _]. }
  destruct pr; simpl; first [by apply He|by apply H4|by apply H6].
Qed.

Lemma emit_byte_access_spec ba s :
  ok s → wf_byte_access ba →
  wp (emit_byte_access ba) s (λ q s', emitted (prim_cost (PByteAccess ba)) s s' q
    (prim_pre s (PByteAccess ba)) (byte_access_sem (cg_link s) pkt (cg_vlan_depth s) ba)).
Proof.
  intros Hok Hw. unfold emit_byte_access. pose proof Hw as (Ho & _ & Hr).
  destruct (ba_rhs ba) as [v|l] eqn:Er.
  - eapply wp_mono; [by apply emit_byte_access_const_spec|]. intros q s' E.
    eapply emitted_mono; [exact E|simpl; lia| |done]. intros [Hroom _] _.
    cbn [prim_needs] in Hroom. rewrite Er in Hroom. unfold access_room. lia.
  - eapply wp_mono; [by apply emit_byte_access_load_spec|]. intros q s' E.
    eapply emitted_mono; [exact E|simpl; lia| |done]. intros [Hroom _] _.
    cbn [prim_needs] in Hroom. rewrite Er in Hroom. unfold load_room, access_room. lia.
Qed.

(** Whatever primitive is emitted, its segment decides the primitive. *)
Lemma emit_primitive_spec p s :
  ok s → wf_primitive p →
  wp (emit_primitive p) s (λ q s', emitted (prim_cost p) s s' q (prim_pre s p)
    (prim_sem (cg_link s) pkt (cg_vlan_depth s) p)).
Proof.
  intros Hok Hw.
  assert (M : ∀ n (m : CG Patches) (H : Prop),
    wp m s (λ q s', emitted n s s' q H (prim_sem (cg_link s) pkt (cg_vlan_depth s) p)) →
    n ≤ prim_cost p → (prim_pre s p → H) →
    wp m s (λ q s', emitted (prim_cost p) s s' q (prim_pre s p)
      (prim_sem (cg_link s) pkt (cg_vlan_depth s) p))).
  { intros n m H W Hn HH. eapply wp_mono; [exact W|]. intros q s' E.
    eapply emitted_mono; [exact E|done|auto|done]. }
  destruct p as [[a|segs] dir|port dir proto|lo hi dir proto|n dir|n dir|pr|a dir|et| | | |
    |id|label| |id|n|n|op v| | |ba]; simpl in Hw; cbn [emit_primitive emit_host];
    try match type of Hw with _ ∧ _ => destruct Hw end.
  - by eapply M; [apply emit_host4_spec|simpl; lia|intros [? _]].
  - by eapply M; [apply emit_host6_spec|simpl; lia|intros [? _]].
  - by eapply M; [apply emit_port_spec|simpl; lia|intros [? _]].
  - by eapply M; [apply emit_portrange_spec|simpl; lia|intros [? _]].
  - by eapply M; [apply emit_net_spec|simpl; lia|intros [? _]].
  - by eapply M; [apply emit_net6_spec|simpl; lia|intros [? _]].
  - by eapply M; [apply emit_proto_spec|simpl; lia|intros [? _]].
  - by eapply M; [apply emit_ether_host_spec|simpl; lia|intros [? _]].
  - eapply M; [apply (emit_ethertype_plain pkt B et); [done|ulia]|simpl; lia|].
    intros [? Hs]. split; [done|]. simpl in Hs. unfold eth_ok. lia.
  - by eapply M; [apply emit_ether_multicast_spec|simpl; lia|intros [? _]].
  - by eapply M; [apply emit_ip_broadcast_spec|simpl; lia|intros [? _]].
  - by eapply M; [apply emit_ip_multicast_spec|simpl; lia|intros [? _]].
  - by eapply M; [apply emit_ip6_multicast_spec|simpl; lia|intros [? _]].
  - eapply M; [by apply emit_vlan_spec|simpl; lia|]. intros [? Hs]. simpl in Hs.
    split; [done|lia].
  - eapply M; [by apply emit_mpls_spec|simpl; lia|]. intros [? Hs]. simpl in Hs.
    split; [done|]. by destruct label.
  - eapply M; [by apply (emit_ethertype_plain pkt B 0x8863)|simpl; lia|].
    intros [? _]. split; [done|by right].
  - by eapply M; [apply emit_pppoe_session_spec|simpl; lia|intros [? _]].
  - eapply M; [eapply wp_mono; [by apply emit_ip4_l4_spec|by intros q s' [E _]; exact E]
      |simpl; lia|by intros [? _]].
  - eapply M; [eapply wp_mono; [by apply emit_ip6_l4_spec|by intros q s' [E _]; exact E]
      |simpl; lia|by intros [? _]].
  - by eapply M; [apply emit_len_spec|simpl; lia|intros [? _]].
  - apply wp_fail.
  - apply wp_fail.
  - by apply emit_byte_access_spec.
Qed.
End primitives.
