(* ===== verification/CompileCorrect.v ===== *)
(** The emission of whole expressions, and the compiler's correctness. *)

From S2P Require Export OptimizerCorrect Compile EmitBytes.

(** * Expressions the compiler gets right

    Two known defects are left out: an OR may hoist a guard of a VLAN-tagged
    layer to the outer one, and a VLAN check behind a VLAN tag is elided. *)

Fixpoint prims_sound (d : Z) (e : Expr) : bool :=
  match e with
  | Prim p => prim_sound d p
  | Not x => prims_sound d x
  | And l r | Or l r => prims_sound d l && prims_sound d r
  end.

(** An expression of one layer: no AND chain in it begins with a VLAN check. *)
Definition flat (d : Z) (e : Expr) : bool := no_vlan_lead e && prims_sound d e.

(** An AND chain that begins with a VLAN check; the rest is about the layer
    behind the tag. *)
Fixpoint vlan_chain (e : Expr) : bool :=
  match e with
  | Prim (PVlan _) => true
  | And l r => vlan_chain l && flat 1 r
  | _ => false
  end.

Fixpoint supported (e : Expr) : bool :=
  flat 0 e || vlan_chain e || match e with Not x => supported x | _ => false end.

(** A bound on the instructions emitted. *)
Fixpoint cost (e : Expr) : Z :=
  match e with
  | Prim p => prim_cost p
  | Not x => cost x + 1
  | And l r => cost l + cost r
  | Or l r => 28 + cost l + cost r
  end.

Lemma cost_pos e : 0 < cost e.
Proof. induction e; simpl; try lia. apply prim_cost_pos. Qed.

(** * The guards of well-formed expressions *)

Definition guards_wf (g : GuardSet) : Prop :=
  wf_option is_u16 (g_ethertype g) ∧ wf_option is_u8 (g_ip4_proto g) ∧
  wf_option is_u8 (g_ip6_nh g) ∧
  match g_port_prereqs g with Some w => l4_wf w | None => True end.

Lemma guards_wf_union g h : guards_wf g → guards_wf h → guards_wf (guards_union g h).
Proof.
  destruct g as [[] [] [] []], h as [[] [] [] []]; unfold guards_wf; simpl; tauto.
Qed.

Lemma both_cases {A} `{EqDecision A} (x y : option A) : both x y = x ∨ both x y = None.
Proof. destruct x, y; simpl; auto. case_decide; auto. Qed.

Lemma guards_wf_intersect g h : guards_wf g → guards_wf (guards_intersect g h).
Proof.
  intros (? & ? & ? & ?). unfold guards_wf, guards_intersect; simpl.
  destruct (both_cases (g_ethertype g) (g_ethertype h)) as [-> | ->],
    (both_cases (g_ip4_proto g) (g_ip4_proto h)) as [-> | ->],
    (both_cases (g_ip6_nh g) (g_ip6_nh h)) as [-> | ->],
    (both_cases (g_port_prereqs g) (g_port_prereqs h)) as [-> | ->]; done.
Qed.

Lemma guards_of_wf e : wf_expr e → guards_wf (guards_of e).
Proof.
  induction e as [l IHl r IHr|l IHl r IHr|x IHx|p]; simpl.
  - intros [? ?]. auto using guards_wf_union.
  - intros [? ?]. auto using guards_wf_intersect.
  - done.
  - unfold guards_wf. destruct p; try done;
      try (match goal with x : IpAddr |- _ => destruct x | x : Proto |- _ => destruct x
           | x : option Proto |- _ => destruct x as [[]|] end; done).
Qed.

(** A flat expression behind a tag requires no VLAN ethertype. *)
Lemma guards_of_tag d e :
  d ≠ 0 → prims_sound d e = true → g_ethertype (guards_of e) ≠ Some 0x8100.
Proof.
  intros Hd. induction e as [l IHl r IHr|l IHl r IHr|x IHx|p]; simpl; intros Hs.
  - apply andb_true_iff in Hs as [? ?]. destruct (g_ethertype (guards_of l)); simpl; auto.
  - apply andb_true_iff in Hs as [? ?].
    destruct (both_cases (g_ethertype (guards_of l)) (g_ethertype (guards_of r))) as [-> | ->]; auto.
  - done.
  - destruct p; simpl in *; try done;
      try (match goal with x : IpAddr |- _ => destruct x | x : Proto |- _ => destruct x end; done).
    + injection 1 as ->. lia.
    + lia.
Qed.


Lemma set_depth_id s : set_depth (cg_vlan_depth s) s = s.
Proof. by destruct s. Qed.

Lemma wp_vlan_enter (b : bool) s (Q : unit → Codegen → Prop) :
  cg_vlan_depth s < 2 ^ 28 →
  Q tt (set_depth (if b then cg_vlan_depth s + 1 else cg_vlan_depth s) s) →
  wp (vlan_enter b) s Q.
Proof.
  intros Hd HQ. unfold vlan_enter. destruct b.
  - apply wp_bind, wp_gets, wp_bind, wp_u32_add; [lia|]. by apply wp_modify.
  - apply wp_ret. by rewrite set_depth_id in HQ.
Qed.

Lemma wp_vlan_leave (b : bool) d s (Q : unit → Codegen → Prop) :
  0 ≤ d → cg_vlan_depth s = (if b then d + 1 else d) →
  Q tt (set_depth d s) → wp (vlan_leave b) s Q.
Proof.
  intros Hd0 Hd HQ. unfold vlan_leave. destruct b.
  - apply wp_bind, wp_gets. rewrite (proj2 (Z.ltb_lt _ _)) by lia. apply wp_modify.
    rewrite Hd. by replace (d + 1 - 1) with d by lia.
  - apply wp_ret. rewrite <- Hd, set_depth_id in HQ. done.
Qed.

Section compile.
Context (pkt : list Z) (B : Z).
Hypothesis Hpkt : Forall is_u8 pkt.

Abbreviation emits := (emits pkt B).
Abbreviation emitted := (emitted pkt B).
Abbreviation ft := (ft pkt).
Abbreviation ready := (ready pkt).
Abbreviation net s := (net_at (cg_link s) (cg_vlan_depth s)).
Abbreviation sem_at s := (sem (cg_link s) pkt (cg_vlan_depth s)).

(** * Guards in front of an OR *)

(** What the guards emitted in front of an OR check: on RawIp no ethertype. *)
Definition hoisted_sem (s : Codegen) (g : GuardSet) : bool :=
  (match link_ether_proto_offset (cg_link s) with
   | Some _ => holds (ethertype_is (cg_link s) pkt (cg_vlan_depth s)) (g_ethertype g)
   | None => true
   end)
  && (holds (ip4_l4_is (cg_link s) pkt (cg_vlan_depth s)) (g_ip4_proto g)
  && (holds (ip6_l4_is (cg_link s) pkt (cg_vlan_depth s)) (g_ip6_nh g)
  && holds (has_ports (cg_link s) pkt (cg_vlan_depth s)) (g_port_prereqs g))).

Lemma hoisted_sem_holds s g :
  guards_hold (cg_link s) pkt (cg_vlan_depth s) g = true → hoisted_sem s g = true.
Proof.
  unfold hoisted_sem. intros (-> & -> & -> & ->)%guards_hold_spec. by case_match.
Qed.

Lemma hoist_spec {A} (o : option A) emit test n s (H : Prop) :
  0 ≤ n →
  (∀ a, o = Some a → wp (emit a) s (λ q s', emitted n s s' q H (test a) ∧ success q = [])) →
  wp (hoist o emit) s (λ l s', emitted n s s' (fails l) H (holds test o)).
Proof.
  intros Hn He. destruct o as [a|]; simpl.
  - apply wp_bind. eapply wp_mono; [by apply He|]. intros q s' [E Hq]. apply wp_ret.
    destruct q as [sl fl]. simpl in Hq. by subst sl.
  - apply wp_ret. eapply emitted_mono; [apply (emitted_skip pkt B s H true)|..]; done.
Qed.

Lemma hoisted_sem_env s s1 g :
  cg_link s1 = cg_link s → cg_vlan_depth s1 = cg_vlan_depth s →
  hoisted_sem s1 g = hoisted_sem s g.
Proof. unfold hoisted_sem. by intros -> ->. Qed.

Lemma emitted_pre n s s' q (H H' : Prop) b :
  emitted n s s' q H b → (H' → H) → emitted n s s' q H' b.
Proof. intros E HH. eapply emitted_mono; [exact E|done|auto|done]. Qed.

Lemma emit_hoisted_spec g s :
  ok s → guards_wf g →
  wp (emit_hoisted g) s (λ l s',
    emitted 27 s s' (fails l)
      (guards_needs (cg_link s) pkt (cg_vlan_depth s) g ≤ B ∧
       (cg_vlan_depth s = 0 ∨ g_ethertype g ≠ Some 0x8100)) (hoisted_sem s g)).
Proof.
  intros Hok (W1 & W2 & W3 & W4). unfold emit_hoisted. apply wp_bind, wp_gets.
  set (H := guards_needs (cg_link s) pkt (cg_vlan_depth s) g ≤ B ∧
    (cg_vlan_depth s = 0 ∨ g_ethertype g ≠ Some 0x8100)).
  unfold guards_needs in H.
  set (H4 := asked (g_ip4_proto g) (header_needs (cg_link s) (cg_vlan_depth s)
    (is_ip4 (cg_link s) pkt (cg_vlan_depth s)) 10) ≤ B).
  set (H6 := asked (g_ip6_nh g) (header_needs (cg_link s) (cg_vlan_depth s)
    (is_ip6 (cg_link s) pkt (cg_vlan_depth s)) 7) ≤ B).
  set (HP := asked (g_port_prereqs g) (protocol_needs (cg_link s) pkt (cg_vlan_depth s)) ≤ B).
  set (o := match link_ether_proto_offset (cg_link s) with
            | Some _ => g_ethertype g | None => None end).
  apply wp_bind. eapply wp_mono.
  { apply (hoist_spec o emit_ethertype (ethertype_is (cg_link s) pkt (cg_vlan_depth s)) 2 s H);
      [lia|].
    intros et Ho. assert (Hg : g_ethertype g = Some et)
      by (unfold o in Ho; by destruct (link_ether_proto_offset (cg_link s))).
    eapply wp_mono; [apply (emit_ethertype_spec pkt B); [done|rewrite Hg in W1; simpl in W1; ulia]|].
    intros q s' (E & Hq & _). split; [|done]. eapply emitted_mono; [exact E|lia| |done].
    intros [Hr Hne] _. rewrite Hg in Hr. simpl asked in Hr. split; [lia|]. unfold eth_ok. destruct Hne as [?|Hne]; [by left|right].
    congruence. }
  intros l1 s1 E1. pose proof (emitted_env _ _ _ _ _ _ _ _ E1) as [L1 D1].
  pose proof (emitted_ok _ _ _ _ _ _ _ _ E1 Hok) as Hok1.
  apply wp_bind. eapply wp_mono.
  { apply (hoist_spec (g_ip4_proto g) emit_ip4_l4 (ip4_l4_is (cg_link s1) pkt (cg_vlan_depth s1))
      4 s1 H4); [lia|]. intros n Hn. unfold H4. rewrite Hn in *. rewrite <- L1, <- D1.
    by apply emit_ip4_l4_spec. }
  intros l2 s2 E2. pose proof (emitted_env _ _ _ _ _ _ _ _ E2) as [L2 D2].
  pose proof (emitted_ok _ _ _ _ _ _ _ _ E2 Hok1) as Hok2.
  apply wp_bind. eapply wp_mono.
  { apply (hoist_spec (g_ip6_nh g) emit_ip6_l4 (ip6_l4_is (cg_link s2) pkt (cg_vlan_depth s2))
      4 s2 H6); [lia|]. intros n Hn. unfold H6. rewrite Hn in *. rewrite <- L1, <- D1, <- L2, <- D2.
    by apply emit_ip6_l4_spec. }
  intros l3 s3 E3. pose proof (emitted_env _ _ _ _ _ _ _ _ E3) as [L3 D3].
  pose proof (emitted_ok _ _ _ _ _ _ _ _ E3 Hok2) as Hok3.
  apply wp_bind. eapply wp_mono.
  { apply (hoist_spec (g_port_prereqs g) emit_port_prereqs_set
      (has_ports (cg_link s3) pkt (cg_vlan_depth s3)) 17 s3 HP); [lia|].
    intros w Hw. unfold HP. rewrite Hw in *. rewrite <- L1, <- D1, <- L2, <- D2, <- L3, <- D3.
    eapply wp_mono; [by apply emit_port_prereqs_set_spec|]. intros q s' (E & Hq & _). done. }
  intros l4 s4 E4. apply wp_ret.
  rewrite L3, L2, L1, D3, D2, D1 in E4. rewrite L2, L1, D2, D1 in E3. rewrite L1, D1 in E2.
  assert (HK : H → H4 ∧ H6 ∧ HP) by (unfold H, H4, H6, HP; intros [? _]; lia).
  cbn beta in E1, E2, E3, E4.
  pose proof (emitted_seq pkt B _ _ _ _ _ _ _ (H6 ∧ HP) HP _ _
    (emitted_pre _ _ _ _ H6 _ _ E3 (@proj1 H6 HP)) eq_refl E4
    (λ Hh _ _, proj2 Hh)) as E34.
  pose proof (emitted_seq pkt B _ _ _ _ _ _ _ (H4 ∧ H6 ∧ HP) (H6 ∧ HP) _ _
    (emitted_pre _ _ _ _ H4 _ _ E2 (@proj1 H4 (H6 ∧ HP))) eq_refl E34
    (λ Hh _ _, proj2 Hh)) as E234.
  pose proof (emitted_seq pkt B _ _ _ _ _ _ _ H (H4 ∧ H6 ∧ HP) _ _ E1 eq_refl E234
    (λ Hh _ _, HK Hh)) as E1234.
  eapply emitted_mono; [exact E1234|lia|done|]. intros _ _. unfold hoisted_sem, o.
  by destruct (link_ether_proto_offset (cg_link s)).
Qed.

(** * Operators *)

(** The state after slots have been resolved. *)
Definition resolved (s : Codegen) (code : list Insn) (l : list Patch) (t : Z) (s' : Codegen) :
    Prop :=
  cg_insns s' = patch_code (to_all l t) 0 code ∧ (∀ q, q ∈ l → t - patch_idx q - 1 ≤ 255) ∧
  cg_link s' = cg_link s ∧ cg_x_writes s' = cg_x_writes s.

Lemma wp_resolve_slots lo q l t s (Q : unit → Codegen → Prop) :
  within lo (zlen (cg_insns s)) q → 0 ≤ lo → zlen (cg_insns s) ≤ t →
  (∀ p, p ∈ l → p ∈ success q ∨ p ∈ failure q) →
  (∀ s', resolved s (cg_insns s) l t s' → cg_facts s' = cg_facts s →
    cg_vlan_depth s' = cg_vlan_depth s → Q tt s') →
  wp (resolve_all l t) s Q.
Proof.
  intros Hin Hlo Ht Hl HQ. eapply wp_mono.
  - apply wp_resolve_all. intros p Hp. apply Hl, Hin in Hp. split; lia.
  - intros [] s' [-> H255]. by apply HQ.
Qed.

Lemma wp_and_right n (q : Patches) (b : bool) s s1 (Q : unit → Codegen → Prop) :
  grows n s s1 q → cg_vlan_depth s1 < 2 ^ 28 →
  (∀ s1', resolved s1 (cg_insns s1) (success q) (zlen (cg_insns s1)) s1' →
    cg_facts s1' = cg_facts s1 →
    cg_vlan_depth s1' = (if b then cg_vlan_depth s1 + 1 else cg_vlan_depth s1) → Q tt s1') →
  wp (and_right q b) s1 Q.
Proof.
  intros G Hd HQ. apply wp_bind, wp_here, wp_bind.
  apply (wp_resolve_slots (zlen (cg_insns s)) q);
    [apply G|apply zlen_nonneg|lia|auto|].
  intros s' Hr Hf Hd'. apply wp_vlan_enter; [lia|]. rewrite Hd'.
  apply HQ; [|done|done]. by destruct Hr as (? & ? & ? & ?).
Qed.

Lemma wp_and_done lf (b : bool) q d s (Q : Patches * bool → Codegen → Prop) :
  0 ≤ d → cg_vlan_depth s = (if b then d + 1 else d) →
  Q (mk_patches (success q) (Codegen.concat lf (failure q)), b) (set_depth d s) →
  wp (and_done lf b q) s Q.
Proof. intros Hd0 Hd HQ. apply wp_bind, (wp_vlan_leave b d); [done|done|]. by apply wp_ret. Qed.

(** [restore_facts]: X may have been written since [s]. *)
Definition restored (s s1 : Codegen) : Facts :=
  if cg_x_writes s1 =? cg_x_writes s then cg_facts s else set_ports_ready None (cg_facts s).

Lemma restored_true link d s s1 :
  facts_true link pkt d (cg_facts s) → facts_true link pkt d (restored s s1).
Proof. unfold restored. intros Hf. case_match; [done|]. by destruct Hf. Qed.

Lemma restored_ready link d s s1 x x' :
  ports_ready link pkt d (cg_facts s) x →
  (cg_x_writes s1 = cg_x_writes s → x' = x) → ports_ready link pkt d (restored s s1) x'.
Proof.
  unfold restored, ports_ready. intros Hr Hx. destruct (Z.eqb_spec (cg_x_writes s1) (cg_x_writes s));
    [|done]. by rewrite Hx.
Qed.

Lemma restored_rawip s s1 : f_ethertype (restored s s1) = f_ethertype (cg_facts s).
Proof. unfold restored. by case_match. Qed.

Lemma wp_or_right n q s s1 (Q : Z * Facts → Codegen → Prop) :
  grows n s s1 q →
  (∀ s1', resolved s1 (cg_insns s1 ++ [ja 0]) (failure q) (zlen (cg_insns s1) + 1) s1' →
    cg_facts s1' = restored s s1 → cg_vlan_depth s1' = cg_vlan_depth s1 →
    Q (zlen (cg_insns s1), cg_facts s1) s1') →
  wp (or_right q (cg_facts s) (cg_x_writes s)) s1 Q.
Proof.
  intros G HQ. pose proof (zlen_nonneg (cg_insns s)). unfold or_right, restore_facts.
  apply wp_bind, wp_gets, wp_bind, wp_bind, wp_gets, wp_put_facts, wp_bind, wp_push,
    wp_bind, wp_here, wp_bind.
  cbn [cg_insns pushed set_facts]. rewrite zlen_app. change (zlen [ja 0]) with 1.
  apply (wp_resolve_slots (zlen (cg_insns s)) q); [|done|..].
  - destruct G as [_ _ _ _ _ Hin _]. intros p Hp. simpl. rewrite zlen_app.
    specialize (Hin p Hp). change (zlen [ja 0]) with 1. lia.
  - simpl. rewrite zlen_app. change (zlen [ja 0]) with 1. lia.
  - auto.
  - intros s' Hr Hf Hd. apply wp_ret. by apply HQ.
Qed.

Lemma wp_not_done n q s s1 (Q : Patches * bool → Codegen → Prop) :
  grows n s s1 q →
  (∀ s1', resolved s1 (cg_insns s1 ++ [ja 0]) (failure q) (zlen (cg_insns s1) + 1) s1' →
    cg_facts s1' = restored s s1 → cg_vlan_depth s1' = cg_vlan_depth s1 →
    Q (mk_patches [] (success q ++ [Ja (zlen (cg_insns s1))]), false) s1') →
  wp (not_done (cg_facts s) (cg_x_writes s) q) s1 Q.
Proof.
  intros G HQ.
  assert (W : wp (or_right q (cg_facts s) (cg_x_writes s)) s1 (λ r s',
    Q (mk_patches [] (success q ++ [Ja r.1]), false) s')).
  { apply (wp_or_right n); [done|]. intros s1' Hr Hf Hd. by apply HQ. }
  unfold or_right, not_done, restore_facts, wp, mbind, M_bind in *. simpl in *.
  destruct (resolve_all _ _ _) as [[[] s']| | |]; done.
Qed.

(** * Expressions of one layer *)

Definition expr_pre (s : Codegen) (e : Expr) : Prop :=
  needs (cg_link s) pkt (cg_vlan_depth s) e ≤ B ∧ flat (cg_vlan_depth s) e = true.

(** The code of [e] decides [e]; the depth cannot overflow. *)
Definition expr_ok (e : Expr) : Prop :=
  ∀ s, ok s → wf_expr e → cg_vlan_depth s + Z.of_nat (size e) < 2 ^ 28 →
    wp (emit_rec e) s (λ r s',
      emitted (cost e) s s' r.1 (expr_pre s e) (sem_at s e) ∧ r.2 = leads_with_vlan e).

Lemma expr_ok_prim p : expr_ok (Prim p).
Proof.
  intros s Hok Hw _. simpl. apply wp_bind.
  eapply wp_mono; [by apply (emit_primitive_spec pkt B Hpkt)|].
  intros q s' E. apply wp_ret. split; [|by destruct p].
  eapply emitted_mono; [exact E|simpl; lia| |done].
  intros [Hl Hs] _. split; [done|]. unfold flat in Hs. by apply andb_true_iff in Hs as [_ Hs].
Qed.

Lemma expr_ok_not x : expr_ok x → expr_ok (Not x).
Proof.
  intros IH s Hok Hw Hd. simpl in *.
  do 2 apply wp_bind, wp_gets. apply wp_bind.
  eapply wp_mono; [apply IH; [done|done|lia]|]. intros [q b] s1 [E1 _]. simpl in E1.
  pose proof (emitted_grows _ _ _ _ _ _ _ _ E1) as G1.
  pose proof (emitted_env _ _ _ _ _ _ _ _ E1) as [Hl1 Hd1].
  apply (wp_not_done (cost x) q s s1); [done|].
  intros s2 (Hi & H255 & Hl2 & Hx2) Hf2 Hd2. split; [|done]. simpl. destruct E1 as [E1 F1]. split.
  - eapply emits_not; [exact Hi|exact H255|done|done|done| |exact E1|].
    + unfold rawip_ok. by rewrite Hl2, Hl1, Hf2, restored_rawip.
    + intros _ _ a z a' z' Hz Hx. unfold EmitPrims.ready in *.
      rewrite Hl2, Hl1, Hd2, Hd1, Hf2. by apply restored_ready with z.
  - intros _ Hf _. unfold EmitPrims.ft in *. rewrite Hl2, Hl1, Hd2, Hd1, Hf2.
    by apply restored_true.
Qed.

(** Left and right of an AND; [mid] holds between them. *)
Lemma and_emits n1 n2 s s1 s1' s2 q1 q2 (H H2 : Prop) (pre : Z → Z → Prop) b1 mid b2 post d :
  emits n1 s s1 q1 H pre b1 mid →
  resolved s1 (cg_insns s1) (success q1) (zlen (cg_insns s1)) s1' →
  cg_facts s1' = cg_facts s1 → d = cg_vlan_depth s →
  emits n2 s1' s2 q2 H2 (λ a x, mid a x) b2 post →
  (H → b1 = true → H2) →
  emits (n1 + n2) s (set_depth d s2)
    (mk_patches (success q2) (Codegen.concat (failure q1) (failure q2))) H pre (b1 && b2) post.
Proof.
  intros E1 (Hi & H255 & Hl & Hx) Hf -> [G2 S2] HH.
  apply (emits_patches pkt B _ s _ (mk_patches (success q2) (failure q1 ++ failure q2)));
    [done|intros p; symmetry; apply elem_of_concat|].
  eapply (emits_and pkt B n1 n2 s s1 s1'); [exact Hi|done|done|done| |done|exact E1| |].
  - unfold rawip_ok. by rewrite Hl, Hf.
  - destruct G2 as [? ? Hd2 ? ? ? ?].
    assert (set_depth (cg_vlan_depth s1') (set_depth (cg_vlan_depth s) s2) = s2) as ->
      by (rewrite <- Hd2; by destruct s2). done.
  - intros Hh Hb c Hc. apply S2; auto.
Qed.

Lemma flat_and d l r :
  flat d (And l r) = true →
  leads_with_vlan l = false ∧ flat d l = true ∧ flat d r = true.
Proof.
  unfold flat. simpl. intros H. rewrite !andb_true_iff, negb_true_iff in *. tauto.
Qed.

Lemma flat_or d l r : flat d (Or l r) = true → flat d l = true ∧ flat d r = true.
Proof. unfold flat. simpl. rewrite !andb_true_iff. tauto. Qed.

Lemma expr_ok_and l r : expr_ok l → expr_ok r → expr_ok (And l r).
Proof.
  intros IHl IHr s Hok [Hwl Hwr] Hd. simpl in *. pose proof (size_pos l).
  apply wp_bind. eapply wp_mono; [apply IHl; [done|done|lia]|].
  intros [q1 b] s1 [E1 Hb]. simpl in E1, Hb. subst b.
  pose proof (emitted_grows _ _ _ _ _ _ _ _ E1) as G1.
  pose proof (emitted_env _ _ _ _ _ _ _ _ E1) as [Hl1 Hd1].
  pose proof (emitted_ok _ _ _ _ _ _ _ _ E1 Hok) as [Hok1 Hraw1].
  apply wp_bind, (wp_and_right (cost l) q1 _ s s1); [done|lia|].
  intros s1' Hr Hf1 Hd1'. pose proof Hr as (_ & _ & Hl1' & Hx1').
  set (d' := if leads_with_vlan l then cg_vlan_depth s1 + 1 else cg_vlan_depth s1) in *.
  assert (Hd' : 0 ≤ d' ≤ cg_vlan_depth s + 1)
    by (unfold d', depth_ok in *; case_match; lia).
  apply wp_bind. eapply wp_mono; [apply IHr; [|done|lia]|].
  { split; [unfold depth_ok in *; lia|]. unfold rawip_ok. by rewrite Hl1', Hf1. }
  intros [q2 b2] s2 [E2 _]. simpl in E2.
  pose proof (emitted_env _ _ _ _ _ _ _ _ E2) as [Hl2 Hd2].
  apply (wp_and_done _ _ _ (cg_vlan_depth s)); [unfold depth_ok in *; lia|by rewrite Hd2, Hd1', <- Hd1|].
  split; [|done]. simpl. destruct E1 as [E1 F1], E2 as [E2 F2].
  assert (K : expr_pre s (And l r) →
    cg_vlan_depth s1' = cg_vlan_depth s1 ∧ set_depth (cg_vlan_depth s) s2 = s2 ∧
    leads_with_vlan l = false ∧ expr_pre s l ∧ (sem_at s l = true → expr_pre s1' r)).
  { intros [Hlk (Hn & Hfl & Hfr)%flat_and]. simpl in Hlk. unfold expr_pre.
    unfold d' in Hd1'. rewrite Hn in Hd1'. rewrite Hl1', Hl1, Hd1', Hd1.
    rewrite Hn in Hlk. split_and!; try done.
    - assert (cg_vlan_depth s2 = cg_vlan_depth s) as <- by lia. apply set_depth_id.
    - case_match; lia.
    - intros Hb. rewrite Hb in Hlk. split; [lia|done]. }
  assert (F : expr_pre s (And l r) → ft s → sem_at s l = true → ft s1').
  { intros Hp Hf Hb. destruct (K Hp) as (Hds & _ & _ & Hpl & _). specialize (F1 Hpl Hf Hb).
    unfold EmitPrims.ft in *. by rewrite Hl1', Hds, Hf1. }
  split.
  - eapply emits_weaken; [eapply (and_emits (cost l) (cost r) s s1 s1' s2 q1 q2
      (expr_pre s (And l r) ∧ ft s) (expr_pre s (And l r) ∧ sem_at s l = true ∧ ft s1') (λ _ x, ready s x)
      (sem_at s l) (λ _ x, ready s1' x) (sem_at s1' r)
      (λ _ x, ready (set_depth (cg_vlan_depth s) s2) x)); [|exact Hr|done|done| |]|..]; try done.
    + eapply emits_weaken; [exact E1|done| |done|done|].
      * intros [Hp ?]. by apply K in Hp as (_ & _ & _ & ? & _).
      * intros [Hp _] _ a x. apply K in Hp as (Hds & _). unfold EmitPrims.ready.
        by rewrite Hl1', Hf1, Hds.
    + eapply emits_weaken; [exact E2|done| |done|done|].
      * intros (Hp & ? & ?). apply K in Hp as (_ & _ & _ & _ & ?). auto.
      * intros [Hp _] _ a x. by apply K in Hp as (_ & -> & _).
    + intros [Hp Hf] Hb. auto.
    + intros [Hp _]. destruct (K Hp) as (Hds & _ & Hn & _). simpl.
      by rewrite Hn, Hl1', Hl1, Hds, Hd1.
  - intros Hp Hf [Hb1 Hb2]%andb_true_iff. specialize (F Hp Hf Hb1).
    destruct (K Hp) as (Hds & Hset & Hn & _ & Hpr). rewrite Hset.
    apply F2; [auto|done|]. rewrite Hn in Hb2. by rewrite Hl1', Hl1, Hds, Hd1.
Qed.

(** The meet of the facts of two branches is true when either's facts are. *)
Lemma l4_join_subset x y z :
  l4_join x y = Some z → subset_of x z = true ∧ subset_of y z = true.
Proof.
  unfold l4_join. case_decide as Heq; [|case_match eqn:Hs; [|done]]; intros [= <-].
  - subst y. split; destruct x; simpl; rewrite ?Z.eqb_refl; done.
  - by apply andb_true_iff in Hs.
Qed.

Lemma facts_meet_true link d f g :
  facts_true link pkt d f ∨ facts_true link pkt d g → facts_true link pkt d (facts_meet f g).
Proof.
  assert (Hb : ∀ x y (v : Z), both x y = Some v → x = Some v ∧ y = Some v).
  { intros [x|] [y|] v; simpl; try done. case_decide; naive_solver. }
  intros Hfg. constructor; simpl.
  - intros et [? ?]%Hb. destruct Hfg as [[Ht _ _ _]|[Ht _ _ _]]; auto.
  - intros n [? ?]%Hb. destruct Hfg as [[_ Ht _ _]|[_ Ht _ _]]; auto.
  - intros n [? ?]%Hb. destruct Hfg as [[_ _ Ht _]|[_ _ Ht _]]; auto.
  - intros w. destruct (f_ports_ready f) as [x|] eqn:Ef, (f_ports_ready g) as [y|] eqn:Eg;
      try done. intros [Hx Hy]%l4_join_subset.
    destruct Hfg as [[_ _ _ Ht]|[_ _ _ Ht]];
      [apply (has_ports_mono pkt link d x w)|apply (has_ports_mono pkt link d y w)]; auto.
Qed.

Lemma facts_meet_ready link d f g x :
  ports_ready link pkt d f x ∨ ports_ready link pkt d g x →
  ports_ready link pkt d (facts_meet f g) x.
Proof.
  unfold ports_ready. simpl.
  destruct (f_ports_ready f), (f_ports_ready g); try done. naive_solver.
Qed.

(** The code behind the hoisted guards. *)
Lemma or_emits n1 n2 s s1 s1' s2 q1 q2 (H H1 H2 : Prop) b1 b2 f :
  emits n1 s s1 q1 H1 (λ _ x, ready s x) b1 (λ _ x, ready s1 x) →
  resolved s1 (cg_insns s1 ++ [ja 0]) (failure q1) (zlen (cg_insns s1) + 1) s1' →
  cg_facts s1' = restored s s1 → cg_vlan_depth s1' = cg_vlan_depth s1 →
  emits n2 s1' s2 q2 H2 (λ _ x, ready s1' x) b2 (λ _ x, ready s2 x) →
  f = facts_meet (cg_facts s1) (cg_facts s2) → rawip_ok s → (H → H1) → (H → b1 = false → H2) →
  emits (n1 + 1 + n2) s (set_facts f s2)
    (mk_patches (success q1 ++ [Ja (zlen (cg_insns s1))] ++ success q2) (failure q2)) H
    (λ _ x, ready s x) (b1 || b2) (λ _ x, ready (set_facts f s2) x).
Proof.
  intros E1 (Hi & H255 & Hl & Hx) Hf Hd E2 -> Hraw HH1 HH2.
  pose proof (proj1 E1) as [_ Hl1 Hd1 _ Hr1 _ _]. pose proof (proj1 E2) as [_ Hl2 Hd2 _ Hr2 _ _].
  assert (Hr1' : rawip_ok s1').
  { unfold rawip_ok in *. rewrite Hl, Hl1, Hf, restored_rawip. done. }
  apply emits_set_facts.
  { intros _. specialize (Hr1 Hraw). specialize (Hr2 Hr1'). unfold rawip_ok in *. simpl.
    rewrite Hl2, Hl, Hl1 in *. intros Hlk. by rewrite Hr1, Hr2. }
  eapply (emits_or pkt B n1 n2 s s1 s1' s2 q1 q2 H _ b1 b2 _ (λ _ x, ready s1' x));
    [exact Hi|done|done|done|done|done| |apply E2| |].
  - eapply emits_weaken; [exact E1|done|done|done|done|].
    intros _ _ a x Hx'. unfold EmitPrims.ready in *. simpl.
    rewrite Hl2, Hl, Hd2, Hd. apply facts_meet_ready. by left.
  - intros _ _ a x a' x' Hx1 Hx2. unfold EmitPrims.ready in *.
    rewrite Hl, Hl1, Hd, Hd1, Hf. by apply restored_ready with x.
  - intros Hh Hb c Hc. eapply seg_mono; [by apply E2; auto|done| |done].
    intros a x _ Hx'. unfold EmitPrims.ready in *. simpl. apply facts_meet_ready. by right.
Qed.

Lemma or_tag d l r :
  flat d (Or l r) = true →
  d = 0 ∨ g_ethertype (guards_intersect (guards_of l) (guards_of r)) ≠ Some 0x8100.
Proof.
  unfold flat. intros [_ Hs]%andb_true_iff. destruct (Z.eq_dec d 0); [by left|right].
  by apply (guards_of_tag d (Or l r)).
Qed.

(** The hoisted guards are implied by the OR. *)
Lemma sem_hoisted s l r :
  expr_pre s (Or l r) →
  sem_at s (Or l r) =
    hoisted_sem s (guards_intersect (guards_of l) (guards_of r)) && sem_at s (Or l r).
Proof.
  intros [_ Hfl]. destruct (sem_at s (Or l r)) eqn:Hs; [|by rewrite andb_false_r].
  rewrite andb_true_r. symmetry. apply hoisted_sem_holds.
  unfold flat in Hfl. apply andb_true_iff in Hfl as [Hv _].
  exact (guards_of_sound _ _ _ (Or l r) Hv Hs).
Qed.

(** What an OR may suppose, its operands and its guards may. *)
Lemma or_pre s s0 s1 l r :
  cg_link s0 = cg_link s → cg_vlan_depth s0 = cg_vlan_depth s →
  cg_link s1 = cg_link s → cg_vlan_depth s1 = cg_vlan_depth s → expr_pre s (Or l r) →
  expr_pre s0 l ∧ (sem_at s l = false → expr_pre s1 r) ∧
  guards_needs (cg_link s) pkt (cg_vlan_depth s) (guards_intersect (guards_of l) (guards_of r)) ≤ B ∧
  (cg_vlan_depth s = 0 ∨ g_ethertype (guards_intersect (guards_of l) (guards_of r)) ≠ Some 0x8100).
Proof.
  intros El0 Ed0 El1 Ed1 [Hlk Hfl]. pose proof (or_tag (cg_vlan_depth s) l r Hfl).
  apply flat_or in Hfl as [Hfl Hfr]. cbn [needs] in Hlk.
  unfold expr_pre. rewrite El0, Ed0, El1, Ed1. split_and!; try done; [case_match; lia| |lia].
  intros Hb. rewrite Hb in Hlk. split; [lia|done].
Qed.

Lemma expr_ok_or l r : expr_ok l → expr_ok r → expr_ok (Or l r).
Proof.
  intros IHl IHr s Hok [Hwl Hwr] Hd. cbn [emit_rec]. simpl in Hd.
  set (g := guards_intersect (guards_of l) (guards_of r)).
  assert (Hg : guards_wf g) by (by apply guards_wf_intersect, guards_of_wf).
  apply wp_bind. eapply wp_mono; [by apply emit_hoisted_spec|].
  intros hl s0 E0. pose proof (emitted_env _ _ _ _ _ _ _ _ E0) as [Hl0 Hd0].
  pose proof (emitted_ok _ _ _ _ _ _ _ _ E0 Hok) as Hok0.
  apply wp_bind, wp_gets, wp_bind, wp_gets, wp_bind.
  eapply wp_mono; [apply IHl; [done|done|lia]|]. intros [q1 b1] s1 [E1 _]. simpl in E1.
  pose proof (emitted_env _ _ _ _ _ _ _ _ E1) as [Hl1 Hd1].
  apply wp_bind, (wp_or_right (cost l) q1 s0 s1); [by eapply emitted_grows|].
  intros s1' Hr Hf1 Hd1'. pose proof Hr as (_ & _ & Hl1' & Hx1').
  assert (Hok1' : ok s1').
  { destruct Hok0. split; [unfold depth_ok in *; lia|].
    unfold rawip_ok in *. by rewrite Hl1', Hl1, Hf1, restored_rawip. }
  apply wp_bind. eapply wp_mono; [apply IHr; [done|done|lia]|].
  intros [q2 b2] s2 [E2 _]. simpl in E2.
  pose proof (emitted_env _ _ _ _ _ _ _ _ E2) as [Hl2 Hd2].
  apply wp_bind, wp_gets, wp_bind, wp_put_facts, wp_ret. split; [|done].
  pose proof (or_pre s s0 s1' l r Hl0 Hd0 ltac:(congruence) ltac:(congruence)) as K.
  assert (FR : ft s0 → ft s1').
  { intros Hf. unfold EmitPrims.ft in *. rewrite Hl1', Hl1, Hd1', Hd1, Hf1. by apply restored_true. }
  pose proof (or_emits (cost l) (cost r) s0 s1 s1' s2 q1 q2 (expr_pre s (Or l r) ∧ ft s0)
    _ _ _ _ _ (proj1 E1) Hr Hf1 Hd1' (proj1 E2) eq_refl (proj2 Hok0)) as E12.
  destruct E0 as [E0 F0], E1 as [E1 F1], E2 as [E2 F2].
  assert (Sl : sem_at s0 l = sem_at s l) by (by rewrite Hl0, Hd0).
  assert (Sr : sem_at s1' r = sem_at s r) by (by rewrite Hl1', Hl1, Hl0, Hd1', Hd1, Hd0).
  pose proof (sem_hoisted s l r) as Sg. fold g in K, Sg.
  split.
  - eapply (emits_patches pkt B _ _ _ (extend (fails hl) (mk_patches
      (success q1 ++ [Ja (zlen (cg_insns s1))] ++ success q2) (failure q2)))).
    { intros p. simpl. rewrite elem_of_concat, !elem_of_app, !elem_of_cons, elem_of_nil. tauto. }
    { intros p. simpl. rewrite elem_of_concat, !elem_of_app. tauto. }
    eapply emits_weaken; [eapply (emits_seq pkt B 27 (cost l + 1 + cost r) s s0 _ _ _
      (expr_pre s (Or l r) ∧ ft s) (expr_pre s (Or l r) ∧ ft s0));
      [done|eapply emits_weaken; [exact E0|done|..]|apply E12|]|..]; try done.
    + intros [Hp ?]. destruct (K Hp) as (_ & _ & ? & ?). done.
    + intros [Hp ?]. destruct (K Hp) as (? & _). done.
    + intros [Hp ?] Hb. rewrite Sl in Hb. destruct (K Hp) as (_ & Hpr & _). auto.
    + intros [Hp Hf] Hb. destruct (K Hp) as (_ & _ & ? & ?). split; auto.
    + simpl. lia.
    + intros [Hp _]. rewrite Sl, Sr. by apply Sg.
  - intros Hp Hf Hb. destruct (K Hp) as (Hpl & Hpr & Hrm & Htag).
    rewrite (Sg Hp) in Hb. apply andb_true_iff in Hb as [Hb0 Hb].
    assert (Hf0 : ft s0) by (by apply F0). unfold EmitPrims.ft in *. simpl.
    rewrite Hl2, Hl1', Hd2, Hd1'. apply facts_meet_true.
    simpl in Hb. destruct (sem_at s l) eqn:Hbl.
    + left. apply F1; [done|done|]. by rewrite Sl.
    + right. rewrite <- Hl1', <- Hd1', <- Hl2, <- Hd2. apply F2; [auto|auto|]. by rewrite Sr.
Qed.

Lemma expr_ok_all e : expr_ok e.
Proof.
  induction e; auto using expr_ok_prim, expr_ok_and, expr_ok_or, expr_ok_not.
Qed.

(** * Chains behind a VLAN tag *)

(** Nothing is known of the network and transport headers. *)
Definition clean (f : Facts) : Prop :=
  f_ip4_proto f = None ∧ f_ip6_nh f = None ∧ f_ports_ready f = None.

(** Only the ethertype is recorded by a VLAN check. *)
Lemma emit_ethertype_clean et s :
  depth_ok s → clean (cg_facts s) →
  wp (emit_ethertype et) s (λ _ s', clean (cg_facts s') ∧ depth_ok s').
Proof.
  intros Hd Hc. unfold emit_ethertype. apply wp_bind, wp_ether_proto_offset; [done|].
  destruct (_ <$> _); [|by case_match].
  apply wp_bind, wp_gets. case_decide; [by apply wp_ret|].
  by apply wp_bind, wp_load_check, wp_bind, wp_gets, wp_bind, wp_put_facts, wp_ret.
Qed.

Lemma emit_vlan_clean id s :
  depth_ok s → clean (cg_facts s) → wp (emit_vlan id) s (λ _ s', clean (cg_facts s')).
Proof.
  intros Hd Hc. apply wp_bind. eapply wp_mono; [by apply emit_ethertype_clean|].
  intros p s1 [Hc1 Hd1]. destruct id; [|by apply wp_ret].
  apply wp_bind, wp_ether_proto_offset; [done|]. apply wp_bind, wp_u32_add.
  { unfold depth_ok in Hd1. destruct (cg_link s1); simpl; lia. }
  by apply wp_bind, wp_push, wp_bind, wp_push, wp_bind, wp_push, wp_ret.
Qed.

Definition chain_pre (s : Codegen) (e : Expr) : Prop := needs (cg_link s) pkt 0 e ≤ B.

(** The code of a chain, at depth 0, ends with facts about depth 1. *)
Definition chain_ok (e : Expr) : Prop :=
  ∀ s, ok s → wf_expr e → cg_vlan_depth s = 0 → clean (cg_facts s) →
    vlan_chain e = true → Z.of_nat (size e) < 2 ^ 28 →
    wp (emit_rec e) s (λ r s',
      emits (cost e) s s' r.1 (chain_pre s e ∧ ft s) (λ _ _, True) (sem_at s e)
        (λ _ x, ready (set_depth 1 s') x) ∧
      (chain_pre s e → ft s → sem_at s e = true → ft (set_depth 1 s')) ∧ r.2 = true).

Lemma vlan_chain_leads e : vlan_chain e = true → leads_with_vlan e = true.
Proof.
  induction e as [l IHl r _|l _ r _|x _|[]]; simpl; try done.
  intros [? _]%andb_true_iff. auto.
Qed.

Lemma clean_tagged link f :
  facts_true link pkt 0 f → clean f → ethertype_is link pkt 0 0x8100 = true →
  facts_true link pkt 1 f.
Proof.
  intros [Hf _ _ _] (C1 & C2 & C3) Hv. constructor; rewrite ?C1, ?C2, ?C3; try done.
  intros et He. right. split; [done|]. destruct (Hf et He) as [Het|[? _]]; [|done].
  unfold ethertype_is in *. by case_match; zbool; congruence.
Qed.

Lemma chain_ok_vlan id : chain_ok (Prim (PVlan id)).
Proof.
  intros s Hok Hw Hd Hc _ _. simpl. apply wp_bind.
  eapply wp_mono; [apply wp_conj; [by apply (emit_primitive_spec pkt B Hpkt (PVlan id))|
    apply emit_vlan_clean; [apply Hok|done]]|].
  intros q s' [E Hc']. apply wp_ret. pose proof (emitted_env _ _ _ _ _ _ _ _ E) as [Hl' Hd'].
  assert (Hpre : chain_pre s (Prim (PVlan id)) → prim_pre pkt B s (PVlan id)).
  { intros H. unfold chain_pre, prim_pre in *. rewrite Hd. by split. }
  destruct E as [E F]. split_and!; [| |done].
  - eapply emits_weaken; [exact E|done| |done| |].
    + intros [Hp Hf]. auto.
    + intros _ a x _. unfold EmitPrims.ready, ports_ready. by destruct Hc as (_ & _ & ->).
    + intros _ _ a x _. unfold EmitPrims.ready, ports_ready. simpl.
      by destruct Hc' as (_ & _ & ->).
  - intros Hp Hf Hb. specialize (F (Hpre Hp) Hf Hb). unfold EmitPrims.ft in *. simpl.
    rewrite Hd', Hd in F. apply clean_tagged; [done|done|]. rewrite Hl'.
    simpl in Hb. rewrite Hd in Hb. destruct id; [|done]. by apply andb_true_iff in Hb as [? _].
Qed.

Lemma chain_ok_and l r : chain_ok l → chain_ok (And l r).
Proof.
  intros IHl s Hok [Hwl Hwr] Hd Hc [Hcl Hcr]%andb_true_iff Hsz. simpl in Hsz.
  pose proof (size_pos l).
  cbn [emit_rec]. apply wp_bind. eapply wp_mono; [apply IHl; [done|done|done|done|done|lia]|].
  intros [q1 b] s1 (E1 & F1 & Hb). simpl in E1, Hb. subst b.
  pose proof (proj1 E1) as G1. pose proof G1 as [_ Hl1 Hd1 _ Hr1 _ _].
  apply wp_bind, (wp_and_right (cost l) q1 _ s s1); [done|lia|].
  intros s1' Hr Hf1 Hd1'. pose proof Hr as (_ & _ & Hl1' & Hx1').
  assert (Hd1'' : cg_vlan_depth s1' = 1) by lia.
  apply wp_bind. eapply wp_mono; [apply (expr_ok_all r); [|done|lia]|].
  { split; [unfold depth_ok; lia|]. unfold rawip_ok. rewrite Hl1', Hf1. by apply Hr1, Hok. }
  intros [q2 b2] s2 [E2 _]. simpl in E2.
  pose proof (emitted_env _ _ _ _ _ _ _ _ E2) as [Hl2 Hd2].
  apply (wp_and_done _ _ _ 0); [done|lia|]. cbn [fst snd].
  assert (Hset : set_depth 1 (set_depth 0 s2) = s2)
    by (rewrite <- Hd1'', <- Hd2; by destruct s2).
  assert (K : chain_pre s (And l r) → chain_pre s l ∧ (sem_at s l = true → expr_pre s1' r)).
  { unfold chain_pre, expr_pre. cbn [needs]. rewrite vlan_chain_leads, Hl1', Hl1, Hd, Hd1'' by done.
    change (0 + 1) with 1.
    intros Hp. split; [case_match; lia|]. intros Hb. rewrite Hb in Hp. split; [lia|done]. }
  assert (FR : ft (set_depth 1 s1) → ft s1')
    by (unfold EmitPrims.ft; simpl; by rewrite Hl1', Hd1'', Hf1).
  assert (S : sem_at s (And l r) = sem_at s l && sem_at s1' r)
    by (simpl; by rewrite vlan_chain_leads, Hl1', Hl1, Hd, Hd1'').
  destruct E2 as [E2 F2]. split_and!; [| |done].
  - rewrite S. apply (and_emits (cost l) (cost r) s s1 s1' s2 q1 q2
      (chain_pre s (And l r) ∧ ft s) (expr_pre s1' r ∧ ft s1') _ _ (λ _ x, ready s1' x));
      [|done|done|done| |].
    + eapply emits_weaken; [exact E1|done| |done|done|].
      * intros [Hp ?]. split; [by apply K|done].
      * intros _ _ a x. unfold EmitPrims.ready. simpl. by rewrite Hl1', Hd1'', Hf1.
    + rewrite Hset. exact E2.
    + intros [Hp Hf] Hb. destruct (K Hp). auto.
  - intros Hp Hf Hb. rewrite S in Hb. apply andb_true_iff in Hb as [Hb1 Hb2].
    destruct (K Hp). rewrite Hset. auto.
Qed.

Lemma chain_ok_all e : chain_ok e.
Proof.
  induction e as [l IHl r _|l _ r _|x _|p].
  - by apply chain_ok_and.
  - by intros ? ? ? ? ? ?.
  - by intros ? ? ? ? ? ?.
  - destruct p; try (by intros ? ? ? ? ? ?). apply chain_ok_vlan.
Qed.
End compile.
