(* ===== verification/CompileSound.v ===== *)
(** [compile]: it always returns, its programs are well formed, and on the
    supported expressions they decide the reference semantics. *)

From S2P Require Export CompileCorrect.

(** * Whole expressions *)

Lemma size_lt_cost e : Z.of_nat (size e) < cost e.
Proof.
  induction e as [l IHl r IHr|l IHl r IHr|x IHx|p]; simpl size; simpl cost; try lia.
  destruct p; simpl; try lia. pose proof (zlen_nonneg (ba_alu_ops ba)). lia.
Qed.

Section top.
Context (pkt : list Z) (link : LinkType) (e0 : Expr).
Hypothesis Hpkt : Forall is_u8 pkt.

Let B := needs link pkt 0 e0.

Abbreviation emits := (emits pkt B).
Abbreviation ft := (ft pkt).

(** The code of [e], run with nothing known, decides [e]. *)
Definition top_ok (e : Expr) : Prop :=
  ∀ s, ok s → wf_expr e → cg_vlan_depth s = 0 → clean (cg_facts s) → cg_link s = link →
    cost e < 2 ^ 28 → needs link pkt 0 e ≤ B →
    wp (emit_rec e) s (λ r s',
      emits (cost e) s s' r.1 (supported e = true ∧ ft s) (λ _ _, True) (sem link pkt 0 e)
        (λ _ _, True)).

Lemma top_ok_flat e : (supported e = true → flat 0 e = true) → top_ok e.
Proof.
  intros Hfl s Hok Hw Hd Hc Hl Hcost Hlook. pose proof (size_lt_cost e).
  eapply wp_mono; [apply (expr_ok_all pkt B Hpkt e s Hok Hw); lia|].
  intros r s' [[E _] _]. rewrite Hl, Hd in E. eapply emits_weaken; [exact E|done| |done| |done].
  - intros [Hs Hf]. split; [|done]. split; rewrite Hd, ?Hl; auto.
  - intros _ a x _. unfold ready, ports_ready. by destruct Hc as (_ & _ & ->).
Qed.

Lemma top_ok_chain e : vlan_chain e = true → top_ok e.
Proof.
  intros Hch s Hok Hw Hd Hc Hl Hcost Hlook. pose proof (size_lt_cost e).
  eapply wp_mono; [apply (chain_ok_all pkt B Hpkt e s Hok Hw); [done|done|done|lia]|].
  intros r s' (E & _ & _). rewrite Hl, Hd in E.
  eapply emits_weaken; [exact E|done| |done|done|done].
  intros [_ Hf]. split; [|done]. unfold chain_pre. by rewrite Hl.
Qed.

Lemma top_ok_not x : top_ok x → flat 0 (Not x) = false → top_ok (Not x).
Proof.
  intros IH Hnf s Hok Hw Hd Hc Hl Hcost Hlook. cbn [emit_rec]. simpl in Hw, Hcost, Hlook.
  do 2 apply wp_bind, wp_gets. apply wp_bind.
  eapply wp_mono; [apply IH; try done; lia|]. intros [q b] s1 E1. simpl in E1.
  pose proof (proj1 E1) as G1. pose proof G1 as [_ Hl1 Hd1 _ _ _ _].
  apply (wp_not_done (cost x) q s s1); [done|].
  intros s2 (Hi & H255 & Hl2 & Hx2) Hf2 Hd2.
  eapply emits_not; [exact Hi|exact H255|done|done|done| | |done].
  - unfold rawip_ok. by rewrite Hl2, Hl1, Hf2, restored_rawip.
  - eapply emits_weaken; [exact E1|done| |done|done|done].
    intros [Hs ?]. split; [|done]. simpl in Hs. rewrite Hnf in Hs. done.
Qed.

Lemma top_ok_all e : top_ok e.
Proof.
  induction e as [l IHl r IHr|l IHl r IHr|x IHx|p].
  - destruct (vlan_chain (And l r)) eqn:Hch; [by apply top_ok_chain|].
    apply top_ok_flat. cbn [supported]. rewrite Hch. by rewrite !orb_false_r.
  - apply top_ok_flat. cbn [supported vlan_chain]. by rewrite !orb_false_r.
  - destruct (flat 0 (Not x)) eqn:Hfl; [by apply top_ok_flat|by apply top_ok_not].
  - apply top_ok_flat. cbn [supported]. intros Hs. rewrite orb_false_r in Hs.
    apply orb_true_iff in Hs as [?|Hs]; [done|]. by destruct p.
Qed.
End top.

(** * The program *)

Lemma ok_new link : ok (cg_new link).
Proof. split; [done|]. unfold rawip_ok. by destruct link. Qed.

Lemma clean_new link : clean (cg_facts (cg_new link)).
Proof. done. Qed.

Lemma facts_true_new link pkt : ft pkt (cg_new link).
Proof.
  constructor; simpl; try done. intros et. destruct link; try done. intros [= <-]. by left.
Qed.

(** What [compile_unoptimized] promises of its code. *)
Record code_ok (e : Expr) (l : list Insn) : Prop := {
  co_good : Forall good_insn l;
  co_len : zlen l ≤ cost e + 2;
}.

Lemma code_ok_optimizable e l : code_ok e l → cost e < 2 ^ 28 → optimizable l.
Proof.
  intros [Hg Hlen] Hc. split_and!.
  - split; [|lia]. by eapply Forall_impl; [exact Hg|intros i (? & _)].
  - split; [lia|]. intros i insn Hi Hja. pose proof (zget_Some_lt _ _ _ Hi).
    pose proof (Forall_zget _ _ _ _ Hg Hi) as (_ & _ & Hk). specialize (Hk Hja). lia.
  - by eapply Forall_impl; [exact Hg|intros i (_ & ? & _)].
Qed.

Lemma wp_emit_expr e s (Q : Patches → Codegen → Prop) :
  wp (emit_rec e) s (λ r s', Q r.1 s') → wp (emit_expr e) s Q.
Proof.
  unfold wp. rewrite emit_expr_emit_rec. unfold mbind, M_bind.
  destruct (emit_rec e s) as [[[q b] s']| | |]; done.
Qed.

(** The two returns behind the code. *)
Definition returns_code : list Insn := [ret_k BPF_ACCEPT; ret_k BPF_DROP].

Lemma exec_return P pkt m k :
  wf_prog P → 0 ≤ r_pc m → zget P (r_pc m) = Some (ret_k k) →
  exec P pkt m = Some (negb (k =? 0)).
Proof.
  intros Hwf Hpc Hg. apply exec_done; [done|done|]. unfold step. by rewrite Hg.
Qed.

Section finish.
Context (pkt : list Z) (link : LinkType) (e : Expr) (c : list Insn) (q : Patches).

Let B := needs link pkt 0 e.
Let n := zlen c.
Let F : target := over (to_all (failure q) (n + 1)) (to_all (success q) n).

(** The finished code. *)
Definition finished : list Insn :=
  patch_code (to_all (failure q) (n + 1)) 0
    (patch_code (to_all (success q) n) 0 (c ++ returns_code)).

Hypothesis Hin : within 0 n q.
Hypothesis Hsep : separate q.

Lemma finished_split : finished = patch_code F 0 c ++ returns_code.
Proof.
  unfold finished. rewrite patch_code_over. fold F. rewrite patch_code_app. f_equal.
  apply patch_code_id. intros p [Hp _]. unfold F, over.
  rewrite !to_all_notin; [done|..]; intros Hq.
  - assert (0 ≤ patch_idx p < n) by (apply Hin; auto). unfold n in *. lia.
  - assert (0 ≤ patch_idx p < n) by (apply Hin; auto). unfold n in *. lia.
Qed.

Lemma finished_fills : fills F 0 n q n (n + 1).
Proof.
  split; unfold F, over; intros p.
  - intros Hp. rewrite to_all_notin; [by apply to_all_in|by apply Hsep].
  - intros Hp. by rewrite to_all_in.
  - intros _ Hs Hf. by rewrite !to_all_notin.
Qed.

Lemma finished_good :
  Forall good_insn c → (∀ p, p ∈ success q → n - patch_idx p - 1 ≤ 255) →
  (∀ p, p ∈ failure q → n + 1 - patch_idx p - 1 ≤ 255) → Forall good_insn finished.
Proof.
  intros Hc HS HF. rewrite finished_split. apply Forall_app. split.
  - apply patch_code_good; [done|]. intros p t Ht. unfold F, over, to_all in Ht.
    case_decide as Hf; [injection Ht as <-|case_decide as Hs; [injection Ht as <-|done]].
    + assert (0 ≤ patch_idx p < n) by (apply Hin; auto). specialize (HF p Hf). lia.
    + assert (0 ≤ patch_idx p < n) by (apply Hin; auto). specialize (HS p Hs). lia.
  - unfold returns_code. repeat apply Forall_cons_2; try done;
      apply good_plain; try done; by split; vm_compute.
Qed.

Lemma finished_runs b K :
  wf_prog finished → seg pkt B 0 c q (λ _ _, True) b (λ _ _, True) K →
  (inner finished pkt = None ∧ zlen pkt < B) ∨ inner finished pkt = Some b.
Proof.
  intros Hwf Hs. assert (Hn : 0 ≤ n) by apply zlen_nonneg.
  assert (Hlen : zlen (patch_code F 0 c) = n) by apply zlen_patch_code.
  assert (Hpl : placed finished 0 (patch_code F 0 c ++ returns_code)).
  { intros j i Hj. by rewrite finished_split. }
  apply placed_app in Hpl as [Hpl Hret]. rewrite Hlen in Hret.
  assert (Hacc : zget finished n = Some (ret_k BPF_ACCEPT)).
  { specialize (Hret 0 _ eq_refl). by rewrite Z.add_0_l, Z.add_0_r in Hret. }
  assert (Hdrop : zget finished (n + 1) = Some (ret_k BPF_DROP)).
  { specialize (Hret 1 _ eq_refl). by rewrite Z.add_0_l in Hret. }
  destruct (Hs finished F n (n + 1) Hwf) with (m := vm_start)
    as [[Hnone Hshort]|(m' & He & _ & _ & Hx)];
    [done|lia|lia|done|apply finished_fills|done|done|by left|].
  right. unfold inner. change vm_start with (with_pc 0 vm_start). rewrite He.
  rewrite Z.add_0_l in Hx. fold n in Hx. destruct b.
  - assert (Hpc : r_pc m' = n) by tauto.
    apply (exec_return finished pkt m' BPF_ACCEPT); [done|lia|by rewrite Hpc].
  - apply (exec_return finished pkt m' BPF_DROP); [done|lia|by rewrite Hx].
Qed.
End finish.

(** A filter and packets to try it on: [tcp port 80 and host 10.0.0.1], behind
    a VLAN tag. *)
Definition sample_expr : Expr :=
  And (And (Prim (PVlan (Some 5))) (Prim (PPort 80 SrcOrDst (Some Tcp))))
    (Prim (PHost (V4 0x0a000001) SrcOrDst)).

Definition sample_pkt : list Z :=
  replicate 12 0 ++ [0x81; 0x00; 0x00; 0x05; 0x08; 0x00]
  ++ [0x45; 0; 0; 40; 0; 0; 0; 0; 64; 6; 0; 0; 10; 0; 0; 1; 10; 0; 0; 2]
  ++ [0; 80; 4; 0].

(** * [compile] *)

(** The compiler returns, its code is well formed, and on a supported
    expression the code decides the meaning, unless the packet is too short. *)
Lemma compile_unoptimized_spec e link pkt :
  wf_expr e → cost e < 2 ^ 28 → Forall is_u8 pkt →
  match compile_unoptimized e link with
  | Ok l =>
      code_ok e l ∧
      (supported e = true →
       (inner l pkt = None ∧ zlen pkt < needs link pkt 0 e) ∨
       inner l pkt = Some (sem link pkt 0 e))
  | Err _ => True
  | Panic | OutOfFuel => False
  end.
Proof.
  intros Hw Hcost Hpkt. unfold compile_unoptimized.
  assert (W : wp (patches ← emit_expr e;
     accept_idx ← here;
     push (ret_k BPF_ACCEPT);;
     drop_idx ← here;
     push (ret_k BPF_DROP);;
     resolve_all (success patches) accept_idx;;
     resolve_all (failure patches) drop_idx) (cg_new link) (λ _ s,
       code_ok e (cg_insns s) ∧
       (supported e = true →
        (inner (cg_insns s) pkt = None ∧ zlen pkt < needs link pkt 0 e) ∨
        inner (cg_insns s) pkt = Some (sem link pkt 0 e)))).
  2:{ unfold wp, mbind, outcome_bind in *. by destruct (M_bind _ _ _ _ _) as [[[] s]| | |]. }
  apply wp_bind, wp_emit_expr. eapply wp_mono.
  { apply (top_ok_all pkt link e Hpkt e (cg_new link)); try done. apply ok_new. }
  intros [q b] s [G S]. cbn [fst] in *. destruct G as [(c & Ec & Hg & Hn) _ _ _ _ Hin Hsep].
  simpl app in Ec. rewrite Ec in *. change (zlen (cg_insns (cg_new link))) with 0 in Hin.
  apply wp_bind, wp_here, wp_bind, wp_push, wp_bind, wp_here, wp_bind, wp_push.
  cbn [cg_insns pushed]. rewrite Ec, zlen_app. change (zlen [ret_k BPF_ACCEPT]) with 1.
  assert (Hlen : zlen ((c ++ [ret_k BPF_ACCEPT]) ++ [ret_k BPF_DROP]) = zlen c + 2)
    by (rewrite !zlen_app; change (zlen [_]) with 1; lia).
  apply wp_bind. eapply wp_mono.
  { apply wp_resolve_all. cbn [cg_insns pushed]. rewrite Ec, Hlen. intros p Hp.
    assert (0 ≤ patch_idx p < zlen c) by (apply Hin; auto). split; lia. }
  intros [] s1 [-> HS]. eapply wp_mono.
  { apply wp_resolve_all. simpl. rewrite zlen_patch_code, Ec, Hlen. intros p Hp.
    assert (0 ≤ patch_idx p < zlen c) by (apply Hin; auto). split; lia. }
  intros [] s2 [-> HF]. cbn [cg_insns set_insns pushed]. rewrite Ec, <- app_assoc.
  fold (finished c q). assert (Hok : code_ok e (finished c q)).
  { split; [by apply finished_good|]. unfold finished. rewrite !zlen_patch_code, zlen_app.
    change (zlen returns_code) with 2. lia. }
  split; [done|]. intros Hs. eapply finished_runs; [done|done| |].
  - by apply (code_ok_optimizable e).
  - exact (S (conj Hs (facts_true_new link pkt)) c eq_refl).
Qed.

Lemma compile_spec e link pkt :
  wf_expr e → cost e < 2 ^ 28 → Forall is_u8 pkt →
  match compile e link with
  | Ok p =>
      supported e = true →
      (inner (insns p) pkt = None ∧ zlen pkt < needs link pkt 0 e) ∨
      inner (insns p) pkt = Some (sem link pkt 0 e)
  | Err _ => True
  | Panic | OutOfFuel => False
  end.
Proof.
  intros Hw Hcost Hpkt. pose proof (compile_unoptimized_spec e link pkt Hw Hcost Hpkt) as H.
  unfold compile, mbind, outcome_bind in *.
  destruct (compile_unoptimized e link) as [l| | |]; try done. destruct H as [Hok Hs].
  cbn [insns]. rewrite optimize_exec by (by eapply code_ok_optimizable). done.
Qed.

(** C3: compiling never panics and never runs out of fuel: for every tree in
    the ranges of its types, on every link type, [compile] returns a program
    or an error. *)
Theorem compile_returns (e : Expr) (link : LinkType) :
  wf_expr e → cost e < 2 ^ 28 → returns (compile e link).
Proof.
  intros Hw Hcost. pose proof (compile_spec e link [] Hw Hcost (Forall_nil_2 _)) as H.
  by destruct (compile e link).
Qed.

Lemma compile_returns_witness : returns (compile sample_expr Ethernet).
Proof.
  apply (compile_returns sample_expr Ethernet); [|by vm_compute].
  repeat split; by vm_compute.
Defined.




