(* ===== verification/Targets.v ===== *)
(** The two targets against each other: where the exact semantics of extended
    programs and the reference semantics coincide, the correctness of the extended
    compiler against both, and that the two compilers then give programs with the
    same verdict. *)

From S2P Require EbpfCorrect.
From S2P Require Import CompileSound.
From S2P Require Export EbpfSem.

(** A constant that a 64-bit comparison sees as it is. *)
Definition low (k : Z) : bool := k <? 2 ^ 31.

(** The primitives that mean the same for both targets. The others are a
    transport protocol alone, which only the extended target finds in IPv6, and
    comparisons with a constant whose top bit is set. *)
Definition portable_prim (p : Primitive) : bool :=
  match p with
  | PProto (Tcp | Udp | Sctp) => false
  | PHost (V4 a) _ => low a
  | PNet n _ => low (net_addr n .& net_mask n)
  | PEtherHost a _ => low (EbpfCodegen.u32_from_be_bytes (take 4 (mac_octets a)))
  | PMpls (Some l) => low l
  | PIpBroadcast | PIpMulticast => false
  | PLen _ v => low v
  | PByteAccess ba => fit_access ba && match ba_rhs ba with Const v => low v | Load_ _ => false end
  | _ => true
  end.

Fixpoint portable (e : Expr) : bool :=
  match e with
  | Prim p => portable_prim p
  | Not x => portable x
  | And l r | Or l r => portable l && portable r
  end.

(** How far behind the network header a primitive may look. *)
Definition prim_bytes (p : Primitive) : Z :=
  match p with
  | PByteAccess ba =>
      128 + match ba_rhs ba with
            | Const _ => ba_offset ba
            | Load_ l => Z.max (ba_offset ba) (bl_offset l)
            end
  | _ => 128
  end.

(** How far behind a network header an expression looks. *)
Fixpoint look (e : Expr) : Z :=
  match e with
  | Prim p => prim_bytes p
  | Not x => look x
  | And l r | Or l r => Z.max (look l) (look r)
  end.

Lemma look_128 e : wf_expr e → 128 ≤ look e.
Proof.
  induction e as [l IHl r IHr|l IHl r IHr|x IHx|p]; simpl; try (intros [? ?]); try naive_solver lia.
  destruct p; simpl; try lia. intros (? & _ & Hr). unfold wf_offset in *. case_match; lia.
Qed.

(** A number of packet bytes that is enough to decide [e], whatever they are. *)
Definition bytes_read (link : LinkType) (e : Expr) : Z := net_at link 1 + look e.

Section room.
Context (link : LinkType) (pkt : list Z).

Lemma header_needs_room b n : 0 ≤ n ≤ 128 → header_needs link 0 b n ≤ net_at link 1 + 128.
Proof. unfold header_needs, net_at. case_match; lia. Qed.

Lemma protocol_needs_room : protocol_needs link pkt 0 ≤ net_at link 1 + 128.
Proof. unfold protocol_needs, net_at. repeat case_match; lia. Qed.

Lemma ports_needs_bound proto : ports_needs link pkt 0 proto ≤ net_at link 1 + 128.
Proof.
  pose proof protocol_needs_room. unfold ports_needs. repeat case_match; try done.
  unfold ports_at. pose proof (ip4_header_len_range pkt link 0). unfold net_at in *. case_match; lia.
Qed.

Lemma access_needs_room layer off sz :
  0 ≤ off → access_needs link pkt 0 layer off sz ≤ net_at link 1 + 128 + off.
Proof.
  intros Ho. unfold access_needs. pose proof (ip4_header_len_range pkt link 0).
  assert (size_bytes sz ≤ 4) by (by destruct sz).
  assert (0 ≤ link_net_offset link) by (by destruct link).
  destruct layer; cbn [layer_at]; unfold net_at in *; lia.
Qed.

Lemma prim_needs_room p : wf_primitive p → prim_needs link pkt 0 p ≤ net_at link 1 + prim_bytes p.
Proof.
  assert (0 ≤ link_net_offset link) by (by destruct link).
  intros Hwf. destruct p as [[]| | | | |[]| | | | | | |[]|[]| |[]| | | | | |ba]; simpl;
    try (apply header_needs_room; lia); try apply ports_needs_bound; try (unfold net_at; lia).
  destruct Hwf as (Ho & _ & Hr). unfold wf_offset in *.
  pose proof (access_needs_room (ba_layer ba) (ba_offset ba) (ba_size ba)). destruct (ba_rhs ba) as [v|l].
  - unfold net_at in *. lia.
  - pose proof (access_needs_room (bl_layer l) (bl_offset l) (bl_size l)). lia.
Qed.

Lemma guards_needs_room g : guards_needs link pkt 0 g ≤ net_at link 1 + 128.
Proof.
  assert (0 ≤ link_net_offset link) by (by destruct link). pose proof protocol_needs_room.
  pose proof (header_needs_room (is_ip4 link pkt 0) 10). pose proof (header_needs_room (is_ip6 link pkt 0) 7).
  unfold guards_needs, asked, net_at in *. repeat case_match; lia.
Qed.

(** It is enough. *)
Lemma needs_bytes_read e : wf_expr e → no_vlan_lead e = true → needs link pkt 0 e ≤ bytes_read link e.
Proof.
  unfold bytes_read. induction e as [l IHl r IHr|l IHl r IHr|x IHx|p]; cbn [needs look wf_expr no_vlan_lead].
  - intros [??] Hv. zbool. rewrite H1. specialize (IHl H H3). specialize (IHr H0 H2). case_match; lia.
  - intros [??] Hv. zbool. pose proof (guards_needs_room (guards_intersect (guards_of l) (guards_of r))).
    pose proof (look_128 l). intuition. case_match; lia.
  - intros. auto.
  - intros. by apply prim_needs_room.
Qed.
End room.

(** The packet is not a fragment behind the first. *)
Definition unfragmented (link : LinkType) (pkt : list Z) : bool :=
  negb (is_ip4 link pkt 0) || (h16 pkt (net_at link 0 + 6) mod 2 ^ 13 =? 0).

Section targets.
Context (link : LinkType) (pkt : list Z).
Context (Hpkt : Forall is_u8 pkt).
Abbreviation net := (link_net_offset link).

Lemma imm_of_low k : 0 ≤ k → low k = true → imm_of k = k.
Proof. unfold low. intros ??. zbool. apply EbpfLogic.imm_of_small. lia. Qed.

Lemma has_true o n : o + n ≤ zlen pkt → has pkt o n = true.
Proof. intros. by apply Z.leb_le. Qed.

Context (Hroom : net + 132 ≤ zlen pkt).

Lemma net_offset_range : 0 ≤ net ≤ 16.
Proof. by destruct link. Qed.

Lemma has_here o n : o + n ≤ net + 132 → has pkt o n = true.
Proof. intros. apply has_true. lia. Qed.

Lemma et_is_sem et : et_is link pkt et = ethertype_is link pkt 0 et.
Proof.
  unfold et_is, ethertype_is. destruct (link_ether_proto_offset link) as [o|] eqn:E; [|done].
  unfold half_is. rewrite has_true; [by replace (o + 4 * 0) with o by lia|].
  destruct link; simpl in *; simplify_eq; lia.
Qed.

Lemma v4_sem : v4 link pkt = is_ip4 link pkt 0.
Proof. apply et_is_sem. Qed.

Lemma v6_sem : v6 link pkt = is_ip6 link pkt 0.
Proof. apply et_is_sem. Qed.

Lemma net_at_0 : net_at link 0 = net.
Proof. unfold net_at. lia. Qed.

Lemma byte_is_sem o v : o + 1 ≤ net + 132 → byte_is pkt o v = (b8 pkt o =? v).
Proof. intros. unfold byte_is. by rewrite has_here. Qed.

Lemma half_is_sem o v : o + 2 ≤ net + 132 → half_is pkt o v = (h16 pkt o =? v).
Proof. intros. unfold half_is. by rewrite has_here. Qed.

Lemma word_is_sem o v :
  o + 4 ≤ net + 132 → 0 ≤ v → low v = true → word_is pkt o v = (w32 pkt o =? v).
Proof. intros. unfold word_is. rewrite has_here by done. by rewrite imm_of_low. Qed.

Lemma v4_l4_sem n : v4_l4 link pkt n = ip4_l4_is link pkt 0 n.
Proof.
  unfold v4_l4, ip4_l4_is. rewrite v4_sem, byte_is_sem by (unfold EbpfSem.net; lia).
  by rewrite net_at_0.
Qed.

Lemma v6_l4_sem n : v6_l4 link pkt n = ip6_l4_is link pkt 0 n.
Proof.
  unfold v6_l4, ip6_l4_is. rewrite v6_sem, byte_is_sem by (unfold EbpfSem.net; lia).
  by rewrite net_at_0.
Qed.

Lemma all_from_ext f g i l :
  (∀ j x, i ≤ j < i + zlen l → x ∈ l → f j x = g j x) → all_from f i l = all_from g i l.
Proof.
  revert i. induction l as [|x l IH]; intros i H; [done|]. cbn [all_from].
  pose proof (zlen_nonneg l). rewrite H; [f_equal|rewrite zlen_cons; lia|by left].
  apply IH. intros j y Hj Hy. apply H; [rewrite zlen_cons; lia|by right].
Qed.

Lemma addr6_sem segs o :
  wf_segments segs → 0 ≤ o → o + 16 ≤ net + 132 → addr6_is pkt segs o = ip6_addr_at pkt o segs.
Proof.
  intros [Hl _] Ho Hlt. unfold addr6_is, ip6_addr_at. apply all_from_ext. intros j x Hj _.
  rewrite half_is_sem by lia. by rewrite Z.mul_comm.
Qed.

Lemma net6_sem n o :
  wf_segments (net6_segments n) → 0 ≤ o → o + 16 ≤ net + 132 →
  net6_is pkt n o = ip6_prefix_at pkt o (net6_segments n) (net6_prefix_len n).
Proof.
  intros [Hl Hs] Ho Hlt. unfold net6_is, ip6_prefix_at. apply all_from_ext. intros j x Hj Hx.
  rewrite Forall_forall in Hs. specialize (Hs x Hx). unfold prefix_seg.
  replace (2 * j) with (j * 2) by lia.
  destruct (Z.leb_spec (net6_prefix_len n) (j * 16)); [|by rewrite has_here by lia].
  rewrite prefix_bits_zero by lia. pose proof (h16_range pkt Hpkt (o + j * 2)).
  rewrite !Z.shiftr_div_pow2 by lia. change (2 ^ (16 - 0)) with 65536. by rewrite !Z.div_small by ulia.
Qed.

Lemma net4_sem n o :
  is_u32 (net_addr n) → is_u32 (net_mask n) → low (net_addr n .& net_mask n) = true → o + 4 ≤ net + 132 →
  net4_is pkt n o = (w32 pkt o .& net_mask n =? net_addr n .& net_mask n).
Proof.
  intros Ha Hm Hlow Ho. unfold net4_is. rewrite has_here by done. rewrite imm_of_low; [done| |done].
  apply Z.land_nonneg. unfold is_u32 in *. lia.
Qed.

(** * Ports *)

Context (Hfrag : unfragmented link pkt = true).

Lemma l4_proto_sem o proto :
  o + 1 ≤ net + 132 →
  l4_proto_is pkt o proto =
  match outcome_ok (l4set_for proto) with Some set => l4_contains set (b8 pkt o) | None => false end.
Proof.
  intros Ho. destruct proto as [[]|]; simpl; rewrite ?byte_is_sem by done; try done; by rewrite Z.eqb_sym.
Qed.

Lemma ip4_not_ip6 : is_ip4 link pkt 0 = true → is_ip6 link pkt 0 = false.
Proof.
  unfold is_ip4, is_ip6, ethertype_is. destruct (link_ether_proto_offset link); [|done].
  intros. zbool. apply Z.eqb_neq. lia.
Qed.

Lemma trans4_sem : trans4 link pkt = net + ip4_header_len link pkt 0.
Proof. unfold trans4, ip4_header_len, EbpfSem.net. by rewrite net_at_0. Qed.

Lemma trans4_bounds : net ≤ trans4 link pkt ≤ net + 60.
Proof. unfold trans4, EbpfSem.net. pose proof (Z.mod_pos_bound (b8 pkt net) 16). lia. Qed.

Lemma ports_sem_agree dir proto test :
  ports_esem link pkt dir proto test = ports_sem link pkt 0 dir proto test.
Proof.
  pose proof trans4_bounds as Ht. unfold ports_esem, ports_sem, has_trans, trans_at, has_ports, ports_at.
  rewrite v4_sem, v6_sem, net_at_0. rewrite !l4_proto_sem by (unfold EbpfSem.net; lia).
  unfold EbpfSem.net. rewrite !has_here by lia. rewrite !andb_true_r.
  unfold unfragmented in Hfrag. rewrite net_at_0 in Hfrag. pose proof ip4_not_ip6 as H46.
  destruct (outcome_ok (l4set_for proto)) as [set|]; [|by case_match; rewrite ?andb_false_r].
  destruct (is_ip4 link pkt 0).
  - simpl in Hfrag. rewrite Hfrag, H46 by done. rewrite andb_true_r, orb_false_r. simpl.
    by rewrite trans4_sem.
  - simpl. by destruct (is_ip6 link pkt 0).
Qed.

(** * Bytes *)

Lemma mac_sem a o :
  zlen (mac_octets a) = 6 → Forall is_u8 (mac_octets a) → 0 ≤ o → o + 6 ≤ net + 132 →
  low (EbpfCodegen.u32_from_be_bytes (take 4 (mac_octets a))) = true →
  mac_is pkt a o = mac_at pkt o a.
Proof.
  intros Hl Ho8 Ho Hlt Hlow. unfold mac_is, mac_at.
  destruct (EbpfBytes.six_octets _ Hl) as (x1 & x2 & x3 & x4 & x5 & x6 & E). rewrite E in *.
  repeat (apply Forall_cons in Ho8 as [? Ho8]).
  unfold EbpfCodegen.u32_from_be_bytes in *. simpl take in *. simpl drop. cbn [foldl] in *.
  rewrite word_is_sem by (done || unfold is_u8 in *; lia). rewrite half_is_sem by lia.
  cbn [all_from]. rewrite andb_true_r. unfold w32, h16.
  pose proof (b8_range pkt Hpkt o). pose proof (b8_range pkt Hpkt (o + 1)). pose proof (b8_range pkt Hpkt (o + 2)).
  pose proof (b8_range pkt Hpkt (o + 3)). pose proof (b8_range pkt Hpkt (o + 4)). pose proof (b8_range pkt Hpkt (o + 5)).
  replace (o + 2 + 1) with (o + 3) by lia. replace (o + 4 + 1) with (o + 5) by lia. rewrite Z.add_0_r.
  change (0 + 1 + 1 + 1 + 1 + 1) with 5. change (0 + 1 + 1 + 1 + 1) with 4.
  change (0 + 1 + 1 + 1) with 3. change (0 + 1 + 1) with 2. change (0 + 1) with 1.
  apply eq_true_iff_eq. rewrite !andb_true_iff, !Z.eqb_eq. unfold is_u8 in *. lia.
Qed.

Lemma cmp_sem_low op a k : 0 ≤ k → low k = true → cmp_esem op a k = cmp_sem op a k.
Proof. intros. unfold cmp_esem. by rewrite imm_of_low. Qed.

Lemma access_sem ba o value :
  is_u32 value → low value = true → o + 4 ≤ zlen pkt →
  access_esem pkt ba o value = cmp_sem (ba_op ba) (alu_sem (ba_alu_ops ba) (load_sem pkt (ba_size ba) o)) value.
Proof.
  intros Hv Hl Ho. unfold access_esem. rewrite has_true by (destruct (ba_size ba); simpl; lia).
  apply cmp_sem_low; [apply Hv|done].
Qed.

Lemma behind_sem d k : link_ether_proto_offset link ≠ None → behind link d k = behind_ethertype link 0 k.
Proof. unfold behind, behind_ethertype. destruct (link_ether_proto_offset link); [simpl; lia|done]. Qed.

Lemma behind_here k n : k + n ≤ 12 → has pkt (behind_ethertype link 0 k) n = true.
Proof. intros. unfold behind_ethertype. apply has_true. destruct link; simpl in *; lia. Qed.

Lemma ethertype_rawip et : link_ether_proto_offset link = None → et ≠ 0x0800 → ethertype_is link pkt 0 et = false.
Proof. unfold ethertype_is. intros -> ?. by apply Z.eqb_neq. Qed.

(** A field behind the ethertype, looked at where there is an ethertype. *)
Lemma behind_agree et (f g : bool) :
  et ≠ 0x0800 → (link_ether_proto_offset link ≠ None → f = g) →
  et_is link pkt et && f = ethertype_is link pkt 0 et && g.
Proof.
  intros Het H. rewrite et_is_sem. destruct (link_ether_proto_offset link) eqn:E; [by rewrite H|].
  by rewrite ethertype_rawip.
Qed.

Lemma byte_access_agree ba :
  wf_byte_access ba → portable_prim (PByteAccess ba) = true → net + 4 + prim_bytes (PByteAccess ba) ≤ zlen pkt →
  byte_access_esem link pkt ba = byte_access_sem link pkt 0 ba.
Proof.
  pose proof net_offset_range. pose proof trans4_bounds.
  unfold wf_byte_access, wf_offset, prim_bytes, byte_access_esem, byte_access_sem. cbn [portable_prim].
  intros (Ho & _ & Hv) [_ Hlow]%andb_true_iff Hlen. destruct (ba_rhs ba) as [value|]; [|done].
  destruct (ba_layer ba); cbn [layer_at].
  - by rewrite access_sem by (done || lia).
  - rewrite net_at_0. unfold EbpfSem.net. by rewrite access_sem by (done || lia).
  - unfold EbpfSem.net. rewrite has_here, net_at_0, <- trans4_sem by lia. by rewrite access_sem by (done || lia).
Qed.

Lemma prim_agree p :
  wf_primitive p → portable_prim p = true → net + 4 + prim_bytes p ≤ zlen pkt → zlen pkt < 2 ^ 27 →
  prim_esem link pkt p = prim_sem link pkt 0 p.
Proof.
  pose proof net_offset_range. pose proof net_at_0 as Hn.
  intros Hwf Hp Hlen Hsmall. destruct p; cbn [prim_esem prim_sem wf_primitive portable_prim] in *.
  - destruct addr as [a|segs]; rewrite ?v4_sem, ?v6_sem, Hn; unfold EbpfSem.net.
    + unfold is_u32 in Hwf. by rewrite !word_is_sem by (done || lia).
    + by rewrite !addr6_sem by (done || lia).
  - apply ports_sem_agree.
  - apply ports_sem_agree.
  - destruct Hwf. rewrite v4_sem, Hn. unfold EbpfSem.net. by rewrite !net4_sem by (done || lia).
  - destruct Hwf. rewrite v6_sem, Hn. unfold EbpfSem.net. by rewrite !net6_sem by (done || lia).
  - destruct p; cbn [proto_esem proto_sem] in *; try done;
      rewrite ?v4_sem, ?v6_sem, ?et_is_sem; try done; by rewrite ?v4_l4_sem, ?v6_l4_sem.
  - destruct Hwf. by rewrite !mac_sem by (done || lia).
  - apply et_is_sem.
  - by rewrite has_here by lia.
  - done.
  - done.
  - rewrite v6_sem, Hn. unfold EbpfSem.net. by rewrite byte_is_sem by lia.
  - destruct id as [vid|]; [|apply et_is_sem]. rewrite <- !andb_assoc. apply behind_agree; [done|].
    intros He. by rewrite behind_sem, behind_here by (done || lia).
  - destruct label as [l|]; rewrite !et_is_sem; [|done].
    destruct (link_ether_proto_offset link) eqn:E; [|by rewrite !ethertype_rawip].
    assert (behind link 0 2 = behind_ethertype link 0 2) as -> by (apply behind_sem; congruence).
    rewrite behind_here by lia. rewrite imm_of_low; [done|apply Hwf|done].
  - apply et_is_sem.
  - destruct session_id as [sid|]; [|apply et_is_sem]. apply behind_agree; [done|].
    intros He. unfold half_is. by rewrite behind_sem, behind_here by (done || lia).
  - apply v4_l4_sem.
  - apply v6_l4_sem.
  - pose proof (zlen_nonneg pkt). unfold as_u32. rewrite Z.mod_small by lia. apply cmp_sem_low; [apply Hwf|done].
  - done.
  - done.
  - by apply byte_access_agree.
Qed.

Lemma esem_agree e :
  wf_expr e → portable e = true → no_vlan_lead e = true → bytes_read link e ≤ zlen pkt → zlen pkt < 2 ^ 27 →
  esem link pkt e = sem link pkt 0 e.
Proof.
  intros Hwf Hp Hv Hlen Hsmall. unfold bytes_read, net_at in Hlen.
  induction e as [l IHl r IHr|l IHl r IHr|x IHx|p]; cbn [esem sem wf_expr portable no_vlan_lead look] in *.
  - destruct Hwf. apply andb_true_iff in Hp as [? ?]. zbool. rewrite H3.
    by rewrite IHl, IHr by (done || lia).
  - destruct Hwf. apply andb_true_iff in Hp as [? ?]. zbool. by rewrite IHl, IHr by (done || lia).
  - by rewrite IHx.
  - apply prim_agree; [done|done|lia|done].
Qed.
End targets.

Lemma portable_fit e : portable e = true → fit e = true.
Proof.
  induction e as [l IHl r IHr|l IHl r IHr|x IHx|p]; cbn [portable fit]; intros H;
    [apply andb_true_iff in H as [? ?]; by rewrite IHl, IHr..|auto|].
  destruct p; try done. cbn [portable_prim] in H. by apply andb_true_iff in H as [? _].
Qed.




