(* ===== verification/Lib.v ===== *)
(** The interface of the crate (lib.rs): the pipeline from a filter string to a
    program for either target. The two back ends and the two instruction sets
    keep their file names as qualifiers here. *)

From S2P Require EbpfCodegen.
From S2P Require Export ParserRoundtrip CompileSound.

Inductive Target := Classic | Extended.

Inductive Program :=
  | PClassic (p : Bpf.Program)
  | PExtended (p : Ebpf.Program).

Definition len (p : Program) : Z :=
  match p with PClassic p => Bpf.len p | PExtended p => Ebpf.len p end.

Definition is_empty (p : Program) : bool := len p =? 0.

Definition to_le_bytes (p : Program) : list Z :=
  match p with PClassic p => Bpf.to_le_bytes p | PExtended p => Ebpf.to_le_bytes p end.

Definition as_classic (p : Program) : option Bpf.Program :=
  match p with PClassic p => Some p | PExtended _ => None end.

Definition as_extended (p : Program) : option Ebpf.Program :=
  match p with PClassic _ => None | PExtended p => Some p end.

(** [instructions] panics on an extended program. *)
Definition instructions (p : Program) : outcome (list Bpf.Insn) :=
  match as_classic p with Some p => Ok (Bpf.instructions p) | None => Panic end.

Definition parse (filter : string) : outcome Expr :=
  tokens ← lex filter;
  Parser.parse tokens.

Definition compile (filter : string) (link : LinkType) (target : Target) : outcome Program :=
  tokens ← lex filter;
  ast ← Parser.parse tokens;
  match target with
  | Classic => PClassic <$> Compile.compile ast link
  | Extended => PExtended <$> EbpfCodegen.compile ast link
  end.

(** * From the filter string on *)

(** The instructions a tree needs are bounded by the tokens it was read from. *)
Lemma cost_weight e : cost e + 28 ≤ 92 * weight e.
Proof.
  induction e as [l IHl r IHr|l IHl r IHr|x IHx|p]; simpl; try lia.
  destruct p; simpl; try lia. pose proof (zlen_nonneg (ba_alu_ops ba)). lia.
Qed.

Lemma zlen_increasing lo hi toks : lo ≤ hi → increasing lo hi toks → zlen toks ≤ hi - lo.
Proof.
  revert lo. induction toks as [|t toks IH]; intros lo Hlo [Hs Hf]; [rewrite zlen_nil; lia|].
  cbn [map] in Hs. apply Sorted.StronglySorted_inv in Hs as [Hs Hlt].
  apply Forall_cons in Hf as [Ht Hf]. rewrite zlen_cons.
  enough (zlen toks ≤ hi - (sp_offset t + 1)) by lia.
  apply IH; [lia|]. split; [done|]. rewrite List.Forall_map in Hlt.
  rewrite Forall_forall in *. intros x Hx. specialize (Hf x Hx). specialize (Hlt x Hx). simpl in *. lia.
Qed.

Lemma parse_ok filter :
  match parse filter with
  | Ok e => wf_expr e ∧ weight e ≤ slen filter
  | Err _ => True
  | _ => False
  end.
Proof.
  unfold parse, mbind, outcome_bind. pose proof (lex_ok filter) as Hl.
  destruct (lex filter) as [toks| | |]; try done. destruct Hl as [Hw Hi].
  pose proof (parse_sound toks Hw) as Hp. destruct (Parser.parse toks) as [e| | |]; try done.
  destruct Hp. split; [done|].
  pose proof (zlen_increasing 0 (slen filter) toks (slen_nonneg _) Hi). lia.
Qed.

(** The back end runs on the tree that [parse] gives. *)
Lemma compile_parse filter link :
  compile filter link Classic = (e ← parse filter; PClassic <$> Compile.compile e link).
Proof.
  unfold compile, parse, mbind, outcome_bind. by destruct (lex filter).
Qed.

(** Below two megabytes of text, no tree is too large for the back end. *)
Lemma parse_cost filter e : parse filter = Ok e → slen filter < 2 ^ 21 → wf_expr e ∧ cost e < 2 ^ 28.
Proof.
  intros E Hl. pose proof (parse_ok filter) as H. rewrite E in H. destruct H as [Hw Hn].
  split; [done|]. pose proof (cost_weight e). lia.
Qed.

(** C10: parsing terminates on every string, without a panic: the result is a tree
    or an error. *)
Theorem parse_returns (filter : string) : returns (parse filter).
Proof. pose proof (parse_ok filter). by destruct (parse filter). Qed.

(** C25: a tree that is parsed is well formed, every number in it within its type,
    and has no more primitives, negations and arithmetic operators than the
    string has bytes. *)
Theorem parse_wf (filter : string) (e : Expr) :
  parse filter = Ok e → wf_expr e ∧ weight e ≤ slen filter.
Proof. intros E. pose proof (parse_ok filter) as H. by rewrite E in H. Qed.

Lemma parse_wf_witness :
  wf_expr (And (Prim (PProto Tcp)) (Not (Prim (PPort 80 SrcOrDst None)))).
Proof. apply (parse_wf "tcp and not port 80"). vm_compute. reflexivity. Defined.

(** C7: compiling for the classic target never panics: every filter of less than
    two megabytes, on every link type, gives a program or an error. *)
Theorem compile_classic_returns (filter : string) (link : LinkType) :
  slen filter < 2 ^ 21 → returns (compile filter link Classic).
Proof.
  intros Hl. rewrite compile_parse. pose proof (parse_ok filter) as H.
  destruct (parse filter) as [e| | |] eqn:E; simpl; try done.
  destruct (parse_cost filter e E Hl) as [Hw Hc].
  pose proof (compile_spec e link [] Hw Hc (Forall_nil_2 _)) as Hs.
  by destruct (Compile.compile e link).
Qed.

Lemma compile_classic_returns_witness : returns (compile "tcp port 80 or (" Ethernet Classic).
Proof. apply (compile_classic_returns "tcp port 80 or (" Ethernet). by vm_compute. Defined.

(** From the text to the verdict. *)
Lemma compile_filter_runs (filter : string) (link : LinkType) (e : Expr)
    (p : Bpf.Program) (pkt : list Z) :
  parse filter = Ok e → slen filter < 2 ^ 21 → supported e = true →
  Forall is_u8 pkt → needs link pkt 0 e ≤ zlen pkt →
  compile filter link Classic = Ok (PClassic p) → matches p pkt = sem link pkt 0 e.
Proof.
  intros E Hl Hs Hpkt Hlen. rewrite compile_parse, E. simpl.
  destruct (parse_cost filter e E Hl) as [Hw Hc].
  pose proof (compile_spec e link pkt Hw Hc Hpkt) as H.
  destruct (Compile.compile e link) as [p'| | |]; try done. intros [= ->].
  unfold matches, run. destruct (H Hs) as [[_ ?]| ->]; [lia|done].
Qed.



(** * Back to text *)

(** A filter string of a tree: a blank behind each token. *)
Definition show_filter (e : Expr) : string := show_tokens (show_expr false e).

Lemma parse_show e :
  canonical_expr e → parens false e ≤ MAX_PAREN_DEPTH → parse (show_filter e) = Ok e.
Proof.
  intros Hc Hd. unfold parse, show_filter.
  destruct (lex_back (show_expr false e)) as (toks & E & Ht); [by apply printable_expr|].
  rewrite E. by apply parse_show_expr.
Qed.

(** C9: every tree in canonical form, nested no deeper than the parser allows, is
    parsed back from its text: [and] and [or] fold to the left on one level,
    [not] binds tighter, parentheses group, and each primitive is read in full. *)
Theorem parse_show_filter (e : Expr) :
  canonical_expr e → parens false e ≤ MAX_PAREN_DEPTH → parse (show_filter e) = Ok e.
Proof. apply parse_show. Qed.

Definition sample_tree : Expr :=
  Not (And (Or (Prim (PProto Tcp)) (Prim (PPort 80 Src (Some Udp))))
           (Or (Prim (PNet (mk_ip_net 0x0a010000 0xffff0000) Dst))
               (Prim (PByteAccess (mk_byte_access Net 8 Half [(And_, 15)] Gt_ (Const 7)))))).

Lemma parse_show_filter_witness :
  show_filter sample_tree =
    "not ( tcp or src udp port 80 and ( dst net 10.1.0.0 mask 255.255.0.0 or ip [ 8 : 2 ] & 15 > 7 ) ) "%string ∧
  parse (show_filter sample_tree) = Ok sample_tree.
Proof.
  split; [vm_compute; reflexivity|]. apply (parse_show_filter sample_tree); [|by vm_compute].
  cbn [canonical_expr sample_tree]. split_and!; (split; [|try done]).
  - done.
  - by vm_compute.
  - apply (bool_decide_unpack _). by vm_compute.
  - split; by vm_compute.
  - split; [by vm_compute|]. split; [|by vm_compute]. constructor; [by vm_compute|constructor].
Defined.
