(* ===== verification/Files.v ===== *)
(** Capture files (pkttap's codec.rs, dump.rs and file.rs, and the filter
    helper of capture.rs). The crate [pcap-file] that encodes the two formats is
    a class of operations; a file is the list of its bytes, and what the system
    answers when a file is opened or created is an argument. *)

From S2P Require Export Tap.
From S2P Require Vm Lib.

(** * The crate pcap-file *)

Record PcapPacket := mk_pcap_packet {
  pp_timestamp : Duration;
  pp_orig_len : Z;
  pp_data : list Z;
}.

(** A block of a pcapng file, as far as the code looks at it; a section header
    begins a new section, in which interfaces are numbered from 0 again. *)
Inductive Block (DL : Type) :=
  | SectionHeader
  | InterfaceDescription (linktype : DL) (snaplen : Z)
  | EnhancedPacket (interface_id : Z) (timestamp : Duration) (original_len : Z) (data : list Z)
  | SimplePacket (original_len : Z) (data : list Z)
  | PacketBlock (interface_id : Z) (timestamp : Z) (original_len : Z) (data : list Z)
  | OtherBlock.
Arguments SectionHeader {DL}.
Arguments InterfaceDescription {DL}.
Arguments EnhancedPacket {DL}.
Arguments SimplePacket {DL}.
Arguments PacketBlock {DL}.
Arguments OtherBlock {DL}.

(** Readers and writers are states; [*_written] is the content of the file
    behind a writer. A reader answers [None] at the end of the file. *)
Class PcapCrate `{PcapErrors} := {
  DataLink : Type;
  DataLink_eq_dec :: EqDecision DataLink;
  DL_ETHERNET : DataLink;
  DL_RAW : DataLink;
  DL_LINUX_SLL : DataLink;

  PcapReader : Type;
  pcap_new : list Z → PcapError + PcapReader;
  pcap_datalink : PcapReader → DataLink;
  pcap_next : PcapReader → option (PcapError + PcapPacket) * PcapReader;

  PcapNgReader : Type;
  ng_new : list Z → PcapError + PcapNgReader;
  ng_next : PcapNgReader → option (PcapError + Block DataLink) * PcapNgReader;

  PcapWriter : Type;
  pcap_with_header : DataLink → PcapError + PcapWriter;
  pcap_write : PcapPacket → PcapWriter → option PcapError * PcapWriter;
  pcap_written : PcapWriter → list Z;

  PcapNgWriter : Type;
  ng_writer_new : PcapError + PcapNgWriter;
  ng_write : Block DataLink → PcapNgWriter → option PcapError * PcapNgWriter;
  ng_written : PcapNgWriter → list Z;
}.

Definition from_pcap `{PcapErrors} {A} (r : PcapError + A) : Result A :=
  match r with inl e => RErr (Pcap e) | inr a => ROk a end.

Section files.
Context `{PcapCrate}.

(** * Link types (codec.rs) *)

Definition datalink_to_link_type (dl : DataLink) : LinkType :=
  if decide (dl = DL_ETHERNET) then Ethernet
  else if decide (dl = DL_RAW) then RawIp
  else if decide (dl = DL_LINUX_SLL) then LinuxSll
  else Ethernet.

Definition link_type_to_datalink (lt : LinkType) : DataLink :=
  match lt with
  | Ethernet => DL_ETHERNET
  | RawIp => DL_RAW
  | LinuxSll => DL_LINUX_SLL
  end.

(** * Filters (capture.rs) *)

Inductive FilterSpec :=
  | FilterString (s : string)
  | FilterProgram (p : Bpf.Program).

Definition compile_filter (spec : option FilterSpec) (link : LinkType) : Result (option Bpf.Program) :=
  match spec with
  | None => ROk None
  | Some (FilterProgram p) => ROk (Some p)
  | Some (FilterString s) =>
      prog ← from_filter (Lib.compile s link Lib.Classic);
      match prog with
      | Lib.PClassic p => ROk (Some p)
      | Lib.PExtended _ => RErr (Platform "unexpected eBPF program for live capture")
      end
  end.

(** * Writing (dump.rs) *)

(** [Path::extension]: what is behind the last dot of the last component, when
    a name is in front of it. *)
Definition path_components (path : string) : list string :=
  List.filter (λ c, negb (String.eqb c "" || String.eqb c ".")) (str_split "/"%char path).

Definition file_name (path : string) : option string :=
  match last (path_components path) with
  | Some c => if String.eqb c ".." then None else Some c
  | None => None
  end.

Definition path_extension (path : string) : option string :=
  name ← file_name path;
  match rev (str_split "."%char name) with
  | ext :: (_ :: _) as stem => if decide (rev stem = [""%string]) then None else Some ext
  | _ => None
  end.

Fixpoint to_ascii_lowercase (s : string) : string :=
  match s with
  | EmptyString => EmptyString
  | String c s' =>
      String (if is_ascii_upper c then ascii_of_nat (nat_of_ascii c + 32) else c) (to_ascii_lowercase s')
  end.

Inductive DumpInner :=
  | DPcap (w : PcapWriter)
  | DPcapNg (w : PcapNgWriter).

(** A [Dump] is its writer. *)
Definition Dump : Type := DumpInner.

Record DumpBuilder := mk_dump_builder {
  db_path : string;
  db_link_type : option LinkType;
}.

Definition to_file (path : string) : DumpBuilder := mk_dump_builder path None.

Definition with_link_type (lt : LinkType) (b : DumpBuilder) : DumpBuilder :=
  mk_dump_builder (db_path b) (Some lt).

(** The format header behind an extension. *)
Definition dump_format (ext : string) (lt : LinkType) : Result Dump :=
  if String.eqb ext "pcap" then
    w ← from_pcap (pcap_with_header (link_type_to_datalink lt));
    ROk (DPcap w)
  else if String.eqb ext "pcapng" then
    w ← from_pcap ng_writer_new;
    match ng_write (InterfaceDescription (link_type_to_datalink lt) 65535) w with
    | (None, w) => ROk (DPcapNg w)
    | (Some e, _) => RErr (Pcap e)
    end
  else RErr (Platform ("unknown extension '." ++ ext ++ "': Dump requires .pcap or .pcapng")).

Definition extension_of (path : string) : string :=
  to_ascii_lowercase (unwrap_or ""%string (path_extension path)).

(** [created] is the answer of [File::create], which empties the file: whether
    that happened is returned too. *)
Definition dump_open (created : option io_error) (b : DumpBuilder) : Result Dump * bool :=
  match db_link_type b, created with
  | None, _ => (RErr (Platform "Dump::open requires a link type — call .link_type() on the builder"), false)
  | Some _, Some e => (RErr (from_io e), false)
  | Some lt, None => (dump_format (extension_of (db_path b)) lt, true)
  end.

Definition written_answer (e : option PcapError) : Result unit :=
  match e with Some e => RErr (Pcap e) | None => ROk tt end.

Definition write_packet (pkt : PacketRef) (d : Dump) : Result unit * Dump :=
  let ts := since_epoch (pr_timestamp pkt) in
  match d with
  | DPcap w =>
      let '(e, w) := pcap_write (mk_pcap_packet ts (pr_orig_len pkt) (pr_data pkt)) w in
      (written_answer e, DPcap w)
  | DPcapNg w =>
      let '(e, w) := ng_write (EnhancedPacket 0 ts (pr_orig_len pkt) (pr_data pkt)) w in
      (written_answer e, DPcapNg w)
  end.

Definition flush (d : Dump) : Result unit := ROk tt.

Definition dump_written (d : Dump) : list Z :=
  match d with DPcap w => pcap_written w | DPcapNg w => ng_written w end.

Fixpoint dump_each (packets : list Packet) (d : Dump) : Result unit * Dump :=
  match packets with
  | [] => (ROk tt, d)
  | pkt :: packets' =>
      match write_packet (as_ref pkt) d with
      | (ROk _, d) => dump_each packets' d
      | (RErr e, d) => (RErr e, d)
      | (RPanic, d) => (RPanic, d)
      end
  end.

(** [dump_packets] (lib.rs): the answer, and what has become of the file; when
    opening fails behind [File::create], the old content is lost. *)
Inductive file_effect := Untouched | Overwritten | Holds (content : list Z).

Definition dump_packets (created : option io_error) (path : string) (packets : list Packet)
    (link_type : LinkType) : Result unit * file_effect :=
  match dump_open created (with_link_type link_type (to_file path)) with
  | (ROk d, _) => let '(r, d) := dump_each packets d in (r, Holds (dump_written d))
  | (RErr e, emptied) => (RErr e, if emptied then Overwritten else Untouched)
  | (RPanic, emptied) => (RPanic, if emptied then Overwritten else Untouched)
  end.

(** * Reading (file.rs) *)

Record PktMeta := mk_pkt_meta {
  pm_len : Z;
  pm_ts_sec : Z;
  pm_ts_nsec : Z;
  pm_orig_len : Z;
  pm_link_type : LinkType;
}.

Inductive FileInner :=
  | FPcap (r : PcapReader)
  | FPcapNg (r : PcapNgReader).

Record FileCapture := mk_file_capture {
  fc_inner : FileInner;
  fc_filter : option Bpf.Program;
  fc_link_type : LinkType;
  fc_idb_link_types : list LinkType;
  fc_scratch : list Z;
}.

Definition PCAPNG_MAGIC : list Z := [0x0a; 0x0d; 0x0d; 0x0a].

(** The bytes of the file, or the error of the first read. *)
Definition file_open (file : io_error + list Z) (filter : option FilterSpec) : Result FileCapture :=
  match file with
  | inl e => RErr (from_io e)
  | inr content =>
      if zlen content <? 4 then RErr (Platform "file too short")
      else if decide (take 4 content = PCAPNG_MAGIC) then
        ng ← from_pcap (ng_new content);
        compiled ← compile_filter filter Ethernet;
        ROk (mk_file_capture (FPcapNg ng) compiled Ethernet [] [])
      else
        pcap ← from_pcap (pcap_new content);
        let link_type := datalink_to_link_type (pcap_datalink pcap) in
        compiled ← compile_filter filter link_type;
        ROk (mk_file_capture (FPcap pcap) compiled link_type [] [])
  end.

(** The buffer after [fill_scratch], and the length it returns. *)
Definition fill_scratch (scratch src : list Z) : list Z * Z := (src, zlen src).

Definition fetch_pcap (r : PcapReader) (scratch : list Z) (link_type : LinkType) :
    Result (option PktMeta) * (PcapReader * list Z) :=
  match pcap_next r with
  | (None, r) => (ROk None, (r, scratch))
  | (Some (inl e), r) => (RErr (Pcap e), (r, scratch))
  | (Some (inr pkt), r) =>
      let ts := pp_timestamp pkt in
      let '(scratch, len) := fill_scratch scratch (pp_data pkt) in
      (ROk (Some (mk_pkt_meta len (d_secs ts) (d_nanos ts) (pp_orig_len pkt) link_type)), (r, scratch))
  end.

(** What a packet block gives; the other blocks give none. *)
Definition idb_get (idb_types : list LinkType) (id : Z) : LinkType :=
  unwrap_or Ethernet (zget idb_types id).

Definition block_meta (idb_types : list LinkType) (scratch : list Z) (b : Block DataLink) :
    option (PktMeta * list Z) :=
  match b with
  | EnhancedPacket id ts original_len data =>
      let '(scratch, len) := fill_scratch scratch data in
      Some (mk_pkt_meta len (d_secs ts) (d_nanos ts) original_len (idb_get idb_types id), scratch)
  | SimplePacket original_len data =>
      let '(scratch, len) := fill_scratch scratch data in
      Some (mk_pkt_meta len 0 0 original_len (idb_get idb_types 0), scratch)
  | PacketBlock id ts_usec original_len data =>
      let '(scratch, len) := fill_scratch scratch data in
      Some (mk_pkt_meta len (ts_usec / 1000000) (as_u32 (ts_usec mod 1000000 * 1000)) original_len
              (idb_get idb_types id), scratch)
  | InterfaceDescription _ _ | SectionHeader | OtherBlock => None
  end.

Definition idb_push (idb_types : list LinkType) (b : Block DataLink) : list LinkType :=
  match b with
  | InterfaceDescription linktype _ => idb_types ++ [datalink_to_link_type linktype]
  | _ => idb_types
  end.

(** The loop over the blocks: [None] when the fuel does not suffice. *)
Fixpoint fetch_pcapng (n : nat) (r : PcapNgReader) (scratch : list Z) (idb_types : list LinkType) :
    option (Result (option PktMeta) * (PcapNgReader * list Z * list LinkType)) :=
  match n with
  | O => None
  | S n' =>
      match ng_next r with
      | (None, r) => Some (ROk None, (r, scratch, idb_types))
      | (Some (inl e), r) => Some (RErr (Pcap e), (r, scratch, idb_types))
      | (Some (inr b), r) =>
          match block_meta idb_types scratch b with
          | Some (meta, scratch) => Some (ROk (Some meta), (r, scratch, idb_types))
          | None => fetch_pcapng n' r scratch (idb_push idb_types b)
          end
      end
  end.

Definition fetch (n : nat) (c : FileCapture) : option (Result (option PktMeta) * FileCapture) :=
  let '(mk_file_capture inner filter link_type idb scratch) := c in
  match inner with
  | FPcap r =>
      let '(x, (r, scratch)) := fetch_pcap r scratch link_type in
      Some (x, mk_file_capture (FPcap r) filter link_type idb scratch)
  | FPcapNg r =>
      '(x, (r, scratch, idb)) ← fetch_pcapng n r scratch idb;
      Some (x, mk_file_capture (FPcapNg r) filter link_type idb scratch)
  end.

(** Whether a filter lets a packet through. *)
Definition admits (filter : option Bpf.Program) (data : list Z) : bool :=
  match filter with Some prog => Vm.matches prog data | None => true end.

(** The loop of [next_packet]. *)
Fixpoint file_next (n : nat) (c : FileCapture) : option (Result (option PacketRef) * FileCapture) :=
  match n with
  | O => None
  | S n' =>
      '(fetched, c) ← fetch n c;
      match fetched with
      | ROk None => Some (ROk None, c)
      | ROk (Some meta) =>
          match slice_to (pm_len meta) (fc_scratch c) with
          | ROk data =>
              if admits (fc_filter c) data then
                Some (Some <$> PacketRef_new data (pm_ts_sec meta) (pm_ts_nsec meta) (pm_orig_len meta)
                                 (pm_link_type meta), c)
              else file_next n' c
          | RErr e => Some (RErr e, c)
          | RPanic => Some (RPanic, c)
          end
      | RErr e => Some (RErr e, c)
      | RPanic => Some (RPanic, c)
      end
  end.

(** A client's loop [while let Some(pkt) = cap.next()? { .. }] (the example of
    lib.rs): the packets it sees, and how it ends. *)
Fixpoint read_all (n : nat) (c : FileCapture) : option (list PacketRef * Result unit) :=
  match n with
  | O => None
  | S n' =>
      '(next, c) ← file_next n c;
      match next with
      | ROk None => Some ([], ROk tt)
      | ROk (Some pkt) => '(pkts, end_) ← read_all n' c; Some (pkt :: pkts, end_)
      | RErr e => Some ([], RErr e)
      | RPanic => Some ([], RPanic)
      end
  end.
End files.
