(* ===== verification/FilesSound.v ===== *)
(** What a capture file delivers: [FileCapture] is a stream of the packets of the
    file that pass the filter, each with the link type of its interface. *)

From S2P Require Export Files.
From S2P Require CompileSound.

(** A reader answers the elements of a list, and then the end of the file. *)
Inductive streams {R X} (next : R → option X * R) : R → list X → Prop :=
  | streams_end r r' : next r = (None, r') → streams next r []
  | streams_more r x r' l : next r = (Some x, r') → streams next r' l → streams next r (x :: l).

(** The elements of a stream that ends within [n] steps. *)
Fixpoint drain {R X} (next : R → option X * R) (n : nat) (r : R) : option (list X) :=
  match n with
  | O => None
  | S n' =>
      match next r with
      | (None, _) => Some []
      | (Some x, r') => l ← drain next n' r'; Some (x :: l)
      end
  end.

Lemma drain_streams {R X} (next : R → option X * R) n : ∀ r l, drain next n r = Some l → streams next r l.
Proof.
  induction n as [|n IH]; intros r l; cbn [drain]; [done|].
  destruct (next r) as [[x|] r'] eqn:E; [|intros [= <-]; by eapply streams_end].
  intros (l' & Hl & [= <-])%bind_Some. eapply streams_more; [done|]. by apply IH.
Qed.

Section stream.
Context `{PcapCrate}.

(** * The specification: a filtered list of packets *)

(** A packet as its reader describes it. *)
Record view := mk_view {
  v_data : list Z;
  v_secs : Z;
  v_nanos : Z;
  v_orig_len : Z;
  v_link : LinkType;
}.

(** The link type that a number of the format stands for. *)
Definition link_numbers : list (DataLink * LinkType) :=
  [(DL_ETHERNET, Ethernet); (DL_RAW, RawIp); (DL_LINUX_SLL, LinuxSll)].

Definition named (dl : DataLink) : LinkType :=
  match List.find (λ x, bool_decide (x.1 = dl)) link_numbers with
  | Some (_, lt) => lt
  | None => Ethernet
  end.

Definition packet_view (lt : LinkType) (p : PcapPacket) : view :=
  mk_view (pp_data p) (d_secs (pp_timestamp p)) (d_nanos (pp_timestamp p)) (pp_orig_len p) lt.

(** The interfaces that the blocks of a section describe, in their order: an
    interface is named by its place among them. *)
Definition interfaces : list (Block DataLink) → list DataLink :=
  omap (λ b, match b with InterfaceDescription dl _ => Some dl | _ => None end).

(** The link type of an interface, Ethernet if it is not described. *)
Definition interface_link (before : list (Block DataLink)) (id : Z) : LinkType :=
  match zget (interfaces before) id with Some dl => named dl | None => Ethernet end.

(** The packet of a block that comes behind others of its section. *)
Definition block_view (before : list (Block DataLink)) (b : Block DataLink) : option view :=
  match b with
  | EnhancedPacket id ts orig data =>
      Some (mk_view data (d_secs ts) (d_nanos ts) orig (interface_link before id))
  | SimplePacket orig data => Some (mk_view data 0 0 orig (interface_link before 0))
  | PacketBlock id us orig data =>
      Some (mk_view data (us / 1000000) (us mod 1000000 * 1000) orig (interface_link before id))
  | SectionHeader | InterfaceDescription _ _ | OtherBlock => None
  end.

(** A new section begins with nothing before it. *)
Definition behind (before : list (Block DataLink)) (b : Block DataLink) : list (Block DataLink) :=
  match b with SectionHeader => [] | _ => before ++ [b] end.

(** The packets of a list of blocks, each with the link type of the interface it
    names in its section. *)
Fixpoint block_views (before : list (Block DataLink)) (l : list (PcapError + Block DataLink)) :
    list (PcapError + view) :=
  match l with
  | [] => []
  | inl e :: l' => inl e :: block_views before l'
  | inr b :: l' => option_list (inr <$> block_view before b) ++ block_views (behind before b) l'
  end.

(** The time of a packet is one that [SystemTime] holds. *)
Definition timely (x : PcapError + view) : Prop :=
  match x with
  | inl _ => True
  | inr v => 0 ≤ v_secs v ∧ 0 ≤ v_nanos v ∧ v_secs v + v_nanos v / 10 ^ 9 < 2 ^ 63
  end.

Definition view_packet (v : view) : PacketRef :=
  mk_packet_ref (v_data v) (mk_time (v_secs v + v_nanos v / 10 ^ 9) (v_nanos v mod 10 ^ 9))
    (v_orig_len v) (v_link v).

Definition passes (filter : option Bpf.Program) (v : view) : bool :=
  match filter with Some prog => Vm.matches prog (v_data v) | None => true end.

(** What a client sees: up to the first error, the packets that pass. *)
Fixpoint deliver (filter : option Bpf.Program) (l : list (PcapError + view)) :
    list PacketRef * Result unit :=
  match l with
  | [] => ([], ROk tt)
  | inl e :: _ => ([], RErr (Pcap e))
  | inr v :: l' =>
      if passes filter v then let '(pkts, end_) := deliver filter l' in (view_packet v :: pkts, end_)
      else deliver filter l'
  end.

Lemma packet_of_view v :
  timely (inr v) →
  PacketRef_new (v_data v) (v_secs v) (v_nanos v) (v_orig_len v) (v_link v) = ROk (view_packet v).
Proof. intros (? & ? & ?). by apply PacketRef_new_ok. Qed.

(** * The interfaces that the code has seen *)

Lemma named_datalink dl : datalink_to_link_type dl = named dl.
Proof.
  unfold datalink_to_link_type, named. cbn [List.find link_numbers fst].
  repeat (case_decide || case_bool_decide); try done; by subst.
Qed.

Lemma zget_map {A B} (f : A → B) l i : zget (map f l) i = f <$> zget l i.
Proof. rewrite !zget_spec. case_decide; [|done]. apply list_lookup_fmap. Qed.

Lemma idb_get_link before id : idb_get (map named (interfaces before)) id = interface_link before id.
Proof. unfold idb_get, interface_link. rewrite zget_map. by destruct (zget _ _). Qed.

(** Within a section. *)
Lemma idb_push_interfaces before b :
  b ≠ SectionHeader →
  idb_push (map named (interfaces before)) b = map named (interfaces (behind before b)).
Proof.
  intros Hb. destruct b; try done; unfold interfaces, behind; rewrite omap_app, map_app;
    simpl; by rewrite ?app_nil_r, ?named_datalink.
Qed.

Lemma block_view_push before b v :
  block_view before b = Some v →
  map named (interfaces before) = map named (interfaces (behind before b)).
Proof. intros Hv. rewrite <- idb_push_interfaces by (by intros ->). by destruct b. Qed.

Definition single_section (l : list (PcapError + Block DataLink)) : Prop :=
  Forall (λ x, x ≠ inr SectionHeader) l.

(** * The implementation *)

(** What is left of a file to read. *)
Definition pending (c : FileCapture) (n : nat) (l : list (PcapError + view)) : Prop :=
  match fc_inner c with
  | FPcap r => ∃ ps, streams pcap_next r ps ∧ length ps = n ∧
      l = map (λ x, match x with inl e => inl e | inr p => inr (packet_view (fc_link_type c) p) end) ps
  | FPcapNg r => ∃ bs, streams ng_next r bs ∧ length bs = n ∧ single_section bs ∧ ∃ before,
      fc_idb_link_types c = map named (interfaces before) ∧ l = block_views before bs
  end.

(** The result of a fetch: the next packet is in the buffer. *)
Definition fetched (c : FileCapture) (l : list (PcapError + view)) (m : nat)
    (out : Result (option PktMeta) * FileCapture) : Prop :=
  let '(x, c') := out in
  fc_filter c' = fc_filter c ∧
  match l with
  | [] => x = ROk None
  | inl e :: _ => x = RErr (Pcap e)
  | inr v :: l' => ∃ m', (m' < m)%nat ∧ pending c' m' l' ∧ fc_scratch c' = v_data v ∧
      x = ROk (Some (mk_pkt_meta (zlen (v_data v)) (v_secs v) (v_nanos v) (v_orig_len v) (v_link v)))
  end.

Lemma as_u32_micros us : as_u32 (us mod 1000000 * 1000) = us mod 1000000 * 1000.
Proof. apply Z.mod_small. pose proof (Z.mod_pos_bound us 1000000). lia. Qed.

Lemma block_meta_view before scratch b :
  block_meta (map named (interfaces before)) scratch b =
  (v ← block_view before b;
   Some (mk_pkt_meta (zlen (v_data v)) (v_secs v) (v_nanos v) (v_orig_len v) (v_link v), v_data v)).
Proof. destruct b; cbn; rewrite ?as_u32_micros, ?idb_get_link; reflexivity. Qed.

(** The loop over the blocks stops at the first packet. *)
Lemma fetch_pcapng_ok bs n r scratch before filter lt :
  streams ng_next r bs → single_section bs → (length bs < n)%nat →
  ∃ x r' scratch' idb',
    fetch_pcapng n r scratch (map named (interfaces before)) = Some (x, (r', scratch', idb')) ∧
    ∀ c, fc_filter c = filter →
      fetched c (block_views before bs) (length bs)
        (x, mk_file_capture (FPcapNg r') filter lt idb' scratch').
Proof.
  intros Hs. revert n scratch before. induction Hs as [r r' E|r x r' l E Hs IH]; intros n scratch before Hone Hn;
    (destruct n as [|n]; [simpl in Hn; lia|]); cbn [fetch_pcapng]; rewrite E.
  - eexists _, _, _, _. split; [done|]. intros c <-. by split.
  - apply Forall_cons in Hone as [Hx Hone].
    destruct x as [e|b]; [eexists _, _, _, _; split; [done|]; intros c <-; by split|].
    rewrite block_meta_view. cbn [block_views length] in *.
    destruct (block_view before b) as [v|] eqn:Ev; simpl.
    + eexists _, _, _, _. split; [done|]. intros c <-. split; [done|].
      exists (length l). split; [lia|]. split; [|done]. exists l. split_and!; [done..|].
      exists (behind before b). split; [|done]. by eapply block_view_push.
    + rewrite idb_push_interfaces by (intros ->; done).
      destruct (IH n scratch (behind before b) Hone ltac:(lia)) as (x & r2 & sc & idb2 & -> & Hf).
      eexists _, _, _, _. split; [done|]. intros c Hc.
      specialize (Hf c Hc) as [Hk Hf]. split; [done|].
      destruct (block_views _ l) as [|[e|v] l']; [done..|].
      destruct Hf as (m' & ? & ?). exists m'. split; [lia|done].
Qed.

Lemma fetch_ok c m l n :
  pending c m l → (m < n)%nat → ∃ out, fetch n c = Some out ∧ fetched c l m out.
Proof.
  destruct c as [[r|r] filter lt idb scratch]; cbn [fetch].
  - intros (ps & Hs & <- & ->) Hn.
    unfold fetch_pcap. destruct Hs as [r r' E|r x r' l E Hs]; rewrite E; [eexists; split; [done|]; by split|].
    destruct x as [e|p]; (eexists; split; [done|]); [by split|].
    split; [done|]. exists (length l). simpl. split; [lia|]. split; [by exists l|done].
  - intros (bs & Hs & <- & Hone & before & Hidb & ->) Hn. simpl in Hidb. subst idb.
    destruct (fetch_pcapng_ok bs n r scratch before filter lt Hs Hone Hn) as (x & r' & sc & idb' & -> & Hf).
    eexists. split; [done|]. by apply Hf.
Qed.

(** A call of [next_packet] skips what the filter rejects. *)
Lemma file_next_ok m : ∀ c l n,
  pending c m l → Forall timely l → (m < n)%nat →
  ∃ x c', file_next n c = Some (x, c') ∧
    match x with
    | ROk (Some pkt) => fc_filter c' = fc_filter c ∧
        ∃ m' l', (m' < m)%nat ∧ pending c' m' l' ∧ Forall timely l' ∧
        deliver (fc_filter c) l = (pkt :: (deliver (fc_filter c) l').1, (deliver (fc_filter c) l').2)
    | ROk None => deliver (fc_filter c) l = ([], ROk tt)
    | RErr e => deliver (fc_filter c) l = ([], RErr e)
    | RPanic => deliver (fc_filter c) l = ([], RPanic)
    end.
Proof.
  induction m as [m IH] using lt_wf_ind. intros c l n Hp Ht Hn. destruct n as [|n]; [lia|].
  destruct (fetch_ok c m l (S n) Hp Hn) as ([x c'] & E & Hk & Hf). cbn [file_next]. rewrite E. simpl.
  destruct l as [|[e|v] l]; [subst x; by eexists _, _..|].
  destruct Hf as (m' & Hm & Hp' & Hsc & ->). apply Forall_cons in Ht as [Hv Ht].
  cbn [pm_len]. rewrite Hsc, slice_to_all, Hk.
  cbn [deliver pm_ts_sec pm_ts_nsec pm_orig_len pm_link_type].
  change (admits (fc_filter c) (v_data v)) with (passes (fc_filter c) v). destruct (passes _ v).
  - eexists _, _. split; [done|]. rewrite packet_of_view by done. simpl. split; [done|].
    exists m', l. split_and!; [done..|]. by destruct (deliver _ l).
  - destruct (IH m' Hm c' l n Hp' Ht ltac:(lia)) as (x & c2 & E2 & Hx). rewrite Hk in Hx.
    eexists _, _. split; [done|].
    destruct x as [[pkt|]|e|]; [|done..].
    destruct Hx as (? & m2 & l2 & ? & ? & ? & ?). split; [done|]. exists m2, l2. split; [lia|done].
Qed.

Lemma read_all_ok m : ∀ c l n,
  pending c m l → Forall timely l → (m < n)%nat → read_all n c = Some (deliver (fc_filter c) l).
Proof.
  induction m as [m IH] using lt_wf_ind. intros c l n Hp Ht Hn. destruct n as [|n]; [lia|].
  destruct (file_next_ok m c l (S n) Hp Ht Hn) as (x & c' & E & Hx). cbn [read_all]. rewrite E. simpl.
  destruct x as [[pkt|]|e|]; try (by rewrite Hx).
  destruct Hx as (Hk & m' & l' & Hm & Hp' & Ht' & ->). rewrite (IH m' Hm c' l' n Hp' Ht') by lia.
  rewrite Hk. simpl. by destruct (deliver _ l').
Qed.

(** * From the bytes on *)

(** The packets a file holds, read to the end by the crate, the number of steps
    that takes, and the link type of the file: a pcapng file has none for all
    its packets, and is taken for one of Ethernet frames. *)
Definition file_views (content : list Z) (lt : LinkType) (m : nat) (l : list (PcapError + view)) : Prop :=
  if decide (take 4 content = [0x0a; 0x0d; 0x0d; 0x0a]) then
    lt = Ethernet ∧
    ∃ r bs, ng_new content = inr r ∧ streams ng_next r bs ∧ length bs = m ∧ single_section bs ∧
      l = block_views [] bs
  else
    ∃ r ps, pcap_new content = inr r ∧ lt = named (pcap_datalink r) ∧
      streams pcap_next r ps ∧ length ps = m ∧
      l = map (λ x, match x with inl e => inl e | inr p => inr (packet_view lt p) end) ps.

Lemma file_open_ok content spec lt m l :
  file_views content lt m l →
  match file_open (inr content) spec with
  | ROk c => pending c m l ∧ fc_link_type c = lt ∧ compile_filter spec lt = ROk (fc_filter c)
  | _ => True
  end.
Proof.
  unfold file_views, file_open. intros Hv. destruct (zlen content <? 4); [done|].
  change PCAPNG_MAGIC with [0x0a; 0x0d; 0x0d; 0x0a]. case_decide.
  - destruct Hv as (-> & r & bs & E & Hs & Hl & Hone & ->). rewrite E. simpl.
    destruct (compile_filter _ _) eqn:Ec; [|done..]. simpl. split; [|done].
    exists bs. split_and!; [done..|]. by exists [].
  - destruct Hv as (r & ps & E & -> & Hs & Hl & ->). rewrite E. simpl. rewrite named_datalink.
    destruct (compile_filter _ _) eqn:Ec; [|done..]. simpl. split; [by exists ps|done].
Qed.
End stream.

(** C16: a capture file of one section is the filtered stream of its packets: the
    client sees, in the order of the file and whatever blocks lie between, the
    packets that the filter, compiled for the link type of the file, matches,
    each with its bytes, time and length and with the link type of the interface
    it names, up to the first error of the crate; it comes to the end of the
    file in as many turns as the file has packets and blocks. *)
Theorem file_capture_streams `{PcapCrate} (content : list Z) (spec : option FilterSpec)
    (c : FileCapture) (lt : LinkType) (l : list (PcapError + view)) (m n : nat) :
  file_open (inr content) spec = ROk c → file_views content lt m l → Forall timely l → (m < n)%nat →
  fc_link_type c = lt ∧
  ∃ prog, compile_filter spec lt = ROk prog ∧ read_all n c = Some (deliver prog l).
Proof.
  intros E Hv Ht Hn. pose proof (file_open_ok content spec lt m l Hv) as Ho. rewrite E in Ho.
  destruct Ho as (Hp & Hl & Hc). split; [done|]. eexists. split; [done|]. by eapply read_all_ok.
Qed.
