(* ===== verification/FilesRoundtrip.v ===== *)
(** Reading back what [Dump] wrote: what the crate [pcap-file] promises, as a
    class of laws, and the round trip through [dump_packets], [FileCapture::open]
    and a filter. *)

From S2P Require Export FilesSound.
From S2P Require Sem CompileCorrect CompileSound.

(** A list of elements is written without an error. *)
Inductive writes {E W X} (write : X → W → option E * W) : list X → W → W → Prop :=
  | writes_nil w : writes write [] w w
  | writes_cons x l w w1 w2 :
      write x w = (None, w1) → writes write l w1 w2 → writes write (x :: l) w w2.

Definition wf_duration (d : Duration) : Prop :=
  0 ≤ d_secs d < 2 ^ 63 ∧ 0 ≤ d_nanos d < NANOS_PER_SEC.

(** A format stores a time up to its resolution. *)
Definition round_packet (round : Duration → Duration) (p : PcapPacket) : PcapPacket :=
  mk_pcap_packet (round (pp_timestamp p)) (pp_orig_len p) (pp_data p).

Definition round_block {DL} (round : Duration → Duration) (b : Block DL) : Block DL :=
  match b with
  | EnhancedPacket id ts orig data => EnhancedPacket id (round ts) orig data
  | b => b
  end.

Definition descriptive {DL} (b : Block DL) : bool :=
  match b with InterfaceDescription _ _ | EnhancedPacket _ _ _ _ => true | _ => false end.

(** What the crate documents: a file that was written without an error is read
    back, but for the resolution of the times, and is told by its magic. *)
Class PcapLaws `{PcapCrate} := {
  pcap_round : Duration → Duration;
  ng_round : Duration → Duration;
  pcap_round_wf d : wf_duration d → wf_duration (pcap_round d);
  ng_round_wf d : wf_duration d → wf_duration (ng_round d);
  dl_distinct : DL_ETHERNET ≠ DL_RAW ∧ DL_ETHERNET ≠ DL_LINUX_SLL ∧ DL_RAW ≠ DL_LINUX_SLL;
  pcap_back dl w0 ps w :
    pcap_with_header dl = inr w0 → writes pcap_write ps w0 w →
    ∃ r, pcap_new (pcap_written w) = inr r ∧ pcap_datalink r = dl ∧
      streams pcap_next r (map (inr ∘ round_packet pcap_round) ps);
  pcap_magic dl w0 ps w :
    pcap_with_header dl = inr w0 → writes pcap_write ps w0 w →
    4 ≤ zlen (pcap_written w) ∧ take 4 (pcap_written w) ≠ PCAPNG_MAGIC;
  ng_back w0 bs w :
    ng_writer_new = inr w0 → Forall descriptive bs → writes ng_write bs w0 w →
    ∃ r, ng_new (ng_written w) = inr r ∧ streams ng_next r (map (inr ∘ round_block ng_round) bs);
  ng_magic w0 bs w :
    ng_writer_new = inr w0 → writes ng_write bs w0 w → take 4 (ng_written w) = PCAPNG_MAGIC;
}.

Section roundtrip.
Context `{PcapLaws}.

Lemma datalink_roundtrip lt : datalink_to_link_type (link_type_to_datalink lt) = lt.
Proof.
  destruct dl_distinct as (? & ? & ?). unfold datalink_to_link_type.
  destruct lt; simpl; by repeat case_decide.
Qed.

(** * What [dump_packets] has written *)

Definition pcap_of (p : Packet) : PcapPacket :=
  mk_pcap_packet (since_epoch (p_timestamp p)) (p_orig_len p) (p_data p).

Definition block_of (p : Packet) : Block DataLink :=
  EnhancedPacket 0 (since_epoch (p_timestamp p)) (p_orig_len p) (p_data p).

Lemma dump_each_ok pkts : ∀ d d',
  dump_each pkts d = (ROk tt, d') →
  match d with
  | DPcap w => ∃ w', d' = DPcap w' ∧ writes pcap_write (map pcap_of pkts) w w'
  | DPcapNg w => ∃ w', d' = DPcapNg w' ∧ writes ng_write (map block_of pkts) w w'
  end.
Proof.
  induction pkts as [|p pkts IH]; intros d d'; cbn [dump_each].
  - intros [= <-]. destruct d; eexists; (split; [done|constructor]).
  - unfold write_packet. destruct d as [w|w].
    + destruct (pcap_write _ w) as [[e|] w1] eqn:E; [done|]. cbn [written_answer]. intros Hd.
      destruct (IH _ _ Hd) as (w' & -> & Hw). exists w'. split; [done|]. by econstructor.
    + destruct (ng_write _ w) as [[e|] w1] eqn:E; [done|]. cbn [written_answer]. intros Hd.
      destruct (IH _ _ Hd) as (w' & -> & Hw). exists w'. split; [done|]. by econstructor.
Qed.

Definition is_pcapng (path : string) : bool := String.eqb (extension_of path) "pcapng".

Definition file_round (path : string) : Duration → Duration :=
  if is_pcapng path then ng_round else pcap_round.

(** The views of the packets that were written. *)
Definition written_view (lt : LinkType) (path : string) (p : Packet) : view :=
  let d := file_round path (since_epoch (p_timestamp p)) in
  mk_view (p_data p) (d_secs d) (d_nanos d) (p_orig_len p) lt.

Definition written_packet (lt : LinkType) (path : string) (p : Packet) : PacketRef :=
  let d := file_round path (since_epoch (p_timestamp p)) in
  mk_packet_ref (p_data p) (mk_time (d_secs d) (d_nanos d)) (p_orig_len p) lt.

Lemma named_back lt : named (link_type_to_datalink lt) = lt.
Proof. rewrite <- named_datalink. apply datalink_roundtrip. Qed.

(** The packets behind the description of the one interface. *)
Lemma block_views_written lt path pkts : is_pcapng path = true → ∀ before,
  (∀ id, id = 0 → interface_link before id = lt) → single_section (map inr before) →
  block_views before (map (inr ∘ round_block ng_round) (map block_of pkts)) =
  map (inr ∘ written_view lt path) pkts.
Proof.
  intros Hp. induction pkts as [|p pkts IH]; intros before Hl Hs; [done|].
  cbn [map block_views compose block_of round_block block_view behind option_list fmap option_fmap option_map app].
  rewrite IH, Hl; [|done| |].
  - do 2 f_equal. unfold written_view, file_round. by rewrite Hp.
  - intros id ->. unfold interface_link, interfaces. rewrite omap_app. simpl. rewrite app_nil_r.
    by apply (Hl 0).
  - unfold single_section in *. rewrite map_app. apply Forall_app. split; [done|]. by constructor.
Qed.

Lemma single_written lt pkts :
  single_section (map (inr (A:=PcapError) ∘ round_block ng_round)
    (InterfaceDescription (link_type_to_datalink lt) 65535 :: map block_of pkts)).
Proof. constructor; [done|]. induction pkts; by constructor. Qed.

Lemma descriptive_written lt pkts :
  Forall descriptive (InterfaceDescription (link_type_to_datalink lt) 65535 :: map block_of pkts).
Proof. constructor; [done|]. induction pkts; by constructor. Qed.

Lemma dump_views path pkts lt content :
  dump_packets None path pkts lt = (ROk tt, Holds content) → (is_pcapng path = true → lt = Ethernet) →
  file_views content lt (length pkts + if is_pcapng path then 1 else 0)
    (map (inr ∘ written_view lt path) pkts) ∧
  4 ≤ zlen content ∧ (take 4 content = PCAPNG_MAGIC ↔ is_pcapng path = true) ∧
  (is_pcapng path = false → ∃ r, pcap_new content = inr r ∧ datalink_to_link_type (pcap_datalink r) = lt) ∧
  (is_pcapng path = true → ∃ r, ng_new content = inr r).
Proof.
  unfold dump_packets, dump_open, with_link_type, to_file, dump_format, is_pcapng.
  cbn [db_link_type db_path]. unfold file_views, written_view, file_round, is_pcapng.
  destruct (String.eqb_spec (extension_of path) "pcap") as [->|Hne].
  - change (String.eqb "pcap" "pcapng") with false. cbv iota.
    destruct (pcap_with_header _) as [e|w0] eqn:E0; [done|]. simpl.
    destruct (dump_each pkts _) as [[[]| |] d] eqn:Ed; simpl; intros [= <-] _.
    destruct (dump_each_ok _ _ _ Ed) as (w & -> & Hw). simpl.
    destruct (pcap_magic _ _ _ _ E0 Hw) as [? ?]. destruct (pcap_back _ _ _ _ E0 Hw) as (r & Er & Edl & Hs).
    rewrite decide_False by done. split_and!; [|done|by split|by exists r; rewrite Edl, datalink_roundtrip|done].
    exists r, (map (inr ∘ round_packet pcap_round) (map pcap_of pkts)).
    split_and!; [done|by rewrite Edl, named_back|done| |].
    + rewrite !length_map. lia.
    + by rewrite !map_map.
  - destruct (String.eqb_spec (extension_of path) "pcapng") as [Hx|]; [|done].
    destruct ng_writer_new as [e|w0] eqn:E0; [done|]. simpl.
    destruct (ng_write _ w0) as [[e|] w1] eqn:E1; [done|].
    destruct (dump_each pkts _) as [[[]| |] d] eqn:Ed; simpl; intros [= <-] Hlt.
    destruct (dump_each_ok _ _ _ Ed) as (w & -> & Hw). simpl.
    pose proof (writes_cons _ _ _ _ _ _ E1 Hw) as Hall. pose proof (ng_magic _ _ _ E0 Hall) as Hm.
    destruct (ng_back _ _ _ E0 (descriptive_written lt pkts) Hall) as (r & Er & Hs).
    rewrite decide_True by done. split; [|split_and!; [|by split|done|by exists r]].
    + split; [by apply Hlt|]. eexists r, _. split_and!; [done..| | |].
      * cbn [map length]. rewrite !length_map. lia.
      * apply single_written.
      * cbn [map block_views compose round_block block_view behind option_list fmap option_fmap option_map app].
        pose proof (block_views_written lt path pkts) as Hv.
        unfold is_pcapng, written_view, file_round, is_pcapng in Hv. rewrite Hx in Hv.
        rewrite Hv; [done|done| |by constructor].
        intros id ->. unfold interface_link. simpl. apply named_back.
    + apply (f_equal length) in Hm. rewrite length_take in Hm. change (length PCAPNG_MAGIC) with 4%nat in Hm.
      unfold zlen. lia.
Qed.

(** A view that was written is a packet again. *)
Lemma since_epoch_wf t : wf_time t → wf_duration (since_epoch t).
Proof.
  unfold wf_time, wf_duration, since_epoch. intros ?.
  destruct (Z.leb_spec 0 (tv_sec t)); simpl; unfold NANOS_PER_SEC in *; lia.
Qed.

Lemma written_range path p :
  wf_time (p_timestamp p) → wf_duration (file_round path (since_epoch (p_timestamp p))).
Proof.
  intros Hw. apply since_epoch_wf in Hw.
  unfold file_round; case_match; [by apply ng_round_wf|by apply pcap_round_wf].
Qed.

Lemma written_timely lt path pkts :
  Forall (λ p, wf_time (p_timestamp p)) pkts → Forall timely (map (inr ∘ written_view lt path) pkts).
Proof.
  induction 1 as [|p pkts Hp _ IH]; constructor; [|done].
  apply (written_range path) in Hp as [Hs Hn]. simpl. unfold NANOS_PER_SEC in *.
  rewrite Z.div_small by lia. lia.
Qed.

Lemma view_packet_written lt path p :
  wf_time (p_timestamp p) → view_packet (written_view lt path p) = written_packet lt path p.
Proof.
  intros Hw. apply (written_range path) in Hw as [Hs Hn]. unfold view_packet, written_view, written_packet.
  cbn [v_data v_secs v_nanos v_orig_len v_link]. change (10 ^ 9) with NANOS_PER_SEC.
  by rewrite (Z.div_small _ _ Hn), (Z.mod_small _ _ Hn), Z.add_0_r.
Qed.

Lemma deliver_written prog lt path pkts :
  Forall (λ p, wf_time (p_timestamp p)) pkts →
  deliver prog (map (inr ∘ written_view lt path) pkts) =
  (map (written_packet lt path) (List.filter (λ p, admits prog (p_data p)) pkts), ROk tt).
Proof.
  induction 1 as [|p pkts Hp _ IH]; [done|]. cbn [map compose deliver List.filter].
  change (passes prog (written_view lt path p)) with (admits prog (p_data p)).
  rewrite IH, view_packet_written by done. by destruct (admits _ _).
Qed.
End roundtrip.

(** The packets of a list that an expression denotes. *)
Definition denoted (lt : LinkType) (e : Expr) : list Packet → list Packet :=
  List.filter (λ p, Sem.sem lt (p_data p) 0 e).

