(* ===== verification/PcapMini.v ===== *)
(** A small crate in the place of [pcap-file]: it fulfils the laws, so that the
    properties of capture files can be applied. A file is a magic number and
    records of 64-bit fields in front of the bytes of each packet. *)

From S2P Require Export Bytes FilesRoundtrip.

#[export] Instance mini_errors : PcapErrors := {| PcapError := string; pcap_text := id |}.

Inductive mini_link := MEthernet | MRaw | MSll | MNull.

#[export] Instance mini_link_eq_dec : EqDecision mini_link.
Proof. solve_decision. Defined.

Definition link_code (dl : mini_link) : Z :=
  match dl with MEthernet => 1 | MRaw => 101 | MSll => 113 | MNull => 0 end.

Definition code_link (z : Z) : mini_link :=
  if z =? 1 then MEthernet else if z =? 101 then MRaw else if z =? 113 then MSll else MNull.

Lemma code_link_code dl : code_link (link_code dl) = dl.
Proof. by destruct dl. Qed.

(** * Fields and records *)

Definition is_u64 (x : Z) : bool := (0 <=? x) && (x <? 2 ^ 64).

(** The fields of a packet, in front of its bytes. *)
Record fields := mk_fields { f_secs : Z; f_nanos : Z; f_orig : Z }.

Definition put_record (f : fields) (data : list Z) : list Z :=
  le_bytes 8 (f_secs f) ++ le_bytes 8 (f_nanos f) ++ le_bytes 8 (f_orig f) ++ le_bytes 8 (zlen data) ++ data.

Definition get_record (l : list Z) : option (fields * list Z * list Z) :=
  if zlen l <? 32 then None
  else
    let n := le_at 8 24 l in
    if zlen l <? 32 + n then None
    else Some (mk_fields (le_at 8 0 l) (le_at 8 8 l) (le_at 8 16 l), zslice 32 n l,
               drop (Z.to_nat (32 + n)) l).

Definition fits (f : fields) (data : list Z) : bool :=
  is_u64 (f_secs f) && is_u64 (f_nanos f) && is_u64 (f_orig f) && is_u64 (zlen data).

Lemma le_at_app a x b :
  is_u64 x = true → le_at 8 (zlen a) (a ++ le_bytes 8 x ++ b) = x.
Proof. intros Hx. unfold is_u64 in Hx. apply le_at_word. lia. Qed.

Lemma get_put_record f data rest :
  fits f data = true → get_record (put_record f data ++ rest) = Some (f, data, rest).
Proof.
  unfold fits. intros (((H0 & H1)%andb_true_iff & H2)%andb_true_iff & H3)%andb_true_iff.
  assert (zlen (put_record f data) = 32 + zlen data) as Hl.
  { unfold put_record. rewrite !zlen_app, !zlen_le_bytes. lia. }
  pose proof (zlen_nonneg data). pose proof (zlen_nonneg rest).
  assert (le_at 8 0 (put_record f data ++ rest) = f_secs f ∧ le_at 8 8 (put_record f data ++ rest) = f_nanos f ∧
    le_at 8 16 (put_record f data ++ rest) = f_orig f ∧ le_at 8 24 (put_record f data ++ rest) = zlen data)
    as (E0 & E1 & E2 & E3).
  { unfold put_record. rewrite <- !(assoc_L (++)). split_and!.
    - by apply (le_at_app []).
    - by apply (le_at_app (le_bytes 8 _)).
    - rewrite (assoc_L (++)). by apply (le_at_app (le_bytes 8 _ ++ le_bytes 8 _)).
    - rewrite 2!(assoc_L (++)). by apply (le_at_app ((le_bytes 8 _ ++ le_bytes 8 _) ++ le_bytes 8 _)). }
  unfold get_record. rewrite !zlen_app, Hl, E0, E1, E2, E3.
  rewrite !(proj2 (Z.ltb_ge _ _)) by lia. destruct f as [a b c]. do 2 f_equal; [f_equal|].
  - rewrite zslice_app_l by lia. unfold put_record. rewrite !(assoc_L (++)).
    rewrite zslice_app_r; rewrite ?zlen_app, ?zlen_le_bytes; try lia. apply zslice_all.
  - rewrite drop_app_ge by (unfold zlen in *; lia).
    replace (_ - _)%nat with 0%nat by (unfold zlen in *; lia). apply drop_0.
Qed.

(** * Writing appends, reading takes off *)

Section codec.
Context {X : Type} (enc : X → list Z) (ok : X → bool).

Definition append (x : X) (w : list Z) : option string * list Z :=
  if ok x then (None, w ++ enc x) else (Some "out of range"%string, w).

Lemma writes_append l w w' :
  writes append l w w' → w' = w ++ concat (map enc l) ∧ Forall ok l.
Proof.
  induction 1 as [w|x l w w1 w2 E _ IH]; [by rewrite app_nil_r|].
  unfold append in E. destruct (ok x) eqn:Ex; [|done]. injection E as <-.
  destruct IH as [-> ?]. cbn [map concat]. split; [by rewrite (assoc_L (++))|].
  constructor; [by rewrite Ex|done].
Qed.

Lemma streams_concat {R} (next : R → option (string + X) * R) (at_ : list Z → R) l :
  (∃ r, next (at_ []) = (None, r)) →
  (∀ x rest, ok x = true → next (at_ (enc x ++ rest)) = (Some (inr x), at_ rest)) →
  Forall ok l → streams next (at_ (concat (map enc l))) (map inr l).
Proof.
  intros [r Hend] Hmore. induction 1 as [|x l Hx _ IH]; [by eapply streams_end|].
  cbn [map concat]. eapply streams_more; [|done]. apply Hmore. by apply Is_true_eq_true.
Qed.
End codec.

(** * The classic format *)

Definition mini_magic : list Z := [0xd4; 0xc3; 0xb2; 0xa1].

Definition packet_fields (p : PcapPacket) : fields :=
  mk_fields (d_secs (pp_timestamp p)) (d_nanos (pp_timestamp p)) (pp_orig_len p).

Definition put_packet (p : PcapPacket) : list Z := put_record (packet_fields p) (pp_data p).
Definition packet_fits (p : PcapPacket) : bool := fits (packet_fields p) (pp_data p).

Definition mini_new (content : list Z) : string + mini_link * list Z :=
  match content with
  | _ :: _ :: _ :: _ :: dl :: rest => inr (code_link dl, rest)
  | _ => inl "truncated header"%string
  end.

Definition mini_next (r : mini_link * list Z) : option (string + PcapPacket) * (mini_link * list Z) :=
  match r.2 with
  | [] => (None, r)
  | _ :: _ =>
      match get_record r.2 with
      | Some (f, data, rest) =>
          (Some (inr (mk_pcap_packet (mk_duration (f_secs f) (f_nanos f)) (f_orig f) data)), (r.1, rest))
      | None => (Some (inl "truncated packet"%string), (r.1, []))
      end
  end.

Lemma put_record_cons f data rest : ∃ b l, put_record f data ++ rest = b :: l.
Proof. unfold put_record. cbn [le_bytes app]. by eexists _, _. Qed.

Lemma mini_next_packet dl p rest :
  packet_fits p = true → mini_next (dl, put_packet p ++ rest) = (Some (inr p), (dl, rest)).
Proof.
  intros Hp. unfold mini_next, put_packet. cbn [snd fst].
  rewrite get_put_record by done. destruct (put_record_cons (packet_fields p) (pp_data p) rest) as (b & l & ->).
  by destruct p as [[]].
Qed.

(** * The block format *)

Definition put_block (b : Block mini_link) : list Z :=
  match b with
  | SectionHeader => [10; 0] ++ put_record (mk_fields 0 0 0) []
  | InterfaceDescription dl snaplen => [1; link_code dl] ++ put_record (mk_fields snaplen 0 0) []
  | EnhancedPacket id ts orig data =>
      [6; id] ++ put_record (mk_fields (d_secs ts) (d_nanos ts) orig) data
  | SimplePacket _ _ | PacketBlock _ _ _ _ | OtherBlock => []
  end.

Definition block_fits (b : Block mini_link) : bool :=
  match b with
  | SectionHeader => true
  | InterfaceDescription _ snaplen => is_u64 snaplen
  | EnhancedPacket _ ts orig data => fits (mk_fields (d_secs ts) (d_nanos ts) orig) data
  | SimplePacket _ _ | PacketBlock _ _ _ _ | OtherBlock => false
  end.

Definition mini_ng_new (content : list Z) : string + list Z :=
  match content with
  | _ :: _ :: _ :: _ :: rest => inr rest
  | _ => inl "truncated header"%string
  end.

Definition mini_ng_next (r : list Z) : option (string + Block mini_link) * list Z :=
  match r with
  | [] => (None, r)
  | tag :: arg :: r' =>
      match get_record r' with
      | Some (f, data, rest) =>
          let b := if tag =? 1 then InterfaceDescription (code_link arg) (f_secs f)
                   else if tag =? 6 then
                     EnhancedPacket arg (mk_duration (f_secs f) (f_nanos f)) (f_orig f) data
                   else if tag =? 10 then SectionHeader else OtherBlock in
          (Some (inr b), rest)
      | None => (Some (inl "truncated block"%string), [])
      end
  | _ :: [] => (Some (inl "truncated block"%string), [])
  end.

Lemma mini_ng_next_block b rest :
  block_fits b = true → mini_ng_next (put_block b ++ rest) = (Some (inr b), rest).
Proof.
  destruct b as [|dl snaplen|id [s n] orig data| | |]; intros Hb; try done;
    unfold put_block; rewrite <- (assoc_L (++)); cbn [app mini_ng_next]; rewrite get_put_record;
    cbn; rewrite ?code_link_code; try done.
  unfold fits. cbn in *. by rewrite Hb.
Qed.

(** * The crate *)

#[export] Instance mini_crate : PcapCrate := {|
  DataLink := mini_link;
  DL_ETHERNET := MEthernet; DL_RAW := MRaw; DL_LINUX_SLL := MSll;
  PcapReader := mini_link * list Z;
  pcap_new := mini_new; pcap_datalink := fst; pcap_next := mini_next;
  PcapNgReader := list Z;
  ng_new := mini_ng_new; ng_next := mini_ng_next;
  PcapWriter := list Z;
  pcap_with_header := λ dl, inr (mini_magic ++ [link_code dl]);
  pcap_write := append put_packet packet_fits; pcap_written := id;
  PcapNgWriter := list Z;
  ng_writer_new := inr PCAPNG_MAGIC;
  ng_write := append put_block block_fits; ng_written := id;
|}.

#[export] Program Instance mini_laws : PcapLaws := {| pcap_round := id; ng_round := id |}.
Next Obligation. done. Qed.
Next Obligation. done. Qed.
Next Obligation. done. Qed.
Next Obligation.
  intros dl w0 ps w E Hw. injection E as <-. apply (writes_append put_packet packet_fits) in Hw as [-> Hok].
  eexists. split; [reflexivity|]. split; [apply code_link_code|]. rewrite code_link_code.
  replace (map _ ps) with (map (inr (A:=string)) ps) by (apply map_ext; by intros [[] ? ?]).
  apply (streams_concat put_packet packet_fits mini_next (pair dl)); [by eexists| |done].
  intros x rest Hx. by apply mini_next_packet.
Qed.
Next Obligation.
  intros dl w0 ps w E Hw. injection E as <-. apply (writes_append put_packet packet_fits) in Hw as [-> _].
  split; [|done]. cbn. rewrite !zlen_cons. pose proof (zlen_nonneg (concat (map put_packet ps))). lia.
Qed.
Next Obligation.
  intros w0 bs w E _ Hw. injection E as <-. apply (writes_append put_block block_fits) in Hw as [-> Hok].
  eexists. split; [reflexivity|].
  replace (map _ bs) with (map (inr (A:=string)) bs) by (apply map_ext; by intros []).
  apply (streams_concat put_block block_fits mini_ng_next id); [by eexists| |done].
  intros x rest Hx. by apply mini_ng_next_block.
Qed.
Next Obligation.
  intros w0 bs w E Hw. injection E as <-. by apply (writes_append put_block block_fits) in Hw as [-> _].
Qed.

(** * Runs *)

Example extensions :
  map extension_of ["a.pcap"; "dir.x/trace.PcapNG"; ".pcap"; "noext"; "a/b.pcap/"; "x.tar.gz"; ".."; "a/..."]%string
  = ["pcap"; "pcapng"; ""; ""; "pcap"; "gz"; ""; ""]%string.
Proof. reflexivity. Qed.

(** A TCP and a UDP segment in IPv4, and the frames that carry them. *)
Definition ip_packet (proto : Z) : list Z :=
  [0x45] ++ replicate 8 0 ++ [proto] ++ replicate 160 0.
Definition frame (proto : Z) : list Z := replicate 12 0 ++ [8; 0] ++ ip_packet proto.

Definition sample_packet (secs : Z) (data : list Z) : Packet :=
  mk_packet data (mk_time secs 500) (zlen data) Ethernet.

Definition frames : list Packet :=
  [sample_packet (-5) (frame 17); sample_packet 7 (frame 6); sample_packet 8 (frame 1)].


(** A pcapng file with a block of another kind between its packets, one of them
    of an interface that is not described, cut off in its last packet. *)
Definition odd_file : list Z :=
  PCAPNG_MAGIC ++ put_block (InterfaceDescription MRaw 65535)
    ++ put_block (EnhancedPacket 1 (mk_duration 7 0) 174 (frame 6))
    ++ [9; 9] ++ put_record (mk_fields 0 0 0) []
    ++ put_block (EnhancedPacket 0 (mk_duration 8 0) 174 (frame 17)) ++ [6; 0].

Definition odd_views : list (string + view) :=
  [inr (mk_view (frame 6) 7 0 174 Ethernet); inr (mk_view (frame 17) 8 0 174 RawIp);
   inl "truncated block"%string].

Definition opens (lt : LinkType) (r : Result FileCapture) : bool :=
  match r with ROk c => bool_decide (fc_link_type c = lt) | _ => false end.

Lemma opens_ok lt r : opens lt r = true → ∃ c, r = ROk c ∧ fc_link_type c = lt.
Proof. destruct r; [|done..]. intros H%bool_decide_eq_true. eauto. Qed.

Lemma odd_file_opens : opens Ethernet (file_open (inr odd_file) (Some (FilterString "tcp or udp"))) = true.
Proof. vm_compute. reflexivity. Qed.

Lemma file_capture_streams_witness :
  ∃ c, file_open (inr odd_file) (Some (FilterString "tcp or udp")) = ROk c ∧
    read_all 6 c = Some ([mk_packet_ref (frame 6) (mk_time 7 0) 174 Ethernet;
                          mk_packet_ref (frame 17) (mk_time 8 0) 174 RawIp],
                         RErr (Pcap "truncated block"%string)).
Proof.
  destruct (opens_ok _ _ odd_file_opens) as (c & Ho & Hl).
  exists c. split; [done|].
  destruct (file_capture_streams odd_file (Some (FilterString "tcp or udp")) c Ethernet odd_views 5 6)
    as (_ & prog & Hc & ->); [exact Ho| | |lia|].
  - unfold file_views. rewrite decide_True by done. split; [done|].
    eexists _, [inr (InterfaceDescription MRaw 65535); inr (EnhancedPacket 1 (mk_duration 7 0) 174 (frame 6));
                inr OtherBlock; inr (EnhancedPacket 0 (mk_duration 8 0) 174 (frame 17));
                inl "truncated block"%string].
    split_and!; [reflexivity| |done|by repeat constructor|reflexivity].
    apply (drain_streams _ 6). vm_compute. reflexivity.
  - unfold odd_views. apply Forall_cons_2; [|apply Forall_cons_2; [|by apply Forall_cons_2; [|apply Forall_nil_2]]];
      (split; [by vm_compute|split; by vm_compute]).
  - replace prog with (match compile_filter (Some (FilterString "tcp or udp")) Ethernet with
                       | ROk p => p | _ => None end) by (by rewrite Hc).
    vm_compute. reflexivity.
Defined.

(** * Defects *)

(** a pcapng file of raw IP packets is filtered with a program for Ethernet: the
    packets that a classic file of the same trace delivers are lost. *)
Definition read_back (path filter : string) (pkts : list Packet) (lt : LinkType) :
    option (list PacketRef * Result unit) :=
  match dump_packets None path pkts lt with
  | (ROk _, Holds content) =>
      match file_open (inr content) (Some (FilterString filter)) with
      | ROk c => read_all (length pkts + 2) c
      | _ => None
      end
  | _ => None
  end.

Theorem pcapng_filter_ignores_interface :
  let trace := [mk_packet (ip_packet 6) (mk_time 7 0) 170 RawIp] in
  read_back "trace.pcap" "tcp" trace RawIp
    = Some ([mk_packet_ref (ip_packet 6) (mk_time 7 0) 170 RawIp], ROk tt) ∧
  read_back "trace.pcapng" "tcp" trace RawIp = Some ([], ROk tt).
Proof. split; vm_compute; reflexivity. Qed.

(** behind a second section header interfaces are numbered from 0 again, but the
    code goes on counting: an Ethernet frame of the second section is handed out
    with the link type of the first section's interface. *)
Definition two_sections : list Z :=
  PCAPNG_MAGIC ++ put_block (InterfaceDescription MRaw 65535)
    ++ put_block (EnhancedPacket 0 (mk_duration 7 0) 170 (ip_packet 6))
    ++ put_block SectionHeader ++ put_block (InterfaceDescription MEthernet 65535)
    ++ put_block (EnhancedPacket 0 (mk_duration 8 0) 184 (frame 6)).

Theorem pcapng_section_restart :
  (match file_open (inr two_sections) None with ROk c => read_all 7 c | _ => None end)
    = Some ([mk_packet_ref (ip_packet 6) (mk_time 7 0) 170 RawIp;
             mk_packet_ref (frame 6) (mk_time 8 0) 184 RawIp], ROk tt) ∧
  (bs ← drain mini_ng_next 7 (drop 4 two_sections); Some (deliver None (block_views [] bs)))
    = Some ([mk_packet_ref (ip_packet 6) (mk_time 7 0) 170 RawIp;
             mk_packet_ref (frame 6) (mk_time 8 0) 184 Ethernet], ROk tt).
Proof. split; vm_compute; reflexivity. Qed.

(** a path with another extension is rejected, but only when the file that was
    there has been emptied. *)
Theorem dump_rejects_after_emptying pkts :
  ∃ msg, dump_packets None "notes.txt" pkts Ethernet = (RErr (Platform msg), Overwritten).
Proof. eexists. reflexivity. Qed.
