(* ===== verification/LinuxLive.v ===== *)
(** Live capture and injection on Linux (pkttap's live/linux.rs): the set-up of
    the socket, [recvmsg] with its time stamps, statistics, and what is read from
    /sys and /proc. The constants of the crate [libc] have their values on
    Linux. *)

From S2P Require Export Sys Files.
From S2P Require Ebpf.

(** * Text *)

(** The encodings of the characters that [char::is_whitespace] accepts. *)
Definition bytes_string (l : list Z) : string :=
  foldr (λ z s, String (ascii_of_nat (Z.to_nat z)) s) EmptyString l.

Definition whitespace : list string :=
  map bytes_string
    ([[9]; [10]; [11]; [12]; [13]; [32]; [0xc2; 0x85]; [0xc2; 0xa0]; [0xe1; 0x9a; 0x80]]
     ++ map (λ z, [0xe2; 0x80; z]) [0x80; 0x81; 0x82; 0x83; 0x84; 0x85; 0x86; 0x87; 0x88; 0x89; 0x8a; 0xa8; 0xa9; 0xaf]
     ++ [[0xe2; 0x81; 0x9f]; [0xe3; 0x80; 0x80]]).

Fixpoint strip_one (pats : list string) (s : string) : option string :=
  match pats with
  | [] => None
  | p :: pats' => match Text.strip_prefix p s with Some s' => Some s' | None => strip_one pats' s end
  end.

Fixpoint strip_all (n : nat) (pats : list string) (s : string) : string :=
  match n with
  | O => s
  | S n' => match strip_one pats s with Some s' => strip_all n' pats s' | None => s end
  end.

Fixpoint str_rev (s acc : string) : string :=
  match s with EmptyString => acc | String c s' => str_rev s' (String c acc) end.

(** [str::trim] *)
Definition trim_start (s : string) : string := strip_all (String.length s) whitespace s.
Definition trim_end (s : string) : string :=
  str_rev (strip_all (String.length s) (map (λ w, str_rev w EmptyString) whitespace) (str_rev s EmptyString))
    EmptyString.
Definition trim (s : string) : string := trim_end (trim_start s).

(** [str::lines]: an ending is a line feed with a carriage return in front of it
    or without; nothing follows the last one. *)
Definition strip_cr (s : string) : string :=
  match str_rev s EmptyString with
  | String c r => if Ascii.eqb c (ascii_of_nat 13) then str_rev r EmptyString else s
  | EmptyString => s
  end.

Fixpoint lines_of (pieces : list string) : list string :=
  match pieces with
  | [] => []
  | [last] => if String.eqb last "" then [] else [last]
  | line :: rest => strip_cr line :: lines_of rest
  end.

Definition lines (s : string) : list string := lines_of (str_split (ascii_of_nat 10) s).

(** [str::parse::<u32>] *)
Fixpoint u32_digits (s : string) (result : Z) : option Z :=
  match s with
  | EmptyString => Some result
  | String c s' =>
      match to_digit 10 c with
      | Some d => if u32_max <? result * 10 + d then None else u32_digits s' (result * 10 + d)
      | None => None
      end
  end.

Definition u32_from_str (s : string) : option Z :=
  let digits := match s with
                | String c s' => if Ascii.eqb c "+" then s' else s
                | EmptyString => s
                end in
  match digits with EmptyString => None | _ => u32_digits digits 0 end.

(** * Constants *)

Definition AF_PACKET : Z := 17.
Definition SOCK_RAW : Z := 3.
Definition ETH_P_ALL : Z := 0x0003.
Definition SOL_SOCKET : Z := 1.
Definition SO_TIMESTAMPNS : Z := 35.
Definition SO_TIMESTAMPING : Z := 37.
Definition SOL_PACKET : Z := 263.
Definition PACKET_FANOUT : Z := 18.
Definition SOF_TIMESTAMPING_RX_HARDWARE : Z := Z.shiftl 1 2.
Definition SOF_TIMESTAMPING_RX_SOFTWARE : Z := Z.shiftl 1 3.
Definition SOF_TIMESTAMPING_SOFTWARE : Z := Z.shiftl 1 4.
Definition SOF_TIMESTAMPING_RAW_HARDWARE : Z := Z.shiftl 1 6.
Definition SCM_TIMESTAMPNS : Z := SO_TIMESTAMPNS.
Definition SCM_TIMESTAMPING : Z := SO_TIMESTAMPING.
Definition IFNAMSIZ : Z := 16.
Definition O_NONBLOCK : Z := 2048.

(** [to_be] of a [u16], on a little-endian machine *)
Definition u16_to_be (x : Z) : Z := as_u16 (Z.shiftl x 8) .| Z.shiftr x 8.

Definition arphrd_to_link_type (arphrd : Z) : LinkType :=
  if (arphrd =? 1) || (arphrd =? 772) then Ethernet else RawIp.

(** * The state *)

(** Where frames come from: a buffer, or the ring and its mapping. *)
Inductive Rx :=
  | RxRecv (buf : list Z)
  | RxRing (ring : Ring) (map : list Z).

Record LinuxLive := mk_linux_live {
  ll_fd : Z;
  ll_rx : Rx;
  ll_snaplen : Z;
  ll_link_type : LinkType;
  ll_timestamp_mode : TimestampMode;
  ll_recv_acc : Z;
  ll_drop_acc : Z;
}.

Definition set_rx (rx : Rx) (l : LinuxLive) : LinuxLive :=
  mk_linux_live (ll_fd l) rx (ll_snaplen l) (ll_link_type l) (ll_timestamp_mode l) (ll_recv_acc l)
    (ll_drop_acc l).

Section linux.
Context `{PcapErrors} (K : Kernel).

(** * Set-up *)

Definition query_link_type (iface : string) : IO LinkType :=
  content ← sys K (ReadFile ("/sys/class/net/" ++ iface ++ "/type")%string);
  match content with
  | inl _ => throw (Platform ("cannot read link type for " ++ iface))
  | inr s =>
      match u32_from_str (trim s) with
      | None => throw (Platform ("invalid ARPHRD value for " ++ iface))
      | Some arphrd => mret (arphrd_to_link_type arphrd)
      end
  end.

Definition iface_index (fd : Z) (name : string) : IO Z :=
  if IFNAMSIZ <=? slen name then throw (Platform ("interface name too long: " ++ name))
  else call K (IfIndex fd name).

(** [SockFprog]: the length is cut to 16 bits. *)
Definition sock_fprog (prog : Bpf.Program) : sockopt :=
  OptFilter (as_u16 (Bpf.len prog)) (Bpf.instructions prog).

Definition attach_filter (fd : Z) (filter : option Bpf.Program) : IO unit :=
  match filter with
  | Some prog => call K (SetOpt fd (sock_fprog prog))
  | None => mret tt
  end.

Definition timestamping (mode : TimestampMode) : sockopt :=
  match mode with
  | Software => OptInt SOL_SOCKET SO_TIMESTAMPNS 1
  | Hardware =>
      OptInt SOL_SOCKET SO_TIMESTAMPING
        (SOF_TIMESTAMPING_RX_HARDWARE .| SOF_TIMESTAMPING_RAW_HARDWARE
           .| SOF_TIMESTAMPING_RX_SOFTWARE .| SOF_TIMESTAMPING_SOFTWARE)
  end.

Definition open_rx (fd : Z) (ring : option RingConfig) (snaplen : Z) (mode : TimestampMode) : IO Rx :=
  match ring with
  | Some cfg =>
      '(answers, page_size, map) ← call K (RingSetup fd);
      r ← lift (ring_open answers cfg snaplen page_size);
      mret (RxRing r map)
  | None =>
      call K (SetOpt fd (timestamping mode));;
      mret (RxRecv (replicate (Z.to_nat (Z.max snaplen 65535)) 0))
  end.

Definition drop_rx (rx : Rx) : IO unit :=
  match rx with RxRing _ _ => discard K Munmap | RxRecv _ => mret tt end.

Definition drop_live (l : LinuxLive) : IO unit := discard K (Close (ll_fd l));; drop_rx (ll_rx l).

Definition join_promiscuous (fd ifindex : Z) (promiscuous : bool) : IO unit :=
  if promiscuous then call K (SetOpt fd (OptPromiscuous ifindex)) else mret tt.

Definition open_inner (iface : string) (filter : option Bpf.Program) (snaplen : Z)
    (promiscuous : bool) (timestamp_mode : TimestampMode) (ring : option RingConfig) : IO LinuxLive :=
  fd ← call K (Socket AF_PACKET SOCK_RAW (u16_to_be ETH_P_ALL));
  dropping (discard K (Close fd)) (
    attach_filter fd filter;;
    rx ← open_rx fd ring snaplen timestamp_mode;
    dropping (drop_rx rx) (
      ifindex ← iface_index fd iface;
      join_promiscuous fd ifindex promiscuous;;
      call K (Bind fd (u16_to_be ETH_P_ALL) ifindex);;
      link_type ← or_default Ethernet (query_link_type iface);
      mret (mk_linux_live fd rx snaplen link_type timestamp_mode 0 0))).

Definition linux_open (iface : string) (filter : option Bpf.Program) (snaplen : Z)
    (promiscuous : bool) (timestamp_mode : TimestampMode) : IO LinuxLive :=
  open_inner iface filter snaplen promiscuous timestamp_mode None.

Definition linux_open_ring (iface : string) (filter : option Bpf.Program) (snaplen : Z)
    (promiscuous : bool) (timestamp_mode : TimestampMode) (ring : RingConfig) : IO LinuxLive :=
  open_inner iface filter snaplen promiscuous timestamp_mode (Some ring).

Definition fanout_arg (group_id mode : Z) : Z :=
  Ebpf.signed 32 ((group_id .| Z.shiftl mode 16) mod 2 ^ 32).

Definition open_fanout (iface : string) (filter : option Bpf.Program) (snaplen : Z)
    (promiscuous : bool) (timestamp_mode : TimestampMode) (group_id mode : Z)
    (ring : option RingConfig) : IO LinuxLive :=
  live ← open_inner iface filter snaplen promiscuous timestamp_mode ring;
  dropping (drop_live live) (
    call K (SetOpt (ll_fd live) (OptInt SOL_PACKET PACKET_FANOUT (fanout_arg group_id mode)));;
    mret live).

(** * Control *)

(** A counter that would overflow panics. *)
Definition u64_add (a b : Z) : Result Z := if a + b <? 2 ^ 64 then ROk (a + b) else RPanic.

Definition linux_stats (l : LinuxLive) : IO (CaptureStats * LinuxLive) :=
  '(packets, drops) ← call K (GetStats (ll_fd l));
  recv_acc ← lift (u64_add (ll_recv_acc l) packets);
  drop_acc ← lift (u64_add (ll_drop_acc l) drops);
  mret (mk_stats recv_acc drop_acc 0,
        mk_linux_live (ll_fd l) (ll_rx l) (ll_snaplen l) (ll_link_type l) (ll_timestamp_mode l)
          recv_acc drop_acc).

(** [flags | O_NONBLOCK] and [flags & !O_NONBLOCK] *)
Definition nonblock_flags (nb : bool) (flags : Z) : Z :=
  if nb then flags .| O_NONBLOCK else Z.ldiff flags O_NONBLOCK.

Definition ring_nonblocking (nb : bool) (rx : Rx) : Rx :=
  match rx with RxRing r m => RxRing (set_nonblocking nb r) m | rx => rx end.

(** The ring is told first, whatever [fcntl] answers. *)
Definition linux_set_nonblocking (nb : bool) (l : LinuxLive) : IO unit * LinuxLive :=
  (flags ← call K (GetFl (ll_fd l));
   call K (SetFl (ll_fd l) (nonblock_flags nb flags)),
   set_rx (ring_nonblocking nb (ll_rx l)) l).

(** * Receiving *)

(** A [timespec] read from a control message: its words as [u64] and [u32]. *)
Definition timespec_at (off : Z) (data : list Z) : Result (Z * Z) :=
  if zlen data <? off + 16 then RPanic
  else ROk (le_at 8 off data, as_u32 (le_at 8 (off + 8) data)).

(** Whether the [timespec] is non-zero. *)
Definition timespec_set (off : Z) (data : list Z) : bool :=
  negb (le_at 8 off data =? 0) || negb (le_at 8 (off + 8) data =? 0).

Fixpoint find_timestamp (msgs : list cmsg) (mode : TimestampMode) : option (Result (Z * Z)) :=
  match msgs with
  | [] => None
  | c :: msgs' =>
      if cm_level c =? SOL_SOCKET then
        match mode with
        | Software =>
            if cm_type c =? SCM_TIMESTAMPNS then Some (timespec_at 0 (cm_data c))
            else find_timestamp msgs' mode
        | Hardware =>
            if cm_type c =? SCM_TIMESTAMPING then
              if zlen (cm_data c) <? 48 then Some RPanic
              else Some (timespec_at (if timespec_set 32 (cm_data c) then 32 else 0) (cm_data c))
            else find_timestamp msgs' mode
        end
      else find_timestamp msgs' mode
  end.

Definition extract_timestamp (msgs : list cmsg) (mode : TimestampMode) : IO (Z * Z) :=
  match find_timestamp msgs mode with
  | Some ts => lift ts
  | None =>
      now ← call K Now;
      let d := since_epoch now in
      mret (d_secs d, d_nanos d)
  end.

(** What is made of a message that has been received into [buf]. *)
Definition received_packet (buf bytes : list Z) (msgs : list cmsg) (snaplen : Z)
    (link_type : LinkType) (mode : TimestampMode) : IO (option PacketRef * list Z) :=
  let buf := zput 0 bytes buf in
  let orig_len := as_u32 (zlen bytes) in
  '(ts_sec, ts_nsec) ← extract_timestamp msgs mode;
  data ← lift (slice_to (Z.min (zlen bytes) snaplen) buf);
  pkt ← lift (PacketRef_new data ts_sec ts_nsec orig_len link_type);
  mret (Some pkt, buf).

Fixpoint recv_packet (n : nat) (fd : Z) (buf : list Z) (snaplen : Z) (link_type : LinkType)
    (mode : TimestampMode) (h : history) : option (Result (option PacketRef * list Z) * history) :=
  match n with
  | O => None
  | S n' =>
      match sys K (Recvmsg fd (zlen buf)) h with
      | (ROk (inr (bytes, msgs)), h) => Some (received_packet buf bytes msgs snaplen link_type mode h)
      | (ROk (inl e), h) =>
          if decide (kind e = KInterrupted) then recv_packet n' fd buf snaplen link_type mode h
          else if decide (kind e = KWouldBlock) then Some (ROk (None, buf), h)
          else Some (RErr (from_io e), h)
      | (RErr e, h) => Some (RErr e, h)
      | (RPanic, h) => Some (RPanic, h)
      end
  end.

(** On either path; [polls] are the answers a ring waits for. *)
Definition linux_next_packet (n : nat) (polls : list (option io_error * list Z)) (l : LinuxLive)
    (h : history) : option (Result (option PacketRef * LinuxLive) * history) :=
  match ll_rx l with
  | RxRecv buf =>
      '(r, h) ← recv_packet n (ll_fd l) buf (ll_snaplen l) (ll_link_type l) (ll_timestamp_mode l) h;
      Some ('(pkt, buf) ← r; ROk (pkt, set_rx (RxRecv buf) l), h)
  | RxRing ring m =>
      r ← next_packet n polls (ll_link_type l) ring m;
      Some ('(pkt, x) ← r;
            match x with
            | Returned _ ring m | Blocked ring m => ROk (pkt, set_rx (RxRing ring m) l)
            end, h)
  end.

(** * Injection *)

Record LinuxInjector := mk_linux_injector { li_fd : Z; li_link_type : LinkType }.

Definition injector_open (iface : string) : IO LinuxInjector :=
  fd ← call K (Socket AF_PACKET SOCK_RAW 0);
  dropping (discard K (Close fd)) (
    ifindex ← iface_index fd iface;
    call K (Bind fd 0 ifindex);;
    link_type ← or_default Ethernet (query_link_type iface);
    mret (mk_linux_injector fd link_type)).

Fixpoint injector_send (n : nat) (i : LinuxInjector) (frame : list Z) (h : history) :
    option (Result Z * history) :=
  match n with
  | O => None
  | S n' =>
      match sys K (SendTo (li_fd i) frame) h with
      | (ROk (inr sent), h) => Some (ROk sent, h)
      | (ROk (inl e), h) =>
          if decide (kind e = KInterrupted) then injector_send n' i frame h
          else Some (RErr (from_io e), h)
      | (RErr e, h) => Some (RErr e, h)
      | (RPanic, h) => Some (RPanic, h)
      end
  end.

(** * Interfaces *)

Definition iface_of_line (line : string) : string :=
  trim (unwrap_or ""%string (List.head (str_split ":"%char line))).

Definition interfaces_of (content : string) : list string :=
  List.filter (λ name, negb (String.eqb name "")) (map iface_of_line (drop 2 (lines content))).

Definition list_interfaces : IO (list string) :=
  content ← call K (ReadFile "/proc/net/dev");
  mret (interfaces_of content).

Definition default_interface : IO string :=
  ifaces ← list_interfaces;
  match List.find (λ name, negb (String.eqb name "lo")) ifaces with
  | Some name => mret name
  | None => throw (Platform "no non-loopback interface found")
  end.
End linux.
