(* ===== verification/LinuxSound.v ===== *)
(** The promises of live capture on Linux: the order of the calls that set a
    socket up and their undoing on an error, what a receive answers, totals that
    only grow, and the interfaces read from /proc. *)

From S2P Require Export LinuxLive.

(** * Setting up *)

Section setup.
Context `{PcapErrors} (K : Kernel).
Context (iface : string) (filter : option Bpf.Program) (snaplen : Z) (promiscuous : bool)
  (mode : TimestampMode) (ring : option RingConfig).

Definition oks (calls : list syscall) : list event := rev (map (λ c, mk_event c true) calls).

(** The calls before the socket can receive, and those that let it. *)
Definition prepare (fd : Z) : list syscall :=
  Socket AF_PACKET SOCK_RAW (u16_to_be ETH_P_ALL)
  :: match filter with Some prog => [SetOpt fd (sock_fprog prog)] | None => [] end
  ++ match ring with Some _ => [RingSetup fd] | None => [SetOpt fd (timestamping mode)] end.

Definition engage (fd ifindex : Z) : list syscall :=
  [IfIndex fd iface] ++ (if promiscuous then [SetOpt fd (OptPromiscuous ifindex)] else [])
  ++ [Bind fd (u16_to_be ETH_P_ALL) ifindex].

(** The call that failed, if a call did. *)
Definition failing (c : option syscall) : list event :=
  match c with Some c => [mk_event c false] | None => [] end.

(** What a set-up that fails gives back, the last call first. *)
Definition closing (fd : Z) (ok : bool) : list event := [mk_event (Close fd) ok].
Definition unmapping (ok : bool) : list event :=
  match ring with Some _ => [mk_event Munmap ok] | None => [] end.

(** The runs of the set-up: its result and its calls, the last one first. *)
Inductive setup_run : Result LinuxLive → list event → Prop :=
  | setup_done live ifindex ok :
      setup_run (ROk live)
        (mk_event (ReadFile ("/sys/class/net/" ++ iface ++ "/type")%string) ok
         :: oks (prepare (ll_fd live) ++ engage (ll_fd live) ifindex))
  | setup_no_socket e :
      setup_run (RErr e) [mk_event (Socket AF_PACKET SOCK_RAW (u16_to_be ETH_P_ALL)) false]
  | setup_unprepared r fd k c ok :
      (1 ≤ k)%nat → (∀ live, r ≠ ROk live) → (∀ c', c = Some c' → prepare fd !! k = Some c') →
      setup_run r (closing fd ok ++ failing c ++ oks (take k (prepare fd)))
  | setup_unengaged e fd ifindex k c ok ok' :
      (k < length (engage fd ifindex))%nat → (∀ c', c = Some c' → engage fd ifindex !! k = Some c') →
      setup_run (RErr e)
        (closing fd ok ++ unmapping ok' ++ failing c ++ oks (prepare fd ++ take k (engage fd ifindex))).

Lemma query_runs h :
  ∃ ok r, query_link_type K iface h =
    (r, mk_event (ReadFile ("/sys/class/net/" ++ iface ++ "/type")%string) ok :: h) ∧ r ≠ RPanic.
Proof.
  unfold query_link_type, sys, mbind, IO_bind. destruct (K h _) as [e|s]; [by eexists _, _|].
  destruct (u32_from_str _); by eexists _, _.
Qed.

Lemma io_wp_query h Q :
  (∀ ok lt, Q (ROk lt) (mk_event (ReadFile ("/sys/class/net/" ++ iface ++ "/type")%string) ok :: h)) →
  io_wp (or_default Ethernet (query_link_type K iface)) h Q.
Proof.
  intros HQ. unfold io_wp, or_default. destruct (query_runs h) as (ok & r & -> & Hr). by destruct r.
Qed.

Lemma io_wp_iface_index fd h Q :
  (∀ ifindex, Q (ROk ifindex) (mk_event (IfIndex fd iface) true :: h)) →
  (∀ e, Q (RErr e) (mk_event (IfIndex fd iface) false :: h)) → (∀ e, Q (RErr e) h) →
  io_wp (iface_index K fd iface) h Q.
Proof. intros. unfold iface_index. case_match; [by apply io_wp_throw|]. io_call; auto. Qed.
End setup.

Ltac io_step :=
  lazymatch goal with
  | |- io_wp (_ ≫= _) _ _ => apply io_wp_bind
  | |- io_wp (call _ _) _ _ => io_call; intros
  | |- io_wp (iface_index _ _ _) _ _ => apply io_wp_iface_index; intros
  | |- io_wp (or_default _ _) _ _ => apply io_wp_query; intros
  | |- io_wp (dropping (mret tt) _) _ _ => apply io_wp_dropping_none
  | |- io_wp (dropping _ _) _ _ => apply io_wp_dropping
  | |- io_wp (mret _) _ _ => apply io_wp_ret
  | |- io_wp (lift ?r) _ _ => apply io_wp_lift; destruct r
  | |- io_wp (match ?x with (_, _) => _ end) _ _ => destruct x as [[? ?] ?]
  | |- ∀ _, _ => intros ?
  end.

(** The interface index, the failing call and the answers to the calls that give
    things back, read off a list of calls. *)
Ltac run_index l :=
  lazymatch l with
  | context [Bind _ _ ?i] => constr:(i)
  | context [OptPromiscuous ?i] => constr:(i)
  | _ => constr:(0)
  end.
Ltac run_failing l :=
  lazymatch l with
  | context [mk_event ?c false] => constr:(Some c)
  | _ => constr:(@None syscall)
  end.
Ltac run_unmapped l :=
  lazymatch l with context [mk_event Munmap ?ok] => constr:(ok) | _ => constr:(true) end.

Ltac run_done := solve [simpl; lia | intros ? [= <-]; reflexivity | intros ? ?; discriminate].

Ltac run_end :=
  lazymatch goal with
  | |- setup_run ?a ?b ?p ?m ?g (ROk ?live) (mk_event _ ?ok :: ?l) =>
      let i := run_index l in exact (setup_done a b p m g live i ok)
  | |- setup_run ?a ?b ?p ?m ?g ?r (mk_event (Close ?fd) ?ok :: ?l) =>
      let i := run_index l in let c := run_failing l in let u := run_unmapped l in
      let engaged k := (refine (setup_unengaged a b p m g _ fd i k c ok u _ _); run_done) in
      let prepared k := (refine (setup_unprepared a b p m g r fd k c ok _ _ _); run_done) in
      first [engaged 2%nat | engaged 1%nat | engaged 0%nat | prepared 3%nat | prepared 2%nat | prepared 1%nat]
  | |- setup_run _ _ _ _ _ _ [_] => apply setup_no_socket
  end.

Lemma setup_runs `{PcapErrors} K iface filter snaplen promiscuous mode ring h :
  io_wp (open_inner K iface filter snaplen promiscuous mode ring) h
    (λ r h', ∃ new, h' = new ++ h ∧ setup_run iface filter promiscuous mode ring r new).
Proof.
  unfold open_inner, attach_filter, open_rx, join_promiscuous.
  destruct filter as [prog|], ring as [cfg|], promiscuous;
    repeat (io_step; cbn [drop_rx]; try io_end; try run_end).
Qed.

(** C15: a capture socket is set up in order: it is bound, and so receives, only
    when the filter is attached and there is somewhere to put a packet; when a
    step fails no later one is taken, and the socket and the mapping are given
    back. *)
Theorem linux_open_order `{PcapErrors} (K : Kernel) (iface : string) (filter : option Bpf.Program)
    (snaplen : Z) (promiscuous : bool) (mode : TimestampMode) (ring : option RingConfig) (h : history) :
  let '(r, h') := open_inner K iface filter snaplen promiscuous mode ring h in
  ∃ new, h' = new ++ h ∧ setup_run iface filter promiscuous mode ring r new.
Proof. apply setup_runs. Qed.

(** * Receiving *)

(** [j] calls that failed. *)
Definition retries (c : syscall) (j : nat) (h : history) : history :=
  Nat.iter j (cons (mk_event c false)) h.

Lemma retries_S c j h : retries c j (mk_event c false :: h) = retries c (S j) h.
Proof. symmetry. apply Nat.iter_succ_r. Qed.

(** The first [j] calls are interrupted by signals. *)
Definition interrupted (K : Kernel) (c : syscall) (j : nat) (h : history) : Prop :=
  ∀ i, (i < j)%nat → ∃ e, K (retries c i h) c = inl e ∧ kind e = KInterrupted.

Lemma interrupted_S K c j h :
  interrupted K c (S j) h →
  (∃ e, K h c = inl e ∧ kind e = KInterrupted) ∧ interrupted K c j (mk_event c false :: h).
Proof.
  intros Hi. split; [apply (Hi 0%nat); lia|]. intros i Hij. rewrite retries_S. apply Hi. lia.
Qed.

Section recv.
Context `{PcapErrors} (K : Kernel).

(** What the first answer that is no interruption leads to. *)
Lemma recv_packet_runs j : ∀ n fd buf snaplen link_type mode h,
  let c := Recvmsg fd (zlen buf) in
  (j < n)%nat → interrupted K c j h →
  match K (retries c j h) c with
  | inr (bytes, msgs) =>
      recv_packet K n fd buf snaplen link_type mode h =
      Some (received_packet K buf bytes msgs snaplen link_type mode (mk_event c true :: retries c j h))
  | inl e =>
      kind e ≠ KInterrupted →
      recv_packet K n fd buf snaplen link_type mode h =
      Some (if decide (kind e = KWouldBlock) then ROk (None, buf) else RErr (from_io e), retries c (S j) h)
  end.
Proof.
  induction j as [|j IH]; intros n fd buf snaplen link_type mode h c Hn Hi;
    (destruct n as [|n]; [lia|]); cbn [recv_packet]; unfold sys; fold c.
  - change (retries c 0 h) with h. destruct (K h c) as [e|[bytes msgs]]; [|done].
    intros He. rewrite decide_False by done. by case_decide.
  - apply interrupted_S in Hi as [(e & E & He) Hi]. rewrite E, decide_True by done.
    specialize (IH n fd buf snaplen link_type mode (mk_event c false :: h) ltac:(lia) Hi).
    fold c in IH. rewrite !retries_S in IH. exact IH.
Qed.

Lemma received_packet_ok buf bytes msgs snaplen link_type mode ts_sec ts_nsec h :
  zlen bytes ≤ zlen buf → 0 ≤ snaplen → find_timestamp msgs mode = Some (ROk (ts_sec, ts_nsec)) →
  0 ≤ ts_sec → 0 ≤ ts_nsec → ts_sec + ts_nsec / NANOS_PER_SEC < 2 ^ 63 →
  received_packet K buf bytes msgs snaplen link_type mode h =
  (ROk (Some (mk_packet_ref (take (Z.to_nat snaplen) bytes)
                (mk_time (ts_sec + ts_nsec / NANOS_PER_SEC) (ts_nsec mod NANOS_PER_SEC))
                (as_u32 (zlen bytes)) link_type),
        zput 0 bytes buf), h).
Proof.
  intros Hb Hs Ht ???. pose proof (zlen_nonneg bytes).
  unfold received_packet, extract_timestamp. rewrite Ht. unfold mbind, IO_bind, lift, slice_to.
  rewrite zlen_zput by lia. rewrite (proj2 (Z.leb_le _ _)) by lia.
  rewrite PacketRef_new_ok by done. unfold mret, IO_ret. do 5 f_equal.
  unfold zput. change (take (Z.to_nat 0) buf) with (@nil Z). rewrite app_nil_l, take_app_le by (unfold zlen in *; lia).
  destruct (Z.le_ge_cases (zlen bytes) snaplen).
  - rewrite !take_ge by (unfold zlen in *; lia). done.
  - f_equal. lia.
Qed.
End recv.

(** ** The time of a packet *)

(** A [timespec], in the byte order of the machine. *)
Definition timespec_bytes (sec nsec : Z) : list Z := le_bytes 8 sec ++ le_bytes 8 nsec.

(** No message of a type at the level of sockets, which is 1. *)
Definition without (type_ : Z) (msgs : list cmsg) : Prop :=
  Forall (λ c, ¬ (cm_level c = 1 ∧ cm_type c = type_)) msgs.

(** The time that the control messages of a packet carry. In software mode it is
    the [timespec] of the first message of type 35. In hardware mode, the first
    message of type 37 holds three: the time of the kernel, one no longer used,
    and the time of the device, which counts unless it is zero. *)
Inductive stamped : TimestampMode → list cmsg → Z → Z → Prop :=
  | stamped_software before rest pad sec nsec :
      without 35 before →
      stamped Software (before ++ mk_cmsg 1 35 (timespec_bytes sec nsec ++ pad) :: rest) sec nsec
  | stamped_device before rest pad kernel unused sec nsec :
      without 37 before → zlen kernel = 16 → zlen unused = 16 → sec ≠ 0 ∨ nsec ≠ 0 →
      stamped Hardware
        (before ++ mk_cmsg 1 37 (kernel ++ unused ++ timespec_bytes sec nsec ++ pad) :: rest) sec nsec
  | stamped_kernel before rest pad unused sec nsec :
      without 37 before → zlen unused = 16 →
      stamped Hardware
        (before ++ mk_cmsg 1 37 (timespec_bytes sec nsec ++ unused ++ timespec_bytes 0 0 ++ pad) :: rest)
        sec nsec.

Lemma zlen_timespec sec nsec : zlen (timespec_bytes sec nsec) = 16.
Proof. unfold timespec_bytes. by rewrite zlen_app, !zlen_le_bytes. Qed.

Lemma timespec_words a sec nsec b :
  0 ≤ sec < 2 ^ 63 → 0 ≤ nsec < NANOS_PER_SEC →
  le_at 8 (zlen a) (a ++ timespec_bytes sec nsec ++ b) = sec ∧
  le_at 8 (zlen a + 8) (a ++ timespec_bytes sec nsec ++ b) = nsec.
Proof.
  intros Hs Hn. unfold timespec_bytes, NANOS_PER_SEC in *. rewrite <- !(assoc_L (++)). split.
  - apply le_at_word. lia.
  - rewrite (assoc_L (++)). replace (zlen a + 8) with (zlen (a ++ le_bytes 8 sec))
      by (rewrite zlen_app, zlen_le_bytes; done). apply le_at_word. lia.
Qed.

Section stamps.
Context `{PcapErrors}.

Lemma timespec_at_ok a sec nsec b :
  0 ≤ sec < 2 ^ 63 → 0 ≤ nsec < NANOS_PER_SEC →
  timespec_at (zlen a) (a ++ timespec_bytes sec nsec ++ b) = ROk (sec, nsec).
Proof.
  intros Hs Hn. destruct (timespec_words a sec nsec b Hs Hn) as [E1 E2]. unfold timespec_at.
  pose proof (zlen_nonneg b). rewrite !zlen_app, zlen_timespec.
  rewrite (proj2 (Z.ltb_ge _ _)), E1, E2 by lia. unfold as_u32, NANOS_PER_SEC in *.
  by rewrite Z.mod_small by lia.
Qed.

(** The messages in front are of no interest. *)
Lemma find_timestamp_skip mode before msgs :
  without (match mode with Software => 35 | Hardware => 37 end) before →
  find_timestamp (before ++ msgs) mode = find_timestamp msgs mode.
Proof.
  induction 1 as [|c before Hc _ IH]; [done|]. cbn [app find_timestamp].
  unfold SOL_SOCKET, SCM_TIMESTAMPNS, SO_TIMESTAMPNS, SCM_TIMESTAMPING, SO_TIMESTAMPING.
  destruct (Z.eqb_spec (cm_level c) 1); [|done]. destruct mode.
  - destruct (Z.eqb_spec (cm_type c) 35); [by destruct Hc|done].
  - destruct (Z.eqb_spec (cm_type c) 37); [by destruct Hc|done].
Qed.

Lemma find_software data rest :
  find_timestamp (mk_cmsg 1 35 data :: rest) Software = Some (timespec_at 0 data).
Proof. reflexivity. Qed.

Lemma find_hardware data rest :
  48 ≤ zlen data →
  find_timestamp (mk_cmsg 1 37 data :: rest) Hardware =
    Some (timespec_at (if timespec_set 32 data then 32 else 0) data).
Proof. intros Hl. cbn -[timespec_at timespec_set zlen]. by rewrite (proj2 (Z.ltb_ge _ _)) by lia. Qed.

Lemma find_timestamp_stamped mode msgs sec nsec :
  stamped mode msgs sec nsec → 0 ≤ sec < 2 ^ 63 → 0 ≤ nsec < NANOS_PER_SEC →
  find_timestamp msgs mode = Some (ROk (sec, nsec)).
Proof.
  intros [before rest pad s n Hb|before rest pad k u s n Hb Hk Hu Hz|before rest pad u s n Hb Hu] Hs Hn;
    rewrite find_timestamp_skip by done; pose proof (zlen_nonneg pad).
  - rewrite find_software. f_equal. apply (timespec_at_ok [] s n pad Hs Hn).
  - rewrite find_hardware by (rewrite !zlen_app, zlen_timespec; lia). f_equal. rewrite (assoc_L (++) k).
    assert (E : zlen (k ++ u) = 32) by (rewrite zlen_app; lia).
    destruct (timespec_words (k ++ u) s n pad Hs Hn) as [E1 E2]. rewrite E in E1, E2.
    unfold timespec_set. rewrite E1, E2.
    assert (negb (s =? 0) || negb (n =? 0) = true) as -> by lia.
    rewrite <- E. by apply timespec_at_ok.
  - rewrite find_hardware by (rewrite !zlen_app, !zlen_timespec; lia). f_equal.
    assert (E : zlen (timespec_bytes s n ++ u) = 32) by (rewrite zlen_app, zlen_timespec; lia).
    destruct (timespec_words (timespec_bytes s n ++ u) 0 0 pad) as [E1 E2]; [done|by vm_compute|].
    rewrite E in E1, E2. unfold timespec_set. rewrite (assoc_L (++) _ u), E1, E2.
    cbn [negb orb Z.eqb]. rewrite <- (assoc_L (++) _ u). by apply (timespec_at_ok []).
Qed.
End stamps.

(** What is stored of a message that a buffer of [size] bytes receives. *)
Definition stored (size : Z) (wire : list Z) : list Z := take (Z.to_nat size) wire.

Lemma recv_packet_gives `{PcapErrors} (K : Kernel) (j n : nat) (fd : Z) (buf : list Z)
    (snaplen : Z) (link_type : LinkType) (mode : TimestampMode) (h : history) (bytes : list Z)
    (msgs : list cmsg) (ts_sec ts_nsec : Z) :
  let c := Recvmsg fd (zlen buf) in
  (j < n)%nat → interrupted K c j h → K (retries c j h) c = inr (bytes, msgs) →
  zlen bytes ≤ zlen buf → 0 ≤ snaplen → stamped mode msgs ts_sec ts_nsec →
  0 ≤ ts_sec < 2 ^ 63 → 0 ≤ ts_nsec < NANOS_PER_SEC →
  recv_packet K n fd buf snaplen link_type mode h =
  Some (ROk (Some (mk_packet_ref (take (Z.to_nat snaplen) bytes) (mk_time ts_sec ts_nsec)
                     (as_u32 (zlen bytes)) link_type),
             zput 0 bytes buf),
        mk_event c true :: retries c j h).
Proof.
  intros c Hj Hi HK Hb Hs Ht Hsec Hn.
  pose proof (recv_packet_runs K j n fd buf snaplen link_type mode h Hj Hi) as E.
  fold c in E. rewrite HK in E. rewrite E, (received_packet_ok K _ _ _ _ _ _ ts_sec ts_nsec);
    rewrite ?(Z.div_small _ _ Hn), ?(Z.mod_small _ _ Hn), ?Z.add_0_r;
    (done || lia || by apply find_timestamp_stamped).
Qed.

(** C18: a receive retries as often as it is interrupted, and then gives the packet
    of the message, if the message fits the buffer: its bytes cut to the capture
    length, its full length, and the time that its control messages carry for
    the mode. *)
Theorem recv_packet_delivers `{PcapErrors} (K : Kernel) (j n : nat) (fd : Z) (buf : list Z)
    (snaplen : Z) (link_type : LinkType) (mode : TimestampMode) (h : history) (wire : list Z)
    (msgs : list cmsg) (ts_sec ts_nsec : Z) :
  let c := Recvmsg fd (zlen buf) in
  (j < n)%nat → interrupted K c j h → K (retries c j h) c = inr (stored (zlen buf) wire, msgs) →
  zlen wire ≤ zlen buf → zlen wire < 2 ^ 32 → 0 ≤ snaplen → stamped mode msgs ts_sec ts_nsec →
  0 ≤ ts_sec < 2 ^ 63 → 0 ≤ ts_nsec < NANOS_PER_SEC →
  recv_packet K n fd buf snaplen link_type mode h =
  Some (ROk (Some (mk_packet_ref (take (Z.to_nat snaplen) wire) (mk_time ts_sec ts_nsec)
                     (zlen wire) link_type),
             zput 0 wire buf),
        mk_event c true :: retries c j h).
Proof.
  intros c Hj Hi HK Hb Hl Hs Ht Hsec Hn.
  assert (E : stored (zlen buf) wire = wire) by (apply take_ge; unfold zlen in *; lia). rewrite E in HK.
  rewrite (recv_packet_gives K j n fd buf snaplen link_type mode h wire msgs ts_sec ts_nsec) by done.
  pose proof (zlen_nonneg wire). unfold as_u32. by rewrite (Z.mod_small (zlen wire)) by lia.
Qed.

(** of a message that the buffer cuts, the length of the buffer is reported, not
    that of the message. *)
Lemma recv_packet_cut `{PcapErrors} (K : Kernel) (fd : Z) (buf : list Z) (snaplen : Z)
    (link_type : LinkType) (mode : TimestampMode) (h : history) (wire : list Z) (msgs : list cmsg)
    (ts_sec ts_nsec : Z) :
  K h (Recvmsg fd (zlen buf)) = inr (stored (zlen buf) wire, msgs) →
  zlen buf < zlen wire → zlen buf < 2 ^ 32 → 0 ≤ snaplen → stamped mode msgs ts_sec ts_nsec →
  0 ≤ ts_sec < 2 ^ 63 → 0 ≤ ts_nsec < NANOS_PER_SEC →
  ∃ p buf' h', recv_packet K 1 fd buf snaplen link_type mode h = Some (ROk (Some p, buf'), h') ∧
    pr_orig_len p = zlen buf ∧ pr_orig_len p ≠ zlen wire.
Proof.
  intros HK Hlt Hb Hs Ht Hsec Hn. pose proof (zlen_nonneg buf).
  assert (E : zlen (stored (zlen buf) wire) = zlen buf)
    by (unfold stored, zlen in *; rewrite length_take; lia).
  do 3 eexists. split.
  - apply (recv_packet_gives K 0 1 fd buf snaplen link_type mode h (stored (zlen buf) wire) msgs ts_sec ts_nsec);
      try done; [lia|intros i Hi; lia|lia].
  - cbn [pr_orig_len]. rewrite E. unfold as_u32. rewrite Z.mod_small by lia. split; [done|lia].
Qed.

(** * Totals *)

(** The kernel's counters start over with each reading; the totals do not. *)
Lemma linux_stats_total `{PcapErrors} K l h s l' h' :
  linux_stats K l h = (ROk (s, l'), h') →
  ∃ packets drops, K h (GetStats (ll_fd l)) = inr (packets, drops) ∧
    received s = ll_recv_acc l + packets ∧ dropped s = ll_drop_acc l + drops ∧
    ll_recv_acc l' = received s ∧ ll_drop_acc l' = dropped s ∧ ll_fd l' = ll_fd l.
Proof.
  unfold linux_stats, call, sys, mbind, IO_bind. destruct (K h _) as [e|[packets drops]]; [done|].
  simpl. unfold lift, u64_add. destruct (_ <? _); [|done]. destruct (_ <? _); [|done].
  unfold mret, IO_ret. intros [= <- <- <-]. by eexists _, _.
Qed.

(** * Interfaces *)

Definition proc_net_dev : string :=
  "Inter-|   Receive                                                |  Transmit
 face |bytes    packets errs drop fifo frame compressed multicast|bytes    packets
    lo:  104292    1146    0    0    0     0          0         0   104292    1146
  eth0: 5161381   13871    0    0    0     0          0         0   838721    9412
wlp0s20f3:       0       0    0    0    0     0          0         0        0       0
".

Example interfaces_sample : interfaces_of proc_net_dev = ["lo"; "eth0"; "wlp0s20f3"]%string.
Proof. vm_compute. reflexivity. Qed.

(** A kernel for examples: every call succeeds, after one interruption of each
    receive; /sys knows one interface. *)
Definition sample_cmsg : cmsg :=
  mk_cmsg SOL_SOCKET SCM_TIMESTAMPNS (le_bytes 8 1700000000 ++ le_bytes 8 123456789).

Definition sample_kernel : Kernel := λ h c,
  match c return io_error + reply c with
  | Socket _ _ _ | IfIndex _ _ | OpenDevice _ => inr 3
  | GetFl _ | Ioctl _ _ => inr 0
  | SendTo _ frame | WriteFd _ frame => inr (zlen frame)
  | SetOpt _ _ | Munmap | Bind _ _ _ | SetFl _ _ | Close _ | IoctlName _ _ _ | IoctlFilter _ _ _ _ => inr tt
  | RingSetup _ => inr (mk_answers None None None, 4096, [])
  | ReadFile _ => inr "1
"%string
  | GetStats _ => inr (2, 1)
  | Recvmsg _ _ =>
      match h with
      | mk_event (Recvmsg _ _) false :: _ => inr ([1; 2; 3; 4; 5], [sample_cmsg])
      | _ => inl (mk_io_error KInterrupted "Interrupted system call")
      end
  | Now => inr (mk_time 1 2)
  | ReadFd _ _ => inr []
  | Getifaddrs => inr []
  | _ => inl (mk_io_error KOther "unexpected")
  end.

(** A kernel whose network device stamps packets; the time of the kernel is in the
    same message, behind one of another level. *)
Definition device_kernel : Kernel := λ h c,
  match c return io_error + reply c with
  | Recvmsg _ _ =>
      inr ([1; 2; 3; 4; 5],
           [mk_cmsg 263 37 [9];
            mk_cmsg 1 37 (timespec_bytes 1700000000 1 ++ replicate 16 0 ++ timespec_bytes 1600000000 2)])
  | _ => inl (mk_io_error KOther "unexpected")
  end.

Lemma recv_packet_delivers_witness :
  recv_packet (H:=no_pcap) sample_kernel 3 3 (replicate 8 0) 4 Ethernet Software [] =
  Some (ROk (Some (mk_packet_ref [1; 2; 3; 4] (mk_time 1700000000 123456789) 5 Ethernet),
             [1; 2; 3; 4; 5; 0; 0; 0]),
        [mk_event (Recvmsg 3 8) true; mk_event (Recvmsg 3 8) false]) ∧
  recv_packet (H:=no_pcap) device_kernel 1 3 (replicate 8 0) 4 RawIp Hardware [] =
  Some (ROk (Some (mk_packet_ref [1; 2; 3; 4] (mk_time 1600000000 2) 5 RawIp),
             [1; 2; 3; 4; 5; 0; 0; 0]),
        [mk_event (Recvmsg 3 8) true]).
Proof.
  split.
  - apply (recv_packet_delivers (H:=no_pcap) sample_kernel 1 3 3 (replicate 8 0) 4 Ethernet Software []
      [1; 2; 3; 4; 5] [sample_cmsg]);
      [lia| |reflexivity|by vm_compute|by vm_compute|done| |by split|by split].
    + intros i Hi. replace i with 0%nat by lia. by eexists.
    + apply (stamped_software [] [] []). constructor.
  - apply (recv_packet_delivers (H:=no_pcap) device_kernel 0 1 3 (replicate 8 0) 4 RawIp Hardware []
      [1; 2; 3; 4; 5]
      [mk_cmsg 263 37 [9];
       mk_cmsg 1 37 (timespec_bytes 1700000000 1 ++ replicate 16 0 ++ timespec_bytes 1600000000 2)]);
      [lia|intros i Hi; lia|reflexivity|by vm_compute|by vm_compute|done| |by split|by split].
    apply (stamped_device [mk_cmsg 263 37 [9]] [] [] (timespec_bytes 1700000000 1) (replicate 16 0));
      [|done|done|by left]. constructor; [by intros [? _]|constructor].
Defined.

(** * A defect *)

(** the seconds of a time before 1970 are negative; cast to an unsigned number
    they are out of the range of [SystemTime], and making the packet panics. *)
Theorem pre_epoch_panics `{PcapErrors} (K : Kernel) (h : history) :
  (received_packet K [0; 0] [1] [mk_cmsg SOL_SOCKET SCM_TIMESTAMPNS (le_bytes 8 (-1) ++ le_bytes 8 0)]
     65535 Ethernet Software h).1 = RPanic.
Proof. vm_compute. reflexivity. Qed.
