(* ===== verification/Capture.v ===== *)
(** The capture interface (pkttap's capture.rs, live/mod.rs, fanout.rs and
    inject.rs), as it is compiled for Linux: builders, and the dispatch between a
    live interface and a file. *)

From S2P Require Export LinuxLive.

(** * Builders *)

Inductive Source :=
  | SourceLive (iface : string)
  | SourceFile (path : string).

Record CaptureBuilder := mk_builder {
  cb_source : Source;
  cb_filter : option FilterSpec;
  cb_snaplen : Z;
  cb_promiscuous : bool;
  cb_buffer_timeout : Duration;
  cb_nonblocking : bool;
  cb_timestamp_mode : TimestampMode;
  cb_ring : option RingConfig;
}.

Definition new_builder (source : Source) : CaptureBuilder :=
  mk_builder source None 65535 false (mk_duration 0 100000000) false timestamp_mode_default None.

Definition new_live (iface : string) : CaptureBuilder := new_builder (SourceLive iface).
Definition new_file (path : string) : CaptureBuilder := new_builder (SourceFile path).

Definition with_filter (f : option FilterSpec) (b : CaptureBuilder) : CaptureBuilder :=
  mk_builder (cb_source b) f (cb_snaplen b) (cb_promiscuous b) (cb_buffer_timeout b) (cb_nonblocking b)
    (cb_timestamp_mode b) (cb_ring b).

(** [filter]: the last call counts, and [None] takes a filter away. *)
Definition builder_filter (expr : option string) (b : CaptureBuilder) : CaptureBuilder :=
  with_filter (FilterString <$> expr) b.
Definition filter_program (p : Bpf.Program) (b : CaptureBuilder) : CaptureBuilder :=
  with_filter (Some (FilterProgram p)) b.
Definition builder_snaplen (n : Z) (b : CaptureBuilder) : CaptureBuilder :=
  mk_builder (cb_source b) (cb_filter b) n (cb_promiscuous b) (cb_buffer_timeout b) (cb_nonblocking b)
    (cb_timestamp_mode b) (cb_ring b).
Definition builder_promiscuous (on : bool) (b : CaptureBuilder) : CaptureBuilder :=
  mk_builder (cb_source b) (cb_filter b) (cb_snaplen b) on (cb_buffer_timeout b) (cb_nonblocking b)
    (cb_timestamp_mode b) (cb_ring b).
Definition buffer_timeout (d : Duration) (b : CaptureBuilder) : CaptureBuilder :=
  mk_builder (cb_source b) (cb_filter b) (cb_snaplen b) (cb_promiscuous b) d (cb_nonblocking b)
    (cb_timestamp_mode b) (cb_ring b).
Definition builder_nonblocking (nb : bool) (b : CaptureBuilder) : CaptureBuilder :=
  mk_builder (cb_source b) (cb_filter b) (cb_snaplen b) (cb_promiscuous b) (cb_buffer_timeout b) nb
    (cb_timestamp_mode b) (cb_ring b).
Definition builder_timestamp_mode (mode : TimestampMode) (b : CaptureBuilder) : CaptureBuilder :=
  mk_builder (cb_source b) (cb_filter b) (cb_snaplen b) (cb_promiscuous b) (cb_buffer_timeout b)
    (cb_nonblocking b) mode (cb_ring b).
Definition builder_ring (cfg : option RingConfig) (b : CaptureBuilder) : CaptureBuilder :=
  mk_builder (cb_source b) (cb_filter b) (cb_snaplen b) (cb_promiscuous b) (cb_buffer_timeout b)
    (cb_nonblocking b) (cb_timestamp_mode b) cfg.

Section capture.
Context `{PcapCrate} (K : Kernel).

(** * Captures *)

(** The reader of a file owns the descriptor of the file. *)
Inductive Capture :=
  | CLive (l : LinuxLive)
  | CFile (fd : Z) (f : FileCapture).

(** [live.set_nonblocking(true)?]: the capture is dropped when it fails. *)
Definition nonblocking_live (live : LinuxLive) : IO LinuxLive :=
  let '(set, live) := linux_set_nonblocking K true live in
  dropping (drop_live K live) (set;; mret live).

Definition open_live (b : CaptureBuilder) (iface : string) : IO Capture :=
  link_type ← query_link_type K iface;
  prog ← lift (compile_filter (cb_filter b) link_type);
  live ← (match cb_ring b with
          | Some cfg =>
              linux_open_ring K iface prog (cb_snaplen b) (cb_promiscuous b) (cb_timestamp_mode b) cfg
          | None => linux_open K iface prog (cb_snaplen b) (cb_promiscuous b) (cb_timestamp_mode b)
          end);
  live ← (if cb_nonblocking b then nonblocking_live live else mret live);
  mret (CLive live).

(** [FileCapture::open]: the file is dropped, and so closed, when the header or
    the filter is rejected. *)
Definition open_file (b : CaptureBuilder) (path : string) : IO Capture :=
  fd ← call K (OpenFile path);
  dropping (discard K (Close fd)) (
    content ← sys K (ReadContent fd);
    fc ← lift (file_open content (cb_filter b));
    mret (CFile fd fc)).

Definition capture_open (b : CaptureBuilder) : IO Capture :=
  match cb_source b with
  | SourceLive iface => open_live b iface
  | SourceFile path => open_file b path
  end.

(** Dropping a capture. *)
Definition drop_capture (c : Capture) : IO unit :=
  match c with CLive l => drop_live K l | CFile fd _ => discard K (Close fd) end.

Definition capture_link_type (c : Capture) : LinkType :=
  match c with CLive l => ll_link_type l | CFile _ f => fc_link_type f end.

Definition capture_stats (c : Capture) : IO (CaptureStats * Capture) :=
  match c with
  | CLive l => '(s, l) ← linux_stats K l; mret (s, CLive l)
  | CFile fd f => mret (stats_default, CFile fd f)
  end.

Definition capture_next (n : nat) (polls : list (option io_error * list Z)) (c : Capture) (h : history) :
    option (Result (option PacketRef * Capture) * history) :=
  match c with
  | CLive l =>
      '(r, h) ← linux_next_packet K n polls l h;
      Some ('(pkt, l) ← r; ROk (pkt, CLive l), h)
  | CFile fd f =>
      '(r, f) ← file_next n f;
      Some (pkt ← r; ROk (pkt, CFile fd f), h)
  end.

(** * Fan-out *)

Inductive FanoutMode := Hash | LoadBalance | CpuAffinity | Rollover | Random | QueueMapping.

Definition kernel_value (m : FanoutMode) : Z :=
  match m with
  | Hash => 0
  | LoadBalance => 1
  | CpuAffinity => 2
  | Rollover => 3
  | Random => 4
  | QueueMapping => 5
  end.

Record FanoutGroup := mk_fanout {
  fg_iface : string;
  fg_filter : option FilterSpec;
  fg_snaplen : Z;
  fg_promiscuous : bool;
  fg_mode : FanoutMode;
  fg_group_id : Z;
  fg_timestamp_mode : TimestampMode;
  fg_ring : option RingConfig;
}.

(** The id from the clock and the process id. *)
Definition default_group_id (now : SystemTime) (pid : Z) : Z :=
  Z.lxor (as_u16 (d_nanos (since_epoch now))) (as_u16 pid).

Definition new_fanout (now : SystemTime) (pid : Z) (iface : string) (mode : FanoutMode) : FanoutGroup :=
  mk_fanout iface None 65535 false mode (default_group_id now pid) timestamp_mode_default None.

Definition fanout_group_id (id : Z) (g : FanoutGroup) : FanoutGroup :=
  mk_fanout (fg_iface g) (fg_filter g) (fg_snaplen g) (fg_promiscuous g) (fg_mode g) id
    (fg_timestamp_mode g) (fg_ring g).
Definition fanout_filter (expr : option string) (g : FanoutGroup) : FanoutGroup :=
  mk_fanout (fg_iface g) (FilterString <$> expr) (fg_snaplen g) (fg_promiscuous g) (fg_mode g)
    (fg_group_id g) (fg_timestamp_mode g) (fg_ring g).
Definition fanout_snaplen (n : Z) (g : FanoutGroup) : FanoutGroup :=
  mk_fanout (fg_iface g) (fg_filter g) n (fg_promiscuous g) (fg_mode g) (fg_group_id g)
    (fg_timestamp_mode g) (fg_ring g).
Definition fanout_promiscuous (on : bool) (g : FanoutGroup) : FanoutGroup :=
  mk_fanout (fg_iface g) (fg_filter g) (fg_snaplen g) on (fg_mode g) (fg_group_id g)
    (fg_timestamp_mode g) (fg_ring g).
Definition fanout_ring (cfg : option RingConfig) (g : FanoutGroup) : FanoutGroup :=
  mk_fanout (fg_iface g) (fg_filter g) (fg_snaplen g) (fg_promiscuous g) (fg_mode g) (fg_group_id g)
    (fg_timestamp_mode g) cfg.
Definition fanout_timestamp_mode (mode : TimestampMode) (g : FanoutGroup) : FanoutGroup :=
  mk_fanout (fg_iface g) (fg_filter g) (fg_snaplen g) (fg_promiscuous g) (fg_mode g) (fg_group_id g)
    mode (fg_ring g).

(** Dropping captures that are open: one after the other, in order. *)
Fixpoint drop_all (l : list LinuxLive) : IO unit :=
  match l with
  | [] => mret tt
  | live :: l' => drop_live K live;; drop_all l'
  end.

(** The loop that opens the members; those that are open are dropped when one
    cannot be opened. *)
Fixpoint open_members (n : nat) (g : FanoutGroup) (prog : option Bpf.Program) (captures : list LinuxLive) :
    IO (list LinuxLive) :=
  match n with
  | O => mret captures
  | S n' =>
      live ← dropping (drop_all captures)
        (open_fanout K (fg_iface g) prog (fg_snaplen g) (fg_promiscuous g) (fg_timestamp_mode g)
           (fg_group_id g) (kernel_value (fg_mode g)) (fg_ring g));
      open_members n' g prog (captures ++ [live])
  end.

Definition into_captures (n : nat) (g : FanoutGroup) : IO (list Capture) :=
  if decide (n = 0%nat) then throw (Platform "FanoutGroup::into_captures requires n >= 1")
  else
    link_type ← query_link_type K (fg_iface g);
    prog ← lift (compile_filter (fg_filter g) link_type);
    lives ← open_members n g prog [];
    mret (map CLive lives).

(** * Injection *)

Definition inject (n : nat) (i : LinuxInjector) (frame : list Z) (h : history) :
    option (Result Z * history) :=
  if zlen frame =? 0 then Some (RErr (Platform "cannot inject an empty frame"), h)
  else injector_send K n i frame h.
End capture.
