(* ===== verification/CaptureSound.v ===== *)
(** No capture leaks a descriptor: what is opened is either owned by a capture
    that is returned, or closed again, and nothing else is closed. *)

From stdpp Require Import gmultiset.
From S2P Require Export LinuxSound Capture.

(** * The descriptors that are open *)

(** The descriptor an answer of the kernel gives. *)
Definition given (c : syscall) : reply c → option Z :=
  match c return reply c → option Z with
  | Socket _ _ _ | OpenFile _ | OpenDevice _ => λ fd, Some fd
  | _ => λ _, None
  end.

Section track.
Context (K : Kernel).

(** A call made when [s] are open: what the kernel gives is opened, and only
    what is open can be closed. *)
Definition track_call (h : history) (c : syscall) (s : gmultiset Z) : option (gmultiset Z) :=
  match c with
  | Close fd => if decide (fd ∈ s) then Some (s ∖ {[+ fd +]}) else None
  | _ =>
      Some match K h c with
           | inr r => match given c r with Some fd => s ⊎ {[+ fd +]} | None => s end
           | inl _ => s
           end
  end.

(** The calls [new], made after [h], the last one first. *)
Fixpoint track (h new : history) (s : gmultiset Z) : option (gmultiset Z) :=
  match new with
  | [] => Some s
  | e :: new' => s ← track h new' s; track_call (new' ++ h) (ev_call e) s
  end.

Lemma track_app h l k s : track h (l ++ k) s = (s ← track h k s; track (k ++ h) l s).
Proof.
  induction l as [|e l IH]; simpl; [by destruct (track h k s)|]. rewrite IH.
  destruct (track h k s) as [s'|]; [|done]. simpl. destruct (track (k ++ h) l s') as [s2|]; [|done].
  simpl. by rewrite (assoc_L (++)).
Qed.
End track.

(** * Ownership *)

Section owns.
Context `{PcapErrors} (K : Kernel).

(** Run while [p] are open, and others, [m] leaves [d] of its result open, and
    the others as they are. *)
Definition owns {A} (p : gmultiset Z) (m : IO A) (d : Result A → gmultiset Z) : Prop :=
  ∀ h s, let '(r, h') := m h in ∃ new, h' = new ++ h ∧ track K h new (s ⊎ p) = Some (s ⊎ d r).

Lemma owns_ext {A} p (m : IO A) d d' : owns p m d → (∀ r, d r = d' r) → owns p m d'.
Proof. intros Hm Hd h s. specialize (Hm h s). destruct (m h) as [r h']. by rewrite <- Hd. Qed.

Lemma owns_frame {A} p f (m : IO A) d : owns p m d → owns (p ⊎ f) m (λ r, d r ⊎ f).
Proof.
  intros Hm h s. specialize (Hm h (s ⊎ f)). destruct (m h) as [r h']. destruct Hm as (new & -> & E).
  exists new. split; [done|]. replace (s ⊎ (p ⊎ f)) with (s ⊎ f ⊎ p) by multiset_solver. rewrite E.
  f_equal. multiset_solver.
Qed.

(** A run without calls. *)
Lemma owns_still {A} p (m : IO A) d : (∀ h, ∃ r, m h = (r, h) ∧ d r = p) → owns p m d.
Proof. intros Hm h s. destruct (Hm h) as (r & -> & ->). by exists []. Qed.

Lemma owns_ret {A} p (a : A) d : d (ROk a) = p → owns p (mret a) d.
Proof. intros Hd. apply owns_still. intros h. by eexists. Qed.

Lemma owns_lift {A} p (r : Result A) d : d r = p → owns p (lift r) d.
Proof. intros Hd. apply owns_still. intros h. by eexists. Qed.

Lemma owns_throw {A} p e d : d (RErr e) = p → owns p (throw (A:=A) e) d.
Proof. intros Hd. apply owns_still. intros h. by eexists. Qed.

Lemma owns_bind {A B} p (m : IO A) (f : A → IO B) d1 d :
  owns p m d1 → (∀ a, owns (d1 (ROk a)) (f a) d) →
  (∀ e, d1 (RErr e) = d (RErr e)) → d1 RPanic = d RPanic → owns p (m ≫= f) d.
Proof.
  intros Hm Hf He Hp h s. unfold mbind, IO_bind. specialize (Hm h s). destruct (m h) as [[a|e|] h1].
  - destruct Hm as (n1 & -> & E1). specialize (Hf a (n1 ++ h) s). destruct (f a (n1 ++ h)) as [r h2].
    destruct Hf as (n2 & -> & E2). exists (n2 ++ n1). rewrite (assoc_L (++)), track_app, E1. by split.
  - by rewrite <- He.
  - by rewrite <- Hp.
Qed.

(** [m], which cannot fail, closes [q]. *)
Definition releases (m : IO unit) (q : gmultiset Z) : Prop :=
  ∀ h s, ∃ new, m h = (ROk tt, new ++ h) ∧ track K h new (s ⊎ q) = Some s.

Lemma releases_none : releases (mret tt) ∅.
Proof. intros h s. exists []. split; [done|]. simpl. f_equal. multiset_solver. Qed.

Lemma releases_seq m1 m2 q1 q2 : releases m1 q1 → releases m2 q2 → releases (m1;; m2) (q1 ⊎ q2).
Proof.
  intros H1 H2 h s. destruct (H1 h (s ⊎ q2)) as (n1 & E1 & T1), (H2 (n1 ++ h) s) as (n2 & E2 & T2).
  exists (n2 ++ n1). unfold mbind, IO_bind. rewrite E1, E2, (assoc_L (++)), track_app. split; [done|].
  replace (s ⊎ (q1 ⊎ q2)) with (s ⊎ q2 ⊎ q1) by multiset_solver. by rewrite T1.
Qed.

Lemma releases_owns m q : releases m q → owns q m (λ _, ∅).
Proof.
  intros Hm h s. destruct (Hm h s) as (new & -> & E). exists new. split; [done|]. rewrite E.
  f_equal. multiset_solver.
Qed.

(** What [m] still holds when it fails is given back. *)
Lemma owns_dropping {A} p release (m : IO A) d q :
  releases release q →
  owns p m (λ r, match r with ROk a => d (ROk a) | r => d r ⊎ q end) → owns p (dropping release m) d.
Proof.
  intros Hr Hm h s. unfold dropping. specialize (Hm h s). destruct (m h) as [[a|e|] h1]; [done|..].
  all: destruct Hm as (n1 & -> & E1).
  - destruct (Hr (n1 ++ h) (s ⊎ d (RErr e))) as (n2 & -> & E2).
    exists (n2 ++ n1). rewrite (assoc_L (++)), track_app, E1. split; [done|].
    simpl. by rewrite (assoc_L (⊎)).
  - destruct (Hr (n1 ++ h) (s ⊎ d RPanic)) as (n2 & -> & E2).
    exists (n2 ++ n1). rewrite (assoc_L (++)), track_app, E1. split; [done|].
    simpl. by rewrite (assoc_L (⊎)).
Qed.

Definition fresh_fd (r : Result Z) : gmultiset Z := match r with ROk fd => {[+ fd +]} | _ => ∅ end.

Lemma owns_opening c (E : reply c = Z) :
  (∀ r, given c r = Some (eq_rect _ id r _ E)) → (∀ fd, c ≠ Close fd) →
  owns ∅ (call K c) (λ r, match r with ROk a => {[+ eq_rect _ id a _ E +]} | _ => ∅ end).
Proof.
  intros Hg Hc h s. unfold call, sys, mbind, IO_bind.
  assert (Ht : ∀ s', track_call K h c s' = Some match K h c with
    | inr r => match given c r with Some fd => s' ⊎ {[+ fd +]} | None => s' end | inl _ => s' end).
  { intros s'. destruct c; try done. by destruct (Hc fd). }
  destruct (K h c) as [e|r] eqn:Ek; simpl; eexists [_]; (split; [done|]); simpl; rewrite Ht.
  - done.
  - rewrite Hg. f_equal. multiset_solver.
Qed.

Lemma owns_socket f t p : owns ∅ (call K (Socket f t p)) fresh_fd.
Proof. by apply (owns_opening (Socket f t p) eq_refl). Qed.

Lemma owns_open_file path : owns ∅ (call K (OpenFile path)) fresh_fd.
Proof. by apply (owns_opening (OpenFile path) eq_refl). Qed.

Lemma releases_close fd : releases (discard K (Close fd)) {[+ fd +]}.
Proof.
  intros h s. unfold discard, sys, mbind, IO_bind. simpl. eexists [_]. split; [done|]. simpl.
  rewrite decide_True by multiset_solver. f_equal. multiset_solver.
Qed.

(** * Calls that open and close nothing *)

Definition quiet (c : syscall) : Prop := ∀ h s, track_call K h c s = Some s.

Lemma quiet_given c : (∀ r, given c r = None) → (∀ fd, c ≠ Close fd) → quiet c.
Proof.
  intros Hg Hc h s.
  destruct c; try (unfold track_call; destruct (K h _) as [e|r]; [done|]; by rewrite Hg).
  by destruct (Hc fd).
Qed.

Lemma owns_sys p c : quiet c → owns p (sys K c) (λ _, p).
Proof. intros Hq h s. unfold sys. eexists [_]. split; [done|]. simpl. apply Hq. Qed.

Lemma owns_call p c : quiet c → owns p (call K c) (λ _, p).
Proof.
  intros Hq. unfold call. eapply owns_bind; [by apply owns_sys|..]; [|done..].
  intros [e|r]; [by apply owns_throw|by apply owns_ret].
Qed.

Lemma releases_quiet c : quiet c → releases (discard K c) ∅.
Proof.
  intros Hq h s. unfold discard, sys, mbind, IO_bind. simpl. eexists [_]. split; [done|]. simpl.
  rewrite Hq. f_equal. multiset_solver.
Qed.

Lemma owns_or_default {A} p a (m : IO A) : owns p m (λ _, p) → owns p (or_default a m) (λ _, p).
Proof. intros Hm h s. unfold or_default. specialize (Hm h s). by destruct (m h) as [[| |] h']. Qed.
End owns.

Ltac quiet_call :=
  lazymatch goal with
  | |- owns ?K ?p (call _ ?c) _ => apply (owns_call K p c)
  | |- owns ?K ?p (sys _ ?c) _ => apply (owns_sys K p c)
  end; by apply quiet_given.

(** The first code of a sequence. *)
Tactic Notation "owns_step" uconstr(l) :=
  eapply owns_bind; [apply l|intros ?|by (intros; multiset_solver)|by multiset_solver].
Ltac owns_quiet :=
  eapply owns_bind; [quiet_call|intros ?|by (intros; multiset_solver)|by multiset_solver].

Section captures.
Context `{PcapCrate} (K : Kernel).

Definition owned_live (r : Result LinuxLive) : gmultiset Z :=
  match r with ROk l => {[+ ll_fd l +]} | _ => ∅ end.

Lemma owns_query p iface : owns K p (query_link_type K iface) (λ _, p).
Proof.
  unfold query_link_type. owns_quiet. case_match; [by apply owns_throw|].
  case_match; [by apply owns_ret|by apply owns_throw].
Qed.

Lemma releases_rx rx : releases K (drop_rx K rx) ∅.
Proof. unfold drop_rx. destruct rx; [apply releases_none|by apply releases_quiet, quiet_given]. Qed.

Lemma releases_live l : releases K (drop_live K l) {[+ ll_fd l +]}.
Proof.
  replace {[+ ll_fd l +]} with ({[+ ll_fd l +]} ⊎ ∅ : gmultiset Z) by multiset_solver.
  apply releases_seq; [apply releases_close|apply releases_rx].
Qed.

Lemma owns_attach p fd filter : owns K p (attach_filter K fd filter) (λ _, p).
Proof. unfold attach_filter. destruct filter; [quiet_call|by apply owns_ret]. Qed.

Lemma owns_open_rx p fd ring snaplen mode : owns K p (open_rx K fd ring snaplen mode) (λ _, p).
Proof.
  unfold open_rx. destruct ring; owns_quiet; [|by apply owns_ret]. case_match. case_match.
  owns_step (owns_lift K p _ (λ _, p) eq_refl). by apply owns_ret.
Qed.

Lemma owns_iface_index p fd name : owns K p (iface_index K fd name) (λ _, p).
Proof. unfold iface_index. case_match; [by apply owns_throw|quiet_call]. Qed.

Lemma owns_join p fd i promiscuous : owns K p (join_promiscuous K fd i promiscuous) (λ _, p).
Proof. unfold join_promiscuous. destruct promiscuous; [quiet_call|by apply owns_ret]. Qed.

Lemma owns_open_inner iface filter snaplen promiscuous mode ring :
  owns K ∅ (open_inner K iface filter snaplen promiscuous mode ring) owned_live.
Proof.
  unfold open_inner. owns_step (owns_socket K). cbn [fresh_fd].
  eapply owns_dropping; [apply releases_close|]. owns_step (owns_attach _). owns_step (owns_open_rx _).
  eapply owns_dropping; [apply releases_rx|]. owns_step (owns_iface_index _). owns_step (owns_join _).
  owns_quiet. owns_step (owns_or_default _ _ _ _ (owns_query _ _)). by apply owns_ret.
Qed.

Lemma owns_open_fanout iface filter snaplen promiscuous mode group kind ring :
  owns K ∅ (open_fanout K iface filter snaplen promiscuous mode group kind ring) owned_live.
Proof.
  unfold open_fanout. owns_step (owns_open_inner _ _ _ _ _ _).
  eapply owns_dropping; [apply releases_live|]. owns_quiet. by apply owns_ret.
Qed.

Definition live_fds (l : list LinuxLive) : gmultiset Z := list_to_set_disj (map ll_fd l).

Lemma releases_all l : releases K (drop_all K l) (live_fds l).
Proof.
  induction l as [|live l IH]; [apply releases_none|]. cbn [drop_all live_fds map list_to_set_disj].
  apply releases_seq; [apply releases_live|exact IH].
Qed.

(** The members that are open are dropped when one cannot be opened. *)
Lemma owns_open_members n g prog : ∀ captures,
  owns K (live_fds captures) (open_members K n g prog captures)
    (λ r, match r with ROk lives => live_fds lives | _ => ∅ end).
Proof.
  induction n as [|n IH]; intros captures; cbn [open_members]; [by apply owns_ret|].
  eapply (owns_bind K _ _ _ (λ r, match r with ROk l => live_fds (captures ++ [l]) | _ => ∅ end));
    [|intros live; apply IH|done..].
  eapply owns_dropping; [apply releases_all|].
  eapply owns_ext; [rewrite <- (left_id_L ∅ (⊎) (live_fds captures)); apply owns_frame, owns_open_fanout|].
  intros [live|e|]; simpl; [|done..]. unfold live_fds. rewrite map_app, list_to_set_disj_app. simpl.
  multiset_solver.
Qed.

Lemma open_members_length n g prog : ∀ captures h,
  match (open_members K n g prog captures h).1 with
  | ROk lives => length lives = (length captures + n)%nat
  | _ => True
  end.
Proof.
  induction n as [|n IH]; intros captures h; cbn [open_members]; [simpl; lia|].
  unfold mbind, IO_bind. destruct (dropping _ _ h) as [[live|e|] h1]; [|done..].
  specialize (IH (captures ++ [live]) h1). case_match; [|done..]. rewrite IH, length_app. simpl. lia.
Qed.

(** * Captures *)

Definition capture_fd (c : Capture) : Z := match c with CLive l => ll_fd l | CFile fd _ => fd end.

Definition owned (r : Result Capture) : gmultiset Z :=
  match r with ROk c => {[+ capture_fd c +]} | _ => ∅ end.

Definition owned_all (r : Result (list Capture)) : gmultiset Z :=
  match r with ROk l => list_to_set_disj (map capture_fd l) | _ => ∅ end.

Lemma owns_into_captures n g : owns K ∅ (into_captures K n g) owned_all.
Proof.
  unfold into_captures. case_decide; [by apply owns_throw|]. owns_step (owns_query _ _).
  owns_step (owns_lift K ∅ _ (λ _, ∅) eq_refl). owns_step (owns_open_members _ _ _ []).
  apply owns_ret. simpl. by rewrite map_map.
Qed.

Lemma owns_nonblocking l : owns K {[+ ll_fd l +]} (nonblocking_live K l) owned_live.
Proof.
  unfold nonblocking_live, linux_set_nonblocking. eapply owns_dropping; [apply releases_live|].
  eapply (owns_bind _ _ _ _ (λ _, {[+ ll_fd l +]}));
    [|intros ?; by apply owns_ret|by (intros; multiset_solver)|by multiset_solver].
  owns_quiet. quiet_call.
Qed.

Lemma owns_open_live b iface : owns K ∅ (open_live K b iface) owned.
Proof.
  unfold open_live. owns_step (owns_query _ _). owns_step (owns_lift K ∅ _ (λ _, ∅) eq_refl).
  eapply (owns_bind K _ _ _ owned_live); [by destruct (cb_ring b); apply owns_open_inner| |done..]. intros live.
  eapply (owns_bind K _ _ _ owned_live);
    [by destruct (cb_nonblocking b); [apply owns_nonblocking|apply owns_ret]| |done..].
  intros live'. by apply owns_ret.
Qed.

Lemma owns_capture_open b : owns K ∅ (capture_open K b) owned.
Proof.
  unfold capture_open. destruct (cb_source b) as [iface|path]; [apply owns_open_live|].
  unfold open_file. owns_step (owns_open_file K path). cbn [fresh_fd].
  eapply owns_dropping; [apply releases_close|]. owns_quiet.
  owns_step (owns_lift K _ _ (λ _, _) eq_refl). by apply owns_ret.
Qed.

Lemma releases_capture c : releases K (drop_capture K c) {[+ capture_fd c +]}.
Proof. destruct c; [apply releases_live|apply releases_close]. Qed.

Lemma into_captures_length n g h :
  match (into_captures K n g h).1 with ROk l => length l = n | _ => True end.
Proof.
  unfold into_captures. case_decide; [done|]. unfold mbind, IO_bind.
  destruct (query_link_type _ _ h) as [[lt|e|] h1]; [|done..].
  destruct (lift _ h1) as [[prog|e|] h2]; [|done..].
  pose proof (open_members_length n g prog [] h2) as Hl.
  destruct (open_members _ _ _ _ _ h2) as [[lives|e|] h3]; [|done..].
  unfold mret, IO_ret. cbn [fst] in *. by rewrite length_map.
Qed.
End captures.

(** C14: opening captures on Linux leaks no descriptor, whatever calls fail, and
    closes none that is not its own. Let [s] be open before: after opening a
    capture, of an interface or of a file, [s] and the descriptor of the capture
    are open; after opening a fan-out group, [s] and the descriptors of its [n]
    members; after an error, [s]. Dropping a capture closes its descriptor. *)
Theorem captures_own_descriptors `{PcapCrate} (K : Kernel) (b : CaptureBuilder) (n : nat)
    (g : FanoutGroup) (c : Capture) (h : history) (s : gmultiset Z) :
  (let '(r, h') := capture_open K b h in
   ∃ new, h' = new ++ h ∧
     track K h new s = Some (s ⊎ match r with ROk c => {[+ capture_fd c +]} | _ => ∅ end)) ∧
  (let '(r, h') := into_captures K n g h in
   ∃ new, h' = new ++ h ∧
     match r with
     | ROk l => length l = n ∧ track K h new s = Some (s ⊎ list_to_set_disj (map capture_fd l))
     | _ => track K h new s = Some s
     end) ∧
  ∃ new, drop_capture K c h = (ROk tt, new ++ h) ∧ track K h new (s ⊎ {[+ capture_fd c +]}) = Some s.
Proof.
  assert (E : s = s ⊎ ∅) by multiset_solver. split_and!; [| |apply releases_capture].
  - pose proof (owns_capture_open K b h s) as Ho. by rewrite <- E in Ho.
  - pose proof (owns_into_captures K n g h s) as Ho. pose proof (into_captures_length K n g h) as Hl.
    destruct (into_captures K n g h) as [[l|e|] h']; destruct Ho as (new & -> & Ho); exists new;
      simpl in Ho; rewrite <- !E in Ho; by repeat split.
Qed.
