(* ===== verification/MacLive.v ===== *)
(** Live capture and injection on macOS (pkttap's live/macos.rs and the helper of
    live/mod.rs): a device that is read in batches of frames, each behind a
    header of the kernel. The constants of the crate [libc] have their values on
    macOS. *)

From S2P Require Export Sys.

(** * Requests and links *)

Definition BIOCSETIF : Z := 0x8020426c.
Definition BIOCSETF : Z := 0x80104267.
Definition BIOCIMMEDIATE : Z := 0x80044270.
Definition BIOCPROMISC : Z := 0x20004269.
Definition BIOCGBLEN : Z := 0x40044266.
Definition BIOCGDLT : Z := 0x4004426a.
Definition BIOCGSTATS : Z := 0x4008426f.
Definition BIOCSHDRCMPLT : Z := 0x80044275.
Definition IFNAMSIZ : Z := 16.
Definition O_NONBLOCK : Z := 4.
Definition AF_LINK : Z := 18.

(** [dlt_to_link_type] (live/mod.rs) *)
Definition dlt_to_link_type (dlt : Z) : LinkType :=
  if dlt =? 1 then Ethernet else if dlt =? 101 then RawIp else if dlt =? 113 then LinuxSll else Ethernet.

(** * Frames *)

(** The header in front of a frame, 32 bytes with its padding. *)
Record BpfHdr := mk_bpf_hdr {
  bh_tstamp_sec : Z;
  bh_tstamp_usec : Z;
  bh_caplen : Z;
  bh_datalen : Z;
  bh_hdrlen : Z;
}.

Definition BPF_HDR_SIZE : Z := 32.

(** The [read_unaligned] of a header; the two times are read as unsigned words,
    as the casts of their uses take them. *)
Definition read_bpf_hdr (buf : list Z) (pos : Z) : BpfHdr :=
  mk_bpf_hdr (le_at 8 pos buf) (le_at 8 (pos + 8) buf) (le_at 4 (pos + 16) buf) (le_at 4 (pos + 20) buf)
    (le_at 2 (pos + 24) buf).

Definition word_align (n : Z) : Z := Z.ldiff (n + 3) 3.

Record MacMeta := mk_mac_meta {
  mm_start : Z;
  mm_end : Z;
  mm_ts_sec : Z;
  mm_ts_nsec : Z;
  mm_orig_len : Z;
}.

Record MacosLive := mk_macos_live {
  ml_fd : Z;
  ml_buf : list Z;
  ml_buf_filled : Z;
  ml_buf_pos : Z;
  ml_snaplen : Z;
  ml_link_type : LinkType;
}.

Definition set_pos (pos : Z) (l : MacosLive) : MacosLive :=
  mk_macos_live (ml_fd l) (ml_buf l) (ml_buf_filled l) pos (ml_snaplen l) (ml_link_type l).

(** A batch that has been read to the front of the buffer. *)
Definition set_batch (batch : list Z) (l : MacosLive) : MacosLive :=
  mk_macos_live (ml_fd l) (zput 0 batch (ml_buf l)) (zlen batch) 0 (ml_snaplen l) (ml_link_type l).

Section macos.
Context `{PcapErrors} (K : Kernel).

(** A product that does not fit in a [u32] panics. *)
Definition u32_mul (a b : Z) : Result Z := if a * b <=? u32_max then ROk (a * b) else RPanic.

Definition parse_bpf_frame (buf : list Z) (pos filled snaplen : Z) : Result (option (MacMeta * Z)) :=
  if filled <? pos + BPF_HDR_SIZE then ROk None
  else
    let hdr := read_bpf_hdr buf pos in
    let data_start := pos + bh_hdrlen hdr in
    let cap := Z.min (bh_caplen hdr) snaplen in
    let data_end := data_start + cap in
    if filled <? data_end then ROk None
    else
      let frame_len := bh_hdrlen hdr + bh_caplen hdr in
      let next_pos := pos + word_align frame_len in
      ts_nsec ← u32_mul (as_u32 (bh_tstamp_usec hdr)) 1000;
      ROk (Some (mk_mac_meta data_start data_end (bh_tstamp_sec hdr) ts_nsec (bh_datalen hdr), next_pos)).

Definition parse_next_frame (l : MacosLive) : Result (option MacMeta * MacosLive) :=
  parsed ← parse_bpf_frame (ml_buf l) (ml_buf_pos l) (ml_buf_filled l) (ml_snaplen l);
  match parsed with
  | Some (meta, next_pos) => ROk (Some meta, set_pos next_pos l)
  | None => ROk (None, l)
  end.

(** [&buf[start..end]], and the packet made of it *)
Definition mac_packet (l : MacosLive) (meta : MacMeta) : Result PacketRef :=
  if (mm_start meta <=? mm_end meta) && (mm_end meta <=? zlen (ml_buf l)) then
    PacketRef_new (zslice (mm_start meta) (mm_end meta - mm_start meta) (ml_buf l)) (mm_ts_sec meta)
      (mm_ts_nsec meta) (mm_orig_len meta) (ml_link_type l)
  else RPanic.

(** The next frame of the batch in hand, if there is one. *)
Definition next_in_batch (l : MacosLive) : Result (option PacketRef * MacosLive) :=
  if ml_buf_pos l <? ml_buf_filled l then
    '(meta, l) ← parse_next_frame l;
    match meta with
    | Some meta => pkt ← mac_packet l meta; ROk (Some pkt, l)
    | None => ROk (None, l)
    end
  else ROk (None, l).

(** The loop of [next_packet]. *)
Fixpoint mac_next_packet (n : nat) (l : MacosLive) (h : history) :
    option (Result (option PacketRef * MacosLive) * history) :=
  match n with
  | O => None
  | S n' =>
      match next_in_batch l with
      | ROk (Some pkt, l) => Some (ROk (Some pkt, l), h)
      | RErr e => Some (RErr e, h)
      | RPanic => Some (RPanic, h)
      | ROk (None, l) =>
          match sys K (ReadFd (ml_fd l) (zlen (ml_buf l))) h with
          | (ROk (inr batch), h) => mac_next_packet n' (set_batch batch l) h
          | (ROk (inl e), h) =>
              if decide (kind e = KInterrupted) then mac_next_packet n' l h
              else if decide (kind e = KWouldBlock) then Some (ROk (None, l), h)
              else Some (RErr (from_io e), h)
          | (RErr e, h) => Some (RErr e, h)
          | (RPanic, h) => Some (RPanic, h)
          end
      end
  end.

(** * Set-up *)

(** The first device of 256 that is not busy, from number [i] on. *)
Fixpoint open_bpf_from (count : nat) (i : Z) : IO Z :=
  match count with
  | O => throw (Platform "no available /dev/bpf device found")
  | S count' =>
      a ← sys K (OpenDevice ("/dev/bpf" ++ show_dec i)%string);
      match a with
      | inr fd => mret fd
      | inl e =>
          if decide (kind e = KBusy) then open_bpf_from count' (i + 1)
          else throw (Platform "no available /dev/bpf device found")
      end
  end.

Definition open_bpf_device : IO Z := open_bpf_from 256 0.

(** The bytes of a string, and [CString::new]: no byte may be zero. *)
Fixpoint string_bytes (s : string) : list Z :=
  match s with EmptyString => [] | String c s' => code c :: string_bytes s' end.

Definition bind_interface (fd : Z) (iface : string) : IO unit :=
  if bool_decide (0 ∈ string_bytes iface) then throw (Platform "invalid interface name")
  else call K (IoctlName fd BIOCSETIF (take (Z.to_nat IFNAMSIZ) (string_bytes iface ++ [0]))).

(** The answer of a request that may fail. *)
Definition ioctl_or (default fd request : Z) : IO Z :=
  a ← sys K (Ioctl fd request);
  mret (match a with inr v => v | inl _ => default end).

Definition device_link_type (fd : Z) : IO LinkType :=
  a ← sys K (Ioctl fd BIOCGDLT);
  mret (match a with inr dlt => dlt_to_link_type dlt | inl _ => Ethernet end).

Definition set_filter (fd : Z) (insns : list Bpf.Insn) : IO unit :=
  call K (IoctlFilter fd BIOCSETF (as_u32 (zlen insns)) insns).

Definition mac_open (iface : string) (filter : option Bpf.Program) (snaplen : Z) (promiscuous : bool)
    (timestamp_mode : TimestampMode) : IO MacosLive :=
  fd ← open_bpf_device;
  dropping (discard K (Close fd)) (
    call K (Ioctl fd BIOCIMMEDIATE);;
    bind_interface fd iface;;
    link_type ← device_link_type fd;
    (if promiscuous then _ ← call K (Ioctl fd BIOCPROMISC); mret tt else mret tt);;
    match filter with Some prog => set_filter fd (Bpf.instructions prog) | None => mret tt end;;
    kbuf_len ← ioctl_or 0 fd BIOCGBLEN;
    let buf_size := Z.max (Z.max kbuf_len snaplen) 65535 in
    mret (mk_macos_live fd (replicate (Z.to_nat buf_size) 0) 0 0 snaplen link_type)).

(** The counters of [BIOCGSTATS], which reading does not reset. *)
Definition mac_stats (l : MacosLive) : IO CaptureStats :=
  '(recv, drop) ← call K (GetStats (ml_fd l));
  mret (mk_stats recv drop 0).

Definition mac_set_nonblocking (nb : bool) (l : MacosLive) : IO unit :=
  flags ← call K (GetFl (ml_fd l));
  call K (SetFl (ml_fd l) (if nb then flags .| O_NONBLOCK else Z.ldiff flags O_NONBLOCK)).

(** * Injection *)

Record MacosInjector := mk_macos_injector { mi_fd : Z; mi_link_type : LinkType }.

(** The read filter of an injector rejects everything. *)
Definition reject_all : list Bpf.Insn := [Bpf.ret_k Bpf.BPF_DROP].

Definition mac_injector_open (iface : string) : IO MacosInjector :=
  fd ← open_bpf_device;
  dropping (discard K (Close fd)) (
    bind_interface fd iface;;
    call K (Ioctl fd BIOCSHDRCMPLT);;
    set_filter fd reject_all;;
    link_type ← device_link_type fd;
    mret (mk_macos_injector fd link_type)).

Fixpoint mac_send (n : nat) (i : MacosInjector) (frame : list Z) (h : history) :
    option (Result Z * history) :=
  match n with
  | O => None
  | S n' =>
      match sys K (WriteFd (mi_fd i) frame) h with
      | (ROk (inr sent), h) => Some (ROk sent, h)
      | (ROk (inl e), h) =>
          if decide (kind e = KInterrupted) then mac_send n' i frame h else Some (RErr (from_io e), h)
      | (RErr e, h) => Some (RErr e, h)
      | (RPanic, h) => Some (RPanic, h)
      end
  end.

(** * Interfaces *)

(** Both branches of the test of the interface's type give [Ethernet]. *)
Definition mac_query_link_type (iface : string) : IO LinkType :=
  call K Getifaddrs;; mret Ethernet.

Fixpoint unique_names (l : list ifaddr) (names : list string) : list string :=
  match l with
  | [] => names
  | ifa :: l' =>
      unique_names l' (if bool_decide (ia_name ifa ∈ names) then names else names ++ [ia_name ifa])
  end.

Definition mac_list_interfaces : IO (list string) :=
  l ← call K Getifaddrs;
  mret (unique_names l []).

Definition mac_default_interface : IO string :=
  names ← mac_list_interfaces;
  match List.find (λ name, match Text.strip_prefix "lo" name with Some _ => false | None => true end) names with
  | Some name => mret name
  | None => throw (Platform "no non-loopback interface found")
  end.
End macos.

(** * Batches as the kernel lays them out (the builder of the tests) *)

Record MacFrame := mk_mac_frame {
  mf_sec : Z;
  mf_usec : Z;
  mf_datalen : Z;
  mf_payload : list Z;
}.

Definition bpf_hdr_bytes (f : MacFrame) : list Z :=
  le_bytes 8 (mf_sec f) ++ le_bytes 8 (mf_usec f) ++ le_bytes 4 (as_u32 (zlen (mf_payload f)))
  ++ le_bytes 4 (mf_datalen f) ++ le_bytes 2 BPF_HDR_SIZE ++ le_bytes 6 0.

Definition unpadded (f : MacFrame) : list Z := bpf_hdr_bytes f ++ mf_payload f.

Definition frame_bytes (f : MacFrame) : list Z :=
  let n := BPF_HDR_SIZE + zlen (mf_payload f) in
  unpadded f ++ replicate (Z.to_nat (word_align n - n)) 0.
