(* ===== verification/MacSound.v ===== *)
(** What a batch of frames read from a macOS capture device delivers. *)

From S2P Require Export MacLive.

(** A frame as a device hands it over: behind the fields of its header the device
    puts what it likes, so that the payload is aligned, and says in [bh_hdrlen]
    where the payload begins; between the payload and the next frame is a gap. *)
Record BpfFrame := mk_bpf_frame {
  bf_frame : MacFrame;
  bf_padding : list Z;
  bf_gap : list Z;
}.

Definition payload (f : BpfFrame) : list Z := mf_payload (bf_frame f).

(** The 26 bytes of the fields, and the padding. *)
Definition hdr_len (f : BpfFrame) : Z := 26 + zlen (bf_padding f).
Definition frame_len (f : BpfFrame) : Z := hdr_len f + zlen (payload f).

Definition fields_bytes (f : BpfFrame) : list Z :=
  le_bytes 8 (mf_sec (bf_frame f)) ++ le_bytes 8 (mf_usec (bf_frame f)) ++ le_bytes 4 (zlen (payload f))
  ++ le_bytes 4 (mf_datalen (bf_frame f)) ++ le_bytes 2 (hdr_len f).

Definition ungapped (f : BpfFrame) : list Z := fields_bytes f ++ bf_padding f ++ payload f.

Definition wf_mac_frame (f : BpfFrame) : Prop :=
  0 ≤ mf_sec (bf_frame f) < 2 ^ 63 ∧ 0 ≤ mf_usec (bf_frame f) < 1000000 ∧
  is_u32 (mf_datalen (bf_frame f)) ∧ is_u32 (zlen (payload f)) ∧ hdr_len f < 2 ^ 16 ∧
  32 ≤ frame_len f.

Definition gap_len (f : BpfFrame) : Z := word_align (frame_len f) - frame_len f.

(** The frames of a batch, aligned to words; the last one may end before that. *)
Fixpoint wf_batch (frames : list BpfFrame) : Prop :=
  match frames with
  | [] => True
  | [f] => wf_mac_frame f ∧ zlen (bf_gap f) ≤ gap_len f
  | f :: frames' => wf_mac_frame f ∧ zlen (bf_gap f) = gap_len f ∧ wf_batch frames'
  end.

Definition lay (frames : list BpfFrame) : list Z :=
  concat (map (λ f, ungapped f ++ bf_gap f) frames).

Lemma word_align_range n : n ≤ word_align n < n + 4.
Proof.
  assert (E : word_align n = (n + 3) / 4 * 4).
  { unfold word_align. change (Z.ldiff (n + 3) 3) with (Z.ldiff (n + 3) (Z.ones 2)).
    by rewrite Z.ldiff_ones_r, Z.shiftl_mul_pow2, Z.shiftr_div_pow2 by lia. }
  rewrite E. pose proof (Z.div_mod (n + 3) 4 ltac:(lia)).
  pose proof (Z.mod_pos_bound (n + 3) 4 ltac:(lia)). lia.
Qed.

Lemma zlen_fields f : zlen (fields_bytes f) = 26.
Proof. unfold fields_bytes. by rewrite !zlen_app, !zlen_le_bytes. Qed.

Lemma zlen_ungapped f : zlen (ungapped f) = frame_len f.
Proof. unfold ungapped, frame_len, hdr_len. rewrite !zlen_app, zlen_fields. lia. Qed.

(** The frames of the builder of the tests are such frames: their headers are as
    long as the structure, 32 bytes. *)
Definition built (f : MacFrame) : BpfFrame :=
  let n := BPF_HDR_SIZE + zlen (mf_payload f) in
  mk_bpf_frame f (le_bytes 6 0) (replicate (Z.to_nat (word_align n - n)) 0).

Lemma frame_bytes_built f :
  is_u32 (zlen (mf_payload f)) → frame_bytes f = ungapped (built f) ++ bf_gap (built f).
Proof.
  intros Hn. unfold frame_bytes, unpadded, bpf_hdr_bytes, ungapped, fields_bytes, built, payload, as_u32.
  cbn [bf_frame bf_padding bf_gap]. rewrite Z.mod_small by done. by rewrite <- !(assoc_L (++)).
Qed.

(** * One frame *)

(** The field of [k] bytes behind the bytes [a] of the frame that [E] locates. *)
Ltac field_at k a E :=
  lazymatch type of E with
  | zslice ?pos ?n ?l = _ =>
      eapply (le_at_inside pos n k _ _ a); [lia|lia|exact E|reflexivity|..];
      rewrite ?zlen_app, ?zlen_le_bytes; unfold frame_len, hdr_len in *;
      first [reflexivity | lia | simpl; lia]
  end.

Section frame.
Context `{PcapErrors}.

(** A frame whose bytes are at [pos] in the buffer. *)
Lemma parse_frame_at buf pos filled snaplen f :
  wf_mac_frame f → 0 ≤ pos → pos + frame_len f ≤ filled → filled ≤ zlen buf →
  zslice pos (frame_len f) buf = ungapped f →
  parse_bpf_frame buf pos filled snaplen =
  ROk (Some (mk_mac_meta (pos + hdr_len f) (pos + hdr_len f + Z.min (zlen (payload f)) snaplen)
               (mf_sec (bf_frame f)) (mf_usec (bf_frame f) * 1000) (mf_datalen (bf_frame f)),
             pos + word_align (frame_len f))).
Proof.
  intros (Hs & Hu & Hd & Hn & Hh & H32) Hp Hf Hb E. pose proof (zlen_nonneg (payload f)) as H0.
  pose proof (zlen_nonneg (bf_padding f)) as H1.
  unfold is_u32 in *. unfold ungapped, fields_bytes in E. rewrite <- !(assoc_L (++)) in E.
  assert (Hhdr : read_bpf_hdr buf pos =
    mk_bpf_hdr (mf_sec (bf_frame f)) (mf_usec (bf_frame f)) (zlen (payload f)) (mf_datalen (bf_frame f))
      (hdr_len f)).
  { unfold read_bpf_hdr. f_equal.
    - rewrite <- (Z.add_0_r pos). field_at 8%nat (@nil Z) E.
    - field_at 8%nat (le_bytes 8 (mf_sec (bf_frame f))) E.
    - rewrite (assoc_L (++)) in E.
      field_at 4%nat (le_bytes 8 (mf_sec (bf_frame f)) ++ le_bytes 8 (mf_usec (bf_frame f))) E.
    - rewrite 2!(assoc_L (++)) in E.
      field_at 4%nat ((le_bytes 8 (mf_sec (bf_frame f)) ++ le_bytes 8 (mf_usec (bf_frame f)))
                        ++ le_bytes 4 (zlen (payload f))) E.
    - rewrite 3!(assoc_L (++)) in E.
      field_at 2%nat (((le_bytes 8 (mf_sec (bf_frame f)) ++ le_bytes 8 (mf_usec (bf_frame f)))
                        ++ le_bytes 4 (zlen (payload f))) ++ le_bytes 4 (mf_datalen (bf_frame f))) E. }
  unfold parse_bpf_frame. rewrite Hhdr. unfold BPF_HDR_SIZE in *. unfold frame_len in *.
  cbn [bh_tstamp_sec bh_tstamp_usec bh_caplen bh_datalen bh_hdrlen].
  rewrite !(proj2 (Z.ltb_ge _ _)) by lia. unfold u32_mul, u32_max, as_u32.
  rewrite (Z.mod_small (mf_usec _)) by lia.
  rewrite (proj2 (Z.leb_le _ _)) by lia. done.
Qed.

(** The packet a frame is delivered as. *)
Definition mac_delivered (snaplen : Z) (link_type : LinkType) (f : BpfFrame) : PacketRef :=
  mk_packet_ref (take (Z.to_nat snaplen) (payload f))
    (mk_time (mf_sec (bf_frame f)) (mf_usec (bf_frame f) * 1000)) (mf_datalen (bf_frame f)) link_type.

Lemma next_in_batch_at l f :
  wf_mac_frame f → 0 ≤ ml_snaplen l → 0 ≤ ml_buf_pos l →
  ml_buf_pos l + frame_len f ≤ ml_buf_filled l → ml_buf_filled l ≤ zlen (ml_buf l) →
  zslice (ml_buf_pos l) (frame_len f) (ml_buf l) = ungapped f →
  next_in_batch l = ROk (Some (mac_delivered (ml_snaplen l) (ml_link_type l) f),
                         set_pos (ml_buf_pos l + word_align (frame_len f)) l).
Proof.
  intros Hf Hs Hp Hfill Hb E. pose proof (zlen_nonneg (payload f)). pose proof (zlen_nonneg (bf_padding f)).
  assert (Hlen : frame_len f = hdr_len f + zlen (payload f)) by done.
  assert (Hh : hdr_len f = 26 + zlen (bf_padding f)) by done.
  unfold next_in_batch, parse_next_frame. rewrite (proj2 (Z.ltb_lt _ _)) by lia.
  rewrite (parse_frame_at _ _ _ _ f) by done. cbn [mbind Result_bind]. unfold mbind, Result_bind, mac_packet.
  cbn [mm_start mm_end mm_ts_sec mm_ts_nsec mm_orig_len ml_buf ml_link_type set_pos].
  rewrite !(proj2 (Z.leb_le _ _)) by lia. cbn [andb].
  destruct Hf as (Hsec & Hus & _).
  assert (Hns : 0 ≤ mf_usec (bf_frame f) * 1000 < NANOS_PER_SEC) by (unfold NANOS_PER_SEC; lia).
  rewrite PacketRef_new_ok by (rewrite ?(Z.div_small _ _ Hns); lia).
  rewrite (Z.div_small _ _ Hns), (Z.mod_small _ _ Hns), Z.add_0_r.
  unfold mac_delivered. do 4 f_equal.
  replace (_ - _) with (Z.min (zlen (payload f)) (ml_snaplen l)) by lia.
  rewrite <- (zslice_zslice (ml_buf_pos l) (frame_len f)), E by lia. unfold ungapped.
  rewrite (assoc_L (++)), zslice_app_r; rewrite ?zlen_app, ?zlen_fields; try lia.
  replace (hdr_len f - _) with 0 by lia.
  unfold zslice. rewrite drop_0. destruct (Z.le_ge_cases (zlen (payload f)) (ml_snaplen l)).
  - rewrite !take_ge by (unfold zlen in *; lia). done.
  - f_equal. lia.
Qed.

(** * A batch *)

(** The packets of [k] calls of [next_packet], if each of them gives one. *)
Fixpoint mac_take (K : Kernel) (k : nat) (l : MacosLive) (h : history) :
    option (list PacketRef * MacosLive * history) :=
  match k with
  | O => Some ([], l, h)
  | S k' =>
      match mac_next_packet K 2 l h with
      | Some (ROk (Some pkt, l), h) =>
          '(pkts, l, h) ← mac_take K k' l h; Some (pkt :: pkts, l, h)
      | _ => None
      end
  end.

Lemma mac_next_in_batch K n l h pkt l' :
  next_in_batch l = ROk (Some pkt, l') → mac_next_packet K (S n) l h = Some (ROk (Some pkt, l'), h).
Proof. intros E. cbn [mac_next_packet]. by rewrite E. Qed.

(** The frames of the batch in hand, from the current position on. *)
Definition in_hand (frames : list BpfFrame) (l : MacosLive) : Prop :=
  0 ≤ ml_buf_pos l ∧ ml_buf_pos l + zlen (lay frames) = ml_buf_filled l ∧
  ml_buf_filled l ≤ zlen (ml_buf l) ∧
  zslice (ml_buf_pos l) (zlen (lay frames)) (ml_buf l) = lay frames.

Lemma wf_batch_head f frames :
  wf_batch (f :: frames) →
  wf_mac_frame f ∧ wf_batch frames ∧
  match frames with [] => zlen (bf_gap f) ≤ gap_len f | _ => zlen (bf_gap f) = gap_len f end.
Proof. destruct frames; simpl; tauto. Qed.

Lemma in_hand_step f frames l :
  wf_batch (f :: frames) → 0 ≤ ml_snaplen l → in_hand (f :: frames) l →
  next_in_batch l = ROk (Some (mac_delivered (ml_snaplen l) (ml_link_type l) f),
                         set_pos (ml_buf_pos l + word_align (frame_len f)) l) ∧
  match frames with
  | [] => ml_buf_filled l ≤ ml_buf_pos l + word_align (frame_len f)
  | _ => in_hand frames (set_pos (ml_buf_pos l + word_align (frame_len f)) l)
  end.
Proof.
  intros (Hf & _ & Hgap)%wf_batch_head Hs (Hp & Hfill & Hb & E).
  assert (El : lay (f :: frames) = ungapped f ++ bf_gap f ++ lay frames)
    by (unfold lay; simpl; by rewrite <- (assoc_L (++))).
  pose proof (word_align_range (frame_len f)) as Ha. pose proof (zlen_nonneg (bf_gap f)).
  pose proof (zlen_nonneg (lay frames)).
  assert (Hz : zlen (lay (f :: frames)) = frame_len f + (zlen (bf_gap f) + zlen (lay frames)))
    by (by rewrite El, !zlen_app, zlen_ungapped).
  assert (0 ≤ frame_len f) by (rewrite <- zlen_ungapped; apply zlen_nonneg). unfold gap_len in Hgap.
  split.
  - apply next_in_batch_at; try done; try lia.
    replace (ml_buf_pos l) with (ml_buf_pos l + 0) by lia.
    rewrite <- (zslice_zslice _ (zlen (lay (f :: frames)))), E, El by lia.
    rewrite zslice_app_l by (rewrite ?zlen_ungapped; lia).
    rewrite <- (zlen_ungapped f) at 1. apply zslice_all.
  - destruct frames as [|f' frames]; [change (zlen (lay [])) with 0 in *; lia|].
    unfold in_hand. cbn [set_pos ml_buf_pos ml_buf_filled ml_buf]. split_and!; [lia..|].
    rewrite <- (zslice_zslice (ml_buf_pos l) (zlen (lay (f :: f' :: frames)))), E, El by lia.
    rewrite (assoc_L (++)), zslice_app_r; rewrite ?zlen_app, ?zlen_ungapped; try lia.
    replace (_ - _) with 0 by lia. apply zslice_all.
Qed.

Lemma mac_take_batch K frames : ∀ l h,
  wf_batch frames → 0 ≤ ml_snaplen l → frames ≠ [] → in_hand frames l →
  ∃ l', mac_take K (length frames) l h =
          Some (map (mac_delivered (ml_snaplen l) (ml_link_type l)) frames, l', h) ∧
    ml_buf_filled l' ≤ ml_buf_pos l'.
Proof.
  induction frames as [|f frames IH]; intros l h Hwf Hs Hne Hin; [done|].
  destruct (in_hand_step f frames l Hwf Hs Hin) as [Hn Hrest].
  cbn [length mac_take]. rewrite (mac_next_in_batch K 1 l h _ _ Hn).
  destruct frames as [|f' frames]; [by eexists|]. apply wf_batch_head in Hwf as (_ & Hwf & _).
  destruct (IH (set_pos (ml_buf_pos l + word_align (frame_len f)) l) h Hwf Hs ltac:(done) Hrest)
    as (l' & Et & Hend). rewrite Et. by eexists.
Qed.

(** The first of them after a read. *)
Lemma mac_take_read (K : Kernel) frames l h :
  ml_buf_filled l ≤ ml_buf_pos l → wf_batch frames → 0 ≤ ml_snaplen l → frames ≠ [] →
  K h (ReadFd (ml_fd l) (zlen (ml_buf l))) = inr (lay frames) →
  zlen (lay frames) ≤ zlen (ml_buf l) →
  mac_take K (length frames) l h =
  mac_take K (length frames) (set_batch (lay frames) l)
    (mk_event (ReadFd (ml_fd l) (zlen (ml_buf l))) true :: h) ∧
  in_hand frames (set_batch (lay frames) l).
Proof.
  intros Hempty Hwf Hs Hne HK Hb. pose proof (zlen_nonneg (lay frames)).
  assert (Hin : in_hand frames (set_batch (lay frames) l)).
  { unfold in_hand, set_batch. cbn [ml_buf_pos ml_buf_filled ml_buf].
    rewrite zlen_zput by lia. split_and!; [lia..|]. by apply zslice_put_same. }
  split; [|done]. destruct frames as [|f frames]; [done|].
  destruct (in_hand_step f frames (set_batch (lay (f :: frames)) l) Hwf Hs Hin) as [Hn _].
  cbn [length mac_take]. cbn [mac_next_packet]. unfold next_in_batch at 1.
  rewrite (proj2 (Z.ltb_ge _ _)) by lia. unfold sys at 1. rewrite HK. by rewrite Hn.
Qed.
End frame.

(** C17: a batch of frames that a capture device hands over in one read is delivered
    packet by packet, in order, each with its bytes cut to the capture length, its
    time and its length on the wire, with no other call of the system: whatever
    the length of the frames' headers, which [bh_hdrlen] says, if a frame with its
    header has at least 32 bytes, and whether the last frame is padded to a word
    or not. Then the batch is used up, and the next call reads on. *)
Theorem mac_batch_delivered `{PcapErrors} (K : Kernel) (frames : list BpfFrame)
    (l : MacosLive) (h : history) :
  ml_buf_filled l ≤ ml_buf_pos l → wf_batch frames → 0 ≤ ml_snaplen l → frames ≠ [] →
  K h (ReadFd (ml_fd l) (zlen (ml_buf l))) = inr (lay frames) →
  zlen (lay frames) ≤ zlen (ml_buf l) →
  ∃ l', mac_take K (length frames) l h =
          Some (map (mac_delivered (ml_snaplen l) (ml_link_type l)) frames, l',
                mk_event (ReadFd (ml_fd l) (zlen (ml_buf l))) true :: h) ∧
    ml_buf_filled l' ≤ ml_buf_pos l'.
Proof.
  intros Hempty Hwf Hs Hne HK Hb.
  destruct (mac_take_read K frames l h Hempty Hwf Hs Hne HK Hb) as [-> Hin].
  exact (mac_take_batch K frames (set_batch _ l) _ Hwf Hs Hne Hin).
Qed.

(** Three frames in one batch: a header of 28 bytes and a payload longer than the
    capture length; one of the builder of the tests; and a header without
    padding, of a frame that ends the batch without a gap. *)
Definition mac_frames : list BpfFrame :=
  [mk_bpf_frame (mk_mac_frame 10 567000 5 [1; 2; 3; 4; 5]) [0xee; 0xee] [7; 7; 7];
   built (mk_mac_frame 20 0 3 [9; 8; 7]);
   mk_bpf_frame (mk_mac_frame 30 1 60 [1; 1; 2; 3; 5; 8; 13]) [] []].

Definition mac_kernel : Kernel := λ h c,
  match c return io_error + reply c with
  | ReadFd _ _ => inr (lay mac_frames)
  | _ => inl (mk_io_error KOther "unexpected")
  end.

Definition mac_sample : MacosLive := mk_macos_live 3 (replicate 128 0) 0 0 4 Ethernet.

Lemma mac_batch_delivered_witness :
  ∃ l', mac_take (H:=no_pcap) mac_kernel 3 mac_sample [] =
    Some ([mk_packet_ref [1; 2; 3; 4] (mk_time 10 567000000) 5 Ethernet;
           mk_packet_ref [9; 8; 7] (mk_time 20 0) 3 Ethernet;
           mk_packet_ref [1; 1; 2; 3] (mk_time 30 1000) 60 Ethernet], l',
          [mk_event (ReadFd 3 128) true]) ∧
    ml_buf_filled l' ≤ ml_buf_pos l'.
Proof.
  apply (mac_batch_delivered (H:=no_pcap) mac_kernel mac_frames mac_sample []);
    [done| |done|done|reflexivity|by vm_compute].
  by repeat split; vm_compute.
Defined.
