(* ===== verification/WindowsLive.v ===== *)
(** Live capture and injection on Windows (pkttap's live/windows.rs), through a
    packet library that is loaded when it is first used. Lower case in Unicode is
    an argument, as the tables of the standard library are not modelled. *)

From S2P Require Export MacLive.

Record WindowsLive := mk_windows_live {
  wl_handle : Z;
  wl_snaplen : Z;
  wl_link_type : LinkType;
  wl_nonblocking : bool;
}.

Record WindowsInjector := mk_windows_injector { wi_handle : Z; wi_buf : list Z; wi_link_type : LinkType }.

(** [x as u64] and [x as u32] of an [i32] *)
Definition i32_as_u64 (x : Z) : Z := x mod 2 ^ 64.
Definition i32_as_u32 (x : Z) : Z := x mod 2 ^ 32.
Definition i32_max : Z := 2 ^ 31 - 1.

Section windows.
Context `{PcapErrors} (K : Kernel) (to_lowercase : string → string).

(** The message of the library that could not be loaded, if so. *)
Context (load_error : option string).

Definition npcap : Result unit :=
  match load_error with
  | Some e => RErr (Platform ("Npcap not available: " ++ e))
  | None => ROk tt
  end.

(** A call of the library; its error carries the name of the function. *)
Definition pcap_call (c : syscall) (name : string) : IO (reply c) :=
  a ← sys K c;
  match a with
  | inl e => throw (Platform (name ++ " failed: " ++ io_text e))
  | inr r => mret r
  end.

(** * Devices *)

Definition name_of (dev : pcap_if) : string := unwrap_or ""%string (pi_name dev).
Definition description_of (dev : pcap_if) : string := unwrap_or ""%string (pi_description dev).

Fixpoint find_device (alldevs : list pcap_if) (iface_lower : string) : option string :=
  match alldevs with
  | [] => None
  | dev :: alldevs' =>
      if String.eqb (to_lowercase (description_of dev)) iface_lower
         || String.eqb (to_lowercase (name_of dev)) iface_lower then Some (name_of dev)
      else find_device alldevs' iface_lower
  end.

Definition is_device_path (iface : string) : bool :=
  match Text.strip_prefix "\Device\" iface, Text.strip_prefix "\\Device\" iface with
  | None, None => false
  | _, _ => true
  end.

Definition resolve_device_name (alldevs : list pcap_if) (iface : string) : option string :=
  if is_device_path iface then Some iface else find_device alldevs (to_lowercase iface).

Definition friendly_name (dev : pcap_if) : string :=
  match pi_description dev, pi_name dev with
  | Some d, _ => d
  | None, Some n => n
  | None, None => ""
  end.

(** The devices, still to be freed, and their friendly names. *)
Definition alldevs_to_vec : IO (list pcap_if * list string) :=
  alldevs ← pcap_call FindAllDevs "pcap_findalldevs";
  mret (alldevs, List.filter (λ n, negb (String.eqb n "")) (map friendly_name alldevs)).

(** The name of the device of an interface, which must hold no zero byte. *)
Definition device_of (iface : string) : IO string :=
  '(alldevs, _) ← alldevs_to_vec;
  discard K FreeAllDevs;;
  match resolve_device_name alldevs iface with
  | None => throw (Platform ("interface not found: " ++ iface))
  | Some name =>
      if bool_decide (0 ∈ string_bytes name) then throw (Platform "invalid interface name") else mret name
  end.

Definition open_device (iface : string) (snaplen : Z) (promiscuous : bool) : IO Z :=
  device ← device_of iface;
  pcap_call (PcapOpenLive device snaplen promiscuous) "pcap_open_live".

Definition win_set_filter (handle : Z) (insns : list Bpf.Insn) : IO unit :=
  pcap_call (PcapSetFilter handle (as_u32 (zlen insns)) insns) "pcap_setfilter".

(** [pcap_datalink] has no error of its own. *)
Definition win_datalink (handle : Z) : IO LinkType :=
  dlt ← sys K (PcapDatalink handle);
  mret (dlt_to_link_type (as_u32 (match dlt with inr z => z | inl _ => -1 end))).

Definition with_temp_handle {A} (device : string) (f : Z → IO A) : IO A :=
  handle ← pcap_call (PcapOpenLive device 65535 false) "pcap_open_live";
  a ← f handle;
  discard K (PcapClose handle);;
  mret a.

(** * Capture *)

Definition win_open (iface : string) (filter : option Bpf.Program) (snaplen : Z) (promiscuous : bool)
    (timestamp_mode : TimestampMode) : IO WindowsLive :=
  lift npcap;;
  handle ← open_device iface snaplen promiscuous;
  link_type ← win_datalink handle;
  match filter with
  | Some prog => dropping (discard K (PcapClose handle)) (win_set_filter handle (Bpf.instructions prog))
  | None => mret tt
  end;;
  mret (mk_windows_live handle snaplen link_type false).

Definition win_stats (l : WindowsLive) : IO CaptureStats :=
  lift npcap;;
  '(recv, drop, ifdrop) ← pcap_call (PcapStats (wl_handle l)) "pcap_stats";
  mret (mk_stats recv drop ifdrop).

Definition win_set_nonblocking (nb : bool) (l : WindowsLive) : IO WindowsLive :=
  lift npcap;;
  pcap_call (PcapSetNonblock (wl_handle l) nb) "pcap_setnonblock";;
  mret (mk_windows_live (wl_handle l) (wl_snaplen l) (wl_link_type l) nb).

(** A packet of the library's buffer: [from_raw_parts] of the captured length
    needs as many bytes. *)
Definition win_packet (l : WindowsLive) (hdr : PcapPkthdr) (data : list Z) : Result PacketRef :=
  let cap := Z.min (ph_caplen hdr) (wl_snaplen l) in
  data ← slice_to cap data;
  ts_nsec ← u32_mul (i32_as_u32 (ph_tv_usec hdr)) 1000;
  PacketRef_new data (i32_as_u64 (ph_tv_sec hdr)) ts_nsec (ph_len hdr) (wl_link_type l).

Fixpoint win_next_loop (n : nat) (l : WindowsLive) (h : history) :
    option (Result (option PacketRef) * history) :=
  match n with
  | O => None
  | S n' =>
      match sys K (PcapNextEx (wl_handle l)) h with
      | (ROk (inr (Some (hdr, data))), h) => Some (Some <$> win_packet l hdr data, h)
      | (ROk (inr None), h) => if wl_nonblocking l then Some (ROk None, h) else win_next_loop n' l h
      | (ROk (inl e), h) => Some (RErr (Platform ("pcap_next_ex failed: " ++ io_text e)), h)
      | (RErr e, h) => Some (RErr e, h)
      | (RPanic, h) => Some (RPanic, h)
      end
  end.

Definition win_next_packet (n : nat) (l : WindowsLive) (h : history) :
    option (Result (option PacketRef) * history) :=
  match npcap with
  | ROk _ => win_next_loop n l h
  | RErr e => Some (RErr e, h)
  | RPanic => Some (RPanic, h)
  end.

(** [Drop for WindowsLive] *)
Definition win_drop (l : WindowsLive) : IO unit :=
  match npcap with ROk _ => discard K (PcapClose (wl_handle l)) | _ => mret tt end.

(** * Injection *)

Definition win_injector_open (iface : string) : IO WindowsInjector :=
  lift npcap;;
  handle ← open_device iface 65535 false;
  dropping (discard K (PcapClose handle)) (win_set_filter handle reject_all);;
  link_type ← win_datalink handle;
  mret (mk_windows_injector handle [] link_type).

(** The frame is copied into the injector's buffer, which the library may write
    to; it is the buffer that is sent. *)
Definition win_send (i : WindowsInjector) (frame : list Z) : IO (Z * WindowsInjector) :=
  if i32_max <? zlen frame then throw (Platform ("frame too large: " ++ show_dec (zlen frame) ++ " bytes"))
  else
    lift npcap;;
    pcap_call (PcapSendPacket (wi_handle i) frame (zlen frame)) "pcap_sendpacket";;
    mret (zlen frame, mk_windows_injector (wi_handle i) frame (wi_link_type i)).

(** * Interfaces *)

Definition win_query_link_type (iface : string) : IO LinkType :=
  lift npcap;;
  device ← device_of iface;
  with_temp_handle device win_datalink.

Definition win_list_interfaces : IO (list string) :=
  lift npcap;;
  '(_, names) ← alldevs_to_vec;
  discard K FreeAllDevs;;
  mret names.

Definition win_default_interface : IO string :=
  names ← win_list_interfaces;
  match names with
  | name :: _ => mret name
  | [] => throw (Platform "no interfaces found")
  end.

(** * A blocking read waits for a packet *)

(** However often the library's own time-out passes, the next packet is given;
    without blocking, the first time-out already is the answer. *)
Lemma win_next_packet_waits j : ∀ n l h hdr data,
  (j < n)%nat → wl_nonblocking l = false →
  let c := PcapNextEx (wl_handle l) in
  (∀ i, (i < j)%nat → K (Nat.iter i (cons (mk_event c true)) h) c = inr None) →
  K (Nat.iter j (cons (mk_event c true)) h) c = inr (Some (hdr, data)) →
  win_next_loop n l h =
  Some (Some <$> win_packet l hdr data, Nat.iter (S j) (cons (mk_event c true)) h).
Proof.
  induction j as [|j IH]; intros n l h hdr data Hn Hb c Hi Hc; (destruct n as [|n]; [lia|]);
    cbn [win_next_loop]; unfold sys.
  - cbn [Nat.iter nat_rect] in Hc. fold c. by rewrite Hc.
  - pose proof (Hi 0%nat ltac:(lia)) as E. cbn [Nat.iter nat_rect] in E. fold c. rewrite E, Hb.
    rewrite (IH n l (mk_event c true :: h) hdr data); [|lia|done| |].
    + by rewrite <- Nat.iter_succ_r.
    + intros i Hij. rewrite <- Nat.iter_succ_r. apply Hi. lia.
    + by rewrite <- Nat.iter_succ_r.
Qed.

Lemma win_next_packet_polls n l h :
  wl_nonblocking l = true → K h (PcapNextEx (wl_handle l)) = inr None →
  win_next_loop (S n) l h = Some (ROk None, mk_event (PcapNextEx (wl_handle l)) true :: h).
Proof. intros Hb E. cbn [win_next_loop]. unfold sys. by rewrite E, Hb. Qed.
End windows.
