(* ===== verification/Defects.v ===== *)
(** Behaviours of the compiler that differ from what it means to do, each shown
    by a program, a packet and the meaning of the expression. *)

From S2P Require Export CompileSound.

(** Ethernet frames: a header with the given bytes behind the addresses. *)
Definition frame (l : list Z) : list Z := replicate 12 0 ++ l ++ replicate 64 0.

(** [mpls 5] accepts an MPLS unicast packet with label 7: the jump taken on
    the unicast ethertype is left open as a success, so that it passes over the
    test of the label. *)
Theorem mpls_label_ignored :
  let e := Prim (PMpls (Some 5)) in
  let pkt := frame [0x88; 0x47; 0; 0; 0x71; 64] in
  ∃ p, compile e Ethernet = Ok p ∧ matches p pkt = true ∧ sem Ethernet pkt 0 e = false.
Proof. by eexists; split; [vm_compute; reflexivity|split; vm_compute]. Qed.

(** [vlan and vlan] accepts a frame with a single VLAN tag: the second test
    is elided, because the ethertype of the outer header is known to be 0x8100. *)
Theorem vlan_vlan_elided :
  let e := And (Prim (PVlan None)) (Prim (PVlan None)) in
  let pkt := frame [0x81; 0x00; 0; 1; 0x08; 0x00] in
  ∃ p, compile e Ethernet = Ok p ∧ matches p pkt = true ∧ sem Ethernet pkt 0 e = false.
Proof. by eexists; split; [vm_compute; reflexivity|split; vm_compute]. Qed.

(** [(vlan 1 and tcp) or (vlan 2 and tcp)] drops a TCP packet with tag 1: the
    protocol test common to both arms is hoisted in front of them, where it
    looks at the header that is not behind the tag. *)
Theorem or_hoist_ignores_vlan :
  let e := Or (And (Prim (PVlan (Some 1))) (Prim (PProto Tcp)))
              (And (Prim (PVlan (Some 2))) (Prim (PProto Tcp))) in
  let pkt := frame [0x81; 0x00; 0; 1; 0x08; 0x00; 0x45; 0; 0; 40; 0; 0; 0; 0; 64; 6] in
  ∃ p, compile e Ethernet = Ok p ∧ matches p pkt = false ∧ sem Ethernet pkt 0 e = true.
Proof. by eexists; split; [vm_compute; reflexivity|split; vm_compute]. Qed.

(** on RawIp captures, a raw link-layer access compared with a constant is
    rejected, but compared with another access it compiles. *)
Theorem raw_access_unchecked :
  let ba rhs := Prim (PByteAccess (mk_byte_access Raw 0 Byte [] Eq_ rhs)) in
  (∃ msg, compile (ba (Const 1)) RawIp = Err (CodegenError msg)) ∧
  (∃ p, compile (ba (Load_ (mk_byte_load Raw 1 Byte))) RawIp = Ok p).
Proof. split; eexists; vm_compute; reflexivity. Qed.
