(* ===== verification/EbpfDefects.v ===== *)
(** Behaviours of the eBPF compiler and of the parser that differ from what
    they mean to do, each shown on a filter string and a packet. *)

From S2P Require EbpfCodegen EbpfSem.
From S2P Require Export EbpfVm Lib.

(** The verdict of a filter for the extended target on an Ethernet frame. *)
Definition xdp_verdict (filter : string) (pkt : list Z) : option (R Verdict) :=
  match compile filter Ethernet Extended with
  | Ok (PExtended p) => Some (run_ebpf (Ebpf.insns p) pkt Little)
  | _ => None
  end.

Definition classic_verdict (filter : string) (pkt : list Z) : option bool :=
  match compile filter Ethernet Classic with
  | Ok (PClassic p) => Some (matches p pkt)
  | _ => None
  end.

(** A TCP packet from 192.168.1.1. *)
Definition tcp_packet : list Z :=
  replicate 12 0 ++ [0x08; 0; 0x45; 0; 0; 40; 0; 0; 0; 0; 64; 6; 0; 0; 192; 168; 1; 1; 10; 0; 0; 1;
                     0; 80; 0; 80] ++ replicate 20 0.

(** An immediate with its top bit set is extended to 64 bits, which no 32-bit
    value equals. *)
Lemma jne_high_taken regs k v pc :
  2 ^ 31 ≤ k < 2 ^ 32 → is_u32 v → rd regs R4 pc = inl v →
  exec_cond regs (jne_imm R4 (EbpfCodegen.as_i32 k) 0) false BPF_JNE pc = inl true.
Proof.
  intros Hk Hv E. unfold exec_cond. change (Ebpf.dst (jne_imm R4 _ 0)) with R4. rewrite E.
  assert (Ei : EbpfCodegen.as_i32 k = k - 2 ^ 32).
  { unfold EbpfCodegen.as_i32, signed. rewrite Z.mod_small by lia.
    by rewrite (proj2 (Z.ltb_ge _ _)) by lia. }
  change (negb (_ =? 0)) with false. change (Ebpf.imm (jne_imm R4 ?i 0)) with i.
  rewrite Ei. unfold mbind, R_bind, mret, R_ret, jump_taken, as_u64. simpl (BPF_JNE =? _).
  cbn beta iota zeta. f_equal. apply negb_true_iff, Z.eqb_neq. unfold is_u32 in Hv.
  rewrite (Z.mod_small v) by lia. Z.div_mod_to_equations. lia.
Qed.

(** on the extended target [host 192.168.1.1] drops the packets it describes,
    which the classic program accepts: the address is compared by a 64-bit jump
    with its sign-extended immediate. *)
Theorem ebpf_high_address_never_matches :
  xdp_verdict "host 192.168.1.1" tcp_packet = Some (inl NoMatch) ∧
  xdp_verdict "host 10.0.0.1" tcp_packet = Some (inl Match) ∧
  classic_verdict "host 192.168.1.1" tcp_packet = Some true.
Proof. split_and!; vm_compute; reflexivity. Qed.

(** an eBPF byte access beyond 32767 is compiled to a load from a truncated,
    negative offset: the program faults on a packet long enough for it. *)
Theorem ebpf_offset_truncated :
  xdp_verdict "ether[40000] = 0" (replicate (Z.to_nat 40001) 0) =
    Some (inr (OutOfBounds 5 (PKT_BASE - 25536) 1)).
Proof. vm_compute. reflexivity. Qed.

(** the largest offset the parser admits makes the compiler for the extended
    target panic (an [i32] overflow), on a filter the classic target compiles. *)
Theorem ebpf_offset_overflow_panics :
  compile "tcp[2147483647] = 1" Ethernet Extended = Panic ∧
  ∃ p, compile "tcp[2147483647] = 1" Ethernet Classic = Ok (PClassic p).
Proof. split; [vm_compute; reflexivity|]. eexists. vm_compute. reflexivity. Qed.

(** a failed bounds check does not drop the packet under a negation: on a
    packet too short for the byte, both the access and its negation are
    decided, where the classic program drops the packet both times. *)
Theorem ebpf_not_accepts_short :
  xdp_verdict "ether[100] = 1" tcp_packet = Some (inl NoMatch) ∧
  xdp_verdict "not ether[100] = 1" tcp_packet = Some (inl Match) ∧
  classic_verdict "not ether[100] = 1" tcp_packet = Some false.
Proof. split_and!; vm_compute; reflexivity. Qed.

(** a shift by 32 is compiled to an instruction that the machine rejects: the
    program faults, where the classic one takes the count modulo 32. *)
Theorem ebpf_shift_faults :
  xdp_verdict "ether[0] << 32 = 0" tcp_packet = Some (inr (BadShift 6)) ∧
  classic_verdict "ether[0] << 32 = 0" tcp_packet = Some true.
Proof. split; vm_compute; reflexivity. Qed.

(** An IPv4 packet to 255.255.255.255, and a TCP packet over IPv6. *)
Definition broadcast_packet : list Z :=
  replicate 12 0 ++ [0x08; 0; 0x45; 0; 0; 40; 0; 0; 0; 0; 64; 6; 0; 0; 10; 0; 0; 1; 255; 255; 255; 255]
    ++ replicate 24 0.
Definition tcp6_packet : list Z :=
  replicate 12 0 ++ [0x86; 0xdd; 0x60; 0; 0; 0; 0; 20; 6; 64] ++ replicate 52 0.

(** on the extended target [ip broadcast] and [ip multicast] match nothing:
    their constants have the top bit set. *)
Theorem ebpf_broadcast_never_matches :
  xdp_verdict "ip broadcast" broadcast_packet = Some (inl NoMatch) ∧
  classic_verdict "ip broadcast" broadcast_packet = Some true ∧
  ∀ link pkt, Forall is_u8 pkt →
    EbpfSem.esem link pkt (Prim PIpBroadcast) = false ∧ EbpfSem.esem link pkt (Prim PIpMulticast) = false.
Proof.
  split; [vm_compute; reflexivity|]. split; [vm_compute; reflexivity|].
  intros link pkt Hpkt. cbn [EbpfSem.esem EbpfSem.prim_esem]. unfold EbpfSem.word_is.
  change (EbpfSem.imm_of 0xffffffff) with (2 ^ 64 - 1). change (EbpfSem.imm_of 0xe0000000) with (2 ^ 64 - 2 ^ 29).
  pose proof (w32_range pkt Hpkt (EbpfSem.net link + 16)) as Hw. unfold is_u32 in Hw.
  pose proof (land_range 32 (w32 pkt (EbpfSem.net link + 16)) 0xf0000000 ltac:(lia) Hw ltac:(lia)) as Hl.
  rewrite !(proj2 (Z.eqb_neq _ _)) by lia. by rewrite !andb_false_r.
Qed.

(** [tcp] tests both IP families on the extended target and IPv4 alone on the
    classic one. *)
Theorem targets_differ_on_ipv6 :
  xdp_verdict "tcp" tcp6_packet = Some (inl Match) ∧ classic_verdict "tcp" tcp6_packet = Some false.
Proof. split; vm_compute; reflexivity. Qed.

(** numbers too large for their field are cut, not rejected, behind [vlan],
    [proto] and [ether proto], although [ip proto] and [port] reject them. *)
Theorem parser_truncates :
  parse "vlan 65537" = Ok (Prim (PVlan (Some 1))) ∧
  parse "proto 300" = Ok (Prim (PProto (Num 44))) ∧
  parse "ether proto 67584" = Ok (Prim (PEtherProto 0x0800)) ∧
  (∃ msg, parse "ip proto 300" = Err (ParseError msg)) ∧
  (∃ msg, parse "port 65616" = Err (ParseError msg)).
Proof. split_and!; try eexists; vm_compute; reflexivity. Qed.

(** a direction swallows the operator behind it: [src and 10.0.0.1] is read
    as [src 10.0.0.1], and [src and or dst 10.0.0.1] as [src or dst 10.0.0.1]. *)
Theorem parser_direction_swallows_operator :
  parse "src and 10.0.0.1" = parse "src 10.0.0.1" ∧
  parse "src and or dst 10.0.0.1" = Ok (Prim (PHost (V4 0x0a000001) SrcOrDst)).
Proof. split; vm_compute; reflexivity. Qed.
